(* ===== verification/_CoqProject ===== *)
-Q . S2P
Prelude.v
Codec.v
Cbor.v
Message.v
Routing.v
Scheduler.v
Window.v
Symmetric.v
Encryption.v
Reliability.v
Session.v
Io.v
Split.v
Fragments.v
SecureConn.v
Auth.v
Wire.v
SplitConn.v
SessionTasks.v
Identity.v
Forwarding.v
Rendezvous.v
RelayServer.v
RelayClient.v
RelaySocket.v
RelayPath.v
Pool.v
MemoryPool.v
Admission.v
Input.v
Cursor.v
Capture.v
Float.v
Rounding.v
Pixels.v
Blit.v
Video.v
Encoder.v
Net.v
Cert.v
Keys.v
Audio.v
Poller.v
Client.v
Checker.v
IceSocket.v
Ice.v
StoreDir.v
SigningKeys.v
Text.v
Dxgi.v
CaptureThread.v
Startup.v
VideoPath.v
Endpoints.v
AudioPath.v
Telemetry.v
ControlClient.v
Picture.v
RemoteInput.v
ClipboardPath.v
Pointer.v
