(* ===== verification/Prelude.v ===== *)
(** * BLACKWING: a verification of the remote-desktop system

    BLACKWING is a remote-desktop system written in Rust.  A server captures,
    encodes and streams a desktop; a client shows it and sends input back.  A stack
    of protocol crates decides whether what arrives is what was sent, and who may
    send it; around it are the pipelines of video, audio, input and clipboard, the
    pools of buffers, and the two programs.  All source paths below are relative to
    [src/crates/].

    ** The program's parts, from the bottom up

    - _Frames_ ([bw-protocol/src/version.rs, header.rs, frame.rs, codec.rs]).  A
      frame is a 32-byte header, cast in place from the receive buffer, and a
      payload.  File [Codec]: [PacketHeader], [ProtocolFrame], [encode_frame],
      [decode_frame].
    - _Messages_ ([bw-protocol/src/message.rs]).  Typed application payloads
      (input, clipboard, audio, video, ICE candidates) serialized with CBOR, with size limits on what
      is read back.  Files [Cbor] (the serialization library as a type class) and
      [Message].
    - _Routing_ ([bw-protocol/src/routing.rs, dispatcher.rs, transport.rs]).
      Envelopes and their validation, the table of handlers, the receive loop, an
      in-memory transport.  File [Routing].
    - _Scheduling_ ([bw-protocol/src/scheduler.rs]).  Seven streams share the link:
      stream 0 first, the others by deficit round robin.  File [Scheduler].
    - _Encryption_ ([bw-crypto/src/symmetric.rs], [bw-protocol/src/encryption.rs]).
      ChaCha20-Poly1305 under nonces made of an epoch and a counter, a replay window,
      key rotation by HKDF.  Files [Symmetric] (the primitives as a type class),
      [Window] (the 64-entry window the encryption and reliability layers share) and
      [Encryption].
    - _Reliability_ ([bw-protocol/src/reliability.rs]).  A sliding-window sender with
      retransmission and a receiver that filters duplicates and restores the order.
      File [Reliability].
    - _Sessions_ ([bw-protocol/src/handshake.rs, session.rs]).  Capability
      negotiation, derivation of session keys, and the table of sessions behind a
      mutex.  File [Session].
    - _Connections_ ([bw-transport/src/adapter.rs], [bw-session/src/lifecycle.rs,
      secure_conn.rs, wire.rs], [bw-auth]).  Frames on a QUIC stream, fragmentation,
      the key handshake, encrypted frames, application messages over them, and the
      password login that precedes all of it.  Files [Io] (programs over a pair of byte
      streams), [Split] (two machines whose connection is split into a sender and a
      receiver), [Fragments], [SecureConn], [Auth], [Wire] and [SplitConn] (the halves of a
      secure connection, which share its encryption context).

    - _The relay_ ([bw-relay], [bw-crypto/src/identity.rs],
      [bw-transport/src/relay_socket.rs], [bw-server/src/rendezvous.rs]).  Devices are named
      by the hash of their signature key; they register with a relay, agree on a connection
      with signed messages, bind their addresses, and the relay then passes their datagrams
      on by a token.  Files [Identity], [Forwarding] (the table of contexts, tokens and
      failed lookups), [Rendezvous] (intents), [RelayServer] (the request handlers),
      [RelayClient] (requests, responses, datagrams, the relay program's loop), [RelaySocket]
      (the endpoints' socket and the server's driver), [RelayPath] (what they achieve
      together) and [ControlClient] (the client's calls over datagrams that may be lost, the
      implementation of the interface [RelayControl] the driver is proved against).


    - _Pools_ ([bw-core/src/pool.rs, memory.rs]).  A stack of buffers linked by tagged indices
      and a pool of flags, both without locks.  Files [Pool] and [MemoryPool].
    - _Datagrams_ ([bw-net]).  A transport interface over UDP, the loop from the socket to the
      dispatcher, and the manager of connections.  File [Net].
    - _Certificates and endpoints_ ([bw-transport/src/cert.rs, server.rs, client.rs]).  The
      server's key file and certificate, the client's pinning of its identity, and the QUIC
      endpoints with what each configures.  Files [Cert] and [Endpoints].
    - _Direct connections_ ([bw-ice], [bw-transport/src/ice_socket.rs],
      [bw-relay/src/checker.rs]).  The manager of an ICE agent, the peer that exchanges
      candidates over the session, the socket that carries QUIC over the connection found,
      and the older check of candidates by priority.  Files [Ice], [IceSocket], [Checker].
    - _Keys and files_ ([bw-crypto/src/identity.rs, backend/], [bw-auth/src/store.rs]).
      Signing keys and the files they persist in, the directory of enrollments.  Files
      [SigningKeys] and [StoreDir].
    - _The server_ ([bw-server/src/main.rs, lib.rs], [bw-input], [bw-clipboard]).  Admission
      of sessions, injection of the input and clipboard a session sends, the drawing of the
      cursor, the polling of the clipboard, and the command line with what follows from it.
      Files [Admission], [Input], [Cursor], [Poller], [Startup] (with the relay program's
      command line, over [Text]), and [Endpoints] for the two ways it serves.
    - _Video and audio_ ([bw-capture], [bw-encoder], [bw-decoder], [bw-audio]).  The capture
      thread, the conversion to YUV, the encoder and its thread, the decoder, and the cutting
      of audio into frames.  Files [Capture], [Dxgi] (the Windows backends),
      [CaptureThread] (the thread with its backend and its owner), [Video], [Encoder],
      [Audio]; [Pixels] holds the loops over pixel buffers, [Float] the floating-point
      formats, [Rounding] bounds on their operations.  [VideoPath] composes the video threads and channels of a
      session, [AudioPath] the sound from the host's device to the viewer's.
    - _The viewer_ ([bw-client/src/main.rs]).  Arguments, the window's event handlers, the
      scaling of frames, the translation of keys, the receiver and the forwarding loop, and
      the retries.  Files [Blit], [Keys] and [Client]; [Pointer] bounds its mouse; [Endpoints]
      has the way to its endpoint.
    - _A session_ ([run_session] and [handle_session]).  The login followed by the tasks of
      both programs.  Files [SessionTasks] (any queue, any handler), [Picture] (the screen to
      the viewer's window), [RemoteInput] (the window's events to the server's desktop) and
      [ClipboardPath] (what one side copies to the other's clipboard).
    - _Telemetry_ ([bw-core/src/logging.rs, error.rs]).  The schema of logs and the registry
      of errors.  File [Telemetry].

    The parts are stacked as in the code: [Wire] calls [SecureConn] and [Auth],
    [SecureConn] calls [Session], [Encryption] and the fragment loops of
    [Fragments], these call the adapter, and the adapter calls the codec.

    ** How the code is modelled

    - A struct is a [Record], an enum an [Inductive]; names are those of the source
      where they are legal here.  Fields that are [u8] ... [u64] are [Z], every
      arithmetic operation on them written with its wrap-around (the program is built
      in its release profile, where [+] wraps) or its check ([checked_add],
      [saturating_sub]).
    - [&mut self] methods take the state and return it with the result, also when they
      fail, so a change made before an error is visible.  [Result] is [result]; a call
      that can abort the thread returns an [outcome].
    - Maps are stdpp's [gmap], queues and vectors are lists.  A map whose iteration
      order would matter is never iterated by the code that is modelled, apart from
      [Rendezvous.pending_for], whose result is a list in no specified order.
    - Asynchronous functions are programs ([Io]) that read and write two byte streams.
      Two such programs run in any interleaving; [Io] proves that they are confluent,
      and the theorems on connections quantify over every interleaving.  A stream is
      the one the QUIC library documents: in order, exactly once, with an end.  After the
      login each machine runs two tasks on one connection ([Split.split_step]); [Halves] is
      the interface under which the four tasks follow, direction by direction, the runs of
      one sender and one receiver, and [conn_halves] discharges it for the encryption context
      both tasks of a machine lock, as long as neither side comes to a key rotation.
    - Clocks and random generators are arguments.  Threads that share memory ([Pool],
      [MemoryPool]) and tasks that share channels ([Net]) are step relations at the grain
      of their atomic accesses or turns, in any order.
    - Floating point is computed ([Float], over the Standard Library's executable IEEE 754
      operations), never approximated by exact arithmetic.
    - Third-party code is an interface (type class): [Cbor] for ciborium, [Primitives]
      for the AEAD and HKDF crates, [Opaque] for opaque-ke,
      [Signatures] for sha2 and ed25519-dalek.  Their
      documented behaviour is a second class ([CborLaws], [PrimitivesLaws],
      [OpaqueLaws], [OpaqueFilesLaws], [SignaturesLaws], [RcgenLaws], [OpusLaws], [VideoCodec],
      [WorkingClipboard], [IceAgentLaws]) that the theorems assume, and each has an instance
      ([countable_cbor], [toy_primitives], [toy_opaque], [toy_signatures], [toy_rcgen],
      [sign_opus], [grey_codec], [text_clipboard], [toy_agent]) at which the witnesses of the
      theorems evaluate.
    - [FrameLink] ([Fragments]) is an internal interface: what one fragmentation layer
      needs from the layer that carries single frames.  [adapter_link], [secure_link]
      and [secure_half_link] implement it for plain and for encrypted frames.
      [CaptureBackend] with [CaptureLaws] ([CaptureThread]) is what the capture thread needs
      from its backend; both Windows backends implement it.

    ** What the theorems show

    - _End to end_ ([Wire], [SecureConn], [Fragments]).  With the enrolled password
      every interleaving of the client's and the server's establishment ends in two
      active connections that hold the same keys with directions swapped; with another
      password both sides stop, with no session.  Over two such connections every
      sequence of messages of at most 4 MiB arrives complete and in order, through both
      fragmentation layers, encryption and the automatic key rotations on the way.
    - _Encryption_.  An encryptor never uses a nonce twice, whatever the sequence of
      encryptions and rotations; a decryptor accepts each epoch and counter at most
      once; the peer follows every automatic rotation.  Two theorems describe what the
      code does where it departs from its intent: a forged frame of the current epoch
      advances the replay window, and reaching the sender's rotation limit also rotates
      the receive key.
    - _Reliability_.  What the receiver hands out is always a prefix of what was sent.
      With a window of at most 64, every reachable state of a link can make progress
      (a step relation on sender, receiver and the frames in flight, by rule
      induction); with the receiver 64 numbers behind, it never hands out anything again.
    - _Scheduler_.  [dequeue_next] terminates with a packet when there is one, keeps its
      invariant, serves stream 0 first, and is fair in proportion to the weights up to a
      constant; with a quantum of zero it does not terminate.
    - _Codec, messages, routing, sessions_.  The codec's two round trips and every branch
      of the decoder; the typed payloads' round trips and limits; the exact conditions
      under which an envelope is valid; the receive loop dispatches what was queued, in
      order; sessions do not interfere, except through the poisoned mutex.

    - _The relay_ ([RelayPath], [Forwarding], [Rendezvous], [Identity]).  In every run, with any
      messages from anyone, the relay forwards a datagram only between two different devices
      that both signed for it; two devices that follow the protocol in time, among any traffic
      of others, do get a path, which goes on while its limits admit;
      the server's driver and the initiator obtain the same token over datagrams; payloads
      arrive unchanged.  One authorization is limited in bytes and in time, its end
      is final, sweeping removes exactly what has ended, and one address can test only few
      tokens.  Further theorems state what the code does where it departs from its intent:
      without binding requests (none of the shipped programs sends one) nothing is forwarded,
      binding requests can be replayed from elsewhere, the identifier of an accepted intent
      can be used again by others, and settled intents fill the registry for good.


    - _Pools_ ([Pool], [MemoryPool]).  In every interleaving of any number of threads no two
      guards share a slot; while the 16-bit generation cannot wrap between a read and its
      exchange, no slot is lost or duplicated and every step is a step of an atomic stack.
      One theorem shows the interleaving in which the wrap does duplicate a slot.
    - _Datagrams and certificates_ ([Net], [Cert]).  The receive loop dispatches exactly what
      decodes, in order, and stops as documented; a connection's task neither spins nor outlives
      its handle.  A pinned client accepts exactly the certificates with the pinned key, and
      asks for no proof that the server holds it.
    - _The server_ ([Admission], [Input], [Cursor], [Poller]).  The limiter is a fixed-window
      counter per address; at most four session tasks run, none for 15 seconds, while the senders
      and pipelines they detach are not bounded; the injected buttons follow the masks a session reports; the cursor's pixels are exactly the cross; the poller
      reports exactly the changes of a text.
    - _Video and audio_ ([Capture], [Video], [Encoder], [Audio], [Blit]).  Frames are captured
      at most at the configured rate and an idle screen is refreshed; the conversion to YUV
      equals its definition by samples; frames survive serialization; the stream recovers at a
      keyframe after any loss; the blit shows the picture and never indexes out of range; audio
      frames do not depend on the device's callbacks.
    - _The viewer and the server together_ ([Client], [VideoPath], [AudioPath], [Endpoints]).
      Whatever was lost on the way, the buttons held on the remote desktop are those the user
      holds once a click got through.  The coordinates it sends stay in range ([Pointer]).  However the video threads interleave, frames reach the
      encoder in order, the channels stay bounded, no thread blocks the other, and of any three
      frames encoded one is as new as the newest captured before them.  The viewer plays the codec's image of the sound the host played.  It trusts
      exactly the server whose TLS identity it was given.  A relayed session returns the
      rendezvous loop its turn within 75 seconds.  Further theorems: the relay mode of the
      viewer aborts, and needs one identifier for two different keys.
    - _A session from the login to the handlers_ ([SessionTasks], [Picture], [RemoteInput],
      [ClipboardPath]).  In every interleaving of the tasks of the two programs, with traffic
      both ways below the limit of the key rotation, each queue of messages reaches the other
      side's handler, complete and in order.  So the images in the viewer's window
      are those of captured frames, the buttons down on the server are those the user holds,
      and the text copied last at the viewer is the one on the server's clipboard.  A message
      of more than 4 MiB ends the session; the server's own poller ends when it is started.
    - _Direct connections_ ([Ice], [IceSocket], [Checker]).  Candidates reach the other peer in
      order and, once gathering has ended with none refused, all of them; both ends derive each other's
      credentials from the token; one refused candidate ends the exchange.  The socket keeps
      the order of datagrams and loses no wakeup in any interleaving of reader and bridge.  The
      check of candidates answers with the first attempt that succeeds, by priority.
    - _Keys and files_ ([SigningKeys], [StoreDir], [Startup]).  A device keeps its identity over
      restarts; a store that was saved is loaded again; an enrollment that reports success lets
      the password in and leaves the others; a failed load replaces the setup.  Command lines
      are parsed as they are printed.
    - _Capturing_ ([Dxgi], [CaptureThread]).  The backend's unsafe copy stays inside the mapped
      texture for every use the capture thread makes of it, and not for every use.  The thread
      offers only complete frames of its display, stops its backend when it ends, and ends once
      its owner asks it to, after the turn it is in, whose frame it may still offer.

    ** Fuel and bounds

    - [Scheduler.dequeue_next] takes the number of turns of the source's loop it may run and
      returns [None] when they are used up; [dequeue_next_correct] states how many turns,
      computed from the largest front packet and the quantum, always suffice when the
      quantum is positive.
    - [Reliability.assemble] removes one buffered frame per round, so the size of the
      buffer is enough fuel.
    - [Fragments.send_loop] sends at least one byte per round, so the length of the
      payload is enough.  [recv_loop] has 2^15 rounds: a fragment's index has 15 bits and
      the index expected grows by one each round, so no stream keeps the loop of the source
      going for longer.  The round trips are proved for the result, not under the assumption
      that there is one.
    - [SessionTasks.receive_task] is a server loop, unrolled [fuel] times.  The theorems hold
      for every fuel above the number of messages sent, and the receiver is then in
      [recv_message] again, waiting: the bound is never met, and [StillReceiving], its
      result there, never occurs.
    - [Cert.scan] moves at least five bytes on per round and [Audio.drain_frames] takes at
      least one sample, so the length of what they read is enough; [Net.run_receive_loop] is
      a server loop, whose theorem says where it stands after the fuel it needs.  The loops
      over pixels are structural.

    ** What is not modelled, and why

    - The windows and surfaces of the viewer's window system, and the libraries that do the
      work behind an interface (OpenH264, Opus, the clipboard, [SendInput], DXGI, rcgen,
      Quinn, rustls, webrtc-ice, opaque-ke): the model has their calls and answers.
    - The text form of IPv6 and of socket addresses (a function argument), and the JSON of
      log events.
    - The sources under [archive/]: earlier drafts outside the workspace, which no crate builds.
    - The flow control of a QUIC stream: a write does not wait for the reader; and the
      closing of a stream by a task that ends, which makes later writes of the other side
      fail.  Time in the theorems on sessions: they are about what happens before the 15
      seconds after which [spawn_session_task] ends a session's receiver ([Admission]).
    - Traffic both ways beyond the 10 000 encrypted frames at which a sender rotates its keys:
      rotating makes it reject the other side's frames ([send_rotation_rejects_peer]).
    - Alignment of buffers other than those the allocator returns: [decode_frame] takes
      the address, and the layers above use it at an aligned one ([decode_vec]).

    - In the relay: the reads of the clock within one call return the same instant. *)

From Stdlib Require Export ZArith Lia.
From stdpp Require Export strings pretty.
From stdpp Require Export base tactics numbers list gmap option.

#[global] Open Scope Z_scope.

(** ** Results and panics

    A Rust [Result<A, E>] is [result E A].  A call that may also abort the
    thread (an out-of-range slice, a misaligned cast, a poisoned lock that is
    unwrapped) returns an [outcome]. *)

Inductive result (E A : Type) : Type :=
| Ok (a : A)
| Err (e : E).
Arguments Ok {E A} a.
Arguments Err {E A} e.

Inductive outcome (A : Type) : Type :=
| Ret (a : A)
| Panic.
Arguments Ret {A} a.
Arguments Panic {A}.

(** Whether a result is a success. *)
Definition is_ok {E A} (r : result E A) : bool :=
  match r with Ok _ => true | Err _ => false end.

(** [Result::map_err]. *)
Definition map_err {E F A} (f : E -> F) (r : result E A) : result F A :=
  match r with Ok a => Ok a | Err e => Err (f e) end.

(** [Option::ok_or]. *)
Definition ok_or {E A} (e : E) (o : option A) : result E A :=
  match o with Some a => Ok a | None => Err e end.

Declare Scope rust_scope.
Delimit Scope rust_scope with rust.
#[global] Open Scope rust_scope.

(** The [?] operator of a function that returns a result. *)
Notation "'let?' x := c 'in' k" :=
  (match c with Ok x => k | Err e_ => Err e_ end)
  (at level 10, x pattern, c at level 200, k at level 200,
   format "'let?'  x  :=  c  'in' '//' k") : rust_scope.

(** ** Machine integers

    A [w]-bit unsigned integer is a [Z] with [uint w z]; [wrap w] is the
    two's-complement truncation that [as uN], shifts and (in the release
    profile, where overflow checks are off) [+], [-] and [*] perform. *)

Definition uint (w z : Z) : Prop := 0 <= z < 2 ^ w.

Definition wrap (w z : Z) : Z := z mod 2 ^ w.

Definition U16_MAX : Z := 65535.
Definition U32_MAX : Z := 4294967295.
Definition U64_MAX : Z := 18446744073709551615.

(** [saturating_sub] of an unsigned type. *)
Definition sat_sub (a b : Z) : Z := Z.max 0 (a - b).

(** [abs_diff]. *)
Definition abs_diff (a b : Z) : Z := Z.abs (a - b).

#[global] Instance uint_dec w z : Decision (uint w z).
Proof. unfold uint. apply _. Defined.

(** Length of a [Vec] or slice as a machine integer. *)
Definition zlen {A} (l : list A) : Z := Z.of_nat (length l).

(** [&v[i..j]] for [i <= j <= v.len()]. *)
Definition slice {A} (l : list A) (i j : nat) : list A := take (j - i) (drop i l).

(** ** Bytes *)

Definition is_byte (b : Z) : Prop := uint 8 b.

Definition is_bytes (l : list Z) : Prop := Forall is_byte l.

(** A fixed-size array [[u8; n]]. *)
Definition byte_array (n : nat) (l : list Z) : Prop := length l = n /\ is_bytes l.

#[global] Instance is_byte_dec b : Decision (is_byte b).
Proof. unfold is_byte. apply _. Defined.

#[global] Instance is_bytes_dec l : Decision (is_bytes l).
Proof. unfold is_bytes. apply _. Defined.

#[global] Instance byte_array_dec n l : Decision (byte_array n l).
Proof. unfold byte_array. apply _. Defined.

#[global] Instance result_eq_dec {E A} `{EqDecision E, EqDecision A} : EqDecision (result E A).
Proof. solve_decision. Defined.

#[global] Instance outcome_eq_dec {A} `{EqDecision A} : EqDecision (outcome A).
Proof. solve_decision. Defined.

(** The bytes of an ASCII string literal ([b"..."] or [str::as_bytes]). *)
Fixpoint string_bytes (s : string) : list Z :=
  match s with
  | EmptyString => []
  | String a s => Z.of_N (Ascii.N_of_ascii a) :: string_bytes s
  end.

(** Hexadecimal digits as ASCII codes: [{:x}] of a digit, [{:02x}] of a byte, and
    [char::to_digit(16)]. *)
Definition hex_digit (d : Z) : Z := if d <? 10 then 48 + d else 87 + d.

Definition hex_byte (b : Z) : list Z := [hex_digit (b / 16); hex_digit (b mod 16)].

Definition to_digit16 (c : Z) : option Z :=
  if (48 <=? c) && (c <=? 57) then Some (c - 48)
  else if (97 <=? c) && (c <=? 102) then Some (c - 87)
  else if (65 <=? c) && (c <=? 70) then Some (c - 55)
  else None.

(** Little-endian byte image of the low [n] bytes of [z]. *)
Fixpoint le_bytes (n : nat) (z : Z) : list Z :=
  match n with
  | O => []
  | S n => z mod 256 :: le_bytes n (z / 256)
  end.

Fixpoint le_num (l : list Z) : Z :=
  match l with
  | [] => 0
  | b :: l => b + 256 * le_num l
  end.

(** [to_be_bytes] and [from_be_bytes]. *)
Definition be_bytes (n : nat) (z : Z) : list Z := reverse (le_bytes n z).

Definition be_num (l : list Z) : Z := le_num (reverse l).

(** ** Integer lemmas *)

Lemma wrap_small w z : uint w z -> wrap w z = z.
Proof. intros H. apply Z.mod_small, H. Qed.

Lemma wrap_uint w z : 0 <= w -> uint w (wrap w z).
Proof. intros Hw. apply Z.mod_pos_bound. lia. Qed.

Lemma uint_weaken w w' z : w <= w' -> uint w z -> uint w' z.
Proof.
  intros Hw [H0 H1]. split; [done|].
  eapply Z.lt_le_trans; [exact H1|]. apply Z.pow_le_mono_r; lia.
Qed.

Lemma zlen_nonneg {A} (l : list A) : 0 <= zlen l.
Proof. unfold zlen. lia. Qed.

Lemma zlen_app {A} (l k : list A) : zlen (l ++ k) = zlen l + zlen k.
Proof. unfold zlen. rewrite length_app. lia. Qed.

Lemma zlen_singleton {A} (x : A) : zlen [x] = 1.
Proof. done. Qed.

Lemma zlen_cons {A} (x : A) l : zlen (x :: l) = zlen l + 1.
Proof. unfold zlen. simpl. lia. Qed.

Lemma zlen_snoc {A} (l : list A) x : zlen (l ++ [x]) = zlen l + 1.
Proof. by rewrite zlen_app. Qed.

Lemma zlen_nil_inv {A} (l : list A) : zlen l = 0 -> l = [].
Proof. destruct l; [done|]. unfold zlen. simpl. lia. Qed.

Lemma Forall_sublist {A} (P : A -> Prop) (l k : list A) : l `sublist_of` k -> Forall P k -> Forall P l.
Proof. induction 1; intros HF; [done|..]; inversion HF; subst; auto. Qed.

(** ** Byte-image lemmas *)

Lemma length_le_bytes n z : length (le_bytes n z) = n.
Proof. revert z. induction n as [|n IH]; intros z; simpl; [done|]. by rewrite IH. Qed.

Lemma le_bytes_bytes n z : is_bytes (le_bytes n z).
Proof.
  revert z. induction n as [|n IH]; intros z; simpl; constructor; [|apply IH].
  apply (Z.mod_pos_bound z 256). lia.
Qed.

Lemma pow256_succ n : 2 ^ (8 * Z.of_nat (S n)) = 256 * 2 ^ (8 * Z.of_nat n).
Proof.
  replace (8 * Z.of_nat (S n)) with (8 + 8 * Z.of_nat n) by lia.
  rewrite Z.pow_add_r by lia. done.
Qed.

Lemma le_num_le_bytes n z : le_num (le_bytes n z) = z mod 2 ^ (8 * Z.of_nat n).
Proof.
  revert z. induction n as [|n IH]; intros z; cbn [le_bytes le_num].
  - by rewrite Z.mod_1_r.
  - rewrite IH, pow256_succ, Z.rem_mul_r by lia. lia.
Qed.

Lemma le_num_bound l : is_bytes l -> uint (8 * zlen l) (le_num l).
Proof.
  unfold uint, zlen. induction 1 as [|b l Hb _ IH]; cbn [le_num length].
  - done.
  - rewrite pow256_succ. unfold is_byte, uint in Hb. lia.
Qed.

Lemma le_bytes_le_num l : is_bytes l -> le_bytes (length l) (le_num l) = l.
Proof.
  induction 1 as [|b l Hb _ IH]; [done|]. cbn [length le_num le_bytes].
  unfold is_byte, uint in Hb.
  rewrite Z.mul_comm, Z.mod_add, Z.div_add, Z.mod_small, Z.div_small by lia.
  by rewrite Z.add_0_l, IH.
Qed.

Lemma le_num_le_bytes_small n z : uint (8 * Z.of_nat n) z -> le_num (le_bytes n z) = z.
Proof. intros H. rewrite le_num_le_bytes. by apply Z.mod_small. Qed.

Lemma length_be_bytes n z : length (be_bytes n z) = n.
Proof. unfold be_bytes. by rewrite length_reverse, length_le_bytes. Qed.

Lemma be_bytes_bytes n z : is_bytes (be_bytes n z).
Proof. apply Forall_reverse, le_bytes_bytes. Qed.

Lemma be_num_be_bytes n z : uint (8 * Z.of_nat n) z -> be_num (be_bytes n z) = z.
Proof.
  intros H. unfold be_num, be_bytes. rewrite reverse_involutive.
  by apply le_num_le_bytes_small.
Qed.

Lemma be_num_bound l : is_bytes l -> uint (8 * zlen l) (be_num l).
Proof.
  intros H. unfold be_num. replace (zlen l) with (zlen (reverse l)).
  - by apply le_num_bound, Forall_reverse.
  - unfold zlen. by rewrite length_reverse.
Qed.

Lemma be_bytes_be_num l : is_bytes l -> be_bytes (length l) (be_num l) = l.
Proof.
  intros H. unfold be_num, be_bytes.
  rewrite <- (length_reverse l), le_bytes_le_num, reverse_involutive; [done|].
  by apply Forall_reverse.
Qed.

(** ** Strings *)

Lemma string_bytes_inj s t : string_bytes s = string_bytes t -> s = t.
Proof.
  revert t. induction s as [|a s IH]; intros [|b t]; try done.
  simpl. intros [= Hab Hst%IH]. f_equal; [|done].
  rewrite <- (Ascii.ascii_N_embedding a), <- (Ascii.ascii_N_embedding b). f_equal. lia.
Qed.

(** ** Slices *)

Lemma length_slice {A} (l : list A) i j :
  (i <= j <= length l)%nat -> length (slice l i j) = (j - i)%nat.
Proof. intros H. unfold slice. rewrite length_take, length_drop. lia. Qed.

(** A slice that starts right after a known prefix of the buffer. *)
Lemma slice_app_mid {A} (l k m : list A) i j :
  i = length l -> j = (length l + length k)%nat -> slice (l ++ k ++ m) i j = k.
Proof.
  intros -> ->. unfold slice. rewrite drop_app_length.
  rewrite take_app_le by lia. rewrite take_ge; [done|lia].
Qed.

Lemma slice_app_end {A} (l k : list A) i j :
  i = length l -> j = (length l + length k)%nat -> slice (l ++ k) i j = k.
Proof. intros -> ->. rewrite <- (app_nil_r k) at 1. by apply slice_app_mid. Qed.

Lemma slice_0 {A} (l : list A) j : slice l 0 j = take j l.
Proof. unfold slice. by rewrite drop_0, Nat.sub_0_r. Qed.

(** Cutting a list at one point and gluing the two slices back. *)
Lemma take_slice_app {A} (l : list A) i j :
  (i <= j)%nat -> take i l ++ slice l i j = take j l.
Proof.
  intros H. unfold slice. rewrite <- (take_drop i (take j l)).
  rewrite take_take, Nat.min_l by lia. f_equal.
  by rewrite <- skipn_firstn_comm.
Qed.

Lemma slice_app {A} (l : list A) i j k :
  (i <= j <= k)%nat -> slice l i j ++ slice l j k = slice l i k.
Proof.
  intros H. unfold slice. rewrite <- (take_drop (j - i) (take (k - i) (drop i l))).
  rewrite take_take, Nat.min_l by lia. f_equal.
  rewrite skipn_firstn_comm, drop_drop. f_equal; [lia|]. f_equal. lia.
Qed.

Lemma slice_full {A} (l : list A) n : length l = n -> slice l 0 n = l.
Proof. intros <-. rewrite slice_0. by apply take_ge. Qed.

Lemma slice_bytes l i j : is_bytes l -> is_bytes (slice l i j).
Proof. intros H. by apply Forall_take, Forall_drop. Qed.

(** The byte image of a number read from a slice is the slice. *)
Lemma le_bytes_slice l n i j :
  is_bytes l -> (i <= j <= length l)%nat -> n = (j - i)%nat ->
  le_bytes n (le_num (slice l i j)) = slice l i j.
Proof.
  intros Hb Hij ->. rewrite <- (length_slice l i j) by done.
  by apply le_bytes_le_num, slice_bytes.
Qed.

Lemma le_num_slice_bound l w i j :
  is_bytes l -> (i <= j <= length l)%nat -> w = 8 * Z.of_nat (j - i) ->
  uint w (le_num (slice l i j)).
Proof.
  intros Hb Hij ->. rewrite <- (length_slice l i j) by done.
  by apply le_num_bound, slice_bytes.
Qed.

(** ** Bits of a shifted window *)

Lemma land_bit_zero m i : 0 <= i -> Z.land m (Z.shiftl 1 i) = 0 <-> Z.testbit m i = false.
Proof.
  intros Hi. rewrite Z.shiftl_1_l. split.
  - intros H. apply (f_equal (fun z => Z.testbit z i)) in H.
    rewrite Z.land_spec, Z.pow2_bits_true, Z.bits_0, andb_true_r in H by done. done.
  - intros H. apply Z.bits_inj'. intros k Hk.
    rewrite Z.land_spec, Z.bits_0, Z.pow2_bits_eqb by lia.
    destruct (Z.eqb_spec i k) as [->|]; [by rewrite H|]. by rewrite andb_false_r.
Qed.

Lemma testbit_lor_bit m i k : 0 <= i ->
  Z.testbit (Z.lor m (Z.shiftl 1 i)) k = Z.testbit m k || (i =? k).
Proof. intros Hi. by rewrite Z.shiftl_1_l, Z.lor_spec, Z.pow2_bits_eqb. Qed.

Lemma testbit_wrap w z i : 0 <= w -> 0 <= i ->
  Z.testbit (wrap w z) i = (i <? w) && Z.testbit z i.
Proof.
  intros Hw Hi. unfold wrap. destruct (Z.ltb_spec i w) as [H|H].
  - by rewrite Z.mod_pow2_bits_low.
  - by rewrite Z.mod_pow2_bits_high.
Qed.

Lemma testbit_high w z i : uint w z -> w <= i -> Z.testbit z i = false.
Proof.
  intros Hz Hi. rewrite <- (wrap_small w z Hz).
  destruct (Z.neg_nonneg_cases w) as [Hw|Hw].
  - unfold uint in Hz. rewrite Z.pow_neg_r in Hz; lia.
  - by apply Z.mod_pow2_bits_high.
Qed.

(** Packing two bit fields is addition. *)
Lemma lor_shiftl_add a b n : uint n b -> 0 <= n ->
  Z.lor (Z.shiftl a n) b = a * 2 ^ n + b.
Proof.
  intros Hb Hn. rewrite <- Z.shiftl_mul_pow2 by done. rewrite <- Z.add_lor_land.
  enough (Z.land (Z.shiftl a n) b = 0) as -> by lia.
  apply Z.bits_inj'. intros i Hi. rewrite Z.land_spec, Z.bits_0.
  destruct (Z.lt_ge_cases i n) as [Hlt|Hge].
  - by rewrite Z.shiftl_spec_low.
  - by rewrite (testbit_high n b i), andb_false_r.
Qed.

(** ** Automation

    [bw] closes the routine arithmetic and data side goals; [case_bool]
    splits on the boolean comparison the goal or a hypothesis tests. *)

Create HintDb bw.
#[export] Hint Resolve zlen_nonneg le_bytes_bytes be_bytes_bytes : bw.
#[export] Hint Resolve length_le_bytes length_be_bytes : bw.
Create Rewrite HintDb bwlen.
#[export] Hint Rewrite @length_app @length_take @length_drop length_le_bytes
  length_be_bytes @length_replicate : bwlen.

Ltac bw_len := autorewrite with bwlen in *; simpl in *; lia.

Ltac case_bool_step :=
  match goal with
  | |- context [if ?a <=? ?b then _ else _] => destruct (Z.leb_spec a b)
  | |- context [if ?a <? ?b then _ else _] => destruct (Z.ltb_spec a b)
  | |- context [if ?a =? ?b then _ else _] => destruct (Z.eqb_spec a b)
  | H : context [if ?a <=? ?b then _ else _] |- _ => destruct (Z.leb_spec a b)
  | H : context [if ?a <? ?b then _ else _] |- _ => destruct (Z.ltb_spec a b)
  | H : context [if ?a =? ?b then _ else _] |- _ => destruct (Z.eqb_spec a b)
  end.

Ltac case_bool := repeat (case_bool_step; simpl in *; try lia).

(** Closes a decidable goal on concrete data by evaluating its decision. *)
Ltac by_decide := refine (bool_decide_unpack _ _); vm_compute; exact I.

Lemma to_digit16_hex d : 0 <= d < 16 -> to_digit16 (hex_digit d) = Some d.
Proof.
  intros Hd.
  assert (Forall (fun d => to_digit16 (hex_digit d) = Some d) (seqZ 0 16)) as HF by by_decide.
  rewrite Stdlib.Lists.List.Forall_forall in HF. apply HF, list_elem_of_In, elem_of_seqZ. lia.
Qed.

Ltac bw := intros; simplify_eq; first [ done | lia | eauto with bw ].
