(* ===== verification/Codec.v ===== *)
(** * Packet header and frame codec (bw-protocol)

    Models [version.rs], [header.rs], [frame.rs] and [codec.rs]: the packed
    protocol version, the 32-byte [repr(C, align(8))] packet header as it lies
    in memory on the little-endian targets the program is built for, header
    validation, and the frame encoder and decoder.

    [PacketHeader::try_from_bytes] casts the caller's slice in place, so it
    depends on the address of the slice: [bytemuck::from_bytes] aborts when the
    slice is not aligned for the target type.  The definitions that cast take
    that address; [decode_vec] is the decoder on a buffer the allocator handed
    out (aligned for the header). *)

From S2P Require Import Prelude.

(** ** Errors ([error.rs]) *)

Inductive ProtocolError : Type :=
| BufferTooSmall
| InvalidMagic
| InvalidVersion (v : Z)
| InvalidPayloadLength
| IncompatibleCapabilities
| InvalidHandshake
| SerializationError
| DeserializationError
| SessionDuplicate
| SessionNotFound
| InvalidRoute
| InvalidDestination
| WindowFull
| EncryptionError
| ReplayDetected
| OversizedPayload (len max : Z).

#[global] Instance ProtocolError_eq_dec : EqDecision ProtocolError.
Proof. solve_decision. Defined.

(** ** Versions ([version.rs]) *)

Record ProtocolVersion := { major : Z; minor : Z }.

#[global] Instance ProtocolVersion_eq_dec : EqDecision ProtocolVersion.
Proof. solve_decision. Defined.

Definition CURRENT_VERSION : ProtocolVersion := {| major := 1; minor := 0 |}.

Definition is_compatible_with (v other : ProtocolVersion) : bool :=
  major v =? major other.

(** [impl From<ProtocolVersion> for u16]. *)
Definition version_to_u16 (v : ProtocolVersion) : Z :=
  Z.lor (wrap 16 (Z.shiftl (major v) 8)) (minor v).

(** [impl From<u16> for ProtocolVersion]. *)
Definition version_from_u16 (val : Z) : ProtocolVersion :=
  {| major := wrap 8 (Z.shiftr val 8); minor := wrap 8 (Z.land val 255) |}.

Definition version_ok (v : ProtocolVersion) : Prop := uint 8 (major v) /\ uint 8 (minor v).

(** ** Packet header ([header.rs]) *)

Definition PROTOCOL_MAGIC : list Z := [66; 87; 80; 71].

Record PacketHeader := {
  magic : list Z;
  schema_version : Z;
  flags : Z;
  packet_type : Z;
  payload_length : Z;
  sequence_number : Z;
  session_epoch : Z;
  monotonic_timestamp : Z;
}.

#[global] Instance PacketHeader_eq_dec : EqDecision PacketHeader.
Proof. solve_decision. Defined.

(** [#[derive(Default)]]. *)
Definition default_header : PacketHeader :=
  {| magic := [0; 0; 0; 0]; schema_version := 0; flags := 0; packet_type := 0;
     payload_length := 0; sequence_number := 0; session_epoch := 0;
     monotonic_timestamp := 0 |}.

(** The fields fit their machine types. *)
Definition header_ok (h : PacketHeader) : Prop :=
  byte_array 4 (magic h) /\ uint 16 (schema_version h) /\ uint 16 (flags h) /\
  uint 16 (packet_type h) /\ uint 16 (payload_length h) /\
  uint 32 (sequence_number h) /\ uint 64 (session_epoch h) /\
  uint 64 (monotonic_timestamp h).

(** [std::mem::size_of::<PacketHeader>()] and its alignment. *)
Definition HEADER_SIZE : nat := 32.
Definition HEADER_ALIGN : Z := 8.

(** [bytemuck::bytes_of]: the [repr(C)] image, without padding. *)
Definition as_bytes (h : PacketHeader) : list Z :=
  magic h ++ le_bytes 2 (schema_version h) ++ le_bytes 2 (flags h) ++
  le_bytes 2 (packet_type h) ++ le_bytes 2 (payload_length h) ++
  le_bytes 4 (sequence_number h) ++ le_bytes 8 (session_epoch h) ++
  le_bytes 8 (monotonic_timestamp h).

(** The value a [&PacketHeader] pointing at these 32 bytes denotes. *)
Definition header_of_image (b : list Z) : PacketHeader :=
  {| magic := slice b 0 4;
     schema_version := le_num (slice b 4 6);
     flags := le_num (slice b 6 8);
     packet_type := le_num (slice b 8 10);
     payload_length := le_num (slice b 10 12);
     sequence_number := le_num (slice b 12 16);
     session_epoch := le_num (slice b 16 24);
     monotonic_timestamp := le_num (slice b 24 32) |}.

Definition validate_header (h : PacketHeader) : result ProtocolError unit :=
  if decide (magic h = PROTOCOL_MAGIC) then
    let version := version_from_u16 (schema_version h) in
    if is_compatible_with version CURRENT_VERSION then Ok tt
    else Err (InvalidVersion (schema_version h))
  else Err InvalidMagic.

(** [PacketHeader::try_from_bytes] on a slice that starts at address [addr]. *)
Definition try_from_bytes (addr : Z) (bytes : list Z) :
    outcome (result ProtocolError PacketHeader) :=
  if (length bytes <? HEADER_SIZE)%nat then Ret (Err BufferTooSmall)
  else
    let header_bytes := slice bytes 0 HEADER_SIZE in
    if addr mod HEADER_ALIGN =? 0 then
      let header := header_of_image header_bytes in
      Ret (let? _ := validate_header header in Ok header)
    else Panic.

(** ** Frames ([frame.rs], [codec.rs])

    The borrowed and the owned frame have the same fields; [borrow] is the
    identity on them. *)

Record ProtocolFrame := { header : PacketHeader; payload : list Z }.

#[global] Instance ProtocolFrame_eq_dec : EqDecision ProtocolFrame.
Proof. solve_decision. Defined.

Definition encode_frame (frame : ProtocolFrame) : list Z :=
  as_bytes (header frame) ++ payload frame.

Definition decode_frame (addr : Z) (bytes : list Z) :
    outcome (result ProtocolError ProtocolFrame) :=
  if (length bytes <? HEADER_SIZE)%nat then Ret (Err BufferTooSmall)
  else
    match try_from_bytes addr bytes with
    | Panic => Panic
    | Ret (Err e) => Ret (Err e)
    | Ret (Ok h) =>
        let expected_len := Z.of_nat HEADER_SIZE + payload_length h in
        if zlen bytes <? expected_len then Ret (Err BufferTooSmall)
        else if expected_len <? zlen bytes then Ret (Err InvalidPayloadLength)
        else Ret (Ok {| header := h;
                        payload := slice bytes HEADER_SIZE (Z.to_nat expected_len) |})
    end.

(** [decode_frame(&vec)] on an allocation whose start is header-aligned. *)
Definition decode_vec (bytes : list Z) : result ProtocolError ProtocolFrame :=
  match decode_frame 0 bytes with
  | Ret r => r
  | Panic => Err BufferTooSmall
  end.

(** A frame whose header describes its payload. *)
Definition frame_ok (f : ProtocolFrame) : Prop :=
  header_ok (header f) /\ validate_header (header f) = Ok tt /\
  payload_length (header f) = zlen (payload f).

#[global] Instance header_ok_dec h : Decision (header_ok h).
Proof. unfold header_ok. apply _. Defined.

#[global] Instance frame_ok_dec f : Decision (frame_ok f).
Proof. unfold frame_ok. apply _. Defined.

(** ** Version lemmas *)

Lemma version_to_u16_value v :
  version_ok v -> version_to_u16 v = major v * 256 + minor v.
Proof.
  intros [Hma Hmi]. unfold version_to_u16.
  rewrite wrap_small; [by apply lor_shiftl_add|].
  rewrite Z.shiftl_mul_pow2 by done. unfold uint in *. lia.
Qed.

Lemma version_roundtrip v : version_ok v -> version_from_u16 (version_to_u16 v) = v.
Proof.
  intros Hv. rewrite version_to_u16_value by done.
  destruct v as [ma mi], Hv as [Hma Hmi]. unfold version_from_u16, uint in *. simpl in *.
  change 255 with (Z.ones 8). rewrite Z.land_ones, Z.shiftr_div_pow2 by done.
  change (2 ^ 8) with 256 in *. f_equal.
  - rewrite Z.div_add_l, Z.div_small, Z.add_0_r by lia. by apply wrap_small.
  - rewrite Z.add_comm, Z.mod_add, Z.mod_small by lia. by apply wrap_small.
Qed.

(** ** Header image lemmas *)

Lemma length_as_bytes h : length (magic h) = 4%nat -> length (as_bytes h) = HEADER_SIZE.
Proof. intros H. unfold as_bytes. autorewrite with bwlen. by rewrite H. Qed.

Lemma as_bytes_bytes h : header_ok h -> is_bytes (as_bytes h).
Proof.
  intros [[_ Hm] _]. unfold as_bytes.
  repeat (apply Forall_app_2; [first [done | apply le_bytes_bytes]|]).
  apply le_bytes_bytes.
Qed.

(** The memory image denotes the header it was taken from. *)
Lemma header_of_as_bytes h : header_ok h -> header_of_image (as_bytes h) = h.
Proof.
  intros [[Hl Hm] (H1 & H2 & H3 & H4 & H5 & H6 & H7)].
  destruct h as [m sv fl pt pl sq se mt]; simpl in *.
  destruct m as [|a [|b [|c [|d [|]]]]]; simplify_eq/=.
  unfold header_of_image, as_bytes, slice; simpl.
  f_equal; unfold uint in *; Z.div_mod_to_equations; lia.
Qed.

Lemma header_of_image_ok b :
  length b = HEADER_SIZE -> is_bytes b -> header_ok (header_of_image b).
Proof.
  unfold HEADER_SIZE. intros Hl Hb.
  split; [split; [by apply length_slice; lia | by apply slice_bytes]|].
  repeat (apply conj; [apply le_num_slice_bound; first [done | lia]|]).
  apply le_num_slice_bound; first [done | lia].
Qed.

(** Every 32-byte image is the image of the header it denotes. *)
Lemma as_bytes_header_of b :
  length b = HEADER_SIZE -> is_bytes b -> as_bytes (header_of_image b) = b.
Proof.
  unfold HEADER_SIZE. intros Hl Hb. unfold as_bytes, header_of_image.
  cbn [magic schema_version flags packet_type payload_length sequence_number
       session_epoch monotonic_timestamp].
  rewrite !le_bytes_slice by first [done | lia].
  rewrite !slice_app by lia. by apply slice_full.
Qed.

(** ** Decoder lemmas *)

Lemma validate_header_ok h :
  validate_header h = Ok tt <->
  magic h = PROTOCOL_MAGIC /\ major (version_from_u16 (schema_version h)) = 1.
Proof.
  unfold validate_header, is_compatible_with.
  destruct (decide (magic h = PROTOCOL_MAGIC)) as [Hm|Hm];
    [|split; [done|by intros [? _]]].
  change (major CURRENT_VERSION) with 1.
  destruct (Z.eqb_spec (major (version_from_u16 (schema_version h))) 1) as [Hv|Hv];
    (split; [done|]); [done|by intros [_ ?]].
Qed.

(** On an aligned buffer the cast never aborts, and the address is irrelevant. *)
Lemma decode_frame_aligned addr bytes :
  addr mod HEADER_ALIGN = 0 -> decode_frame addr bytes = Ret (decode_vec bytes).
Proof.
  intros Ha. unfold decode_vec, decode_frame, try_from_bytes.
  rewrite Ha. simpl. repeat case_match; simplify_eq; done.
Qed.

(** What the decoder accepts: exactly a valid header followed by the number of
    payload bytes it announces. *)
Lemma decode_vec_ok_inv bytes f :
  decode_vec bytes = Ok f ->
  (HEADER_SIZE <= length bytes)%nat /\
  header f = header_of_image (take HEADER_SIZE bytes) /\
  validate_header (header f) = Ok tt /\
  payload f = drop HEADER_SIZE bytes /\
  zlen bytes = Z.of_nat HEADER_SIZE + payload_length (header f).
Proof.
  unfold decode_vec, decode_frame, try_from_bytes. rewrite slice_0. simpl.
  destruct (Nat.ltb_spec (length bytes) HEADER_SIZE) as [?|Hlen]; [done|].
  remember (header_of_image (take HEADER_SIZE bytes)) as h eqn:Hh.
  destruct (validate_header h) as [[]|] eqn:Hv; [|done].
  destruct (Z.ltb_spec (zlen bytes) (Z.of_nat HEADER_SIZE + payload_length h)); [done|].
  destruct (Z.ltb_spec (Z.of_nat HEADER_SIZE + payload_length h) (zlen bytes)); [done|].
  intros [= <-]. cbn [header payload]. repeat split; try done; [|lia].
  unfold slice. rewrite take_ge; [done|]. rewrite length_drop. unfold zlen in *. lia.
Qed.

Lemma decode_vec_intro bytes h p :
  bytes = as_bytes h ++ p -> header_ok h -> validate_header h = Ok tt ->
  payload_length h = zlen p ->
  decode_vec bytes = Ok {| header := h; payload := p |}.
Proof.
  intros -> Hok Hv Hpl.
  assert (length (as_bytes h) = HEADER_SIZE) as Hl by apply length_as_bytes, Hok.
  unfold decode_vec, decode_frame, try_from_bytes.
  rewrite (proj2 (Nat.ltb_ge _ _)) by (rewrite length_app; lia).
  rewrite slice_0, take_app_le, take_ge, header_of_as_bytes by (done || lia).
  change (0 mod HEADER_ALIGN =? 0) with true. cbv iota zeta. rewrite Hv.
  assert (zlen (as_bytes h ++ p) = Z.of_nat HEADER_SIZE + payload_length h) as ->.
  { rewrite zlen_app, Hpl. unfold zlen. by rewrite Hl. }
  rewrite Z.ltb_irrefl. rewrite slice_app_end; [done|done|].
  rewrite Hpl. unfold zlen. lia.
Qed.

Lemma decode_vec_encode f : frame_ok f -> decode_vec (encode_frame f) = Ok f.
Proof. intros (Hok & Hv & Hpl). destruct f as [h p]. by apply decode_vec_intro. Qed.

(** ** Properties *)

(** C24 (round trip).  Decoding the bytes of a well-formed frame, at any
    header-aligned address, returns that frame. *)
Theorem decode_encode_frame addr f :
  frame_ok f -> addr mod HEADER_ALIGN = 0 ->
  decode_frame addr (encode_frame f) = Ret (Ok f).
Proof.
  intros Hok Ha. by rewrite decode_frame_aligned, decode_vec_encode.
Qed.

(** Whatever byte buffer the decoder accepts is exactly the
    encoding of the frame it returns, and that frame is well formed: nothing of
    the input is dropped, and a buffer has one reading. *)
Theorem encode_decode_frame addr bytes f :
  is_bytes bytes -> decode_frame addr bytes = Ret (Ok f) ->
  encode_frame f = bytes /\ frame_ok f.
Proof.
  intros Hb Hd.
  assert (decode_vec bytes = Ok f) as Hv.
  { revert Hd. unfold decode_vec, decode_frame, try_from_bytes. simpl.
    destruct (addr mod HEADER_ALIGN =? 0); [by intros ->|].
    destruct (_ <? _)%nat; done. }
  apply decode_vec_ok_inv in Hv as (Hl & Hh & Hval & Hp & Hlen).
  assert (length (take HEADER_SIZE bytes) = HEADER_SIZE) as Ht by (rewrite length_take; lia).
  assert (is_bytes (take HEADER_SIZE bytes)) as Htb by by apply Forall_take.
  split.
  - unfold encode_frame. rewrite Hh, Hp, as_bytes_header_of by done. apply take_drop.
  - split; [rewrite Hh; by apply header_of_image_ok|]. split; [done|].
    rewrite Hp. unfold zlen in *. rewrite length_drop. lia.
Qed.

(** The four outcomes of decoding, by the condition that selects
    each: short buffers are refused whatever their address, an unaligned buffer
    of header size or more aborts the thread instead of returning an error, and
    an aligned one is refused for the header check or for a length that differs
    from the announced one. *)
Theorem decode_frame_cases addr bytes :
  let h := header_of_image (take HEADER_SIZE bytes) in
  decode_frame addr bytes =
    if (length bytes <? HEADER_SIZE)%nat then Ret (Err BufferTooSmall)
    else if negb (addr mod HEADER_ALIGN =? 0) then Panic
    else match validate_header h with
         | Err e => Ret (Err e)
         | Ok _ =>
             match Z.compare (zlen bytes) (32 + payload_length h) with
             | Lt => Ret (Err BufferTooSmall)
             | Gt => Ret (Err InvalidPayloadLength)
             | Eq => Ret (Ok {| header := h; payload := drop HEADER_SIZE bytes |})
             end
         end.
Proof.
  intros h. unfold decode_frame, try_from_bytes. rewrite slice_0. fold h. clearbody h.
  destruct (_ <? _)%nat; [done|]. destruct (addr mod HEADER_ALIGN =? 0); [|done].
  cbn [negb]. destruct (validate_header h) as [[]|]; [|done].
  change (Z.of_nat HEADER_SIZE) with 32. unfold Z.ltb.
  rewrite (Z.compare_antisym (zlen bytes)).
  destruct (Z.compare_spec (zlen bytes) (32 + payload_length h)) as [He|?|?]; [|done..].
  cbn [CompOpp]. unfold slice. rewrite take_ge; [done|].
  rewrite length_drop. unfold zlen, HEADER_SIZE in *. lia.
Qed.

Definition sample_frame : ProtocolFrame :=
  {| header := {| magic := PROTOCOL_MAGIC; schema_version := 256; flags := 3;
                  packet_type := 2; payload_length := 3; sequence_number := 7;
                  session_epoch := 9; monotonic_timestamp := 11 |};
     payload := [1; 2; 255] |}.

Lemma decode_encode_frame_witness :
  decode_frame 64 (encode_frame sample_frame) = Ret (Ok sample_frame).
Proof. apply decode_encode_frame; [by_decide|reflexivity]. Defined.

Lemma encode_decode_frame_witness :
  encode_frame sample_frame = encode_frame sample_frame /\ frame_ok sample_frame.
Proof.
  apply (encode_decode_frame 8 (encode_frame sample_frame)).
  - by_decide.
  - vm_compute. reflexivity.
Defined.
