(* ===== verification/Cbor.v ===== *)
(** * The CBOR library as an interface

    Messages, encrypted frames and relay control messages are serialized with
    the third-party crate [ciborium].  The development never looks inside it:
    code that serializes is parameterised by [Cbor], and theorems that need more
    than the calls themselves assume [CborLaws], the documented contract that
    reading back what was written yields the same value.

    [countable_cbor] is one implementation of the interface (it writes the
    little-endian digits of the value's index), used to instantiate the
    interface on concrete inputs. *)

From S2P Require Import Prelude.

(** [ciborium::ser::into_writer] into a fresh vector, and
    [ciborium::de::from_reader] from a slice; [None] is their error. *)
Class Cbor (A : Type) := {
  into_writer : A -> option (list Z);
  from_reader : list Z -> option A;
}.

Class CborLaws (A : Type) `{Cbor A} : Prop := {
  from_into_writer : forall (x : A) b, into_writer x = Some b -> from_reader b = Some x;
  into_writer_nonempty : forall (x : A) b, into_writer x = Some b -> b <> [];
  into_writer_bytes : forall (x : A) b, into_writer x = Some b -> is_bytes b;
}.

(** ** A concrete implementation *)

(** Digits of a positive number in base 256, at least one of them. *)
Definition digits256 (p : positive) : list Z :=
  le_bytes (S (Z.to_nat (Z.log2 (Zpos p) / 8))) (Zpos p).

Lemma le_num_digits256 p : le_num (digits256 p) = Zpos p.
Proof.
  unfold digits256. apply le_num_le_bytes_small. split; [lia|].
  rewrite Nat2Z.inj_succ, Z2Nat.id by (pose proof (Z.log2_nonneg (Zpos p)); Z.div_mod_to_equations; lia).
  eapply Z.lt_le_trans; [apply (proj2 (Z.log2_spec (Zpos p) eq_refl))|].
  apply Z.pow_le_mono_r; [lia|]. Z.div_mod_to_equations. lia.
Qed.

Definition countable_cbor (A : Type) `{Countable A} : Cbor A := {|
  into_writer x := Some (digits256 (encode x));
  from_reader b := match le_num b with Zpos p => decode p | _ => None end;
|}.

Lemma countable_cbor_laws (A : Type) `{Countable A} : @CborLaws A (countable_cbor A).
Proof.
  split; simpl; intros x b [= <-].
  - by rewrite le_num_digits256, decode_encode.
  - done.
  - apply le_bytes_bytes.
Qed.
