(* ===== verification/Message.v ===== *)
(** * Application messages (bw-protocol, [message.rs])

    The message types, the typed payloads and their builders and accessors, the
    size limits on what is deserialized, and message validation.  Payloads are
    serialized through the [Cbor] interface. *)

From stdpp Require Import strings.
From S2P Require Import Prelude Codec Cbor.

(** ** Data *)

Inductive MessageType : Type :=
| Ping | Pong | Hello | Goodbye | Heartbeat | Data | Control | Error
| InputKeyboard | InputMouse | ClipboardData | AudioData | IceCandidate | VideoData.

#[global] Instance MessageType_eq_dec : EqDecision MessageType.
Proof. solve_decision. Defined.

(** The [repr(u8)] discriminants. *)
Definition message_type_code (t : MessageType) : Z :=
  match t with
  | Ping => 0 | Pong => 1 | Hello => 2 | Goodbye => 3 | Heartbeat => 4 | Data => 5
  | Control => 6 | Error => 7 | InputKeyboard => 8 | InputMouse => 9
  | ClipboardData => 10 | AudioData => 11 | IceCandidate => 12 | VideoData => 13
  end.

#[global] Instance MessageType_countable : Countable MessageType.
Proof.
  refine (inj_countable' message_type_code
    (fun c => match c with
     | 0 => Ping | 1 => Pong | 2 => Hello | 3 => Goodbye | 4 => Heartbeat | 5 => Data
     | 6 => Control | 7 => Error | 8 => InputKeyboard | 9 => InputMouse
     | 10 => ClipboardData | 11 => AudioData | 12 => IceCandidate | _ => VideoData
     end) _).
  by intros [].
Defined.

Record KeyboardEvent := { keycode : Z; is_down : bool }.

Record MouseEvent := { dx : Z; dy : Z; buttons_mask : Z; is_absolute : bool }.

Inductive ClipboardFormat : Type :=
| Text
| ImageRgba8 (width height : Z).

Record ClipboardEvent := { format : ClipboardFormat; clip_data : list Z }.

Record AudioPayload := { channels : Z; sample_rate : Z; opus_data : list Z }.

Record IceCandidatePayload := {
  candidate_str : string;
  sdp_mid : option string;
  sdp_mline_index : option Z;
}.

Record VideoPayload := { encoded_frame : list Z }.

Record ProtocolMessage := {
  message_type : MessageType;
  message_id : Z;
  msg_flags : Z;
  msg_payload : list Z;
}.

#[global] Instance KeyboardEvent_eq_dec : EqDecision KeyboardEvent.
Proof. solve_decision. Defined.
#[global] Instance MouseEvent_eq_dec : EqDecision MouseEvent.
Proof. solve_decision. Defined.
#[global] Instance ClipboardFormat_eq_dec : EqDecision ClipboardFormat.
Proof. solve_decision. Defined.
#[global] Instance ClipboardEvent_eq_dec : EqDecision ClipboardEvent.
Proof. solve_decision. Defined.
#[global] Instance ProtocolMessage_eq_dec : EqDecision ProtocolMessage.
Proof. solve_decision. Defined.

#[global] Instance KeyboardEvent_countable : Countable KeyboardEvent.
Proof.
  refine (inj_countable' (fun e => (keycode e, is_down e))
    (fun p => {| keycode := p.1; is_down := p.2 |}) _). by intros [].
Defined.

#[global] Instance MouseEvent_countable : Countable MouseEvent.
Proof.
  refine (inj_countable' (fun e => (dx e, dy e, buttons_mask e, is_absolute e))
    (fun p => {| dx := p.1.1.1; dy := p.1.1.2; buttons_mask := p.1.2; is_absolute := p.2 |}) _).
  by intros [].
Defined.

#[global] Instance AudioPayload_eq_dec : EqDecision AudioPayload.
Proof. solve_decision. Defined.
#[global] Instance IceCandidatePayload_eq_dec : EqDecision IceCandidatePayload.
Proof. solve_decision. Defined.
#[global] Instance VideoPayload_eq_dec : EqDecision VideoPayload.
Proof. solve_decision. Defined.

#[global] Instance AudioPayload_countable : Countable AudioPayload.
Proof.
  refine (inj_countable' (fun e => (channels e, sample_rate e, opus_data e))
    (fun p => {| channels := p.1.1; sample_rate := p.1.2; opus_data := p.2 |}) _).
  by intros [].
Defined.

#[global] Instance IceCandidatePayload_countable : Countable IceCandidatePayload.
Proof.
  refine (inj_countable' (fun e => (candidate_str e, sdp_mid e, sdp_mline_index e))
    (fun p => {| candidate_str := p.1.1; sdp_mid := p.1.2; sdp_mline_index := p.2 |}) _).
  by intros [].
Defined.

#[global] Instance VideoPayload_countable : Countable VideoPayload.
Proof.
  refine (inj_countable' encoded_frame (fun p => {| encoded_frame := p |}) _). by intros [].
Defined.

#[global] Instance ProtocolMessage_countable : Countable ProtocolMessage.
Proof.
  refine (inj_countable' (fun e => (message_type e, message_id e, msg_flags e, msg_payload e))
    (fun p => {| message_type := p.1.1.1; message_id := p.1.1.2; msg_flags := p.1.2;
                 msg_payload := p.2 |}) _).
  by intros [].
Defined.

#[global] Instance ClipboardEvent_countable : Countable ClipboardEvent.
Proof.
  refine (inj_countable'
    (fun e => (match format e with Text => None | ImageRgba8 w h => Some (w, h) end, clip_data e))
    (fun p => {| format := match p.1 with None => Text | Some (w, h) => ImageRgba8 w h end;
                 clip_data := p.2 |}) _).
  by intros [[] ?].
Defined.

(** ** Limits *)

Definition MAX_DESER_SIZE : Z := 4 * 1024 * 1024.
Definition MAX_CLIPBOARD_TEXT_LEN : Z := 1024 * 1024.
Definition MAX_CLIPBOARD_IMAGE_DIM : Z := 4096.

(** [usize::checked_mul] on the 64-bit targets. *)
Definition checked_mul (a b : Z) : option Z :=
  if a * b <? 2 ^ 64 then Some (a * b) else None.

(** The limit checks [as_clipboard_event] applies to a decoded event. *)
Definition clipboard_check (event : ClipboardEvent) : option ClipboardEvent :=
  match format event with
  | Text => if MAX_CLIPBOARD_TEXT_LEN <? zlen (clip_data event) then None else Some event
  | ImageRgba8 width height =>
      if (MAX_CLIPBOARD_IMAGE_DIM <? width) || (MAX_CLIPBOARD_IMAGE_DIM <? height) then None
      else
        match checked_mul width height ≫= (fun a => checked_mul a 4) with
        | Some exp => if exp =? zlen (clip_data event) then Some event else None
        | None => None
        end
  end.

(** ** Builders and accessors *)

Section Messages.
Context `{Cbor KeyboardEvent, Cbor MouseEvent, Cbor ClipboardEvent, Cbor AudioPayload}.
Context `{Cbor IceCandidatePayload, Cbor VideoPayload, Cbor ProtocolMessage}.

(** The shape every builder shares: id and flags zero, the serialized event
    as payload. *)
Definition build {A} `{Cbor A} (t : MessageType) (event : A) :
    result ProtocolError ProtocolMessage :=
  match into_writer event with
  | None => Err SerializationError
  | Some payload =>
      Ok {| message_type := t; message_id := 0; msg_flags := 0; msg_payload := payload |}
  end.

Definition serialize (m : ProtocolMessage) : result ProtocolError (list Z) :=
  ok_or SerializationError (into_writer m).

Definition deserialize (bytes : list Z) : result ProtocolError ProtocolMessage :=
  if MAX_DESER_SIZE <? zlen bytes then Err (OversizedPayload (zlen bytes) MAX_DESER_SIZE)
  else ok_or DeserializationError (from_reader bytes).

Definition keyboard_event (code : Z) (down : bool) : result ProtocolError ProtocolMessage :=
  build InputKeyboard {| keycode := code; is_down := down |}.

Definition mouse_event_abs (x y mask : Z) (absolute : bool) :
    result ProtocolError ProtocolMessage :=
  build InputMouse {| dx := x; dy := y; buttons_mask := mask; is_absolute := absolute |}.

Definition mouse_event (x y mask : Z) : result ProtocolError ProtocolMessage :=
  mouse_event_abs x y mask false.

Definition as_keyboard_event (m : ProtocolMessage) : option KeyboardEvent :=
  if decide (message_type m = InputKeyboard) then from_reader (msg_payload m) else None.

Definition as_mouse_event (m : ProtocolMessage) : option MouseEvent :=
  if decide (message_type m = InputMouse) then from_reader (msg_payload m) else None.

Definition clipboard_event (e : ClipboardEvent) : result ProtocolError ProtocolMessage :=
  build ClipboardData e.

Definition as_clipboard_event (m : ProtocolMessage) : option ClipboardEvent :=
  if decide (message_type m = ClipboardData) then
    from_reader (msg_payload m) ≫= clipboard_check
  else None.

Definition audio_data (p : AudioPayload) : result ProtocolError ProtocolMessage :=
  build AudioData p.

Definition as_audio_data (m : ProtocolMessage) : option AudioPayload :=
  if decide (message_type m = AudioData) then from_reader (msg_payload m) else None.

Definition ice_candidate (p : IceCandidatePayload) : result ProtocolError ProtocolMessage :=
  build IceCandidate p.

Definition as_ice_candidate (m : ProtocolMessage) : option IceCandidatePayload :=
  if decide (message_type m = IceCandidate) then from_reader (msg_payload m) else None.

Definition video_data (p : VideoPayload) : result ProtocolError ProtocolMessage :=
  build VideoData p.

Definition as_video_data (m : ProtocolMessage) : option VideoPayload :=
  if decide (message_type m = VideoData) then from_reader (msg_payload m) else None.
End Messages.

(** [matches!] on the payload-carrying types. *)
Definition carries_payload (t : MessageType) : bool :=
  match t with
  | InputKeyboard | InputMouse | ClipboardData | AudioData | IceCandidate | VideoData => true
  | _ => false
  end.

Definition is_empty {A} (l : list A) : bool := match l with [] => true | _ => false end.

Definition validate_message (m : ProtocolMessage) : result ProtocolError unit :=
  if bool_decide (message_type m = Data) && is_empty (msg_payload m) && negb (msg_flags m =? 0)
  then Err InvalidPayloadLength
  else if carries_payload (message_type m) && is_empty (msg_payload m)
  then Err InvalidPayloadLength
  else Ok tt.

(** ** What the clipboard limits promise *)

(** An event the receiver will apply. *)
Definition clipboard_within_limits (e : ClipboardEvent) : Prop :=
  match format e with
  | Text => zlen (clip_data e) <= MAX_CLIPBOARD_TEXT_LEN
  | ImageRgba8 w h =>
      w <= MAX_CLIPBOARD_IMAGE_DIM /\ h <= MAX_CLIPBOARD_IMAGE_DIM /\
      zlen (clip_data e) = w * h * 4
  end.

(** The dimensions are machine words. *)
Definition clipboard_event_ok (e : ClipboardEvent) : Prop :=
  match format e with
  | Text => True
  | ImageRgba8 w h => uint 64 w /\ uint 64 h
  end.

#[global] Instance clipboard_within_limits_dec e : Decision (clipboard_within_limits e).
Proof. unfold clipboard_within_limits. destruct (format e); apply _. Defined.

#[global] Instance clipboard_event_ok_dec e : Decision (clipboard_event_ok e).
Proof. unfold clipboard_event_ok. destruct (format e); apply _. Defined.

(** ** Lemmas *)

Lemma build_ok {A} `{Cbor A} t (e : A) m :
  build t e = Ok m -> message_type m = t /\ into_writer e = Some (msg_payload m).
Proof. unfold build. destruct (into_writer e); [|done]. by intros [= <-]. Qed.

(** The reader gets back the event the builder serialized. *)
Lemma build_read {A} `{CborLaws A} t (e : A) m :
  build t e = Ok m -> message_type m = t /\ from_reader (msg_payload m) = Some e.
Proof. intros [Ht Hw]%build_ok. split; [done|]. by apply from_into_writer. Qed.

Lemma build_valid {A} `{CborLaws A} t (e : A) m :
  build t e = Ok m -> validate_message m = Ok tt.
Proof.
  intros [_ Hw]%build_ok. apply into_writer_nonempty in Hw.
  unfold validate_message. destruct (msg_payload m); [done|].
  by rewrite !andb_false_r.
Qed.

(** The dimension checks make the overflow check of the product redundant. *)
Lemma image_product_fits w h :
  0 <= w <= MAX_CLIPBOARD_IMAGE_DIM -> 0 <= h <= MAX_CLIPBOARD_IMAGE_DIM ->
  checked_mul w h ≫= (fun a => checked_mul a 4) = Some (w * h * 4).
Proof.
  unfold MAX_CLIPBOARD_IMAGE_DIM. intros Hw Hh.
  assert (w * h <= 4096 * 4096) by nia. unfold checked_mul.
  rewrite (proj2 (Z.ltb_lt (w * h) _)) by lia. cbn [mbind option_bind].
  by rewrite (proj2 (Z.ltb_lt _ _)) by lia.
Qed.

Lemma clipboard_check_spec e :
  clipboard_event_ok e ->
  clipboard_check e = if decide (clipboard_within_limits e) then Some e else None.
Proof.
  unfold clipboard_check. case_decide as Hw; revert Hw;
    unfold clipboard_event_ok, clipboard_within_limits; destruct (format e) as [|w h].
  1, 3: intros ? _; case_bool; done.
  all: intros Hw [[? _] [? _]];
    destruct (Z.ltb_spec MAX_CLIPBOARD_IMAGE_DIM w), (Z.ltb_spec MAX_CLIPBOARD_IMAGE_DIM h);
    simpl; try done; try lia; rewrite image_product_fits by done; case_bool; done.
Qed.

Lemma clipboard_check_same e e' : clipboard_check e = Some e' -> e' = e.
Proof. unfold clipboard_check. repeat case_match; naive_solver. Qed.

(** ** Properties *)

Section Properties.
Context `{CborLaws KeyboardEvent, CborLaws MouseEvent, CborLaws ClipboardEvent}.
Context `{CborLaws AudioPayload, CborLaws IceCandidatePayload, CborLaws VideoPayload}.

(** For every kind of typed payload, the accessor on the
    message the builder made returns the event that was put in, and the
    message passes validation. *)
Theorem typed_payload_roundtrip :
  (forall k d m, keyboard_event k d = Ok m ->
     as_keyboard_event m = Some {| keycode := k; is_down := d |} /\ validate_message m = Ok tt) /\
  (forall x y b a m, mouse_event_abs x y b a = Ok m ->
     as_mouse_event m = Some {| dx := x; dy := y; buttons_mask := b; is_absolute := a |} /\
     validate_message m = Ok tt) /\
  (forall p m, audio_data p = Ok m -> as_audio_data m = Some p /\ validate_message m = Ok tt) /\
  (forall p m, ice_candidate p = Ok m ->
     as_ice_candidate m = Some p /\ validate_message m = Ok tt) /\
  (forall p m, video_data p = Ok m -> as_video_data m = Some p /\ validate_message m = Ok tt).
Proof.
  unfold keyboard_event, mouse_event_abs, audio_data, ice_candidate, video_data.
  repeat apply conj; intros *; intros Hb; (split; [|by eapply build_valid in Hb]);
    apply build_read in Hb as [Ht Hr].
  - unfold as_keyboard_event. by rewrite decide_True.
  - unfold as_mouse_event. by rewrite decide_True.
  - unfold as_audio_data. by rewrite decide_True.
  - unfold as_ice_candidate. by rewrite decide_True.
  - unfold as_video_data. by rewrite decide_True.
Qed.

(** The clipboard accessor returns an event exactly when the
    message is a clipboard message whose payload decodes to an event within
    the limits; an accepted image never overflows the size computation and an
    accepted event never holds more than 64 MiB. *)
Theorem clipboard_limits_enforced (m : ProtocolMessage) (e : ClipboardEvent) :
  clipboard_event_ok e ->
  (as_clipboard_event m = Some e <->
     message_type m = ClipboardData /\ from_reader (msg_payload m) = Some e /\
     clipboard_within_limits e) /\
  (clipboard_within_limits e -> zlen (clip_data e) <= 64 * 1024 * 1024).
Proof.
  intros Hok. split.
  - unfold as_clipboard_event. destruct (decide (message_type m = ClipboardData)) as [Ht|Ht]; [|naive_solver].
    rewrite bind_Some. split.
    + intros (e' & Hr & Hc). pose proof (clipboard_check_same _ _ Hc) as <-.
      rewrite clipboard_check_spec in Hc by done. case_decide; naive_solver.
    + intros (_ & Hr & Hw). exists e. split; [done|].
      rewrite clipboard_check_spec by done. by rewrite decide_True.
  - unfold clipboard_within_limits, clipboard_event_ok in *.
    destruct (format e) as [|w h]; unfold MAX_CLIPBOARD_TEXT_LEN, MAX_CLIPBOARD_IMAGE_DIM in *;
      [lia|]. destruct Hok as [[? _] [? _]]. intros (? & ? & ->). nia.
Qed.
End Properties.

(** ** Instances on concrete inputs *)

Section Witnesses.
#[local] Existing Instance countable_cbor.
#[local] Existing Instance countable_cbor_laws.

Lemma typed_payload_roundtrip_witness :
  exists m, keyboard_event 65 true = Ok m /\
    as_keyboard_event m = Some {| keycode := 65; is_down := true |} /\
    validate_message m = Ok tt.
Proof.
  eexists. split; [reflexivity|]. apply typed_payload_roundtrip. reflexivity.
Defined.

Lemma clipboard_limits_enforced_witness :
  as_clipboard_event
    {| message_type := ClipboardData; message_id := 0; msg_flags := 0;
       msg_payload := digits256
         (encode {| format := ImageRgba8 1 1; clip_data := [1; 2; 3; 4] |}) |} =
  Some {| format := ImageRgba8 1 1; clip_data := [1; 2; 3; 4] |}.
Proof.
  refine (proj2 (proj1 (clipboard_limits_enforced _ _ _)) _); [by_decide|].
  split; [reflexivity|]. split; [vm_compute; reflexivity|by_decide].
Defined.
End Witnesses.
