(* ===== verification/Routing.v ===== *)
(** * Routing and dispatch (bw-protocol)

    Models [routing.rs] (node and session identifiers, routes, envelopes and
    their validation), [dispatcher.rs] (the handler table, [dispatch] and the
    receive loop [run]) and [transport.rs] (the transport interface and its
    in-memory implementation, a pair of endpoints over two bounded channels).

    Handlers are closures with captured state; a handler here is a function
    from that state and the envelope to the new state and the result.  A receive
    or send that awaits is [None]: the call has not returned. *)

From stdpp Require Import strings.
From S2P Require Import Prelude Codec Cbor Message.

(** ** Identifiers *)

(** [NodeId(DeviceId)]: the 32-byte digest. *)
Definition NodeId : Type := list Z.

(** [SessionId([u8; 16])]. *)
Definition SessionId : Type := list Z.

#[global] Instance NodeId_eq_dec : EqDecision NodeId.
Proof. unfold NodeId. apply _. Defined.

(** [ConstantTimeEq::ct_eq(..).unwrap_u8()]. *)
Definition ct_eq (a b : list Z) : Z := if decide (a = b) then 1 else 0.

Definition broadcast : NodeId := replicate 32 0.

Definition is_broadcast (n : NodeId) : bool := ct_eq n (replicate 32 0) =? 1.

(** ** Envelopes *)

Inductive Route : Type :=
| Direct
| Broadcast
| Loopback
| Relay (via : NodeId).

Record MessageEnvelope := {
  source : NodeId;
  destination : NodeId;
  session_id : SessionId;
  route : Route;
  message : ProtocolMessage;
  routing_flags : Z;
}.

Definition validate_envelope (e : MessageEnvelope) : result ProtocolError unit :=
  let? _ := validate_message (message e) in
  match route e with
  | Loopback => if ct_eq (source e) (destination e) =? 0 then Err InvalidRoute else Ok tt
  | Direct =>
      if ct_eq (source e) (destination e) =? 1 then Err InvalidDestination
      else if is_broadcast (destination e) then Err InvalidDestination
      else Ok tt
  | Broadcast => if negb (is_broadcast (destination e)) then Err InvalidDestination else Ok tt
  | Relay via =>
      if ct_eq (source e) (destination e) =? 1 then Err InvalidDestination
      else if (ct_eq via (source e) =? 1) || (ct_eq via (destination e) =? 1)
      then Err InvalidRoute
      else if is_broadcast (destination e) then Err InvalidDestination
      else Ok tt
  end.

Section EnvelopeCodec.
Context `{Cbor MessageEnvelope}.

Definition serialize_envelope (e : MessageEnvelope) : result ProtocolError (list Z) :=
  ok_or SerializationError (into_writer e).

Definition deserialize_envelope (bytes : list Z) : result ProtocolError MessageEnvelope :=
  ok_or DeserializationError (from_reader bytes).
End EnvelopeCodec.

(** The endpoints a route may connect. *)
Definition route_allows (e : MessageEnvelope) : Prop :=
  match route e with
  | Loopback => source e = destination e
  | Direct => source e <> destination e /\ destination e <> broadcast
  | Broadcast => destination e = broadcast
  | Relay via =>
      source e <> destination e /\ via <> source e /\ via <> destination e /\
      destination e <> broadcast
  end.

(** ** Dispatcher *)

Inductive DispatchError : Type :=
| Validation (e : ProtocolError)
| NoHandler (t : MessageType)
| Handler (reason : string).

Section Dispatcher.
Context {St : Type}.

Definition MessageHandler : Type := St -> MessageEnvelope -> St * result DispatchError unit.

Record MessageDispatcher := { handlers : gmap MessageType MessageHandler }.

Definition new_dispatcher : MessageDispatcher := {| handlers := ∅ |}.

Definition register_handler (d : MessageDispatcher) (t : MessageType) (h : MessageHandler) :
    MessageDispatcher := {| handlers := <[t := h]> (handlers d) |}.

(** [MessageDispatcher::validate]. *)
Definition validate (e : MessageEnvelope) : result DispatchError unit :=
  map_err Validation (validate_envelope e).

Definition dispatch (d : MessageDispatcher) (st : St) (e : MessageEnvelope) :
    St * result DispatchError unit :=
  match validate e with
  | Err err => (st, Err err)
  | Ok _ =>
      match handlers d !! message_type (message e) with
      | None => (st, Err (NoHandler (message_type (message e))))
      | Some handler => handler st e
      end
  end.
End Dispatcher.

Arguments MessageHandler : clear implicits.
Arguments MessageDispatcher : clear implicits.

(** ** Transports *)

Inductive ConnectionState : Type :=
| Disconnected | Connecting | Connected | Disconnecting | Failed.

#[global] Instance ConnectionState_eq_dec : EqDecision ConnectionState.
Proof. solve_decision. Defined.

Definition state_code (s : ConnectionState) : Z :=
  match s with
  | Disconnected => 0 | Connecting => 1 | Connected => 2 | Disconnecting => 3 | Failed => 4
  end.

Definition state_of_code (c : Z) : ConnectionState :=
  match c with
  | 0 => Disconnected | 1 => Connecting | 2 => Connected | 3 => Disconnecting | _ => Failed
  end.

(** The transport trait: [None] when the call awaits and has not returned. *)
Class Transport (T : Type) := {
  send : T -> ProtocolFrame -> option (T * result ProtocolError unit);
  receive : T -> option (T * result ProtocolError ProtocolFrame);
  state : T -> ConnectionState;
  close : T -> T * result ProtocolError unit;
}.

(** What a run of the receive loop has come to. *)
Inductive loop_result (T St : Type) : Type :=
| Stopped (t : T) (st : St) (e : DispatchError)   (* [run] returned [Err e] *)
| Awaiting (t : T) (st : St)                      (* blocked in [receive] *)
| OutOfFuel.
Arguments Stopped {T St} t st e.
Arguments Awaiting {T St} t st.
Arguments OutOfFuel {T St}.

Section Run.
Context {St T : Type} `{Transport T, Cbor MessageEnvelope}.

(** [MessageDispatcher::run]; every iteration consumes one unit of fuel. *)
Fixpoint run (fuel : nat) (d : MessageDispatcher St) (t : T) (st : St) : loop_result T St :=
  match fuel with
  | O => OutOfFuel
  | S fuel =>
      match receive t with
      | None => Awaiting t st
      | Some (t, Err e) => Stopped t st (Validation e)
      | Some (t, Ok frame) =>
          match deserialize_envelope (payload frame) with
          | Err e => Stopped t st (Validation e)
          | Ok envelope =>
              match dispatch d st envelope with
              | (st, Err e) => Stopped t st e
              | (st, Ok _) => run fuel d t st
              end
          end
      end
  end.
End Run.

(** ** The in-memory transport *)

(** One endpoint's view: its state word, the channel it sends into and the
    channel it receives from. *)
Record MockTransport := {
  mock_state : Z;
  tx : list (list Z);
  rx : list (list Z);
  channel_capacity : nat;
}.

Definition get_state (t : MockTransport) : ConnectionState := state_of_code (mock_state t).

Definition set_state (t : MockTransport) (s : ConnectionState) : MockTransport :=
  {| mock_state := state_code s; tx := tx t; rx := rx t;
     channel_capacity := channel_capacity t |}.

(** Both endpoints of [new_pair] start connected with empty channels. *)
Definition new_mock (capacity : nat) : MockTransport :=
  {| mock_state := state_code Connected; tx := []; rx := []; channel_capacity := capacity |}.

Definition mock_send (t : MockTransport) (frame : ProtocolFrame) :
    option (MockTransport * result ProtocolError unit) :=
  if decide (get_state t = Connected) then
    let bytes := encode_frame frame in
    if (length (tx t) <? channel_capacity t)%nat then
      Some ({| mock_state := mock_state t; tx := tx t ++ [bytes]; rx := rx t;
               channel_capacity := channel_capacity t |}, Ok tt)
    else None
  else Some (t, Err InvalidRoute).

Definition mock_receive (t : MockTransport) :
    option (MockTransport * result ProtocolError ProtocolFrame) :=
  if decide (get_state t = Connected) then
    match rx t with
    | [] => None
    | bytes :: rest =>
        Some ({| mock_state := mock_state t; tx := tx t; rx := rest;
                 channel_capacity := channel_capacity t |}, decode_vec bytes)
    end
  else Some (t, Err InvalidRoute).

Definition mock_close (t : MockTransport) : MockTransport * result ProtocolError unit :=
  (set_state t Disconnected, Ok tt).

#[global] Instance mock_transport : Transport MockTransport := {|
  send := mock_send; receive := mock_receive; state := get_state; close := mock_close |}.

(** The messages one endpoint has sent become the other's inbox. *)
Definition deliver (from into : MockTransport) : MockTransport :=
  {| mock_state := mock_state into; tx := tx into; rx := rx into ++ tx from;
     channel_capacity := channel_capacity into |}.

(** ** Lemmas *)

Lemma ct_eq_1 a b : (ct_eq a b =? 1) = bool_decide (a = b).
Proof.
  unfold ct_eq. case_decide; [rewrite bool_decide_true | rewrite bool_decide_false]; auto.
Qed.

Lemma ct_eq_0 a b : (ct_eq a b =? 0) = bool_decide (a <> b).
Proof.
  unfold ct_eq. case_decide; [rewrite bool_decide_false | rewrite bool_decide_true]; auto.
Qed.

Lemma state_code_roundtrip s : state_of_code (state_code s) = s.
Proof. by destruct s. Qed.

(** ** Properties *)

(** An envelope is accepted exactly when its message is valid
    and its route may connect its endpoints: a relay differs from both ends,
    only a broadcast names the broadcast node, and loopback returns to the
    sender. *)
Theorem validate_envelope_ok_iff (e : MessageEnvelope) :
  validate_envelope e = Ok tt <->
  validate_message (message e) = Ok tt /\ route_allows e.
Proof.
  unfold validate_envelope, route_allows, is_broadcast.
  destruct (validate_message (message e)) as [[]|err]; [|naive_solver].
  destruct (route e) as [| | |via]; rewrite ?ct_eq_0, ?ct_eq_1;
    change (replicate 32 0) with broadcast; repeat case_bool_decide; simpl; intuition congruence.
Qed.

(** What the receive loop should do with a sequence of envelopes: hand them to
    [dispatch] in order, up to and including the first that fails.  Returns the
    final state, the error if any, and how many envelopes were taken. *)
Fixpoint dispatch_all {St} (d : MessageDispatcher St) (st : St) (es : list MessageEnvelope) :
    St * option DispatchError * nat :=
  match es with
  | [] => (st, None, O)
  | e :: es =>
      match dispatch d st e with
      | (st, Err err) => (st, Some err, 1%nat)
      | (st, Ok _) => let '(st, r, n) := dispatch_all d st es in (st, r, S n)
      end
  end.

Definition with_rx (t : MockTransport) (q : list (list Z)) : MockTransport :=
  {| mock_state := mock_state t; tx := tx t; rx := q; channel_capacity := channel_capacity t |}.

Lemma mock_receive_cons t f q :
  frame_ok f -> get_state t = Connected ->
  mock_receive (with_rx t (encode_frame f :: q)) = Some (with_rx t q, Ok f).
Proof.
  intros Hf Hc. unfold mock_receive. rewrite decide_True by done. simpl.
  destruct f as [h p], Hf as (Hok & Hv & Hpl).
  by rewrite (decode_vec_intro _ h p).
Qed.

Section RunProperties.
Context {St : Type} `{CborLaws MessageEnvelope}.

(** The receive loop over the in-memory transport
    implements [dispatch_all]: given frames that carry serialized envelopes,
    it dispatches them in order, stops with the first error a validation or a
    handler reports (leaving the later frames in the channel), and otherwise
    drains the channel and awaits the next frame.  Fuel beyond the number of
    queued frames is enough. *)
Theorem run_dispatches_in_order (d : MessageDispatcher St) (t : MockTransport) (st : St)
    (fs : list ProtocolFrame) (es : list MessageEnvelope) (fuel : nat) :
  get_state t = Connected ->
  Forall frame_ok fs ->
  Forall2 (fun f e => into_writer e = Some (payload f)) fs es ->
  (length fs < fuel)%nat ->
  run fuel d (with_rx t (encode_frame <$> fs)) st =
    match dispatch_all d st es with
    | (st', None, _) => Awaiting (with_rx t []) st'
    | (st', Some err, n) => Stopped (with_rx t (encode_frame <$> drop n fs)) st' err
    end.
Proof.
  intros Hc Hok Hser. revert fuel st.
  induction Hser as [|f e fs es Hw Hser IH]; intros [|fuel] st Hfuel; try lia.
  - simpl. unfold mock_receive. by rewrite decide_True.
  - apply Forall_cons_1 in Hok as [Hf Hok]. cbn [run fmap list_fmap dispatch_all].
    change (@receive _ mock_transport) with mock_receive.
    rewrite mock_receive_cons by done.
    unfold deserialize_envelope. rewrite (from_into_writer e _ Hw). simpl.
    destruct (dispatch d st e) as [st1 [[]|err]]; [|done].
    rewrite (IH Hok) by (simpl in Hfuel; lia).
    by destruct (dispatch_all d st1 es) as [[st2 [err|]] n].
Qed.
End RunProperties.

#[global] Instance Route_eq_dec : EqDecision Route.
Proof. solve_decision. Defined.
#[global] Instance Route_countable : Countable Route.
Proof.
  refine (inj_countable'
    (fun r => match r with
              | Direct => inl 0 | Broadcast => inl 1 | Loopback => inl 2 | Relay v => inr v
              end)
    (fun c => match c with
              | inl 0 => Direct | inl 1 => Broadcast | inl _ => Loopback | inr v => Relay v
              end) _).
  by intros [].
Defined.
#[global] Instance MessageEnvelope_eq_dec : EqDecision MessageEnvelope.
Proof. solve_decision. Defined.
#[global] Instance MessageEnvelope_countable : Countable MessageEnvelope.
Proof.
  refine (inj_countable'
    (fun e => (source e, destination e, session_id e, route e, message e, routing_flags e))
    (fun p => {| source := p.1.1.1.1.1; destination := p.1.1.1.1.2; session_id := p.1.1.1.2;
                 route := p.1.1.2; message := p.1.2; routing_flags := p.2 |}) _).
  by intros [].
Defined.

(** ** Instances on concrete inputs *)

Section Witnesses.
#[local] Existing Instance countable_cbor.
#[local] Existing Instance countable_cbor_laws.

(** A ping between two nodes, a handler that counts pings, and the frame
    that carries the envelope. *)
Definition sample_envelope : MessageEnvelope :=
  {| source := [1]; destination := [2]; session_id := [3]; route := Direct;
     message := {| message_type := Ping; message_id := 0; msg_flags := 0; msg_payload := [] |};
     routing_flags := 0 |}.

Definition count_pings : MessageDispatcher nat :=
  register_handler new_dispatcher Ping (fun n _ => (S n, Ok tt)).

Definition sample_carrier : ProtocolFrame :=
  let p := digits256 (encode sample_envelope) in
  {| header := {| magic := PROTOCOL_MAGIC; schema_version := 256; flags := 0;
                  packet_type := 2; payload_length := zlen p; sequence_number := 0;
                  session_epoch := 0; monotonic_timestamp := 0 |};
     payload := p |}.

Lemma run_dispatches_in_order_witness :
  run 3 count_pings (with_rx (new_mock 4) (encode_frame <$> [sample_carrier; sample_carrier])) O
  = Awaiting (with_rx (new_mock 4) []) 2%nat.
Proof.
  rewrite (run_dispatches_in_order _ _ _ [sample_carrier; sample_carrier]
             [sample_envelope; sample_envelope]).
  - vm_compute. reflexivity.
  - reflexivity.
  - by_decide.
  - repeat constructor.
  - simpl. lia.
Defined.
End Witnesses.
