(* ===== verification/Scheduler.v ===== *)
(** * The deficit-round-robin scheduler (bw-protocol, [scheduler.rs])

    Stream 0 is served strictly first; streams 1 to 6 share the link by deficit
    round robin.  [dequeue_next] loops until a front packet fits its stream's
    deficit; the loop is modelled turn by turn ([drr_turn]) with fuel, and the
    theorems show how much fuel is always enough.  Counters are 64-bit words
    with their wrap-around. *)

From S2P Require Import Prelude.

(** ** State *)

Definition NUM_STREAMS : nat := 7.
Definition NUM_DRR_STREAMS : nat := NUM_STREAMS - 1.
Definition DEFAULT_QUANTUM : Z := 1500.
Definition DEFAULT_WEIGHTS : list Z := [0; 6; 5; 3; 4; 2; 1].

Inductive SchedulerError : Type := InvalidStreamId (id : Z).

Record DrrScheduler := {
  queues : list (list (list Z));
  deficits : list Z;
  weights : list Z;
  quantum : Z;
  cursor : nat;
  round_start : nat;
  round : Z;
  credited_round : list Z;
}.

Definition with_quantum (q : Z) : DrrScheduler := {|
  queues := replicate NUM_STREAMS [];
  deficits := replicate NUM_STREAMS 0;
  weights := DEFAULT_WEIGHTS;
  quantum := q;
  cursor := 0;
  round_start := 0;
  round := 0;
  credited_round := replicate NUM_STREAMS U64_MAX;
|}.

Definition new : DrrScheduler := with_quantum DEFAULT_QUANTUM.

Definition set_queue (s : DrrScheduler) (i : nat) (q : list (list Z)) : DrrScheduler := {|
  queues := <[i := q]> (queues s); deficits := deficits s; weights := weights s;
  quantum := quantum s; cursor := cursor s; round_start := round_start s; round := round s;
  credited_round := credited_round s |}.

Definition set_deficit (s : DrrScheduler) (i : nat) (d : Z) : DrrScheduler := {|
  queues := queues s; deficits := <[i := d]> (deficits s); weights := weights s;
  quantum := quantum s; cursor := cursor s; round_start := round_start s; round := round s;
  credited_round := credited_round s |}.

Definition set_credited (s : DrrScheduler) (i : nat) (r : Z) : DrrScheduler := {|
  queues := queues s; deficits := deficits s; weights := weights s;
  quantum := quantum s; cursor := cursor s; round_start := round_start s; round := round s;
  credited_round := <[i := r]> (credited_round s) |}.

(** ** Operations *)

Definition stream_index (stream_id : Z) : result SchedulerError nat :=
  let idx := Z.to_nat stream_id in
  if (NUM_STREAMS <=? idx)%nat then Err (InvalidStreamId stream_id) else Ok idx.

Definition enqueue (s : DrrScheduler) (stream_id : Z) (data : list Z) :
    result SchedulerError DrrScheduler :=
  let? idx := stream_index stream_id in
  Ok (set_queue s idx (queues s !!! idx ++ [data])).

(** "Credit this stream once per round." *)
Definition credit (s : DrrScheduler) (i : nat) : DrrScheduler :=
  if credited_round s !!! i =? round s then s
  else
    let add := wrap 64 (weights s !!! i * quantum s) in
    set_credited (set_deficit s i (wrap 64 (deficits s !!! i + add))) i (round s).

(** The end of a turn: the cursor moves on, and a full circuit closes the round. *)
Definition advance (s : DrrScheduler) : DrrScheduler :=
  let c := ((cursor s + 1) mod NUM_DRR_STREAMS)%nat in
  if (c =? round_start s)%nat then
    {| queues := queues s; deficits := deficits s; weights := weights s;
       quantum := quantum s; cursor := c; round_start := c; round := wrap 64 (round s + 1);
       credited_round := credited_round s |}
  else
    {| queues := queues s; deficits := deficits s; weights := weights s;
       quantum := quantum s; cursor := c; round_start := round_start s; round := round s;
       credited_round := credited_round s |}.

Definition all_empty (qs : list (list (list Z))) : bool :=
  forallb (fun q => match q with [] => true | _ => false end) qs.

(** One iteration of the loop in [dequeue_next]. *)
Inductive turn : Type :=
| Serve (s : DrrScheduler) (i : nat) (data : list Z)
| AllEmpty (s : DrrScheduler)
| Continue (s : DrrScheduler).

Definition end_turn (s : DrrScheduler) : turn :=
  let s := advance s in
  if all_empty (drop 1 (queues s)) then AllEmpty s else Continue s.

Definition drr_turn (s : DrrScheduler) : turn :=
  let i := S (cursor s) in
  match queues s !!! i with
  | front :: rest =>
      let s := credit s i in
      let front_len := zlen front in
      if front_len <=? deficits s !!! i then
        Serve (set_deficit (set_queue s i rest) i (deficits s !!! i - front_len)) i front
      else end_turn s
  | [] => end_turn (set_deficit s i 0)
  end.

(** The loop; [None] when the fuel runs out. *)
Fixpoint drr_loop (fuel : nat) (s : DrrScheduler) :
    option (option (nat * list Z) * DrrScheduler) :=
  match fuel with
  | O => None
  | S fuel =>
      match drr_turn s with
      | Serve s i data => Some (Some (i, data), s)
      | AllEmpty s => Some (None, s)
      | Continue s => drr_loop fuel s
      end
  end.

Definition dequeue_next (fuel : nat) (s : DrrScheduler) :
    option (option (nat * list Z) * DrrScheduler) :=
  match queues s !!! 0%nat with
  | data :: rest => Some (Some (0%nat, data), set_queue s 0 rest)
  | [] => drr_loop fuel s
  end.

Definition is_empty (s : DrrScheduler) : bool := all_empty (queues s).

Definition queue_depth (s : DrrScheduler) (stream_id : Z) : result SchedulerError Z :=
  let? idx := stream_index stream_id in Ok (zlen (queues s !!! idx)).

Definition deficit (s : DrrScheduler) (stream_id : Z) : result SchedulerError Z :=
  let? idx := stream_index stream_id in Ok (deficits s !!! idx).

(** ** Invariant

    [L] bounds every queued packet.  Streams the cursor has passed this round,
    and those it has not reached yet, hold at most [L] of unused credit; the
    stream at the cursor may hold one further credit.  Streams ahead of the
    cursor have not been credited this round. *)

Definition deficit_bound (L : Z) (s : DrrScheduler) (i : nat) : Prop :=
  0 <= deficits s !!! i /\
  (if decide (i = S (cursor s) /\ credited_round s !!! i = round s)
   then deficits s !!! i <= L + weights s !!! i * quantum s
   else deficits s !!! i <= L).

Definition credit_bound (s : DrrScheduler) (i : nat) : Prop :=
  (credited_round s !!! i <= round s \/ credited_round s !!! i = U64_MAX) /\
  ((S (cursor s) < i)%nat -> credited_round s !!! i <> round s).

Record inv (L : Z) (s : DrrScheduler) : Prop := {
  inv_queues : length (queues s) = NUM_STREAMS;
  inv_deficits : length (deficits s) = NUM_STREAMS;
  inv_credited : length (credited_round s) = NUM_STREAMS;
  inv_weights : weights s = DEFAULT_WEIGHTS;
  inv_cursor : (cursor s < NUM_DRR_STREAMS)%nat;
  inv_start : round_start s = 0%nat;
  inv_round : 0 <= round s;
  inv_quantum : 0 <= quantum s;
  inv_packets : forall i p, (i < NUM_STREAMS)%nat -> p ∈ queues s !!! i -> zlen p <= L;
  inv_bound : forall i, (0 < i < NUM_STREAMS)%nat -> deficit_bound L s i;
  inv_credit : forall i, (0 < i < NUM_STREAMS)%nat -> credit_bound s i;
}.

(** Parameters for which no counter of the scheduler can overflow. *)
Definition in_range (L q : Z) : Prop := 0 <= L /\ 0 <= q /\ L + 6 * q < 2 ^ 64.

(** ** Basic lemmas *)

Lemma all_empty_spec qs : all_empty qs = true <-> forall q, q ∈ qs -> q = [].
Proof.
  unfold all_empty. rewrite forallb_forall. setoid_rewrite list_elem_of_In.
  split; intros H q Hq; specialize (H q Hq); by destruct q.
Qed.

Lemma all_empty_false qs i : (i < length qs)%nat -> qs !!! i <> [] -> all_empty qs = false.
Proof.
  intros Hi Hne. destruct (all_empty qs) eqn:E; [|done].
  rewrite all_empty_spec in E. destruct Hne. apply E.
  apply list_elem_of_lookup_total_2. done.
Qed.

(** A stream number is one of the six weighted streams. *)
Lemma stream_cases i : (0 < i < NUM_STREAMS)%nat ->
  i = 1%nat \/ i = 2%nat \/ i = 3%nat \/ i = 4%nat \/ i = 5%nat \/ i = 6%nat.
Proof. unfold NUM_STREAMS. lia. Qed.

Lemma weight_bound L s i : inv L s -> (0 < i < NUM_STREAMS)%nat -> 1 <= weights s !!! i <= 6.
Proof.
  intros Hi Hs. rewrite (inv_weights _ _ Hi).
  apply stream_cases in Hs. destruct_or!; subst; vm_compute; by split.
Qed.

Lemma credited_amount L s i :
  inv L s -> in_range L (quantum s) -> (0 < i < NUM_STREAMS)%nat ->
  deficits s !!! i <= L ->
  wrap 64 (deficits s !!! i + wrap 64 (weights s !!! i * quantum s)) =
  deficits s !!! i + weights s !!! i * quantum s.
Proof.
  intros Hi (HL & Hq & Hr) Hs Hd.
  pose proof (weight_bound _ _ _ Hi Hs). destruct (inv_bound _ _ Hi i Hs) as [Hd0 _].
  assert (0 <= weights s !!! i * quantum s <= 6 * quantum s) by nia.
  rewrite (wrap_small 64 (weights s !!! i * quantum s)) by (unfold uint; lia).
  rewrite wrap_small; [done|]. unfold uint. lia.
Qed.

(** What crediting the stream at the cursor does to it. *)
Lemma credit_at_cursor L s :
  inv L s -> in_range L (quantum s) ->
  let i := S (cursor s) in
  deficits (credit s i) !!! i =
    deficits s !!! i + (if credited_round s !!! i =? round s then 0 else weights s !!! i * quantum s) /\
  credited_round (credit s i) !!! i = round s /\
  0 <= deficits (credit s i) !!! i <= L + weights s !!! i * quantum s.
Proof.
  intros Hi Hr i.
  assert (0 < i < NUM_STREAMS)%nat as Hs
    by (pose proof (inv_cursor _ _ Hi); unfold NUM_DRR_STREAMS in *; subst i; lia).
  pose proof (weight_bound _ _ _ Hi Hs) as Hw.
  destruct (inv_bound _ _ Hi i Hs) as [Hd0 Hd]. destruct Hr as (HL & Hq & Hr').
  unfold credit. destruct (Z.eqb_spec (credited_round s !!! i) (round s)) as [He|He].
  - rewrite decide_True in Hd by done. split; [lia|]. split; [done|]. lia.
  - rewrite decide_False in Hd by naive_solver. simpl.
    rewrite !list_lookup_total_insert_eq
      by (rewrite ?(inv_deficits _ _ Hi), ?(inv_credited _ _ Hi); lia).
    rewrite (credited_amount L) by (done || lia). split; [done|]. split; [done|]. nia.
Qed.

(** Everything crediting leaves alone. *)
Lemma credit_frame s i :
  queues (credit s i) = queues s /\ weights (credit s i) = weights s /\
  quantum (credit s i) = quantum s /\ cursor (credit s i) = cursor s /\
  round_start (credit s i) = round_start s /\ round (credit s i) = round s /\
  length (deficits (credit s i)) = length (deficits s) /\
  length (credited_round (credit s i)) = length (credited_round s) /\
  (forall j, j <> i -> deficits (credit s i) !!! j = deficits s !!! j) /\
  (forall j, j <> i -> credited_round (credit s i) !!! j = credited_round s !!! j).
Proof.
  unfold credit. destruct (_ =? _); [done|]. simpl.
  rewrite !length_insert. repeat split; intros; by apply list_lookup_total_insert_ne.
Qed.

Lemma advance_frame s :
  queues (advance s) = queues s /\ deficits (advance s) = deficits s /\
  weights (advance s) = weights s /\ quantum (advance s) = quantum s /\
  credited_round (advance s) = credited_round s.
Proof. unfold advance. by destruct (_ =? _)%nat. Qed.

(** The cursor steps to the next stream, or wraps and opens a new round. *)
Lemma advance_cursor s :
  (cursor s < NUM_DRR_STREAMS)%nat -> round_start s = 0%nat ->
  0 <= round s -> round s + 1 < U64_MAX ->
  round_start (advance s) = 0%nat /\
  ((cursor (advance s) = S (cursor s) /\ round (advance s) = round s /\
    (S (cursor s) < NUM_DRR_STREAMS)%nat) \/
   (S (cursor s) = NUM_DRR_STREAMS /\ cursor (advance s) = 0%nat /\
    round (advance s) = round s + 1)).
Proof.
  unfold advance, NUM_DRR_STREAMS, NUM_STREAMS. intros Hc -> Hr0 Hr.
  destruct (decide (cursor s = 5%nat)) as [->|Hne].
  - simpl. split; [done|]. right. split; [done|]. split; [done|].
    apply wrap_small. unfold uint, U64_MAX in *. lia.
  - rewrite Nat.mod_small by lia. rewrite (proj2 (Nat.eqb_neq _ _)) by lia.
    simpl. split; [done|]. left. repeat split; lia.
Qed.

(** ** Preservation of the invariant *)

Lemma cursor_stream L s : inv L s -> (0 < S (cursor s) < NUM_STREAMS)%nat.
Proof. intros Hi. pose proof (inv_cursor _ _ Hi). unfold NUM_DRR_STREAMS in *. lia. Qed.

Lemma credit_inv L s :
  inv L s -> in_range L (quantum s) -> inv L (credit s (S (cursor s))).
Proof.
  intros Hi Hr. pose proof (credit_at_cursor _ _ Hi Hr) as (Hd & Hc & Hb).
  destruct (credit_frame s (S (cursor s))) as (Eq & Ew & Equ & Ec & Es & Er & El & El' & Ed & Ecr).
  destruct Hi as [Q D C W Cu St R Qu P B Cr].
  split; rewrite ?Eq, ?Ew, ?Equ, ?Ec, ?Es, ?Er, ?El, ?El'; try done.
  - intros i Hs. unfold deficit_bound. rewrite Ec, Er, Ew, Equ.
    destruct (decide (i = S (cursor s))) as [->|Hne].
    + split; [apply Hb|]. rewrite decide_True by done. apply Hb.
    + specialize (B i Hs) as [B0 B1]. rewrite Ed by done. split; [done|].
      rewrite decide_False by naive_solver. by rewrite decide_False in B1 by naive_solver.
  - intros i Hs. unfold credit_bound. rewrite Ec, Er.
    destruct (decide (i = S (cursor s))) as [->|Hne]; [|by rewrite Ecr; [apply Cr|]].
    rewrite Hc. split; [left; lia|lia].
Qed.

Lemma reset_inv L s : 0 <= L -> inv L s -> inv L (set_deficit s (S (cursor s)) 0).
Proof.
  intros HL Hi. pose proof (cursor_stream _ _ Hi) as Hs.
  destruct Hi as [Q D C W Cu St R Qu P B Cr]. split; simpl; try done.
  - by rewrite length_insert.
  - intros i Hi. unfold deficit_bound. simpl.
    destruct (decide (S (cursor s) = i)) as [<-|Hne].
    + rewrite list_lookup_total_insert_eq by lia. split; [done|].
      rewrite W. apply stream_cases in Hi.
      case_decide; [|done]. destruct_or!; rewrite Hi; vm_compute (DEFAULT_WEIGHTS !!! _); lia.
    + rewrite list_lookup_total_insert_ne by done. apply (B i Hi).
Qed.

(** Closing a turn is safe once the stream at the cursor holds at most [L]. *)
Lemma advance_inv L s :
  inv L s -> deficits s !!! S (cursor s) <= L -> round s + 1 < U64_MAX -> inv L (advance s).
Proof.
  intros Hi Hd Hr.
  destruct (advance_frame s) as (Eq & Ed & Ew & Equ & Ecr).
  destruct (advance_cursor s) as (Es & Hcase); [apply Hi..|done|].
  assert (forall i, (0 < i < NUM_STREAMS)%nat -> 0 <= weights s !!! i) as Hw
    by (intros i Hs; pose proof (weight_bound _ _ _ Hi Hs); lia).
  destruct Hi as [Q D C W Cu St R Qu P B Cr].
  split; rewrite ?Eq, ?Ed, ?Ew, ?Equ, ?Ecr; try done.
  - unfold NUM_DRR_STREAMS in *. destruct Hcase as [(-> & _ & ?)|(_ & -> & _)]; lia.
  - destruct Hcase as [(_ & -> & _)|(_ & _ & ->)]; lia.
  - intros i Hs. unfold deficit_bound. rewrite Ed, Ew, Equ, Ecr.
    specialize (B i Hs) as [B0 B1]. split; [done|].
    assert (deficits s !!! i <= L) as HdL.
    { destruct (decide (i = S (cursor s))) as [->|Hne]; [done|].
      by rewrite decide_False in B1 by naive_solver. }
    clear B1. case_decide; [|done]. specialize (Hw i Hs). nia.
  - intros i Hs. unfold credit_bound. rewrite Ecr.
    specialize (Cr i Hs) as [Cr1 Cr2].
    destruct Hcase as [(-> & -> & ?)|(_ & -> & ->)].
    + split; [done|]. intros ?. apply Cr2. lia.
    + split; [destruct Cr1; [left; lia|by right]|]. intros _. destruct Cr1; lia.
Qed.

Lemma serve_inv L s front rest :
  let i := S (cursor s) in
  inv L s -> queues s !!! i = front :: rest -> credited_round s !!! i = round s ->
  zlen front <= deficits s !!! i ->
  inv L (set_deficit (set_queue s i rest) i (deficits s !!! i - zlen front)).
Proof.
  intros i Hi Hq Hc Hd. pose proof (cursor_stream _ _ Hi) as Hs. fold i in Hs.
  pose proof (zlen_nonneg front) as Hf.
  destruct Hi as [Q D C W Cu St R Qu P B Cr]. split; simpl; rewrite ?length_insert; try done.
  - intros j p Hj. rewrite list_lookup_total_insert. case_decide as Hij; [|by apply P].
    destruct Hij as [<- _]. intros Hp. apply (P i); [done|]. rewrite Hq. by apply list_elem_of_further.
  - intros j Hj. specialize (B j Hj). unfold deficit_bound. simpl.
    rewrite list_lookup_total_insert. destruct (decide (i = j /\ _)) as [[<- _]|]; [|done].
    destruct B as [B0 B1]. rewrite decide_True in B1 by done. rewrite decide_True by done. lia.
Qed.

(** Serving the control stream. *)
Lemma pop_control_inv L s data rest :
  inv L s -> queues s !!! 0%nat = data :: rest -> inv L (set_queue s 0 rest).
Proof.
  intros [Q D C W Cu St R Qu P B Cr] H0.
  split; simpl; rewrite ?length_insert; try done.
  intros i p Hi. rewrite list_lookup_total_insert.
  destruct (decide (0%nat = i /\ _)) as [[<- _]|]; [|by apply P].
  intros Hp. apply (P 0%nat); [done|]. rewrite H0. by apply list_elem_of_further.
Qed.

(** ** Turns *)

(** A turn either serves the front packet of the cursor's stream, or ends with
    the stream credited but short, or finds the stream empty. *)
Variant turn_view (s : DrrScheduler) : turn -> Prop :=
| view_serve front rest :
    let i := S (cursor s) in
    let s1 := credit s i in
    queues s !!! i = front :: rest -> zlen front <= deficits s1 !!! i ->
    turn_view s
      (Serve (set_deficit (set_queue s1 i rest) i (deficits s1 !!! i - zlen front)) i front)
| view_short front rest :
    let i := S (cursor s) in
    let s1 := credit s i in
    queues s !!! i = front :: rest -> deficits s1 !!! i < zlen front ->
    turn_view s (end_turn s1)
| view_idle :
    queues s !!! S (cursor s) = [] -> turn_view s (end_turn (set_deficit s (S (cursor s)) 0)).

Lemma drr_turn_view s : turn_view s (drr_turn s).
Proof.
  unfold drr_turn. destruct (queues s !!! S (cursor s)) as [|front rest] eqn:Hq;
    [by apply view_idle|].
  destruct (Z.leb_spec (zlen front) (deficits (credit s (S (cursor s))) !!! S (cursor s)));
    [by eapply view_serve | by eapply view_short].
Qed.

(** The state in which a skipped turn ends, before the cursor moves. *)
Definition settled (s : DrrScheduler) : DrrScheduler :=
  match queues s !!! S (cursor s) with
  | _ :: _ => credit s (S (cursor s))
  | [] => set_deficit s (S (cursor s)) 0
  end.

Lemma settled_frame s :
  queues (settled s) = queues s /\ weights (settled s) = weights s /\
  quantum (settled s) = quantum s /\ cursor (settled s) = cursor s /\
  round_start (settled s) = round_start s /\ round (settled s) = round s /\
  (forall j, j <> S (cursor s) -> deficits (settled s) !!! j = deficits s !!! j) /\
  (forall j, j <> S (cursor s) -> credited_round (settled s) !!! j = credited_round s !!! j).
Proof.
  unfold settled. destruct (queues s !!! S (cursor s)) eqn:E.
  - simpl. repeat split; intros; by apply list_lookup_total_insert_ne.
  - destruct (credit_frame s (S (cursor s))) as (? & ? & ? & ? & ? & ? & _ & _ & ? & ?). done.
Qed.

Section Turns.
Context (L : Z) (s : DrrScheduler).
Hypothesis Hinv : inv L s.
Hypothesis Hrange : in_range L (quantum s).
Hypothesis Hround : round s + 1 < U64_MAX.

(** A turn that serves takes exactly the front packet of one stream. *)
Lemma turn_serve s' i data :
  drr_turn s = Serve s' i data ->
  i = S (cursor s) /\ inv L s' /\ quantum s' = quantum s /\ round s' = round s /\
  exists rest, queues s !!! i = data :: rest /\ queues s' = <[i := rest]> (queues s).
Proof.
  destruct (drr_turn_view s) as [front rest i' s1 Hq Hd| |]; unfold end_turn;
    try (by case_match). intros [= <- <- <-].
  destruct (credit_frame s (S (cursor s))) as (Eq & _ & Equ & Ec & _ & Er & _).
  destruct (credit_at_cursor L s Hinv Hrange) as (_ & Hc & _).
  pose proof (serve_inv L s1 front rest) as Hserve. cbv zeta in Hserve. subst s1 i'.
  rewrite Ec, Eq, Er in Hserve. split; [done|]. split; [by apply Hserve; [apply credit_inv|..]|].
  simpl. rewrite Eq. split; [done|]. split; [done|]. by exists rest.
Qed.

(** A turn that serves nothing leaves the queues as they are. *)
Lemma turn_skip :
  (forall s' i data, drr_turn s <> Serve s' i data) ->
  let s' := advance (settled s) in
  drr_turn s = (if all_empty (drop 1 (queues s)) then AllEmpty s' else Continue s') /\
  inv L s' /\ queues s' = queues s /\ quantum s' = quantum s /\
  round s <= round s' <= round s + 1.
Proof.
  intros Hns s'. destruct (settled_frame s) as (Eq & _ & Equ & Ec & Es & Er & _).
  destruct (advance_frame (settled s)) as (Eq' & _ & _ & Equ' & _). fold s' in Eq', Equ'.
  assert (inv L (settled s) /\ deficits (settled s) !!! S (cursor s) <= L /\
          drr_turn s = end_turn (settled s)) as (Hi & Hd & Ht).
  { unfold settled. revert Hns. pose proof (cursor_stream _ _ Hinv) as Hcs.
    destruct (drr_turn_view s) as [|front rest i s1 Hq Hlt|Hq]; intros Hns;
      [by edestruct Hns|subst s1 i|]; rewrite Hq.
    - split; [by apply credit_inv|]. split; [|done]. apply Z.lt_le_incl.
      eapply Z.lt_le_trans; [exact Hlt|]. apply (inv_packets _ _ Hinv (S (cursor s))); [apply Hcs|].
      rewrite Hq. by apply list_elem_of_here.
    - split; [apply reset_inv; [apply Hrange|done]|]. split; [|done]. simpl.
      rewrite list_lookup_total_insert_eq; [apply Hrange|].
      rewrite (inv_deficits _ _ Hinv). apply Hcs. }
  rewrite <- Ec in Hd. split; [|split].
  - rewrite Ht. unfold end_turn. fold s'. by rewrite Eq', Eq.
  - apply advance_inv; [done..|]. by rewrite Er.
  - rewrite Eq', Eq, Equ', Equ. split; [done|]. split; [done|].
    destruct (advance_cursor (settled s)) as (_ & Hcase); [apply Hi..|by rewrite Er|].
    fold s' in Hcase. rewrite Er in Hcase. destruct Hcase as [(_ & -> & _)|(_ & _ & ->)]; lia.
Qed.
End Turns.

(** ** Progress

    While stream [i] holds a packet, every turn that does not serve brings the
    scheduler closer to serving: either the cursor comes nearer to [i], or [i]
    has just been credited and its deficit is closer to the packet's length. *)

Definition distance (c i : nat) : nat := if (S c <=? i)%nat then (i - S c)%nat else (i + 5 - c)%nat.

Definition measure (L : Z) (s : DrrScheduler) (i : nat) : Z :=
  6 * Z.max 0 (L - deficits s !!! i) + Z.of_nat (distance (cursor s) i) +
  (if decide (i = S (cursor s) /\ credited_round s !!! i = round s) then 6 else 0).

Lemma measure_bound L s i :
  inv L s -> (0 < i < NUM_STREAMS)%nat -> 0 <= L -> 0 <= measure L s i <= 6 * L + 11.
Proof.
  intros Hi Hs HL. destruct (inv_bound _ _ Hi i Hs) as [Hd _].
  pose proof (inv_cursor _ _ Hi). unfold measure, distance, NUM_STREAMS, NUM_DRR_STREAMS in *.
  destruct (Nat.leb_spec (S (cursor s)) i), (decide _); lia.
Qed.

Lemma skip_decreases L s i :
  inv L s -> in_range L (quantum s) -> round s + 1 < U64_MAX -> 1 <= quantum s ->
  (0 < i < NUM_STREAMS)%nat -> queues s !!! i <> [] ->
  (forall s' j data, drr_turn s <> Serve s' j data) ->
  measure L (advance (settled s)) i < measure L s i.
Proof.
  intros Hinv Hr Hround Hq Hs Hne Hns.
  destruct (settled_frame s) as (_ & _ & _ & Ec & Es & Er & Ed & Ecr).
  destruct (advance_frame (settled s)) as (_ & Ed' & _ & _ & Ecr').
  destruct (advance_cursor (settled s)) as (_ & Hcase);
    [rewrite ?Ec, ?Es, ?Er; apply Hinv || done..|]. rewrite Ec, Er in Hcase.
  pose proof (inv_cursor _ _ Hinv) as Hcur. pose proof (weight_bound _ _ _ Hinv Hs) as Hw.
  destruct (inv_bound _ _ Hinv i Hs) as [Hd0 Hd]. destruct (inv_credit _ _ Hinv i Hs) as [Hc1 Hc2].
  unfold measure. rewrite Ed', Ecr'.
  destruct (decide (i = S (cursor s))) as [Hi|Hi].
  - (* the cursor is on [i]: its front packet did not fit *)
    assert (deficits (settled s) !!! i =
              deficits s !!! i + (if credited_round s !!! i =? round s then 0
                                  else weights s !!! i * quantum s) /\
            deficits (settled s) !!! i < L) as [Hds HdL].
    { revert Hns. unfold settled. destruct (drr_turn_view s) as [|front rest j s1 Hqs Hlt|Hqs];
        intros Hns; [by edestruct Hns|subst s1 j|by rewrite <- Hi in Hqs].
      rewrite Hqs, Hi. split; [by apply (credit_at_cursor L)|].
      eapply Z.lt_le_trans; [exact Hlt|].
      apply (inv_packets _ _ Hinv i); [lia|]. rewrite Hi, Hqs. by apply list_elem_of_here. }
    rewrite (decide_False (P := _ = S (cursor (advance _)) /\ _)).
    2: { unfold NUM_DRR_STREAMS, NUM_STREAMS in *. destruct Hcase as [(-> & _)|(? & -> & _)]; lia. }
    assert (distance (cursor (advance (settled s))) i = 5%nat /\ distance (cursor s) i = 0%nat)
      as [-> ->].
    { unfold distance, NUM_DRR_STREAMS, NUM_STREAMS in *.
      destruct Hcase as [(-> & _)|(? & -> & _)]; subst i; repeat case_match; rewrite ?Nat.leb_le, ?Nat.leb_gt in *; lia. }
    rewrite Hds in *. destruct (Z.eqb_spec (credited_round s !!! i) (round s)) as [He|He].
    + rewrite decide_True by done. lia.
    + rewrite decide_False by naive_solver. rewrite decide_False in Hd by naive_solver. nia.
  - rewrite Ed, Ecr by done. rewrite (decide_False (P := i = S (cursor s) /\ _)) by naive_solver.
    rewrite decide_False.
    2: { unfold NUM_DRR_STREAMS, NUM_STREAMS in *.
         destruct Hcase as [(-> & -> & ?)|(? & -> & ->)]; intros [Hi' Hcr].
         - apply Hc2; [lia|done].
         - rewrite Hcr in Hc1. lia. }
    unfold distance, NUM_DRR_STREAMS, NUM_STREAMS in *.
    destruct Hcase as [(-> & _ & ?)|(? & -> & _)]; repeat case_match;
      rewrite ?Nat.leb_le, ?Nat.leb_gt in *; lia.
Qed.

(** ** The loop *)

(** The stream and packet chosen, and what they leave behind. *)
Definition served (L : Z) (s : DrrScheduler) (i : nat) (data : list Z) (s' : DrrScheduler) : Prop :=
  inv L s' /\ quantum s' = quantum s /\ (i < NUM_STREAMS)%nat /\
  exists rest, queues s !!! i = data :: rest /\ queues s' = <[i := rest]> (queues s).

Lemma turn_dec s :
  (exists s' i data, drr_turn s = Serve s' i data) \/
  (forall s' i data, drr_turn s <> Serve s' i data).
Proof. destruct (drr_turn s); [left; by repeat eexists|right; done..]. Qed.

Lemma drr_loop_serves L i fuel s :
  inv L s -> in_range L (quantum s) -> 1 <= quantum s ->
  (0 < i < NUM_STREAMS)%nat -> queues s !!! i <> [] ->
  measure L s i < Z.of_nat fuel -> round s + Z.of_nat fuel < U64_MAX ->
  exists j data s', drr_loop fuel s = Some (Some (j, data), s') /\ served L s j data s' /\
    round s <= round s' <= round s + Z.of_nat fuel.
Proof.
  revert s. induction fuel as [|fuel IH]; intros s Hinv Hr Hq Hs Hne Hm Hround.
  { pose proof (measure_bound L s i Hinv Hs (proj1 Hr)). lia. }
  cbn [drr_loop]. destruct (turn_dec s) as [(s' & j & data & Ht)|Hns].
  - destruct (turn_serve L s Hinv Hr s' j data Ht) as (Hj & Hi' & Hqu & Hro & Hrest).
    rewrite Ht. exists j, data, s'. split; [done|]. split; [|lia].
    split; [done|]. split; [done|]. split; [|done].
    rewrite Hj. apply (cursor_stream _ _ Hinv).
  - destruct (turn_skip L s Hinv Hr ltac:(lia) Hns) as (Ht & Hi' & Hqs & Hqu & Hro).
    pose proof (skip_decreases L s i Hinv Hr ltac:(lia) Hq Hs Hne Hns) as Hdec.
    assert (all_empty (drop 1 (queues s)) = false) as Hae.
    { apply (all_empty_false _ (i - 1)); rewrite ?length_drop, ?(inv_queues _ _ Hinv).
      - unfold NUM_STREAMS in *. lia.
      - rewrite lookup_total_drop. by replace (1 + (i - 1))%nat with i by lia. }
    rewrite Ht, Hae. destruct (IH (advance (settled s))) as (j & data & s' & Hl & Hsv & Hro');
      rewrite ?Hqs, ?Hqu; try done; try lia.
    exists j, data, s'. split; [done|]. split; [|lia].
    unfold served in *. by rewrite Hqs, Hqu in Hsv.
Qed.

Lemma drr_loop_empty L fuel s :
  inv L s -> in_range L (quantum s) -> round s + 1 < U64_MAX ->
  (forall i, (0 < i < NUM_STREAMS)%nat -> queues s !!! i = []) ->
  drr_loop (S fuel) s = Some (None, advance (settled s)) /\ inv L (advance (settled s)) /\
  queues (advance (settled s)) = queues s.
Proof.
  intros Hinv Hr Hround Hemp.
  assert (forall s' i data, drr_turn s <> Serve s' i data) as Hns.
  { intros s' i data Ht. destruct (turn_serve L s Hinv Hr s' i data Ht) as (-> & _ & _ & _ & rest & Hq & _).
    rewrite Hemp in Hq; [done|]. apply (cursor_stream _ _ Hinv). }
  destruct (turn_skip L s Hinv Hr Hround Hns) as (Ht & Hi' & Hqs & _).
  cbn [drr_loop]. rewrite Ht.
  rewrite (proj2 (all_empty_spec (drop 1 (queues s)))); [done|].
  intros q (j & Hj & <-)%list_elem_of_lookup_total_1. rewrite lookup_total_drop.
  apply Hemp. rewrite length_drop, (inv_queues _ _ Hinv) in Hj. unfold NUM_STREAMS in *. lia.
Qed.

(** ** Building schedulers *)

Lemma with_quantum_inv L q : 0 <= L -> 0 <= q -> inv L (with_quantum q).
Proof.
  intros HL Hq. split; try done.
  - simpl. unfold NUM_DRR_STREAMS, NUM_STREAMS. lia.
  - intros i p Hi. unfold with_quantum. cbn [queues]. rewrite lookup_total_replicate_2 by done. by intros ?%not_elem_of_nil.
  - intros i Hi. unfold deficit_bound. simpl.
    apply stream_cases in Hi. destruct_or!; subst; simpl; (split; [done|]); lia.
  - intros i Hi. unfold credit_bound. simpl.
    apply stream_cases in Hi. destruct_or!; subst; simpl; (split; [by right|done]).
Qed.

Lemma enqueue_ok_inv L s id data s' :
  inv L s -> zlen data <= L -> enqueue s id data = Ok s' ->
  inv L s' /\ quantum s' = quantum s /\ round s' = round s /\
  exists i, Z.to_nat id = i /\ (i < NUM_STREAMS)%nat /\
    s' = set_queue s i (queues s !!! i ++ [data]).
Proof.
  unfold enqueue, stream_index. intros Hi Hd. cbv zeta.
  destruct (Nat.leb_spec NUM_STREAMS (Z.to_nat id)) as [|Hid]; [done|]. intros [= <-].
  split; [|by eauto 6]. destruct Hi as [Q D C W Cu St R Qu P B Cr].
  split; simpl; rewrite ?length_insert; try done.
  intros i p Hlt. rewrite list_lookup_total_insert.
  destruct (decide (Z.to_nat id = i /\ _)) as [[<- _]|]; [|by apply P].
  rewrite elem_of_app, list_elem_of_singleton. intros [Hp| ->]; [by apply (P (Z.to_nat id))|done].
Qed.

(** ** Properties *)

(** C15 (termination).  [dequeue_next] returns after at most [6 L + 12] turns
    when no packet is longer than [L], and what it returns is right: [None]
    exactly when every queue is empty, otherwise the oldest packet of one
    stream (stream 0 whenever it holds one), removing that packet and leaving
    every other queue as it was.  The scheduler invariant holds afterwards. *)
Theorem dequeue_next_correct (L : Z) (s : DrrScheduler) (fuel : nat) :
  inv L s -> in_range L (quantum s) -> 1 <= quantum s ->
  6 * L + 11 < Z.of_nat fuel -> round s + Z.of_nat fuel < U64_MAX ->
  match dequeue_next fuel s with
  | None => False
  | Some (None, s') =>
      (forall i, (i < NUM_STREAMS)%nat -> queues s !!! i = []) /\ queues s' = queues s /\ inv L s'
  | Some (Some (i, data), s') =>
      served L s i data s' /\ (queues s !!! 0%nat <> [] -> i = 0%nat)
  end.
Proof.
  intros Hinv Hr Hq Hf Hround. unfold dequeue_next.
  assert (0 <= L) as HL by apply Hr.
  destruct (queues s !!! 0%nat) as [|data rest] eqn:H0.
  - destruct (decide (Forall (fun i => queues s !!! i = []) (seq 1 6))) as [Hall|Hex].
    + rewrite Forall_seq in Hall. destruct fuel as [|fuel]; [lia|].
      assert (forall i, (0 < i < NUM_STREAMS)%nat -> queues s !!! i = []) as Hemp.
      { intros i Hi. apply Hall. unfold NUM_STREAMS in Hi. lia. }
      destruct (drr_loop_empty L fuel s Hinv Hr ltac:(lia) Hemp) as (-> & Hi' & Hqs).
      split; [|done]. intros [|i] Hi; [done|]. apply Hemp. lia.
    + apply not_Forall_Exists, Exists_exists in Hex as (i & Hi%in_seq & Hne); [|apply _].
      assert (0 < i < NUM_STREAMS)%nat as Hs by (unfold NUM_STREAMS; lia).
      pose proof (measure_bound L s i Hinv Hs HL).
      destruct (drr_loop_serves L i fuel s) as (j & data & s' & -> & Hsv & _);
        done || lia.
  - split; [|done]. split; [|split; [done|split; [unfold NUM_STREAMS; lia|]]].
    + by eapply pop_control_inv.
    + by exists rest.
Qed.

(** With a quantum of zero the loop never returns: once only
    non-empty packets wait on the weighted streams and no credit is left, no
    amount of fuel lets [dequeue_next] finish. *)
Theorem zero_quantum_diverges (s : DrrScheduler) (i : nat) (fuel : nat) :
  quantum s = 0 -> length (queues s) = NUM_STREAMS -> (cursor s < NUM_DRR_STREAMS)%nat ->
  (forall j, (0 < j < NUM_STREAMS)%nat -> deficits s !!! j = 0) ->
  queues s !!! 0%nat = [] ->
  (forall j p, (0 < j < NUM_STREAMS)%nat -> p ∈ queues s !!! j -> p <> []) ->
  (0 < i < NUM_STREAMS)%nat -> queues s !!! i <> [] ->
  dequeue_next fuel s = None.
Proof.
  intros Hq Hlen Hc Hd H0 Hp Hi Hne. unfold dequeue_next. rewrite H0. clear H0.
  revert s Hq Hlen Hc Hd Hp Hne. induction fuel as [|fuel IH]; intros s Hq Hlen Hc Hd Hp Hne; [done|].
  assert (forall j, (0 < j < NUM_STREAMS)%nat -> deficits (settled s) !!! j = 0) as Hds.
  { intros j Hj. unfold settled, credit. rewrite Hq, Z.mul_0_r.
    repeat case_match; simpl; try (by apply Hd); rewrite list_lookup_total_insert;
      (destruct (decide _) as [[<- _]|]; [|by apply Hd]); [done|]. by rewrite Hd. }
  destruct (settled_frame s) as (Eq & _ & Equ & Ec & _ & _ & _ & _).
  destruct (advance_frame (settled s)) as (Eq' & Ed' & _ & Equ' & _).
  assert (drr_turn s = Continue (advance (settled s))) as Ht.
  { assert (drr_turn s = end_turn (settled s)) as ->.
    { unfold settled in *. assert (0 < S (cursor s) < NUM_STREAMS)%nat as Hcs
        by (unfold NUM_DRR_STREAMS in *; lia).
      destruct (drr_turn_view s) as [front rest j s1 Hqs Hle|front rest j s1 Hqs _|Hqs];
        try subst s1 j; rewrite Hqs in *; [exfalso|done|done].
      rewrite Hds in Hle by done. apply (Hp (S (cursor s)) front); [done| |].
      - rewrite Hqs. by apply list_elem_of_here.
      - apply zlen_nil_inv. pose proof (zlen_nonneg front). lia. }
    unfold end_turn. rewrite Eq', Eq. rewrite (all_empty_false _ (i - 1)); [done| |].
    - rewrite length_drop, Hlen. unfold NUM_STREAMS in *. lia.
    - rewrite lookup_total_drop. by replace (1 + (i - 1))%nat with i by lia. }
  cbn [drr_loop]. rewrite Ht. apply IH; rewrite ?Eq', ?Eq, ?Equ', ?Equ, ?Ed'; try done.
  unfold advance. destruct (_ =? _)%nat; cbn [cursor]; by apply Nat.mod_upper_bound.
Qed.

(** ** Fairness *)

(** Rounds in which a backlogged stream has received its credit so far. *)
Definition rounds_credited (s : DrrScheduler) (i : nat) : Z :=
  round s + (if decide (credited_round s !!! i = round s) then 1 else 0).

(** A backlogged stream the cursor has already visited this round was credited. *)
Definition on_schedule (s : DrrScheduler) (i : nat) : Prop :=
  (i < S (cursor s))%nat -> credited_round s !!! i = round s.

(** Credit granted and not yet spent by stream [i]. *)
Definition balance (s : DrrScheduler) (i : nat) : Z :=
  weights s !!! i * quantum s * rounds_credited s i - deficits s !!! i.

Lemma credit_balance L s i :
  inv L s -> in_range L (quantum s) -> (0 < i < NUM_STREAMS)%nat -> on_schedule s i ->
  let s1 := credit s (S (cursor s)) in
  balance s1 i = balance s i /\
  ((i < S (S (cursor s)))%nat -> credited_round s1 !!! i = round s).
Proof.
  intros Hinv Hr Hs Hon s1. unfold balance, rounds_credited.
  destruct (credit_frame s (S (cursor s))) as (_ & Ew & Equ & _ & _ & Er & _ & _ & Ed & Ecr).
  fold s1 in Ew, Equ, Er, Ed, Ecr. rewrite Ew, Equ, Er.
  destruct (decide (i = S (cursor s))) as [->|Hne].
  - destruct (credit_at_cursor L s Hinv Hr) as (Hd & Hc & _). fold s1 in Hd, Hc.
    rewrite Hd, Hc. split; [|done]. rewrite (decide_True (P := round s = round s)) by done.
    destruct (Z.eqb_spec (credited_round s !!! S (cursor s)) (round s)) as [He|He];
      [rewrite decide_True by done | rewrite decide_False by done]; ring.
  - rewrite Ed, Ecr by done. split; [done|]. intros ?. apply Hon. lia.
Qed.

Lemma settled_balance L s i :
  inv L s -> in_range L (quantum s) -> (0 < i < NUM_STREAMS)%nat -> on_schedule s i ->
  queues s !!! i <> [] ->
  balance (settled s) i = balance s i /\
  ((i < S (S (cursor s)))%nat -> credited_round (settled s) !!! i = round s).
Proof.
  intros Hinv Hr Hs Hon Hne. unfold settled.
  destruct (queues s !!! S (cursor s)) eqn:Hq; [|by apply (credit_balance L)].
  assert (i <> S (cursor s)) as Hi by congruence.
  unfold balance, rounds_credited. simpl. rewrite list_lookup_total_insert_ne by done.
  split; [done|]. intros ?. apply Hon. lia.
Qed.

Lemma advance_balance s i :
  (cursor s < NUM_DRR_STREAMS)%nat -> round_start s = 0%nat -> 0 <= round s ->
  round s + 1 < U64_MAX -> (0 < i < NUM_STREAMS)%nat ->
  ((i < S (S (cursor s)))%nat -> credited_round s !!! i = round s) ->
  balance (advance s) i = balance s i /\ on_schedule (advance s) i.
Proof.
  intros Hc Hst Hr0 Hr Hs Hon. destruct (advance_frame s) as (_ & Ed & Ew & Equ & Ecr).
  destruct (advance_cursor s Hc Hst Hr0 Hr) as (_ & Hcase).
  unfold balance, rounds_credited, on_schedule. rewrite Ed, Ew, Equ, Ecr.
  destruct Hcase as [(-> & -> & _)|(Hw & -> & ->)]; [done|].
  unfold NUM_DRR_STREAMS, NUM_STREAMS in *. rewrite Hon by lia.
  rewrite decide_False, decide_True by lia. split; [ring|lia].
Qed.

Lemma turn_balance L s i :
  inv L s -> in_range L (quantum s) -> round s + 1 < U64_MAX ->
  (0 < i < NUM_STREAMS)%nat -> queues s !!! i <> [] -> on_schedule s i ->
  match drr_turn s with
  | Serve s' j data =>
      balance s' i = balance s i + (if decide (j = i) then zlen data else 0) /\ on_schedule s' i
  | AllEmpty s' | Continue s' => balance s' i = balance s i /\ on_schedule s' i
  end.
Proof.
  intros Hinv Hr Hround Hs Hne Hon. destruct (turn_dec s) as [(s' & j & data & Ht)|Hns].
  - rewrite Ht. revert Ht.
    destruct (drr_turn_view s) as [front rest j' s1 Hq Hd| |]; unfold end_turn;
      try (by case_match). subst s1 j'. intros [= <- <- <-].
    destruct (credit_balance L s i Hinv Hr Hs Hon) as [Hb Hc].
    destruct (credit_frame s (S (cursor s))) as (_ & _ & _ & Ec & _ & Er & El & _).
    rewrite <- Hb. unfold balance, rounds_credited, on_schedule in *. simpl.
    rewrite Ec, Er. split; [|intros ?; apply Hc; lia].
    pose proof (cursor_stream _ _ Hinv) as Hcs. destruct (decide (S (cursor s) = i)) as [<-|Hj].
    + rewrite list_lookup_total_insert_eq by (rewrite El, (inv_deficits _ _ Hinv); lia). ring.
    + rewrite list_lookup_total_insert_ne by done. ring.
  - destruct (turn_skip L s Hinv Hr Hround Hns) as (Ht & _).
    destruct (settled_balance L s i Hinv Hr Hs Hon Hne) as [Hb Hc].
    destruct (settled_frame s) as (_ & _ & _ & Ec & Es & Er & _).
    destruct (advance_balance (settled s) i) as [Hb' Hon'];
      rewrite ?Ec, ?Es, ?Er; try apply Hinv; try done.
    rewrite Ht. rewrite Hb in Hb'. by destruct (all_empty _).
Qed.

(** The same for a whole call of [dequeue_next]. *)
Lemma dequeue_balance L s i fuel r s' :
  inv L s -> in_range L (quantum s) -> round s + Z.of_nat fuel < U64_MAX ->
  (0 < i < NUM_STREAMS)%nat -> queues s !!! i <> [] -> on_schedule s i ->
  dequeue_next fuel s = Some (r, s') ->
  balance s' i = balance s i +
    match r with Some (j, data) => if decide (j = i) then zlen data else 0 | None => 0 end /\
  on_schedule s' i /\ inv L s' /\ quantum s' = quantum s /\ round s' <= round s + Z.of_nat fuel.
Proof.
  intros Hinv Hr Hround Hs Hne Hon. unfold dequeue_next.
  destruct (queues s !!! 0%nat) as [|d0 rest] eqn:H0.
  - clear H0. revert s Hinv Hr Hround Hne Hon.
    induction fuel as [|fuel IH]; intros s Hinv Hr Hround Hne Hon; [done|].
    cbn [drr_loop].
    pose proof (turn_balance L s i Hinv Hr ltac:(lia) Hs Hne Hon) as Hb.
    destruct (turn_dec s) as [(s1 & j & data & Ht)|Hns].
    + destruct (turn_serve L s Hinv Hr s1 j data Ht) as (_ & Hi' & Hqu & Hro & _).
      rewrite Ht in Hb |- *. intros [= <- <-]. destruct Hb. split; [done|]. split; [done|]. split; [done|]. lia.
    + destruct (turn_skip L s Hinv Hr ltac:(lia) Hns) as (Ht & Hi' & Hqs & Hqu & Hro).
      rewrite Ht in Hb |- *. destruct (all_empty _).
      * intros [= <- <-]. destruct Hb. split; [lia|]. split; [done|]. split; [done|]. lia.
      * destruct Hb as [Hb Hon']. intros Hl.
        destruct (IH (advance (settled s))) as (Hb2 & Hon2 & Hi2 & Hq2 & Hr2);
          rewrite ?Hqs, ?Hqu; try done; try lia.
        rewrite Hb in Hb2. split; [done|]. split; [done|]. split; [done|]. split; [congruence|lia].
  - intros [= <- <-]. rewrite decide_False by lia.
    unfold balance, on_schedule, rounds_credited in *. simpl.
    split; [lia|]. split; [done|]. split; [by eapply pop_control_inv|]. split; [done|lia].
Qed.

(** A run of the scheduler during which stream [i] is never empty, with the
    bytes of stream [i] it sent. *)
Inductive backlogged_run (L : Z) (i : nat) : DrrScheduler -> Z -> DrrScheduler -> Prop :=
| run_done s : backlogged_run L i s 0 s
| run_enqueue s id data s1 n s' :
    enqueue s id data = Ok s1 -> zlen data <= L ->
    backlogged_run L i s1 n s' -> backlogged_run L i s n s'
| run_dequeue s fuel j data s1 n s' :
    round s + Z.of_nat fuel < U64_MAX ->
    dequeue_next fuel s = Some (Some (j, data), s1) -> queues s1 !!! i <> [] ->
    backlogged_run L i s1 n s' ->
    backlogged_run L i s ((if decide (j = i) then zlen data else 0) + n) s'.

Lemma run_balance L i s n s' :
  backlogged_run L i s n s' ->
  inv L s -> in_range L (quantum s) -> (0 < i < NUM_STREAMS)%nat ->
  queues s !!! i <> [] -> on_schedule s i ->
  balance s' i = balance s i + n /\ inv L s' /\ quantum s' = quantum s.
Proof.
  induction 1 as [s|s id data s1 n s' He Hd Hrun IH|s fuel j data s1 n s' Hround Hdq Hne1 Hrun IH];
    intros Hinv Hr Hs Hne Hon.
  - split; [lia|done].
  - destruct (enqueue_ok_inv L s id data s1 Hinv Hd He) as (Hi1 & Hq1 & _ & k & _ & Hk & ->).
    destruct (IH Hi1 Hr Hs) as (Hb & Hi' & Hq'); [|exact Hon|by rewrite Hb].
    simpl. rewrite list_lookup_total_insert. destruct (decide (k = i /\ _)); [|done].
    intros [_ ?]%app_eq_nil. done.
  - destruct (dequeue_balance L s i fuel _ s1 Hinv Hr Hround Hs Hne Hon Hdq)
      as (Hb & Hon1 & Hi1 & Hq1 & _).
    destruct IH as (Hb' & Hi' & Hq'); rewrite ?Hq1; try done.
    rewrite Hb', Hb. split; [lia|]. split; [done|]. congruence.
Qed.

(** C16 (functional).  Weighted fairness: over any interleaving of enqueues and
    dequeues during which a weighted stream stays backlogged, the bytes it sends
    are its weight times the quantum for every round in which it was credited,
    to within one packet plus one credit, whatever the other streams hold. *)
Theorem weighted_fairness (L : Z) (i : nat) (s s' : DrrScheduler) (sent : Z) :
  inv L s -> in_range L (quantum s) -> (0 < i < NUM_STREAMS)%nat ->
  queues s !!! i <> [] -> on_schedule s i ->
  backlogged_run L i s sent s' ->
  let credit_size := DEFAULT_WEIGHTS !!! i * quantum s in
  Z.abs (sent - credit_size * (rounds_credited s' i - rounds_credited s i)) <= L + credit_size.
Proof.
  intros Hinv Hr Hs Hne Hon Hrun cs.
  destruct (run_balance L i s sent s' Hrun Hinv Hr Hs Hne Hon) as (Hb & Hinv' & Hq').
  unfold balance in Hb. rewrite (inv_weights _ _ Hinv), (inv_weights _ _ Hinv'), Hq' in Hb.
  fold cs in Hb.
  assert (forall t, inv L t -> quantum t = quantum s -> 0 <= deficits t !!! i <= L + cs) as Hd.
  { intros t Ht Hqt. destruct (inv_bound _ _ Ht i Hs) as [H0 H1].
    pose proof (weight_bound _ _ _ Ht Hs) as Hw.
    rewrite (inv_weights _ _ Ht), Hqt in H1. rewrite (inv_weights _ _ Ht) in Hw. fold cs in H1.
    assert (0 <= cs) by (unfold cs; destruct Hr as (_ & ? & _); nia).
    split; [done|]. case_decide; lia. }
  pose proof (Hd s Hinv eq_refl). pose proof (Hd s' Hinv' Hq'). lia.
Qed.

(** ** Instances on concrete inputs *)

Definition sample_scheduler : DrrScheduler :=
  set_queue (set_queue (with_quantum 10) 1 [[1; 2; 3]; [4]; [5]]) 6 [replicate 25 7].

Lemma sample_scheduler_inv : inv 25 sample_scheduler.
Proof.
  assert (inv 25 (with_quantum 10)) as H0 by by apply with_quantum_inv.
  destruct H0 as [Q D C W Cu St R Qu P B Cr].
  split; try done. intros i p Hi Hp.
  assert (Forall (Forall (fun p => zlen p <= 25)) (queues sample_scheduler)) as HF by by_decide.
  rewrite Forall_lookup in HF.
  destruct (lookup_lt_is_Some_2 (queues sample_scheduler) i Hi) as [q Hq].
  rewrite (list_lookup_total_correct _ _ _ Hq) in Hp.
  specialize (HF i q Hq). rewrite Forall_forall in HF. by apply HF, list_elem_of_In.
Qed.

Lemma dequeue_next_correct_witness :
  exists s', dequeue_next 162 sample_scheduler = Some (Some (1%nat, [1; 2; 3]), s') /\
    served 25 sample_scheduler 1 [1; 2; 3] s'.
Proof.
  eexists. split; [vm_compute; reflexivity|].
  refine (proj1 (dequeue_next_correct 25 sample_scheduler 162 _ _ _ _ _)).
  - apply sample_scheduler_inv.
  - by_decide.
  - done.
  - done.
  - done.
Defined.

Lemma zero_quantum_diverges_witness :
  dequeue_next 1000 (set_queue (with_quantum 0) 2 [[1]]) = None.
Proof.
  apply (zero_quantum_diverges _ 2); try done.
  - simpl. unfold NUM_DRR_STREAMS, NUM_STREAMS. lia.
  - intros j Hj%stream_cases. destruct_or!; subst; done.
  - intros j p Hj%stream_cases. destruct_or!; subst; simpl;
      rewrite ?list_elem_of_singleton; try (by intros ?%not_elem_of_nil); by intros ->.
  - unfold NUM_STREAMS. lia.
Defined.

Lemma sample_run :
  exists s', backlogged_run 25 1 sample_scheduler 4 s'.
Proof.
  eexists.
  eapply (run_dequeue 25 1 sample_scheduler 162 1 [1; 2; 3] _ 1);
    [done|vm_compute; reflexivity|done|].
  eapply (run_dequeue 25 1 _ 162 1 [4] _ 0); [done|vm_compute; reflexivity|done|].
  apply run_done.
Defined.

Lemma weighted_fairness_witness :
  exists s', backlogged_run 25 1 sample_scheduler 4 s' /\
    Z.abs (4 - 60 * (rounds_credited s' 1 - rounds_credited sample_scheduler 1)) <= 85.
Proof.
  destruct sample_run as [s' Hrun]. exists s'. split; [exact Hrun|].
  apply (weighted_fairness 25 1 sample_scheduler s' 4).
  - apply sample_scheduler_inv.
  - by_decide.
  - unfold NUM_STREAMS. lia.
  - done.
  - intros H. simpl in H. lia.
  - exact Hrun.
Defined.
