(* ===== verification/Window.v ===== *)
(** * Sliding acceptance windows

    The replay filter of the encryption layer ([ReplayProtection]) and the
    duplicate filter of the reliability layer ([DuplicateFilter]) keep the same
    state (the largest value seen and a 64-bit mask of the values just below it)
    and update it the same way.  This file states the update once, together with
    what it is meant to implement: a set of values, of which only those less than
    64 below the maximum are remembered.  The two components prove that their own
    definitions are this update. *)

From S2P Require Import Prelude.

Definition WINDOW : Z := 64.

(** The update: [Some] new maximum and mask when [val] is accepted. *)
Definition slide (max mask val : Z) : option (Z * Z) :=
  if val <=? max then
    let diff := max - val in
    if WINDOW <=? diff then None
    else if Z.land mask (Z.shiftl 1 diff) =? 0 then Some (max, Z.lor mask (Z.shiftl 1 diff))
    else None
  else
    let diff := val - max in
    if WINDOW <=? diff then Some (val, 1)
    else Some (val, Z.lor (wrap 64 (Z.shiftl mask diff)) 1).

(** ** Specification

    [remembers max mask seen]: the pair stands for the values [seen]. *)
Record remembers (max mask : Z) (seen : list Z) : Prop := {
  rem_max : 0 <= max;
  rem_bound : forall v, v ∈ seen -> 0 <= v <= max;
  rem_bits : forall d, 0 <= d < WINDOW -> Z.testbit mask d = bool_decide (max - d ∈ seen);
  rem_mask : uint 64 mask;
}.

Lemma remembers_empty : remembers 0 0 [].
Proof.
  split; try done.
  - by intros v ?%not_elem_of_nil.
  - intros d _. rewrite Z.bits_0, bool_decide_false; [done|apply not_elem_of_nil].
Qed.

Lemma lor_mask_uint m k : uint 64 m -> 0 <= k < 64 -> uint 64 (Z.lor m (Z.shiftl 1 k)).
Proof.
  intros Hm Hk.
  assert (wrap 64 (Z.lor m (Z.shiftl 1 k)) = Z.lor m (Z.shiftl 1 k)) as <-;
    [|by apply wrap_uint].
  apply Z.bits_inj'. intros i Hi. rewrite testbit_wrap, testbit_lor_bit by lia.
  destruct (Z.ltb_spec i 64) as [|Hge]; [done|].
  rewrite (testbit_high 64 m) by done. simpl. destruct (Z.eqb_spec k i); [lia|done].
Qed.

(** A value at or below the maximum. *)
Lemma slide_below max mask seen val :
  remembers max mask seen -> 0 <= val <= max ->
  slide max mask val =
    (if decide (max - val < WINDOW /\ val ∉ seen)
     then Some (max, Z.lor mask (Z.shiftl 1 (max - val))) else None) /\
  (max - val < WINDOW -> remembers max (Z.lor mask (Z.shiftl 1 (max - val))) (val :: seen)).
Proof.
  intros [Hm Hb Hbits Hmask] Hv. unfold slide. rewrite (proj2 (Z.leb_le _ _)) by lia. split.
  - destruct (Z.leb_spec WINDOW (max - val)) as [?|Hd]; [by rewrite decide_False by lia|].
    pose proof (Hbits (max - val) ltac:(lia)) as Hbit.
    replace (max - (max - val)) with val in Hbit by lia.
    destruct (Z.eqb_spec (Z.land mask (Z.shiftl 1 (max - val))) 0) as [Hz|Hz];
      rewrite land_bit_zero, Hbit in Hz by lia.
    + rewrite bool_decide_eq_false in Hz. by rewrite decide_True.
    + rewrite not_false_iff_true, bool_decide_eq_true in Hz. by rewrite decide_False by naive_solver.
  - unfold WINDOW in *. intros Hd. split; [done| | |apply lor_mask_uint; [done|lia]].
    + intros v [->|?]%elem_of_cons; [lia|by apply Hb].
    + intros d Hd'. unfold WINDOW in Hd'. rewrite testbit_lor_bit, Hbits by lia.
      apply eq_bool_prop_intro. rewrite orb_True, !bool_decide_spec, elem_of_cons, Is_true_true, Z.eqb_eq.
      split; [intros [?| <-]; [by right|left; lia]|intros [?|?]; [right; lia|by left]].
Qed.

(** A new maximum. *)
Lemma slide_above max mask seen val :
  remembers max mask seen -> max < val ->
  exists mask', slide max mask val = Some (val, mask') /\ remembers val mask' (val :: seen).
Proof.
  intros [Hm Hb Hbits Hmask] Hv. unfold slide, WINDOW in *.
  rewrite (proj2 (Z.leb_gt _ _)) by lia.
  assert (forall v, v ∈ val :: seen -> 0 <= v <= val) as Hb'
    by (intros v [->|Hin%Hb]%elem_of_cons; lia).
  destruct (Z.leb_spec 64 (val - max)) as [Hd|Hd]; eexists; (split; [done|]); (split; [lia|done|..]).
  - intros d Hd'. unfold WINDOW in Hd'. change 1 with (2 ^ 0). rewrite Z.pow2_bits_eqb by lia.
    apply eq_bool_prop_intro. rewrite bool_decide_spec, elem_of_cons, Is_true_true, Z.eqb_eq.
    split; [intros <-; left; lia|intros [?|Hin%Hb]; lia].
  - done.
  - intros d Hd'. unfold WINDOW in Hd'. change 1 with (Z.shiftl 1 0). rewrite testbit_lor_bit, testbit_wrap by lia.
    rewrite (proj2 (Z.ltb_lt d 64)), andb_true_l by lia.
    apply eq_bool_prop_intro.
    rewrite orb_True, bool_decide_spec, elem_of_cons, (Is_true_true (_ =? _)), Z.eqb_eq.
    destruct (Z.lt_ge_cases d (val - max)) as [Hlo|Hhi].
    + rewrite Z.shiftl_spec_low by lia. simpl.
      split; [intros [[]| <-]; left; lia|intros [?|Hin%Hb]; [right; lia|lia]].
    + rewrite Z.shiftl_spec_high, Hbits, bool_decide_spec by lia.
      replace (max - (d - (val - max))) with (val - d) by lia.
      split; [intros [?|?]; [by right|left; lia]|intros [?|?]; [right; lia|by left]].
  - change 1 with (Z.shiftl 1 0). apply lor_mask_uint; [by apply wrap_uint|lia].
Qed.

(** The update implements the set: a value is accepted exactly when it has not
    been seen and is not 64 or more below the maximum. *)
Lemma slide_refines max mask seen val :
  remembers max mask seen -> 0 <= val ->
  match slide max mask val with
  | Some (max', mask') =>
      val ∉ seen /\ max - WINDOW < val /\ max' = Z.max max val /\ remembers max' mask' (val :: seen)
  | None => val ∈ seen \/ val <= max - WINDOW
  end.
Proof.
  intros Hrem Hv. destruct (Z.lt_ge_cases max val) as [Hlt|Hge].
  - destruct (slide_above _ _ _ _ Hrem Hlt) as (mask' & -> & Hrem').
    split; [intros ?%(rem_bound _ _ _ Hrem); lia|]. unfold WINDOW. split; [lia|]. split; [lia|done].
  - destruct (slide_below _ _ _ val Hrem ltac:(lia)) as [-> Hrem'].
    case_decide as Hc.
    + destruct Hc as [Hd Hni]. split; [done|]. split; [lia|]. split; [lia|]. by apply Hrem'.
    + apply not_and_r in Hc as [?|?%dec_stable]; [right; lia|by left].
Qed.
