(* ===== verification/Symmetric.v ===== *)
(** * Symmetric cryptography (bw-crypto, [symmetric.rs])

    The wrappers around ChaCha20-Poly1305 and HKDF-SHA256.  The primitives come
    from third-party crates and are parameters: [Primitives] is the interface the
    wrappers call, [PrimitivesLaws] its documented contract (opening what was
    sealed under the same key, nonce and associated data returns the message; the
    sealed message carries a 16-byte tag; a 32-byte HKDF output always exists; what
    they return are bytes). *)

From S2P Require Import Prelude.

Inductive CryptoError : Type :=
| EntropyUnavailable | InvalidKey | VerificationFailed | Backend | Unsupported
| InvalidState | ResourceExhausted.

#[global] Instance CryptoError_eq_dec : EqDecision CryptoError.
Proof. solve_decision. Defined.

Class Primitives := {
  (** [ChaCha20Poly1305::encrypt] and [decrypt]: key, nonce, message, aad. *)
  chacha_seal : list Z -> list Z -> list Z -> list Z -> option (list Z);
  chacha_open : list Z -> list Z -> list Z -> list Z -> option (list Z);
  (** [Hkdf::<Sha256>::new(salt, ikm).expand(info, okm)] for 32 bytes. *)
  hkdf_expand : option (list Z) -> list Z -> list Z -> option (list Z);
}.

Class PrimitivesLaws `{Primitives} : Prop := {
  open_seal : forall k n m a c, chacha_seal k n m a = Some c -> chacha_open k n c a = Some m;
  seal_total : forall k n m a, zlen m < 2 ^ 32 -> is_Some (chacha_seal k n m a);
  seal_length : forall k n m a c, chacha_seal k n m a = Some c -> length c = (length m + 16)%nat;
  seal_bytes : forall k n m a c, is_bytes k -> is_bytes n -> is_bytes m ->
    chacha_seal k n m a = Some c -> is_bytes c;
  hkdf_total : forall s i f, is_Some (hkdf_expand s i f);
  hkdf_bytes : forall s i f k, hkdf_expand s i f = Some k -> is_bytes k;
}.

(** [SymmetricKey([u8; 32])]. *)
Definition SymmetricKey : Type := list Z.

Section Symmetric.
Context `{Primitives}.

Definition hkdf_derive (salt : option (list Z)) (ikm : list Z) (info : option (list Z)) :
    result CryptoError SymmetricKey :=
  ok_or InvalidKey (hkdf_expand salt ikm (default [] info)).

Definition encrypt_aead (key : SymmetricKey) (nonce plaintext associated_data : list Z) :
    result CryptoError (list Z * list Z) :=
  match chacha_seal key nonce plaintext associated_data with
  | None => Err VerificationFailed
  | Some ciphertext_with_tag =>
      if (length ciphertext_with_tag <? 16)%nat then Err VerificationFailed
      else
        let tag_start := (length ciphertext_with_tag - 16)%nat in
        Ok (take tag_start ciphertext_with_tag, drop tag_start ciphertext_with_tag)
  end.

Definition decrypt_aead (key : SymmetricKey) (nonce ciphertext tag associated_data : list Z) :
    result CryptoError (list Z) :=
  ok_or VerificationFailed (chacha_open key nonce (ciphertext ++ tag) associated_data).
End Symmetric.

(** ** Lemmas *)

Section Laws.
Context `{PrimitivesLaws}.

Lemma decrypt_encrypt_aead k n m a c t :
  encrypt_aead k n m a = Ok (c, t) -> decrypt_aead k n c t a = Ok m.
Proof.
  unfold encrypt_aead, decrypt_aead.
  destruct (chacha_seal k n m a) as [ct|] eqn:Hs; [|done].
  destruct (_ <? _)%nat; [done|]. intros [= <- <-].
  rewrite take_drop. by rewrite (open_seal _ _ _ _ _ Hs).
Qed.

Lemma encrypt_aead_total k n m a :
  zlen m < 2 ^ 32 -> exists c t, encrypt_aead k n m a = Ok (c, t) /\
    length c = length m /\ length t = 16%nat.
Proof.
  intros Hm. unfold encrypt_aead. destruct (seal_total k n m a Hm) as [ct Hs].
  rewrite Hs. pose proof (seal_length _ _ _ _ _ Hs) as Hl.
  rewrite (proj2 (Nat.ltb_ge _ _)) by lia. eexists _, _. split; [done|].
  rewrite length_take, length_drop. lia.
Qed.

Lemma encrypt_aead_bytes k n m a c t :
  is_bytes k -> is_bytes n -> is_bytes m -> encrypt_aead k n m a = Ok (c, t) ->
  is_bytes c /\ byte_array 16 t.
Proof.
  intros Hk Hn Hm. unfold encrypt_aead. destruct (chacha_seal k n m a) as [ct|] eqn:Hs; [|done].
  pose proof (seal_bytes _ _ _ _ _ Hk Hn Hm Hs) as Hct.
  destruct (Nat.ltb_spec (length ct) 16) as [|Hl]; [done|]. intros [= <- <-].
  split; [by apply Forall_take|]. split; [rewrite length_drop; lia|by apply Forall_drop].
Qed.

Lemma hkdf_derive_total s i f : exists k, hkdf_derive s i f = Ok k.
Proof.
  unfold hkdf_derive. destruct (hkdf_total s i (default [] f)) as [k ->]. by exists k.
Qed.

Lemma hkdf_derive_bytes s i f k : hkdf_derive s i f = Ok k -> is_bytes k.
Proof.
  unfold hkdf_derive. destruct (hkdf_expand _ _ _) eqn:He; [|done]. intros [= <-].
  by eapply hkdf_bytes.
Qed.
End Laws.

(** ** A concrete instance

    Not a cipher: the tag is a copy of key and nonce, checked on opening, and
    derivation mixes its inputs byte by byte.  It satisfies the laws and makes the
    definitions evaluate. *)

Definition toy_tag (k n a : list Z) : list Z :=
  take 16 (take 8 (k ++ replicate 8 0) ++ take 8 (drop 4 n ++ replicate 8 0)).

Definition toy_primitives : Primitives := {|
  chacha_seal k n m a := Some (m ++ toy_tag k n a);
  chacha_open k n c a :=
    let cut := (length c - 16)%nat in
    if decide (drop cut c = toy_tag k n a) then Some (take cut c) else None;
  hkdf_expand s i f :=
    Some (take 32 (((fun b => (b + le_num (reverse f) + le_num (default [] s)) mod 251 + 1) <$> i)
                     ++ replicate 32 0));
|}.

Lemma length_toy_tag k n a : length (toy_tag k n a) = 16%nat.
Proof.
  unfold toy_tag.
  rewrite length_take, !length_app, !length_take, !length_app, !length_replicate. lia.
Qed.

Lemma toy_laws : @PrimitivesLaws toy_primitives.
Proof.
  split.
  - intros k n m a c [= <-]. unfold chacha_open; simpl. rewrite length_app, length_toy_tag.
    replace (length m + 16 - 16)%nat with (length m) by lia.
    rewrite drop_app_length, take_app_length, decide_True by done. done.
  - intros k n m a _. by eexists.
  - intros k n m a c [= <-]. by rewrite length_app, length_toy_tag.
  - intros k n m a c Hk Hn Hm [= <-]. apply Forall_app. split; [done|]. unfold toy_tag.
    apply Forall_take, Forall_app.
    assert (is_bytes (replicate 8 0)) by by_decide.
    split; apply Forall_take, Forall_app; (split; [|done]); [done|by apply Forall_drop].
  - intros s i f. by eexists.
  - intros s i f k [= <-]. apply Forall_take, Forall_app. split; [|by_decide].
    apply Forall_fmap. eapply Forall_impl; [|apply Forall_true; intros x; exact I].
    intros x _. cbn. unfold is_byte, uint.
    pose proof (Z.mod_pos_bound (x + le_num (reverse f) + le_num (default [] s)) 251 ltac:(lia)). lia.
Qed.
