(* ===== verification/Encryption.v ===== *)
(** * Frame encryption (bw-protocol, [encryption.rs])

    Nonces, the replay filter, the encryptor, the decryptor with its automatic
    key rotation, and the context that pairs them under a rotation policy.
    Operations return the new state together with the result, so a state change
    made before a failure is visible.  Epochs are 32-bit and counters 64-bit
    words. *)

From S2P Require Import Prelude Codec Cbor Window Symmetric.

(** ** Nonces *)

Record Nonce := { nonce_bytes : list Z }.

Definition nonce_new (epoch counter : Z) : Nonce :=
  {| nonce_bytes := be_bytes 4 epoch ++ be_bytes 8 counter |}.

Definition nonce_epoch (n : Nonce) : Z := be_num (slice (nonce_bytes n) 0 4).

Definition nonce_counter (n : Nonce) : Z := be_num (slice (nonce_bytes n) 4 12).

#[global] Arguments nonce_new : simpl never.
#[global] Arguments nonce_counter : simpl never.

(** ** Encrypted frames *)

Record EncryptedFrame := {
  ef_epoch : Z;
  ef_nonce : Nonce;
  ciphertext : list Z;
  tag : list Z;
}.

Definition MAX_DESER_SIZE : Z := 4 * 1024 * 1024.

Section FrameCodec.
Context `{Cbor EncryptedFrame}.

Definition serialize_encrypted (f : EncryptedFrame) : result ProtocolError (list Z) :=
  ok_or SerializationError (into_writer f).

Definition deserialize_encrypted (bytes : list Z) : result ProtocolError EncryptedFrame :=
  if MAX_DESER_SIZE <? zlen bytes then Err (OversizedPayload (zlen bytes) MAX_DESER_SIZE)
  else ok_or DeserializationError (from_reader bytes).
End FrameCodec.

(** ** Keys and replay protection *)

Record SessionKeys := { sk_send_key : SymmetricKey; sk_recv_key : SymmetricKey; sk_epoch : Z }.

Record ReplayProtection := { max_counter : Z; received_mask : Z }.

Definition replay_new : ReplayProtection := {| max_counter := 0; received_mask := 0 |}.

(** [ReplayProtection::protect_replay]. *)
Definition protect_replay (r : ReplayProtection) (nonce : Nonce) :
    ReplayProtection * result ProtocolError unit :=
  let val := nonce_counter nonce in
  if val <=? max_counter r then
    let diff := max_counter r - val in
    if 64 <=? diff then (r, Err ReplayDetected)
    else
      let bit := Z.shiftl 1 diff in
      if negb (Z.land (received_mask r) bit =? 0) then (r, Err ReplayDetected)
      else ({| max_counter := max_counter r; received_mask := Z.lor (received_mask r) bit |}, Ok tt)
  else
    let diff := val - max_counter r in
    if 64 <=? diff then ({| max_counter := val; received_mask := 1 |}, Ok tt)
    else ({| max_counter := val;
             received_mask := Z.lor (wrap 64 (Z.shiftl (received_mask r) diff)) 1 |}, Ok tt).

Inductive KeyRotationPolicy : Type :=
| Manual
| Counter (limit : Z).

(** The HKDF label of an epoch: [format!("epoch-{}", epoch)]. *)
Definition epoch_info (epoch : Z) : list Z := string_bytes ("epoch-" +:+ pretty epoch).

Definition to_encryption_error {A} (r : result CryptoError A) : result ProtocolError A :=
  map_err (fun _ => EncryptionError) r.

(** ** Encryptor *)

Record FrameEncryptor := { send_key : SymmetricKey; enc_epoch : Z; counter : Z }.

Definition encryptor_new (key : SymmetricKey) (epoch : Z) : FrameEncryptor :=
  {| send_key := key; enc_epoch := epoch; counter := 0 |}.

Definition generate_nonce (e : FrameEncryptor) : Nonce := nonce_new (enc_epoch e) (counter e).

(** ** Decryptor *)

Record FrameDecryptor := {
  recv_key : SymmetricKey;
  dec_epoch : Z;
  replay_protection : ReplayProtection;
}.

Definition decryptor_new (key : SymmetricKey) (epoch : Z) : FrameDecryptor :=
  {| recv_key := key; dec_epoch := epoch; replay_protection := replay_new |}.

Record EncryptionContext := {
  encryptor : FrameEncryptor;
  decryptor : FrameDecryptor;
  rotation_policy : KeyRotationPolicy;
}.

Section Operations.
Context `{Primitives}.

(** [FrameEncryptor::encrypt_frame]. *)
Definition encrypt_frame (e : FrameEncryptor) (frame : ProtocolFrame) :
    FrameEncryptor * result ProtocolError EncryptedFrame :=
  let plaintext := encode_frame frame in
  let nonce := generate_nonce e in
  match to_encryption_error (encrypt_aead (send_key e) (nonce_bytes nonce) plaintext []) with
  | Err err => (e, Err err)
  | Ok (ct, tag_bytes) =>
      ({| send_key := send_key e; enc_epoch := enc_epoch e; counter := wrap 64 (counter e + 1) |},
       Ok {| ef_epoch := enc_epoch e; ef_nonce := nonce; ciphertext := ct; tag := tag_bytes |})
  end.

(** [FrameEncryptor::rotate_keys]. *)
Definition rotate_send (e : FrameEncryptor) : FrameEncryptor * result ProtocolError unit :=
  let epoch := wrap 32 (enc_epoch e + 1) in
  match to_encryption_error (hkdf_derive None (send_key e) (Some (epoch_info epoch))) with
  | Err err => ({| send_key := send_key e; enc_epoch := epoch; counter := counter e |}, Err err)
  | Ok new_key => ({| send_key := new_key; enc_epoch := epoch; counter := 0 |}, Ok tt)
  end.

(** [FrameDecryptor::decrypt_frame]. *)
Definition decrypt_frame (d : FrameDecryptor) (f : EncryptedFrame) :
    FrameDecryptor * result ProtocolError ProtocolFrame :=
  if ef_epoch f =? dec_epoch d then
    match protect_replay (replay_protection d) (ef_nonce f) with
    | (_, Err err) => (d, Err err)
    | (replay, Ok _) =>
        let d := {| recv_key := recv_key d; dec_epoch := dec_epoch d;
                    replay_protection := replay |} in
        match to_encryption_error
                (decrypt_aead (recv_key d) (nonce_bytes (ef_nonce f)) (ciphertext f) (tag f) [])
        with
        | Err err => (d, Err err)
        | Ok plaintext => (d, decode_vec plaintext)
        end
    end
  else if ef_epoch f =? wrap 32 (dec_epoch d + 1) then
    let candidate_epoch := wrap 32 (dec_epoch d + 1) in
    match to_encryption_error
            (hkdf_derive None (recv_key d) (Some (epoch_info candidate_epoch))) with
    | Err err => (d, Err err)
    | Ok candidate_key =>
        match protect_replay replay_new (ef_nonce f) with
        | (_, Err err) => (d, Err err)
        | (candidate_replay, Ok _) =>
            match to_encryption_error
                    (decrypt_aead candidate_key (nonce_bytes (ef_nonce f))
                       (ciphertext f) (tag f) []) with
            | Err err => (d, Err err)
            | Ok plaintext =>
                ({| recv_key := candidate_key; dec_epoch := candidate_epoch;
                    replay_protection := candidate_replay |}, decode_vec plaintext)
            end
        end
    end
  else (d, Err EncryptionError).

(** [FrameDecryptor::verify_tag]. *)
Definition verify_tag (d : FrameDecryptor) (f : EncryptedFrame) : result ProtocolError unit :=
  if negb (ef_epoch f =? dec_epoch d) then Err EncryptionError
  else
    let? _ := to_encryption_error
                (decrypt_aead (recv_key d) (nonce_bytes (ef_nonce f)) (ciphertext f) (tag f) []) in
    Ok tt.

(** [FrameDecryptor::rotate_keys]. *)
Definition rotate_recv (d : FrameDecryptor) : FrameDecryptor * result ProtocolError unit :=
  let epoch := wrap 32 (dec_epoch d + 1) in
  match to_encryption_error (hkdf_derive None (recv_key d) (Some (epoch_info epoch))) with
  | Err err =>
      ({| recv_key := recv_key d; dec_epoch := epoch;
          replay_protection := replay_protection d |}, Err err)
  | Ok new_key =>
      ({| recv_key := new_key; dec_epoch := epoch; replay_protection := replay_new |}, Ok tt)
  end.

(** ** Context *)

Definition context_new (keys : SessionKeys) (policy : KeyRotationPolicy) : EncryptionContext :=
  {| encryptor := encryptor_new (sk_send_key keys) (sk_epoch keys);
     decryptor := decryptor_new (sk_recv_key keys) (sk_epoch keys);
     rotation_policy := policy |}.

(** [EncryptionContext::rotate_keys]. *)
Definition rotate_keys (c : EncryptionContext) : EncryptionContext * result ProtocolError unit :=
  match rotate_send (encryptor c) with
  | (e, Err err) =>
      ({| encryptor := e; decryptor := decryptor c; rotation_policy := rotation_policy c |},
       Err err)
  | (e, Ok _) =>
      let (d, r) := rotate_recv (decryptor c) in
      ({| encryptor := e; decryptor := d; rotation_policy := rotation_policy c |}, r)
  end.

(** [EncryptionContext::encrypt_frame]. *)
Definition context_encrypt (c : EncryptionContext) (frame : ProtocolFrame) :
    EncryptionContext * result ProtocolError EncryptedFrame :=
  match encrypt_frame (encryptor c) frame with
  | (e, Err err) =>
      ({| encryptor := e; decryptor := decryptor c; rotation_policy := rotation_policy c |},
       Err err)
  | (e, Ok encrypted) =>
      let c := {| encryptor := e; decryptor := decryptor c;
                  rotation_policy := rotation_policy c |} in
      match rotation_policy c with
      | Counter limit =>
          if limit <=? counter (encryptor c) then
            match rotate_keys c with
            | (c, Err err) => (c, Err err)
            | (c, Ok _) => (c, Ok encrypted)
            end
          else (c, Ok encrypted)
      | Manual => (c, Ok encrypted)
      end
  end.

(** [EncryptionContext::decrypt_frame]. *)
Definition context_decrypt (c : EncryptionContext) (f : EncryptedFrame) :
    EncryptionContext * result ProtocolError ProtocolFrame :=
  let (d, r) := decrypt_frame (decryptor c) f in
  ({| encryptor := encryptor c; decryptor := d; rotation_policy := rotation_policy c |}, r).

Definition current_key_epoch (c : EncryptionContext) : Z := enc_epoch (encryptor c).
End Operations.

(** ** Nonce lemmas *)

Lemma nonce_fields e c : uint 32 e -> uint 64 c ->
  nonce_epoch (nonce_new e c) = e /\ nonce_counter (nonce_new e c) = c.
Proof.
  intros He Hc. unfold nonce_epoch, nonce_counter, nonce_new. cbn [nonce_bytes]. split.
  - rewrite slice_0, take_app_le, take_ge by (rewrite length_be_bytes; lia).
    by apply be_num_be_bytes.
  - rewrite slice_app_end by (rewrite ?length_be_bytes; done). by apply be_num_be_bytes.
Qed.

Lemma nonce_new_inj e c e' c' :
  uint 32 e -> uint 64 c -> uint 32 e' -> uint 64 c' ->
  nonce_new e c = nonce_new e' c' -> e = e' /\ c = c'.
Proof.
  intros He Hc He' Hc' Heq.
  destruct (nonce_fields e c He Hc) as [H1 H2]. destruct (nonce_fields e' c' He' Hc') as [H3 H4].
  rewrite Heq in *. by subst.
Qed.

Lemma nonce_counter_nonneg n : is_bytes (nonce_bytes n) -> 0 <= nonce_counter n.
Proof. intros Hb. unfold nonce_counter. by apply be_num_bound, slice_bytes. Qed.

(** The replay filter is the sliding window of [Window]. *)
Lemma protect_replay_slide r n :
  protect_replay r n =
    match slide (max_counter r) (received_mask r) (nonce_counter n) with
    | Some (max', mask') => ({| max_counter := max'; received_mask := mask' |}, Ok tt)
    | None => (r, Err ReplayDetected)
    end.
Proof.
  unfold protect_replay, slide, WINDOW. cbv zeta.
  destruct (_ <=? _), (64 <=? _); try done. by destruct (_ =? 0).
Qed.

(** ** Sequences of operations *)

Inductive encryptor_op : Type :=
| OpEncrypt (frame : ProtocolFrame)
| OpRotateSend.

Inductive decryptor_op : Type :=
| OpDecrypt (f : EncryptedFrame)
| OpRotateRecv.

Section Runs.
Context `{Primitives}.

(** The frames an encryptor emits. *)
Fixpoint emitted (e : FrameEncryptor) (ops : list encryptor_op) : list EncryptedFrame :=
  match ops with
  | [] => []
  | OpEncrypt frame :: ops =>
      let (e', r) := encrypt_frame e frame in
      match r with Ok f => f :: emitted e' ops | Err _ => emitted e' ops end
  | OpRotateSend :: ops => emitted (rotate_send e).1 ops
  end.

(** The frames a decryptor accepts. *)
Fixpoint accepted (d : FrameDecryptor) (ops : list decryptor_op) : list EncryptedFrame :=
  match ops with
  | [] => []
  | OpDecrypt f :: ops =>
      let (d', r) := decrypt_frame d f in
      match r with Ok _ => f :: accepted d' ops | Err _ => accepted d' ops end
  | OpRotateRecv :: ops => accepted (rotate_recv d).1 ops
  end.

(** Sending a list of frames through a context, and receiving in order. *)
Fixpoint encrypt_all (c : EncryptionContext) (frames : list ProtocolFrame) :
    EncryptionContext * list (result ProtocolError EncryptedFrame) :=
  match frames with
  | [] => (c, [])
  | frame :: frames =>
      let (c, r) := context_encrypt c frame in
      let (c, rs) := encrypt_all c frames in (c, r :: rs)
  end.

Fixpoint decrypt_all (c : EncryptionContext) (fs : list EncryptedFrame) :
    EncryptionContext * list (result ProtocolError ProtocolFrame) :=
  match fs with
  | [] => (c, [])
  | f :: fs =>
      let (c, r) := context_decrypt c f in
      let (c, rs) := decrypt_all c fs in (c, r :: rs)
  end.
End Runs.

(** The position of a frame in the key schedule. *)
Definition frame_slot (f : EncryptedFrame) : Z * Z := (ef_epoch f, nonce_counter (ef_nonce f)).

Section Uniqueness.
Context `{Primitives}.

Definition encryptor_room (e : FrameEncryptor) (n : Z) : Prop :=
  0 <= enc_epoch e /\ enc_epoch e + n < 2 ^ 32 /\ 0 <= counter e /\ counter e + n < 2 ^ 64.

Lemma rotate_send_room e n : 0 < n -> encryptor_room e n ->
  encryptor_room (rotate_send e).1 (n - 1) /\ enc_epoch (rotate_send e).1 = enc_epoch e + 1.
Proof.
  intros Hn (He & He' & Hc & Hc'). unfold rotate_send, encryptor_room.
  rewrite !(wrap_small 32 (_ + 1)) by (unfold uint; lia).
  destruct (to_encryption_error _); cbn [fst enc_epoch counter]; lia.
Qed.

Lemma encrypt_frame_room e frame n : 0 < n -> encryptor_room e n ->
  encryptor_room (encrypt_frame e frame).1 (n - 1) /\
  enc_epoch (encrypt_frame e frame).1 = enc_epoch e /\
  match (encrypt_frame e frame).2 with
  | Ok f => ef_epoch f = enc_epoch e /\ ef_nonce f = nonce_new (enc_epoch e) (counter e) /\
            counter (encrypt_frame e frame).1 = counter e + 1
  | Err _ => (encrypt_frame e frame).1 = e
  end.
Proof.
  intros Hn (He & He' & Hc & Hc'). unfold encrypt_frame, encryptor_room.
  rewrite !(wrap_small 64 (_ + 1)) by (unfold uint; lia).
  destruct (to_encryption_error _) as [[ct t]|]; cbn; repeat split; lia.
Qed.

Lemma encrypt_frame_key e frame : send_key (encrypt_frame e frame).1 = send_key e.
Proof. unfold encrypt_frame. by destruct (to_encryption_error _) as [[ct t]|]. Qed.

(** Every frame emitted from [e] on lies at or after [e]'s position. *)
Lemma emitted_after e ops : encryptor_room e (zlen ops) ->
  Forall (fun f => exists ep c, uint 32 ep /\ uint 64 c /\ ef_nonce f = nonce_new ep c /\
            (enc_epoch e < ep \/ (enc_epoch e = ep /\ counter e <= c))) (emitted e ops).
Proof.
  revert e. induction ops as [|op ops IH]; intros e Hroom; [constructor|].
    rewrite zlen_cons in Hroom. pose proof (zlen_nonneg ops).
  destruct op as [frame|]; cbn [emitted].
  - destruct (encrypt_frame_room e frame (zlen ops + 1)) as (Hr & He & Hcase); [lia|done|].
    replace (zlen ops + 1 - 1) with (zlen ops) in Hr by lia.
    specialize (IH _ Hr). destruct (encrypt_frame e frame) as [e' [f|err]]; cbn in *.
    + destruct Hcase as (_ & Hn & Hc). constructor.
      * exists (enc_epoch e), (counter e). unfold encryptor_room, uint in *. split_and!; [lia..|done|lia].
      * eapply Forall_impl; [|exact IH]. intros g (ep & c & ? & ? & ? & ?).
        exists ep, c. split_and!; [done..|lia].
    + by subst.
  - destruct (rotate_send_room e (zlen ops + 1)) as [Hr He]; [lia|done|].
    replace (zlen ops + 1 - 1) with (zlen ops) in Hr by lia.
    eapply Forall_impl; [|exact (IH _ Hr)]. intros g (ep & c & ? & ? & ? & ?).
    exists ep, c. split_and!; [done..|lia].
Qed.
End Uniqueness.

(** C13.  Nonce uniqueness: over any sequence of encryptions and key rotations
    that does not exhaust the 32-bit epoch or the 64-bit counter, and whatever
    the primitives answer (failed encryptions and derivations included), no two
    frames an encryptor emits carry the same nonce. *)
Theorem nonces_never_reused `{Primitives} e ops :
  encryptor_room e (zlen ops) -> NoDup (ef_nonce <$> emitted e ops).
Proof.
  revert e. induction ops as [|op ops IH]; intros e Hroom; [constructor|].
  rewrite zlen_cons in Hroom. pose proof (zlen_nonneg ops).
  destruct op as [frame|]; cbn [emitted].
  - destruct (encrypt_frame_room e frame (zlen ops + 1)) as (Hr & He & Hcase); [lia|done|].
    replace (zlen ops + 1 - 1) with (zlen ops) in Hr by lia.
    specialize (IH _ Hr). pose proof (emitted_after _ _ Hr) as Hafter.
    destruct (encrypt_frame e frame) as [e' [f|err]]; cbn in *; [|done].
    destruct Hcase as (_ & Hn & Hc). constructor; [|done].
    intros (g & Hg & Hin)%list_elem_of_fmap. rewrite Stdlib.Lists.List.Forall_forall in Hafter.
    apply list_elem_of_In in Hin. destruct (Hafter g Hin) as (ep & c & Hep & Hcc & Hng & Hpos).
    rewrite Hng, Hn in Hg. apply nonce_new_inj in Hg as [? ?]; unfold encryptor_room, uint in *; lia.
  - destruct (rotate_send_room e (zlen ops + 1)) as [Hr _]; [lia|done|].
    replace (zlen ops + 1 - 1) with (zlen ops) in Hr by lia. by apply IH.
Qed.

Definition sample_key (b : Z) : SymmetricKey := replicate 32 b.

Definition sample_encryptor : FrameEncryptor := encryptor_new (sample_key 7) 0.

Lemma nonces_never_reused_witness :
  NoDup (ef_nonce <$> emitted (H := toy_primitives) sample_encryptor
           [OpEncrypt sample_frame; OpEncrypt sample_frame; OpRotateSend; OpEncrypt sample_frame]).
Proof.
  apply nonces_never_reused. unfold encryptor_room, sample_encryptor, encryptor_new, zlen; simpl. lia.
Defined.

(** ** Replay *)

Definition typed_frame (f : EncryptedFrame) : Prop := is_bytes (nonce_bytes (ef_nonce f)).

(** The history [past] of accepted slots, against the decryptor's state. *)
Definition history (d : FrameDecryptor) (past : list (Z * Z)) : Prop :=
  exists seen,
    remembers (max_counter (replay_protection d)) (received_mask (replay_protection d)) seen /\
    Forall (fun s => s.1 <= dec_epoch d /\ (s.1 = dec_epoch d -> s.2 ∈ seen)) past.

Lemma protect_replay_accepts r n seen :
  remembers (max_counter r) (received_mask r) seen -> is_bytes (nonce_bytes n) ->
  match protect_replay r n with
  | (r', Ok _) => nonce_counter n ∉ seen /\
      remembers (max_counter r') (received_mask r') (nonce_counter n :: seen)
  | (r', Err _) => r' = r
  end.
Proof.
  intros Hrem Hb. rewrite protect_replay_slide.
  pose proof (slide_refines _ _ _ _ Hrem (nonce_counter_nonneg n Hb)) as Hs.
  destruct (slide _ _ _) as [[m k]|]; [|done]. naive_solver.
Qed.

Lemma Forall_slot_weaken (past : list (Z * Z)) ep ep' (seen seen' : list Z) :
  Forall (fun s => s.1 <= ep /\ (s.1 = ep -> s.2 ∈ seen)) past ->
  (ep < ep' \/ (ep = ep' /\ seen ⊆ seen')) ->
  Forall (fun s => s.1 <= ep' /\ (s.1 = ep' -> s.2 ∈ seen')) past.
Proof.
  intros HF Hor. eapply Forall_impl; [|exact HF]. intros s [Hle Hin]. destruct Hor as [?|[-> Hsub]].
  - split; intros; lia.
  - split; [done|]. intros Heq. by apply Hsub, Hin.
Qed.

Section Replay.
Context `{Primitives}.

Lemma rotate_recv_history d past : 0 <= dec_epoch d < 2 ^ 32 - 1 -> history d past ->
  history (rotate_recv d).1 past /\ dec_epoch (rotate_recv d).1 = dec_epoch d + 1.
Proof.
  intros He (seen & Hrem & HF). unfold rotate_recv.
  rewrite !(wrap_small 32 (_ + 1)) by (unfold uint; lia).
  destruct (to_encryption_error _); (split; [|done]);
    [exists []; split; [apply remembers_empty|]|exists seen; split; [done|]];
    (eapply Forall_slot_weaken; [exact HF|cbn; lia]).
Qed.

Lemma decrypt_frame_history d f past :
  0 <= dec_epoch d < 2 ^ 32 - 1 -> typed_frame f -> history d past ->
  let (d', r) := decrypt_frame d f in
  dec_epoch d <= dec_epoch d' <= dec_epoch d + 1 /\
  match r with
  | Ok _ => frame_slot f ∉ past /\ history d' (frame_slot f :: past)
  | Err _ => history d' past
  end.
Proof.
  intros He Hf (seen & Hrem & HF). unfold decrypt_frame.
  rewrite !(wrap_small 32 (_ + 1)) by (unfold uint; lia).
  destruct (Z.eqb_spec (ef_epoch f) (dec_epoch d)) as [Heq|Hne].
  - pose proof (protect_replay_accepts _ _ _ Hrem Hf) as Hacc.
    destruct (protect_replay _ _) as [r' [[]|err]].
    2: { split; [lia|]. by exists seen. }
    destruct Hacc as [Hni Hrem'].
    assert (Forall (fun s => s.1 <= dec_epoch d /\ (s.1 = dec_epoch d ->
              s.2 ∈ nonce_counter (ef_nonce f) :: seen)) past) as HF'.
    { eapply Forall_slot_weaken; [exact HF|]. right. split; [done|]. set_solver. }
    destruct (to_encryption_error _) as [pt|]; cbn.
    2: { split; [lia|]. by eexists. }
    split; [lia|]. destruct (decode_vec pt); [|by eexists]. split.
    + intros Hin%list_elem_of_In. rewrite Stdlib.Lists.List.Forall_forall in HF.
      apply HF in Hin as [_ Hin]. by apply Hni, Hin.
    + eexists. split; [exact Hrem'|]. constructor; [|done]. cbn. split; [lia|]. left.
  - destruct (Z.eqb_spec (ef_epoch f) (dec_epoch d + 1)) as [Heq|Hne'].
    2: { split; [lia|]. by exists seen. }
    destruct (to_encryption_error (hkdf_derive _ _ _)); [|split; [lia|by exists seen]].
    pose proof (protect_replay_accepts replay_new _ [] remembers_empty Hf) as Hacc.
    destruct (protect_replay _ _) as [r' [[]|err]]; [|split; [lia|by exists seen]].
    destruct Hacc as [_ Hrem'].
    destruct (to_encryption_error _) as [pt|]; [|split; [lia|by exists seen]].
    split; [cbn; lia|].
    assert (history {| recv_key := a; dec_epoch := dec_epoch d + 1; replay_protection := r' |}
              (frame_slot f :: past)) as Hh.
    { eexists. split; [exact Hrem'|]. constructor; [cbn; split; [lia|left]|].
      eapply Forall_slot_weaken; [exact HF|cbn; lia]. }
    destruct (decode_vec pt).
    + split; [|done]. intros Hin%list_elem_of_In.
      rewrite Stdlib.Lists.List.Forall_forall in HF. apply HF in Hin as [Hin _]. cbn in Hin. lia.
    + destruct Hh as (s & Hs & HFs). exists s. split; [done|]. by inversion HFs.
Qed.
End Replay.

Definition typed_op (op : decryptor_op) : Prop :=
  match op with OpDecrypt f => typed_frame f | OpRotateRecv => True end.

Lemma accepted_fresh `{Primitives} ops d past :
  0 <= dec_epoch d -> dec_epoch d + zlen ops < 2 ^ 32 -> Forall typed_op ops -> history d past ->
  NoDup (frame_slot <$> accepted d ops) /\
  Forall (fun f => frame_slot f ∉ past) (accepted d ops).
Proof.
  revert d past. induction ops as [|op ops IH]; intros d past He Hroom Hty Hh.
  { split; constructor. }
  rewrite zlen_cons in Hroom. pose proof (zlen_nonneg ops). inversion_clear Hty as [|? ? Hop Hops].
  destruct op as [f|]; cbn [accepted].
  - pose proof (decrypt_frame_history d f past ltac:(lia) Hop Hh) as Hd.
    destruct (decrypt_frame d f) as [d' [x|err]]; destruct Hd as [Hep Hd].
    + destruct Hd as [Hni Hh']. destruct (IH d' _ ltac:(lia) ltac:(lia) Hops Hh') as [Hnd HF].
      rewrite fmap_cons. split; constructor; try done.
      * intros (g & Hg & Hin%list_elem_of_In)%list_elem_of_fmap.
        rewrite Stdlib.Lists.List.Forall_forall in HF. apply (HF g Hin). rewrite <- Hg. left.
      * eapply Forall_impl; [|exact HF]. intros g Hg Hin. apply Hg. by right.
    + apply IH; [lia|lia|done|done].
  - destruct (rotate_recv_history d past ltac:(lia) Hh) as [Hh' He']. apply IH; [lia|lia|done|done].
Qed.

(** C14.  Replay protection: over any sequence of decryptions and rotations of a
    fresh decryptor, forged, reordered and replayed frames included and whatever
    the primitives answer, no two accepted frames carry the same epoch and
    counter. *)
Theorem accepted_frames_distinct `{Primitives} key epoch ops :
  0 <= epoch -> epoch + zlen ops < 2 ^ 32 -> Forall typed_op ops ->
  NoDup (frame_slot <$> accepted (decryptor_new key epoch) ops).
Proof.
  intros He Hroom Hty. eapply (accepted_fresh ops (decryptor_new key epoch) []); [done..|].
  exists []. split; [apply remembers_empty|constructor].
Qed.

Definition sample_encrypted (e : FrameEncryptor) : EncryptedFrame :=
  match (encrypt_frame (H := toy_primitives) e sample_frame).2 with
  | Ok f => f
  | Err _ => {| ef_epoch := 0; ef_nonce := nonce_new 0 0; ciphertext := []; tag := [] |}
  end.

(** A frame accepted once, and its replay. *)
Lemma accepted_frames_distinct_witness :
  let f := sample_encrypted sample_encryptor in
  accepted (H := toy_primitives) (decryptor_new (sample_key 7) 0) [OpDecrypt f; OpDecrypt f] = [f] /\
  NoDup (frame_slot <$> accepted (H := toy_primitives) (decryptor_new (sample_key 7) 0)
           [OpDecrypt f; OpDecrypt f]).
Proof.
  intros f. split; [vm_compute; reflexivity|].
  apply accepted_frames_distinct; [lia|unfold zlen; simpl; lia|].
  repeat constructor; unfold typed_op, typed_frame; by_decide.
Defined.

(** ** One direction of a session *)

Section Sync.
Context `{PrimitivesLaws}.

Definition synced (e : FrameEncryptor) (d : FrameDecryptor) : Prop :=
  (dec_epoch d = enc_epoch e /\ recv_key d = send_key e /\
   max_counter (replay_protection d) <= counter e /\
   exists seen,
     remembers (max_counter (replay_protection d)) (received_mask (replay_protection d)) seen /\
     counter e ∉ seen) \/
  (enc_epoch e = dec_epoch d + 1 /\ counter e = 0 /\
   hkdf_derive None (recv_key d) (Some (epoch_info (enc_epoch e))) = Ok (send_key e)).

Lemma protect_replay_next r n seen :
  remembers (max_counter r) (received_mask r) seen -> nonce_counter n ∉ seen ->
  max_counter r <= nonce_counter n ->
  exists r', protect_replay r n = (r', Ok tt) /\ max_counter r' = nonce_counter n /\
    remembers (max_counter r') (received_mask r') (nonce_counter n :: seen).
Proof.
  intros Hrem Hni Hmax. rewrite protect_replay_slide.
  pose proof (rem_max _ _ _ Hrem) as H0'.
  pose proof (slide_refines _ _ _ (nonce_counter n) Hrem ltac:(lia)) as Hs.
  unfold WINDOW in Hs. destruct (slide _ _ _) as [[m k]|].
  - destruct Hs as (_ & _ & Hm & Hr). eexists. split; [done|]. cbn. split; [lia|done].
  - exfalso. destruct Hs; [done|lia].
Qed.

(** A synchronised decryptor accepts the next frame and follows the encryptor. *)
Lemma synced_step e d frame :
  synced e d -> uint 32 (enc_epoch e) -> 0 <= dec_epoch d ->
  0 <= counter e < 2 ^ 64 - 1 -> frame_ok frame -> zlen (encode_frame frame) < 2 ^ 32 ->
  exists f d', (encrypt_frame e frame).2 = Ok f /\ decrypt_frame d f = (d', Ok frame) /\
    synced (encrypt_frame e frame).1 d' /\ dec_epoch d' = enc_epoch e /\
    recv_key d' = send_key e /\ ef_epoch f = enc_epoch e.
Proof.
  intros Hs He Hd Hc Hok Hlen. unfold encrypt_frame.
  destruct (encrypt_aead_total (send_key e) (nonce_bytes (generate_nonce e)) (encode_frame frame) [])
    as (ct & t & Henc & _ & _); [done|].
  rewrite Henc. cbn [to_encryption_error map_err snd fst].
  pose proof (decrypt_encrypt_aead _ _ _ _ _ _ Henc) as Hdec.
  destruct (nonce_fields (enc_epoch e) (counter e)) as [_ Hnc]; [done|unfold uint; lia|].
  exists {| ef_epoch := enc_epoch e; ef_nonce := generate_nonce e; ciphertext := ct; tag := t |}.
  unfold decrypt_frame. cbn [ef_epoch ef_nonce ciphertext tag].
  destruct Hs as [(Hep & Hk & Hmax & seen & Hrem & Hni)|(Hep & Hc0 & Hkey)].
  - rewrite (proj2 (Z.eqb_eq _ _)) by lia.
    destruct (protect_replay_next (replay_protection d) (generate_nonce e) seen) as (r' & -> & Hm' & Hr');
      [done| |unfold generate_nonce; by rewrite Hnc|]; [unfold generate_nonce; by rewrite Hnc|].
    cbn [recv_key]. rewrite Hk, Hdec. cbn [to_encryption_error map_err].
    rewrite (decode_vec_encode frame Hok). eexists. split_and!; [done|done| |done..].
    left. cbn. unfold generate_nonce in *. rewrite Hnc in *. rewrite wrap_small by (unfold uint; lia).
    split_and!; [done|done|lia|]. eexists. split; [done|].
    intros Hin. pose proof (rem_bound _ _ _ Hr' _ Hin). lia.
  - assert (wrap 32 (dec_epoch d + 1) = enc_epoch e) as -> by (rewrite <- Hep; by apply wrap_small).
    rewrite (proj2 (Z.eqb_neq _ _)), Z.eqb_refl by lia.
    rewrite Hkey. cbn [to_encryption_error map_err].
    destruct (protect_replay_next replay_new (generate_nonce e) []) as (r' & -> & Hm' & Hr');
      [apply remembers_empty|apply not_elem_of_nil|unfold generate_nonce; rewrite Hnc; cbn; lia|].
    rewrite Hdec. cbn [to_encryption_error map_err].
    rewrite (decode_vec_encode frame Hok). eexists. split_and!; [done|done| |done..].
    left. cbn. unfold generate_nonce in *. rewrite Hnc in *. rewrite wrap_small by (unfold uint; lia).
    split_and!; [done|done|lia|]. eexists. split; [done|].
    intros Hin. pose proof (rem_bound _ _ _ Hr' _ Hin). lia.
Qed.

Lemma rotate_keys_total c : exists c', rotate_keys c = (c', Ok tt) /\
  rotation_policy c' = rotation_policy c /\
  encryptor c' = (rotate_send (encryptor c)).1 /\
  hkdf_derive None (send_key (encryptor c))
    (Some (epoch_info (wrap 32 (enc_epoch (encryptor c) + 1)))) = Ok (send_key (encryptor c')) /\
  counter (encryptor c') = 0 /\
  enc_epoch (encryptor c') = wrap 32 (enc_epoch (encryptor c) + 1) /\
  dec_epoch (decryptor c') = wrap 32 (dec_epoch (decryptor c) + 1).
Proof.
  unfold rotate_keys, rotate_send, rotate_recv.
  edestruct (hkdf_derive_total None (send_key (encryptor c))) as [k Hk]; rewrite Hk.
  edestruct (hkdf_derive_total None (recv_key (decryptor c))) as [k' Hk']; rewrite Hk'.
  cbn. by eexists.
Qed.

Lemma context_step c d frame n :
  synced (encryptor c) d -> 0 < n -> encryptor_room (encryptor c) n -> 0 <= dec_epoch d ->
  frame_ok frame -> zlen (encode_frame frame) < 2 ^ 32 ->
  exists f c' d', context_encrypt c frame = (c', Ok f) /\ decrypt_frame d f = (d', Ok frame) /\
    synced (encryptor c') d' /\ 0 <= dec_epoch d' /\ encryptor_room (encryptor c') (n - 1).
Proof.
  intros Hs Hn Hroom Hd Hok Hlen.
  pose proof (encrypt_frame_room (encryptor c) frame n Hn Hroom) as (Hroom' & Hep & Hcase).
  destruct (synced_step (encryptor c) d frame) as (f & d' & Hf & Hdec & Hs' & Hde & Hdk & _);
    [done|unfold encryptor_room, uint in *; lia|done|unfold encryptor_room in *; lia|done|done|].
  pose proof (encrypt_frame_key (encryptor c) frame) as Hkey.
  unfold context_encrypt. destruct (encrypt_frame (encryptor c) frame) as [e' r].
  cbn in Hf, Hs', Hroom', Hep, Hkey, Hcase. subst r.
  assert (0 <= dec_epoch d') by (rewrite Hde; unfold encryptor_room in *; lia).
  cbn [encryptor decryptor rotation_policy].
  destruct (rotation_policy c) as [|limit]; [by eexists _, _, _|].
  destruct (limit <=? counter e'); [|by eexists _, _, _].
  edestruct rotate_keys_total as (c' & -> & _ & He' & Hk & Hc0 & Hw & _).
  cbn [encryptor] in *. eexists _, _, _. split; [done|]. split; [done|].
  rewrite wrap_small in Hk, Hw by (unfold encryptor_room, uint in *; lia).
  split_and!; [|done|unfold encryptor_room in *; lia].
  right. rewrite Hw. split_and!; [lia|done|]. by rewrite Hdk, <- Hkey.
Qed.
End Sync.

Lemma encrypt_decrypt_all `{PrimitivesLaws} frames c c2 :
  synced (encryptor c) (decryptor c2) -> encryptor_room (encryptor c) (zlen frames) ->
  0 <= dec_epoch (decryptor c2) ->
  Forall (fun frame => frame_ok frame /\ zlen (encode_frame frame) < 2 ^ 32) frames ->
  exists fs, (encrypt_all c frames).2 = Ok <$> fs /\ (decrypt_all c2 fs).2 = Ok <$> frames.
Proof.
  revert c c2. induction frames as [|frame frames IH]; intros c c2 Hs Hroom Hd HF.
  { by exists []. }
  inversion_clear HF as [|? ? [Hok Hlen] HF'].
  rewrite zlen_cons in Hroom. pose proof (zlen_nonneg frames).
  destruct (context_step c (decryptor c2) frame (zlen frames + 1))
    as (f & c' & d' & Henc & Hdec & Hs' & Hd' & Hroom'); [done|lia|done..|].
  replace (zlen frames + 1 - 1) with (zlen frames) in Hroom' by lia.
  cbn [encrypt_all]. rewrite Henc.
  destruct (IH c' {| encryptor := encryptor c2; decryptor := d'; rotation_policy := rotation_policy c2 |})
    as (fs & Hfs & Hds); [done..|].
  exists (f :: fs). cbn [decrypt_all]. unfold context_decrypt. rewrite Hdec.
  destruct (encrypt_all c' frames) as [c'' rs]. destruct (decrypt_all _ fs) as [c2' ds].
  cbn in *. by subst.
Qed.

(** One direction of a session: whatever the rotation policy, everything a
    context encrypts from its initial state is accepted, in order, by the peer's
    context (whose receive key is the sender's send key), across every automatic
    key rotation, and gives back the frames that were sent. *)
Theorem session_stream_roundtrip `{PrimitivesLaws} keys keys' policy policy' frames :
  sk_send_key keys = sk_recv_key keys' -> sk_epoch keys = sk_epoch keys' ->
  0 <= sk_epoch keys -> sk_epoch keys + zlen frames < 2 ^ 32 ->
  Forall (fun frame => frame_ok frame /\ zlen (encode_frame frame) < 2 ^ 32) frames ->
  exists fs, (encrypt_all (context_new keys policy) frames).2 = Ok <$> fs /\
             (decrypt_all (context_new keys' policy') fs).2 = Ok <$> frames.
Proof.
  intros Hk He H0' Hroom HF. apply encrypt_decrypt_all; [|unfold encryptor_room; cbn; lia|cbn; lia|done].
  left. cbn. split_and!; [done|done|done|]. exists []. split; [apply remembers_empty|apply not_elem_of_nil].
Qed.

Definition sample_keys (a b : Z) : SessionKeys :=
  {| sk_send_key := sample_key a; sk_recv_key := sample_key b; sk_epoch := 0 |}.

(** Five frames under a limit of two: the keys rotate twice on the way. *)
Lemma session_stream_roundtrip_witness :
  current_key_epoch (encrypt_all (H := toy_primitives) (context_new (sample_keys 7 9) (Counter 2))
    (replicate 5 sample_frame)).1 = 2 /\
  exists fs,
    (encrypt_all (H := toy_primitives) (context_new (sample_keys 7 9) (Counter 2))
       (replicate 5 sample_frame)).2 = Ok <$> fs /\
    (decrypt_all (H := toy_primitives) (context_new (sample_keys 9 7) Manual) fs).2 =
      Ok <$> replicate 5 sample_frame.
Proof.
  split; [vm_compute; reflexivity|].
  apply (@session_stream_roundtrip toy_primitives toy_laws); try done.
  apply Forall_replicate. split; [by_decide|vm_compute; reflexivity].
Defined.

(** ** Forged frames *)

Lemma protect_replay_moves r n :
  nonce_counter n <= max_counter (protect_replay r n).1 /\
  (nonce_counter n <= max_counter r - 64 -> protect_replay r n = (r, Err ReplayDetected)).
Proof.
  unfold protect_replay. split.
  - case_bool; cbn; try lia. destruct (negb _); cbn; lia.
  - intros Hn. by rewrite (proj2 (Z.leb_le _ _)), (proj2 (Z.leb_le _ _)) by lia.
Qed.

(** C40.  A frame that fails authentication.  In an epoch other than the current
    one it leaves the decryptor exactly as it was; in the current epoch it is
    rejected too and never changes the key or the epoch, but the replay window
    has already been moved to its (unauthenticated) counter: every genuine frame
    64 or more below that counter is rejected from then on. *)
Theorem forged_frame_effect `{Primitives} d f :
  (forall key, is_ok (decrypt_aead key (nonce_bytes (ef_nonce f)) (ciphertext f) (tag f) []) = false) ->
  is_ok (decrypt_frame d f).2 = false /\
  (ef_epoch f <> dec_epoch d -> (decrypt_frame d f).1 = d) /\
  recv_key (decrypt_frame d f).1 = recv_key d /\ dec_epoch (decrypt_frame d f).1 = dec_epoch d /\
  (ef_epoch f = dec_epoch d ->
   forall g, ef_epoch g = dec_epoch d ->
     nonce_counter (ef_nonce g) <= nonce_counter (ef_nonce f) - 64 ->
     decrypt_frame (decrypt_frame d f).1 g = ((decrypt_frame d f).1, Err ReplayDetected)).
Proof.
  intros Hforged.
  assert (forall key, exists err, to_encryption_error
    (decrypt_aead key (nonce_bytes (ef_nonce f)) (ciphertext f) (tag f) []) = Err err) as Hfail.
  { intros key. specialize (Hforged key). destruct (decrypt_aead key _ _ _ _); [done|by eexists]. }
  unfold decrypt_frame at 1 2 3 4 6 7.
  destruct (Z.eqb_spec (ef_epoch f) (dec_epoch d)) as [Heq|Hne].
  - destruct (protect_replay_moves (replay_protection d) (ef_nonce f)) as [Hmv Hold].
    destruct (Hfail (recv_key d)) as [err Herr].
    assert (forall r, r = (protect_replay (replay_protection d) (ef_nonce f)).1 \/
              (r = replay_protection d /\ exists e, (protect_replay r (ef_nonce f)).2 = Err e) ->
            nonce_counter (ef_nonce f) <= max_counter r) as Hr.
    { intros r [->|[-> [e He]]]; [done|]. revert He. unfold protect_replay.
      case_bool; cbn; try lia; done. }
    assert (forall r g, nonce_counter (ef_nonce f) <= max_counter r -> ef_epoch g = dec_epoch d ->
      nonce_counter (ef_nonce g) <= nonce_counter (ef_nonce f) - 64 ->
      let d' := {| recv_key := recv_key d; dec_epoch := dec_epoch d; replay_protection := r |} in
      decrypt_frame d' g = (d', Err ReplayDetected)) as Hg.
    { intros r g Hle Hge Hgc d'. unfold decrypt_frame. cbn. rewrite Hge, Z.eqb_refl.
      by rewrite (proj2 (protect_replay_moves r (ef_nonce g))) by lia. }
    destruct (protect_replay (replay_protection d) (ef_nonce f)) as [r [u|e]] eqn:Hp; cbn in *.
    + rewrite Herr. cbn. split_and!; try done. intros _ g Hge Hgc. apply Hg; [by apply Hr; left|done..].
    + split_and!; try done. intros _ g Hge Hgc. destruct d as [k ep rp]; cbn in *. apply Hg; [|done..].
      apply Hr. right. split; [done|]. exists e. by rewrite Hp.
  - destruct (_ =? wrap 32 _); [|by split_and!].
    destruct (to_encryption_error _) as [key|]; [|by split_and!].
    destruct (protect_replay _ _) as [r [u|e]]; [|by split_and!].
    destruct (Hfail key) as [err ->]. by split_and!.
Qed.

(** A forged frame at counter 100, then a genuine one at counter 0. *)
Lemma forged_frame_effect_witness :
  let f := {| ef_epoch := 0; ef_nonce := nonce_new 0 100; ciphertext := []; tag := [1] |} in
  let d := decryptor_new (sample_key 7) 0 in
  let g := sample_encrypted sample_encryptor in
  (decrypt_frame (H := toy_primitives) d g).2 = Ok sample_frame /\
  decrypt_frame (H := toy_primitives) (decrypt_frame (H := toy_primitives) d f).1 g =
    ((decrypt_frame (H := toy_primitives) d f).1, Err ReplayDetected).
Proof.
  intros f d g. split; [vm_compute; reflexivity|].
  apply (@forged_frame_effect toy_primitives d f); [|reflexivity|vm_compute; reflexivity|by_decide].
  intros key. unfold decrypt_aead, chacha_open. simpl. rewrite decide_False; [done|].
  intros Heq%(f_equal length). by rewrite length_toy_tag in Heq.
Defined.

(** The two directions of a context are not independent: when a send
    reaches the rotation limit, the context advances its receive key and epoch as
    well, so a frame its peer has encrypted in the epoch the two had agreed on
    until then is rejected, whatever it contains. *)
Theorem send_rotation_rejects_peer `{PrimitivesLaws} c frame limit :
  rotation_policy c = Counter limit -> limit <= wrap 64 (counter (encryptor c) + 1) ->
  uint 32 (dec_epoch (decryptor c)) -> zlen (encode_frame frame) < 2 ^ 32 ->
  is_ok (context_encrypt c frame).2 = true /\
  forall f, ef_epoch f = dec_epoch (decryptor c) ->
    context_decrypt (context_encrypt c frame).1 f =
      ((context_encrypt c frame).1, Err EncryptionError).
Proof.
  intros Hp Hlim He Hlen. unfold context_encrypt, encrypt_frame.
  destruct (encrypt_aead_total (send_key (encryptor c)) (nonce_bytes (generate_nonce (encryptor c)))
              (encode_frame frame) []) as (ct & t & Henc & _ & _); [done|].
  rewrite Henc. cbn [to_encryption_error map_err rotation_policy encryptor counter].
  rewrite Hp, (proj2 (Z.leb_le _ _) Hlim).
  edestruct rotate_keys_total as (c' & -> & _ & _ & _ & _ & _ & Hd).
  cbn [decryptor] in Hd. split; [done|]. intros f Hf.
  unfold context_decrypt, decrypt_frame. cbn [fst]. rewrite Hf, Hd.
  unfold wrap, uint in *. 
  rewrite (proj2 (Z.eqb_neq _ _)), (proj2 (Z.eqb_neq _ _)).
  - by destruct c'.
  - destruct (Z.eq_dec (dec_epoch (decryptor c)) (2 ^ 32 - 1)) as [-> |]; [done|].
    rewrite (Z.mod_small (dec_epoch (decryptor c) + 1)) by lia.
    destruct (Z.eq_dec (dec_epoch (decryptor c)) (2 ^ 32 - 2)) as [-> |]; [done|].
    rewrite Z.mod_small by lia. lia.
  - destruct (Z.eq_dec (dec_epoch (decryptor c)) (2 ^ 32 - 1)) as [-> |]; [done|].
    rewrite Z.mod_small by lia. lia.
Qed.

(** Mirrored contexts with a limit of one: after one send, the peer's first frame
    (which its own context decrypts fine from the initial state) is refused. *)
Lemma send_rotation_rejects_peer_witness :
  let a := context_new (sample_keys 7 9) (Counter 1) in
  let g := sample_encrypted (encryptor (context_new (sample_keys 9 7) (Counter 1))) in
  (context_decrypt (H := toy_primitives) a g).2 = Ok sample_frame /\
  (context_decrypt (H := toy_primitives) (context_encrypt (H := toy_primitives) a sample_frame).1 g).2
    = Err EncryptionError.
Proof.
  intros a g. split; [vm_compute; reflexivity|].
  rewrite (proj2 (@send_rotation_rejects_peer toy_primitives toy_laws a sample_frame 1
    ltac:(done) ltac:(by_decide) ltac:(by_decide) ltac:(by_decide))); [done|].
  vm_compute. reflexivity.
Defined.
