(* ===== verification/Reliability.v ===== *)
(** * Reliable delivery (bw-protocol, [reliability.rs])

    The sender (sliding window, retransmission queue, timeouts, selective
    acknowledgments) and the receiver (duplicate filter, ordered assembly).
    Sequence numbers are 64-bit words; an instant is a number of nanoseconds, and
    the instant [send] reads from the clock is an argument. *)

From S2P Require Import Prelude Codec Window.

(** ** Data *)

(** [SequenceNumber::next]. *)
Definition seq_next (s : Z) : Z := wrap 64 (s + 1).

Record AckFrame := { acked_seq : Z; ack_bits : Z }.

Record ReliableFrame := { rf_seq : Z; rf_payload : list Z }.

Inductive DeliveryState : Type := Pending | Acked | TimedOut.

#[global] Instance DeliveryState_eq_dec : EqDecision DeliveryState.
Proof. solve_decision. Defined.

#[global] Instance ReliableFrame_eq_dec : EqDecision ReliableFrame.
Proof. solve_decision. Defined.

Record TimeoutPolicy := { rto : Z; max_retransmissions : Z }.

Record RetransmissionEntry := {
  re_frame : ReliableFrame;
  sent_at : Z;
  retransmissions : Z;
  re_state : DeliveryState;
}.

Record SlidingWindow := { base : Z; next_seq : Z; window_size : Z }.

Definition sliding_window_new (window_size : Z) : SlidingWindow :=
  {| base := 0; next_seq := 0; window_size := window_size |}.

Definition window_available (w : SlidingWindow) : Z :=
  let unacked := sat_sub (next_seq w) (base w) in
  wrap 32 (sat_sub (window_size w) unacked).

(** ** Duplicate filter *)

Record DuplicateFilter := { max_received : Z; dup_mask : Z }.

Definition filter_new : DuplicateFilter := {| max_received := 0; dup_mask := 0 |}.

(** [DuplicateFilter::check_and_track]: [true] for a duplicate. *)
Definition check_and_track (f : DuplicateFilter) (val : Z) : DuplicateFilter * bool :=
  if val <=? max_received f then
    let diff := max_received f - val in
    if 64 <=? diff then (f, true)
    else
      let bit := Z.shiftl 1 diff in
      if negb (Z.land (dup_mask f) bit =? 0) then (f, true)
      else ({| max_received := max_received f; dup_mask := Z.lor (dup_mask f) bit |}, false)
  else
    let diff := val - max_received f in
    let mask := if 64 <=? diff then 1
                else Z.lor (wrap 64 (Z.shiftl (dup_mask f) diff)) 1 in
    ({| max_received := val; dup_mask := mask |}, false).

(** ** Ordered assembly *)

Record OrderedAssembler := { next_expected : Z; buffer : gmap Z ReliableFrame }.

Definition assembler_new : OrderedAssembler := {| next_expected := 0; buffer := ∅ |}.

Definition assembler_insert (a : OrderedAssembler) (frame : ReliableFrame) : OrderedAssembler :=
  if next_expected a <=? rf_seq frame
  then {| next_expected := next_expected a; buffer := <[rf_seq frame := frame]> (buffer a) |}
  else a.

(** The loop of [OrderedAssembler::assemble]; each turn removes an entry, so the
    size of the buffer bounds the number of turns. *)
Fixpoint assemble_loop (fuel : nat) (a : OrderedAssembler) (ready : list (list Z)) :
    OrderedAssembler * list (list Z) :=
  match fuel with
  | O => (a, ready)
  | S fuel =>
      match buffer a !! next_expected a with
      | Some frame =>
          assemble_loop fuel
            {| next_expected := seq_next (next_expected a);
               buffer := delete (next_expected a) (buffer a) |}
            (ready ++ [rf_payload frame])
      | None => (a, ready)
      end
  end.

Definition assemble (a : OrderedAssembler) : OrderedAssembler * list (list Z) :=
  assemble_loop (size (buffer a)) a [].

(** ** Sender *)

Record ReliableSender := {
  window : SlidingWindow;
  queue : list RetransmissionEntry;
  policy : TimeoutPolicy;
}.

Definition sender_new (window_size : Z) (policy : TimeoutPolicy) : ReliableSender :=
  {| window := sliding_window_new window_size; queue := []; policy := policy |}.

(** [ReliableSender::send] at the instant [now]. *)
Definition send (s : ReliableSender) (now : Z) (payload : list Z) :
    ReliableSender * result ProtocolError ReliableFrame :=
  if window_available (window s) =? 0 then (s, Err WindowFull)
  else
    let seq := next_seq (window s) in
    let frame := {| rf_seq := seq; rf_payload := payload |} in
    let entry := {| re_frame := frame; sent_at := now; retransmissions := 0; re_state := Pending |} in
    ({| window := {| base := base (window s); next_seq := seq_next seq;
                     window_size := window_size (window s) |};
        queue := queue s ++ [entry];
        policy := policy s |}, Ok frame).

Definition set_state (e : RetransmissionEntry) (st : DeliveryState) : RetransmissionEntry :=
  {| re_frame := re_frame e; sent_at := sent_at e; retransmissions := retransmissions e;
     re_state := st |}.

(** [mark_delivered]: the first entry with that sequence number. *)
Fixpoint mark_entry (q : list RetransmissionEntry) (seq : Z) : list RetransmissionEntry :=
  match q with
  | [] => []
  | e :: q => if rf_seq (re_frame e) =? seq then set_state e Acked :: q else e :: mark_entry q seq
  end.

Definition mark_delivered (s : ReliableSender) (seq : Z) : ReliableSender :=
  {| window := window s; queue := mark_entry (queue s) seq; policy := policy s |}.

(** The loop of [ack] that slides the window base over acknowledged entries. *)
Fixpoint slide_base (b : Z) (q : list RetransmissionEntry) : Z * list RetransmissionEntry :=
  match q with
  | [] => (b, [])
  | e :: q' =>
      if decide (re_state e = Acked) then slide_base (seq_next (rf_seq (re_frame e))) q' else (b, q)
  end.

(** The sequence numbers an acknowledgment names, in the order they are marked. *)
Definition acked_seqs (ack : AckFrame) : list Z :=
  acked_seq ack ::
  ((fun i => wrap 64 (acked_seq ack - (i + 1))) <$>
     filter (fun i => Z.land (ack_bits ack) (Z.shiftl 1 i) <> 0) (seqZ 0 64)).

Definition ack (s : ReliableSender) (a : AckFrame) : ReliableSender * result ProtocolError unit :=
  let s := foldl mark_delivered s (acked_seqs a) in
  let (b, q) := slide_base (base (window s)) (queue s) in
  ({| window := {| base := b; next_seq := next_seq (window s);
                   window_size := window_size (window s) |};
      queue := q; policy := policy s |}, Ok tt).

Definition timed_out (p : TimeoutPolicy) (now : Z) (e : RetransmissionEntry) : bool :=
  bool_decide (re_state e = Pending) && (rto p <=? sat_sub now (sent_at e)).

(** [mark_timeout]. *)
Definition mark_timeout (s : ReliableSender) (now : Z) : ReliableSender * list Z :=
  ({| window := window s;
      queue := (fun e => if timed_out (policy s) now e then set_state e TimedOut else e) <$> queue s;
      policy := policy s |},
   (fun e => rf_seq (re_frame e)) <$> filter (fun e => timed_out (policy s) now e = true) (queue s)).

Definition retryable (p : TimeoutPolicy) (e : RetransmissionEntry) : bool :=
  bool_decide (re_state e = TimedOut) && (retransmissions e <? max_retransmissions p).

(** [retransmit]. *)
Definition retransmit (s : ReliableSender) (now : Z) : ReliableSender * list ReliableFrame :=
  ({| window := window s;
      queue := (fun e => if retryable (policy s) e
                         then {| re_frame := re_frame e; sent_at := now;
                                 retransmissions := retransmissions e + 1; re_state := Pending |}
                         else e) <$> queue s;
      policy := policy s |},
   re_frame <$> filter (fun e => retryable (policy s) e = true) (queue s)).

Definition outstanding (e : RetransmissionEntry) : Prop :=
  re_state e = Pending \/ re_state e = TimedOut.

#[global] Instance outstanding_dec e : Decision (outstanding e).
Proof. unfold outstanding. apply _. Defined.

Definition queue_depth (s : ReliableSender) : Z := zlen (filter outstanding (queue s)).

Definition pending_frames (s : ReliableSender) : list ReliableFrame :=
  re_frame <$> filter outstanding (queue s).

(** ** Receiver *)

Record ReliableReceiver := { assembler : OrderedAssembler; dup_filter : DuplicateFilter }.

Definition receiver_new : ReliableReceiver :=
  {| assembler := assembler_new; dup_filter := filter_new |}.

(** [ReliableReceiver::receive]. *)
Definition receive (r : ReliableReceiver) (frame : ReliableFrame) :
    ReliableReceiver * result ProtocolError (list (list Z)) :=
  match check_and_track (dup_filter r) (rf_seq frame) with
  | (f, true) => ({| assembler := assembler r; dup_filter := f |}, Ok [])
  | (f, false) =>
      let (a, ready) := assemble (assembler_insert (assembler r) frame) in
      ({| assembler := a; dup_filter := f |}, Ok ready)
  end.

(** Feeding a sequence of frames; the payloads handed to the consumer. *)
Fixpoint receive_all (r : ReliableReceiver) (frames : list ReliableFrame) :
    ReliableReceiver * list (list Z) :=
  match frames with
  | [] => (r, [])
  | frame :: frames =>
      let (r, out) := receive r frame in
      let (r, rest) := receive_all r frames in
      (r, match out with Ok ps => ps | Err _ => [] end ++ rest)
  end.

(** ** Filter lemmas *)

Lemma check_and_track_slide f v :
  check_and_track f v =
    match slide (max_received f) (dup_mask f) v with
    | Some (m, k) => ({| max_received := m; dup_mask := k |}, false)
    | None => (f, true)
    end.
Proof.
  unfold check_and_track, slide, WINDOW. cbv zeta.
  destruct (_ <=? _), (64 <=? _); try done. by destruct (_ =? 0).
Qed.

(** ** Assembly lemmas *)

Lemma assemble_loop_fuel n a ready :
  (size (buffer a) <= n)%nat ->
  buffer (assemble_loop n a ready).1 !! next_expected (assemble_loop n a ready).1 = None.
Proof.
  revert a ready. induction n as [|n IH]; intros a ready Hn; cbn [assemble_loop].
  - cbn [fst]. by rewrite (map_size_empty_inv (buffer a)), lookup_empty by lia.
  - destruct (buffer a !! next_expected a) as [frame|] eqn:Hl; [|done].
    apply IH. cbn [buffer]. rewrite map_size_delete_Some by done. lia.
Qed.

(** [assembling P seen a]: the buffer of [a] holds exactly the frames of the
    sequence [P] whose numbers are in [seen] and not delivered yet. *)
Record assembling (P : list (list Z)) (seen : list Z) (a : OrderedAssembler) : Prop := {
  as_next : 0 <= next_expected a <= zlen P;
  as_frames : forall s f, buffer a !! s = Some f ->
    rf_seq f = s /\ P !! Z.to_nat s = Some (rf_payload f) /\ next_expected a <= s < zlen P /\ s ∈ seen;
  as_complete : forall s, s ∈ seen -> next_expected a <= s -> is_Some (buffer a !! s);
  as_delivered : forall s, 0 <= s < next_expected a -> s ∈ seen;
}.

Definition delivered (P : list (list Z)) (a : OrderedAssembler) : list (list Z) :=
  take (Z.to_nat (next_expected a)) P.

(** A frame that carries the payload of its sequence number. *)
Definition genuine (P : list (list Z)) (f : ReliableFrame) : Prop :=
  0 <= rf_seq f < zlen P /\ P !! Z.to_nat (rf_seq f) = Some (rf_payload f).

Section Assembly.
Context (P : list (list Z)) (HP : zlen P < 2 ^ 64).

Lemma assemble_loop_spec seen n a ready acc :
  assembling P seen a -> acc ++ ready = delivered P a ->
  let (a', ready') := assemble_loop n a ready in
  assembling P seen a' /\ acc ++ ready' = delivered P a' /\ next_expected a <= next_expected a'.
Proof.
  revert a ready. induction n as [|n IH]; intros a ready Ha Hr; cbn [assemble_loop]; [done|].
  destruct (buffer a !! next_expected a) as [f|] eqn:Hl; [|done].
  destruct (as_frames _ _ _ Ha _ _ Hl) as (Hseq & HPs & Hrange & Hin).
  pose proof (as_next _ _ _ Ha) as Hnext.
  assert (seq_next (next_expected a) = next_expected a + 1) as Hsn
    by (apply wrap_small; unfold uint; lia).
  rewrite Hsn.
  match goal with |- context [assemble_loop n ?a1 ?r1] =>
    assert (assembling P seen a1 /\ acc ++ r1 = delivered P a1) as [Ha1 Hr1];
    [|specialize (IH a1 r1 Ha1 Hr1); destruct (assemble_loop n a1 r1); cbn in IH;
      destruct IH as (? & ? & ?); split_and!; [done..|lia]]
  end.
  split.
  - split; cbn.
    + lia.
    + intros s g [Hne Hs]%lookup_delete_Some.
      destruct (as_frames _ _ _ Ha _ _ Hs) as (? & ? & ? & ?). split_and!; [done..|lia|lia|done].
    + intros s Hs Hle. rewrite lookup_delete_ne by lia. apply (as_complete _ _ _ Ha); [done|lia].
    + intros s Hs. destruct (Z.eq_dec s (next_expected a)) as [->|]; [done|].
      apply (as_delivered _ _ _ Ha). lia.
  - rewrite app_assoc, Hr. unfold delivered. cbn.
    replace (Z.to_nat (next_expected a + 1)) with (S (Z.to_nat (next_expected a))) by lia.
    by rewrite (take_S_r _ _ (rf_payload f)).
Qed.

Lemma assembler_insert_spec seen a f :
  assembling P seen a -> genuine P f ->
  assembling P (rf_seq f :: seen) (assembler_insert a f) /\
  next_expected (assembler_insert a f) = next_expected a.
Proof.
  intros Ha [Hseq HPs]. unfold assembler_insert.
  destruct (Z.leb_spec (next_expected a) (rf_seq f)) as [Hle|Hlt]; (split; [|done]); split; cbn.
  - apply Ha.
  - intros s g [[<- <-]|[Hne Hg]]%lookup_insert_Some.
    + split_and!; [done..|lia|lia|left].
    + destruct (as_frames _ _ _ Ha _ _ Hg) as (? & ? & ? & ?). split_and!; [done..|lia|lia|by right].
  - intros s Hs Hs'. destruct (Z.eq_dec (rf_seq f) s) as [<-|Hne].
    + rewrite lookup_insert_eq. by eexists.
    + rewrite lookup_insert_ne by done. apply elem_of_cons in Hs as [?|Hs]; [congruence|].
      by apply (as_complete _ _ _ Ha).
  - intros s Hs. right. by apply (as_delivered _ _ _ Ha).
  - apply Ha.
  - intros s g Hg. destruct (as_frames _ _ _ Ha _ _ Hg) as (? & ? & ? & ?).
    split_and!; [done..|lia|lia|by right].
  - intros s Hs Hs'. apply elem_of_cons in Hs as [->|Hs]; [lia|]. by apply (as_complete _ _ _ Ha).
  - intros s Hs. right. by apply (as_delivered _ _ _ Ha).
Qed.

(** The receiver's invariant: [seen] is what the filter let through. *)
Record receiving (seen : list Z) (r : ReliableReceiver) : Prop := {
  rc_filter : remembers (max_received (dup_filter r)) (dup_mask (dup_filter r)) seen;
  rc_asm : assembling P seen (assembler r);
  rc_stuck : next_expected (assembler r) ∉ seen;
}.

Lemma receive_spec seen r f :
  receiving seen r -> genuine P f ->
  exists ps, (receive r f).2 = Ok ps /\
    delivered P (assembler r) ++ ps = delivered P (assembler (receive r f).1) /\
    max_received (dup_filter (receive r f).1) = Z.max (max_received (dup_filter r)) (rf_seq f) /\
    ((receiving (rf_seq f :: seen) (receive r f).1 /\ rf_seq f ∉ seen) \/
     (receiving seen (receive r f).1 /\ assembler (receive r f).1 = assembler r /\
      (rf_seq f ∈ seen \/ rf_seq f <= max_received (dup_filter r) - 64))).
Proof.
  intros [Hf Ha Hst] Hg. unfold receive. rewrite check_and_track_slide.
  pose proof (proj1 Hg) as Hseq.
  pose proof (slide_refines _ _ _ (rf_seq f) Hf ltac:(lia)) as Hs. unfold WINDOW in Hs.
  destruct (slide _ _ _) as [[m k]|] eqn:Hsl.
  - destruct Hs as (Hni & Hlow & Hm & Hrem).
    destruct (assembler_insert_spec seen (assembler r) f Ha Hg) as [Ha' Hn].
    unfold assemble.
    pose proof (assemble_loop_fuel (size (buffer (assembler_insert (assembler r) f)))
                  (assembler_insert (assembler r) f) [] ltac:(lia)) as Hnone.
    pose proof (assemble_loop_spec _ (size (buffer (assembler_insert (assembler r) f)))
                  _ [] (delivered P (assembler r)) Ha') as Hloop.
    destruct (assemble_loop _ _ _) as [a' out]. cbn in *.
    destruct Hloop as (Ha'' & Hout & Hge).
    { rewrite app_nil_r. unfold delivered. by rewrite Hn. }
    exists out. split_and!; [done|done|done|]. left. split; [|done].
    split; [done|done|]. cbn. intros Hin.
    destruct (as_complete _ _ _ Ha'' _ Hin ltac:(lia)) as [? Hsome]. congruence.
  - exists []. cbn. split_and!; [done|by rewrite app_nil_r| |].
    + destruct Hs as [Hs|Hs]; [apply (rem_bound _ _ _ Hf) in Hs|]; lia.
    + right. split_and!; [|done|done]. by split.
Qed.

Lemma receiving_new : receiving [] receiver_new.
Proof.
  split; [apply remembers_empty| |apply not_elem_of_nil].
  split; cbn; [pose proof (zlen_nonneg P); lia|done| |lia]. intros s Hs. by apply not_elem_of_nil in Hs.
Qed.
End Assembly.

(** ** Sender lemmas *)

(** The queue holds one entry per sequence number from the window base to the next
    number to send, in order, and fits the window. *)
Record sender_ok (s : ReliableSender) : Prop := {
  so_seqs : forall i f, (re_frame <$> queue s) !! i = Some f -> rf_seq f = base (window s) + Z.of_nat i;
  so_next : next_seq (window s) = base (window s) + zlen (re_frame <$> queue s);
  so_base : 0 <= base (window s);
  so_size : zlen (re_frame <$> queue s) <= window_size (window s) < 2 ^ 32;
  so_bound : next_seq (window s) < 2 ^ 64;
}.

(** Acknowledged entries carry numbers of [A]. *)
Definition acked_in (A : list Z) (q : list RetransmissionEntry) : Prop :=
  Forall (fun e => re_state e = Acked -> rf_seq (re_frame e) ∈ A) q.

Lemma sender_ok_queue s q' :
  sender_ok s -> re_frame <$> q' = re_frame <$> queue s ->
  sender_ok {| window := window s; queue := q'; policy := policy s |}.
Proof. intros [? ? ? ? ?] Hq. split; cbn; rewrite ?Hq; done. Qed.

Lemma mark_entry_frames q x : re_frame <$> mark_entry q x = re_frame <$> q.
Proof.
  induction q as [|e q IH]; [done|]. cbn [mark_entry]. destruct (_ =? _); [done|].
  rewrite !fmap_cons. by rewrite IH.
Qed.

Lemma mark_entry_acked A q x :
  acked_in A q -> (x ∈ A \/ x ∉ rf_seq <$> (re_frame <$> q)) -> acked_in A (mark_entry q x).
Proof.
  intros Hq. induction Hq as [|e q He Hq IH]; intros Hx; cbn [mark_entry]; [constructor|].
  destruct (Z.eqb_spec (rf_seq (re_frame e)) x) as [<-|Hne]; constructor; try done.
  - intros _. destruct Hx as [?|Hx]; [done|]. exfalso. apply Hx. rewrite !fmap_cons. left.
  - apply IH. destruct Hx as [?|Hx]; [by left|right]. rewrite !fmap_cons in Hx. set_solver.
Qed.

Lemma mark_all_spec s xs :
  re_frame <$> queue (foldl mark_delivered s xs) = re_frame <$> queue s /\
  window (foldl mark_delivered s xs) = window s /\
  policy (foldl mark_delivered s xs) = policy s /\
  forall A, acked_in A (queue s) ->
    Forall (fun x => x ∈ A \/ x ∉ rf_seq <$> (re_frame <$> queue s)) xs ->
    acked_in A (queue (foldl mark_delivered s xs)).
Proof.
  revert s. induction xs as [|x xs IH]; intros s; cbn [foldl]; [done|].
  destruct (IH (mark_delivered s x)) as (Hq & Hw & Hp & HA). cbn [mark_delivered queue window policy] in *.
  rewrite mark_entry_frames in *. split_and!; [done..|].
  intros A HA0 HF. inversion_clear HF as [|? ? Hx HF']. apply HA; [by apply mark_entry_acked|done].
Qed.

(** The sliding loop removes an acknowledged prefix. *)
Lemma slide_base_spec q b :
  (forall i f, (re_frame <$> q) !! i = Some f -> rf_seq f = b + Z.of_nat i) ->
  0 <= b -> b + zlen q < 2 ^ 64 ->
  exists pre, q = pre ++ (slide_base b q).2 /\ (slide_base b q).1 = b + zlen pre /\
    Forall (fun e => re_state e = Acked) pre.
Proof.
  revert b. induction q as [|e q IH]; intros b Hseq Hb Hlen; cbn [slide_base].
  { exists []. split_and!; [done|unfold zlen; cbn; lia|constructor]. }
  case_decide as Hst.
  - pose proof (Hseq 0%nat _ eq_refl) as He. rewrite Z.add_0_r in He. rewrite He.
    unfold zlen in *. cbn [length] in *.
    assert (seq_next b = b + 1) as -> by (apply wrap_small; unfold uint; lia).
    destruct (IH (b + 1)) as (pre & Hq & Hb' & Hpre); [|lia|lia|].
    + intros i f Hi. rewrite (Hseq (S i) f) by done. lia.
    + exists (e :: pre). rewrite Hb'. cbn. split_and!; [by rewrite <- Hq|lia|by constructor].
  - exists []. split_and!; [done|unfold zlen; cbn; lia|constructor].
Qed.

Lemma ack_spec s a A :
  sender_ok s -> acked_in A (queue s) ->
  Forall (fun x => x ∈ A \/ x ∉ rf_seq <$> (re_frame <$> queue s)) (acked_seqs a) ->
  let s' := (ack s a).1 in
  sender_ok s' /\ acked_in A (queue s') /\ (ack s a).2 = Ok tt /\
  next_seq (window s') = next_seq (window s) /\ window_size (window s') = window_size (window s) /\
  base (window s) <= base (window s') /\
  re_frame <$> queue s' = drop (Z.to_nat (base (window s') - base (window s))) (re_frame <$> queue s) /\
  forall x, base (window s) <= x < base (window s') -> x ∈ A.
Proof.
  intros Hs HA HF. cbv zeta. unfold ack.
  destruct (mark_all_spec s (acked_seqs a)) as (Hq & Hw & Hp & HA'). specialize (HA' A HA HF).
  destruct Hs as [Hseq Hnext Hbase Hsize Hbound].
  destruct (slide_base_spec (queue (foldl mark_delivered s (acked_seqs a))) (base (window s)))
    as (pre & Hpre & Hb & Hacked).
  { rewrite Hq. done. } { done. }
  { unfold zlen in *. rewrite <- (length_fmap re_frame), Hq. lia. }
  rewrite Hw. destruct (slide_base _ _) as [b' q'] eqn:Hsl. cbn [fst snd] in *.
  rewrite Hpre in HA'. apply Forall_app in HA' as [HApre HAq].
  assert (re_frame <$> queue s = (re_frame <$> pre) ++ (re_frame <$> q')) as Hsplit
    by (rewrite <- Hq, Hpre; apply fmap_app).
  pose proof (zlen_nonneg pre).
  assert (zlen (re_frame <$> queue s) = zlen pre + zlen (re_frame <$> q')) as Hlen.
  { rewrite Hsplit, zlen_app. unfold zlen. by rewrite length_fmap. }
  cbn [window queue base next_seq window_size policy]. split_and!; try done; try lia.
  - split; cbn [window queue base next_seq window_size]; try lia.
    intros i f Hi. rewrite Hb, (Hseq (length pre + i)%nat f).
    + unfold zlen. lia.
    + rewrite Hsplit, lookup_app_r by (rewrite length_fmap; lia). rewrite length_fmap.
      by replace (length pre + i - length pre)%nat with i by lia.
  - rewrite Hsplit, drop_app_length'; [done|]. rewrite length_fmap. unfold zlen in *. lia.
  - intros x Hx. destruct (lookup_lt_is_Some_2 pre (Z.to_nat (x - base (window s)))) as [e He].
    { unfold zlen in *. lia. }
    assert (rf_seq (re_frame e) = x) as <-.
    { rewrite (Hseq (Z.to_nat (x - base (window s))) (re_frame e)); [lia|].
      rewrite Hsplit, lookup_app_l, list_lookup_fmap by (rewrite length_fmap; unfold zlen in *; lia).
      by rewrite He. }
    apply (Forall_lookup_1 _ _ _ _ HApre He). apply (Forall_lookup_1 _ _ _ _ Hacked He).
Qed.

Lemma send_spec s now p :
  sender_ok s -> next_seq (window s) + 1 < 2 ^ 64 ->
  if decide (zlen (queue s) < window_size (window s)) then
    let s' := (send s now p).1 in
    (send s now p).2 = Ok {| rf_seq := next_seq (window s); rf_payload := p |} /\ sender_ok s' /\
    re_frame <$> queue s' =
      (re_frame <$> queue s) ++ [{| rf_seq := next_seq (window s); rf_payload := p |}] /\
    base (window s') = base (window s) /\ next_seq (window s') = next_seq (window s) + 1 /\
    window_size (window s') = window_size (window s) /\
    forall A, acked_in A (queue s) -> acked_in A (queue s')
  else send s now p = (s, Err WindowFull).
Proof.
  intros [Hseq Hnext Hbase Hsize Hbound] Hroom. unfold send, window_available, sat_sub.
  assert (zlen (re_frame <$> queue s) = zlen (queue s)) as Hl by (unfold zlen; by rewrite length_fmap).
  pose proof (zlen_nonneg (queue s)).
  rewrite (Z.max_r 0 (next_seq _ - _)), wrap_small by (unfold uint; lia).
  case_decide as Hw.
  - rewrite (proj2 (Z.eqb_neq _ _)) by lia. cbv zeta.
    assert (seq_next (next_seq (window s)) = next_seq (window s) + 1) as Hsn
      by (apply wrap_small; unfold uint; lia).
    rewrite Hsn. cbn [fst snd window queue policy base next_seq window_size].
    rewrite fmap_app. cbn [fmap list_fmap re_frame]. split_and!; try done.
    + split; cbn [window queue base next_seq window_size]; rewrite ?fmap_app; cbn [fmap list_fmap re_frame].
      * intros i f Hi. apply lookup_app_Some in Hi as [Hi|[Hi Hf]]; [by apply Hseq|].
        apply list_lookup_singleton_Some in Hf as [Hf <-]. cbn. unfold zlen in *. lia.
      * rewrite zlen_snoc. lia.
      * done.
      * rewrite zlen_snoc. lia.
      * lia.
    + intros A HA. apply Forall_app. split; [done|]. by repeat constructor.
  - rewrite (proj2 (Z.eqb_eq _ _)) by lia. done.
Qed.

(** The timeout operations change no frame and acknowledge nothing. *)
Lemma requeue_spec s f (q' := f <$> queue s) A :
  (forall e, re_frame (f e) = re_frame e /\ (re_state (f e) = Acked -> re_state e = Acked)) ->
  sender_ok s -> acked_in A (queue s) ->
  sender_ok {| window := window s; queue := q'; policy := policy s |} /\ acked_in A q' /\
  re_frame <$> q' = re_frame <$> queue s.
Proof.
  intros Hf Hs HA.
  assert (re_frame <$> q' = re_frame <$> queue s) as Hq.
  { unfold q'. rewrite <- list_fmap_compose. apply list_fmap_ext. intros i e _. apply Hf. }
  split_and!; [by apply sender_ok_queue| |done].
  apply Forall_fmap. eapply Forall_impl; [|exact HA]. intros e He Hst. cbn.
  destruct (Hf e) as [-> Hst']. by apply He, Hst'.
Qed.

(** ** A link: sender, receiver and a network between them *)

Record link := {
  l_sender : ReliableSender;
  l_receiver : ReliableReceiver;
  (** The payloads sent so far, the numbers that have arrived, and what the
      consumer has been given. *)
  l_sent : list (list Z);
  l_arrived : list Z;
  l_out : list (list Z);
}.

Definition link_new (window_size : Z) (p : TimeoutPolicy) : link :=
  {| l_sender := sender_new window_size p; l_receiver := receiver_new; l_sent := [];
     l_arrived := []; l_out := [] |}.

Definition with_sender (l : link) (s : ReliableSender) : link :=
  {| l_sender := s; l_receiver := l_receiver l; l_sent := l_sent l; l_arrived := l_arrived l;
     l_out := l_out l |}.

Definition deliver (l : link) (f : ReliableFrame) : link :=
  {| l_sender := l_sender l; l_receiver := (receive (l_receiver l) f).1; l_sent := l_sent l;
     l_arrived := rf_seq f :: l_arrived l;
     l_out := l_out l ++ match (receive (l_receiver l) f).2 with Ok ps => ps | Err _ => [] end |}.

(** The network may deliver any frame ever sent, at any time and any number of
    times, or never; acknowledgments name numbers that have arrived. *)
Inductive link_step : link -> link -> Prop :=
| step_send l now p s f :
    send (l_sender l) now p = (s, Ok f) ->
    link_step l {| l_sender := s; l_receiver := l_receiver l; l_sent := l_sent l ++ [p];
                   l_arrived := l_arrived l; l_out := l_out l |}
| step_deliver l f : genuine (l_sent l) f -> link_step l (deliver l f)
| step_ack l a :
    Forall (fun x => x ∈ l_arrived l \/ zlen (l_sent l) <= x) (acked_seqs a) ->
    link_step l (with_sender l (ack (l_sender l) a).1)
| step_timeout l now : link_step l (with_sender l (mark_timeout (l_sender l) now).1)
| step_retransmit l now : link_step l (with_sender l (retransmit (l_sender l) now).1).

Record link_inv (l : link) : Prop := {
  li_sender : sender_ok (l_sender l);
  li_acked : acked_in (l_arrived l) (queue (l_sender l));
  li_next : next_seq (window (l_sender l)) = zlen (l_sent l);
  li_frames : forall f, f ∈ re_frame <$> queue (l_sender l) -> genuine (l_sent l) f;
  li_base : forall x, 0 <= x < base (window (l_sender l)) -> x ∈ l_arrived l;
  li_window : window_size (window (l_sender l)) <= 64;
  li_receiver : exists seen, receiving (l_sent l) seen (l_receiver l) /\
    (forall x, x ∈ seen <-> x ∈ l_arrived l);
  li_max : max_received (dup_filter (l_receiver l)) <= zlen (l_sent l) - 1 \/
    max_received (dup_filter (l_receiver l)) = 0;
  li_out : l_out l = delivered (l_sent l) (assembler (l_receiver l));
}.

Lemma lookup_snoc_Some {A} (l : list A) x i y : l !! i = Some y -> (l ++ [x]) !! i = Some y.
Proof. intros H. rewrite lookup_app_l; [done|]. by eapply lookup_lt_Some. Qed.

Lemma genuine_snoc P p f : genuine P f -> genuine (P ++ [p]) f.
Proof.
  intros [Hr Hl]. split; [rewrite zlen_snoc; lia|by apply lookup_snoc_Some].
Qed.

Lemma receiving_snoc P p seen r : receiving P seen r -> receiving (P ++ [p]) seen r.
Proof.
  intros [Hf [Hn Hfr Hc Hd] Hst]. assert (zlen (P ++ [p]) = zlen P + 1) as Hl
    by apply zlen_snoc.
  split; [done| |done]. split; [lia| |done|done].
  intros s f Hs. destruct (Hfr s f Hs) as (? & ? & ? & ?).
  split_and!; [done|by apply lookup_snoc_Some|lia|lia|done].
Qed.

Lemma delivered_snoc P p seen r : receiving P seen r ->
  delivered (P ++ [p]) (assembler r) = delivered P (assembler r).
Proof.
  intros [_ Ha _]. unfold delivered. apply take_app_le.
  pose proof (as_next _ _ _ Ha). unfold zlen in *. lia.
Qed.

Lemma not_in_queue s x : sender_ok s -> next_seq (window s) <= x ->
  x ∉ rf_seq <$> (re_frame <$> queue s).
Proof.
  intros Hs Hx (f & -> & Hin)%list_elem_of_fmap. apply list_elem_of_lookup in Hin as [i Hi].
  pose proof (so_seqs _ Hs i f Hi). pose proof (so_next _ Hs).
  apply lookup_lt_Some in Hi. unfold zlen in *. lia.
Qed.

Lemma link_step_send l now p s f :
  link_inv l -> zlen (l_sent l) + 1 < 2 ^ 64 -> send (l_sender l) now p = (s, Ok f) ->
  link_inv {| l_sender := s; l_receiver := l_receiver l; l_sent := l_sent l ++ [p];
              l_arrived := l_arrived l; l_out := l_out l |}.
Proof.
  intros [Hs Ha Hn Hf Hb Hw (seen & Hr & Hseen) Hm Ho] Hroom Hsend.
  pose proof (send_spec (l_sender l) now p Hs ltac:(lia)) as Hspec. rewrite Hsend in Hspec.
  case_decide; [|done]. cbn in Hspec. destruct Hspec as (_ & Hs' & Hq & Hbase & Hnext & Hws & HA).
  split; cbn; try done.
  - by apply HA.
  - rewrite zlen_snoc. lia.
  - intros g Hg. rewrite Hq in Hg. apply elem_of_app in Hg as [Hg|Hg].
    + by apply genuine_snoc, Hf.
    + apply list_elem_of_singleton in Hg as ->. split; cbn.
      * rewrite zlen_snoc. pose proof (zlen_nonneg (l_sent l)). lia.
      * rewrite Hn. unfold zlen. rewrite Nat2Z.id. by apply list_lookup_middle.
  - by rewrite Hbase.
  - by rewrite Hws.
  - exists seen. split; [by apply receiving_snoc|done].
  - rewrite zlen_snoc. lia.
  - by rewrite (delivered_snoc _ _ _ _ Hr).
Qed.

(** A number that has not arrived is inside the window, hence never below what the
    receiver's filter remembers. *)
Lemma missing_in_window l x :
  link_inv l -> 0 <= x -> x ∉ l_arrived l -> max_received (dup_filter (l_receiver l)) - 64 < x.
Proof.
  intros [Hs _ Hn _ Hb Hw _ Hm _] Hx Hni.
  assert (base (window (l_sender l)) <= x).
  { destruct (Z.le_gt_cases (base (window (l_sender l))) x); [done|]. destruct Hni. apply Hb. lia. }
  pose proof (so_next _ Hs). pose proof (so_size _ Hs). lia.
Qed.

Lemma link_step_deliver l f :
  link_inv l -> zlen (l_sent l) < 2 ^ 64 -> genuine (l_sent l) f -> link_inv (deliver l f).
Proof.
  intros Hinv Hroom Hg. pose proof (missing_in_window l (rf_seq f) Hinv) as Hmiss.
  destruct Hinv as [Hs Ha Hn Hf Hb Hw (seen & Hr & Hseen) Hm Ho].
  destruct (receive_spec (l_sent l) Hroom seen _ f Hr Hg) as (ps & Hps & Hdel & Hmax & Hcase).
  pose proof (proj1 Hg) as Hseq.
  split; cbn; try done.
  - eapply Forall_impl; [|exact Ha]. intros e He Hst. right. by apply He.
  - intros x Hx. right. by apply Hb.
  - destruct Hcase as [[Hr' Hni]|(Hr' & _ & Hold)].
    + exists (rf_seq f :: seen). split; [done|]. intros x. by rewrite !elem_of_cons, Hseen.
    + exists seen. split; [done|]. intros x. rewrite elem_of_cons, Hseen.
      split; [by right|]. intros [->|?]; [|done]. rewrite <- Hseen.
      destruct (decide (rf_seq f ∈ seen)) as [|Hni]; [done|]. destruct Hold as [?|Hold]; [done|].
      rewrite Hseen in Hni. specialize (Hmiss ltac:(lia) Hni). lia.
  - rewrite Hmax. lia.
  - by rewrite Hps, Ho, Hdel.
Qed.

Lemma link_step_ack l a :
  link_inv l -> Forall (fun x => x ∈ l_arrived l \/ zlen (l_sent l) <= x) (acked_seqs a) ->
  link_inv (with_sender l (ack (l_sender l) a).1).
Proof.
  intros [Hs Ha Hn Hf Hb Hw Hr Hm Ho] HF.
  destruct (ack_spec (l_sender l) a (l_arrived l) Hs Ha)
    as (Hs' & Ha' & _ & Hn' & Hw' & Hbase & Hq & Hb').
  { eapply Forall_impl; [|exact HF]. intros x [?|?]; [by left|right]. apply not_in_queue; [done|lia]. }
  split; cbn; try done.
  - lia.
  - intros g Hg. rewrite Hq in Hg. apply Hf. revert Hg. apply subseteq_drop.
  - intros x Hx. destruct (Z.lt_ge_cases x (base (window (l_sender l)))); [apply Hb; lia|apply Hb'; lia].
  - lia.
Qed.

Lemma link_step_requeue l g p' :
  (forall e, re_frame (g e) = re_frame e /\ (re_state (g e) = Acked -> re_state e = Acked)) ->
  p' = policy (l_sender l) -> link_inv l ->
  link_inv (with_sender l {| window := window (l_sender l); queue := g <$> queue (l_sender l);
                             policy := p' |}).
Proof.
  intros Hg -> [Hs Ha Hn Hf Hb Hw Hr Hm Ho].
  destruct (requeue_spec _ g _ Hg Hs Ha) as (Hs' & Ha' & Hq). split; cbn; try done. by rewrite Hq.
Qed.

Lemma link_step_inv l l' :
  link_inv l -> link_step l l' -> zlen (l_sent l') < 2 ^ 64 -> link_inv l'.
Proof.
  intros Hinv Hstep Hroom. destruct Hstep; cbn in Hroom.
  - rewrite zlen_snoc in Hroom. by eapply link_step_send.
  - by apply link_step_deliver.
  - by apply link_step_ack.
  - apply link_step_requeue; [|done|done]. intros e. by destruct (timed_out _ _ e).
  - apply link_step_requeue; [|done|done]. intros e. by destruct (retryable _ e).
Qed.

Lemma link_step_sent l l' : link_step l l' -> zlen (l_sent l) <= zlen (l_sent l').
Proof. destruct 1; cbn; rewrite ?zlen_snoc; lia. Qed.

Lemma link_reachable_inv ws p l :
  0 <= ws <= 64 -> rtc link_step (link_new ws p) l -> zlen (l_sent l) < 2 ^ 64 -> link_inv l.
Proof.
  intros Hws. revert l. apply (rtc_ind_r (fun l => zlen (l_sent l) < 2 ^ 64 -> link_inv l));
    [intros Hroom|intros l l' _ Hstep IH Hroom].
  - split; cbn; try done; try lia.
    + split; cbn; try done; try lia; unfold zlen; cbn; lia.
    + constructor.
    + intros f Hf. by apply not_elem_of_nil in Hf.
    + exists []. split; [apply receiving_new|done].
  - eapply link_step_inv; [|done|done]. apply IH. apply link_step_sent in Hstep. lia.
Qed.

(** ** Properties *)

Lemma receive_all_spec P seen r frames :
  zlen P < 2 ^ 64 -> receiving P seen r -> Forall (genuine P) frames ->
  delivered P (assembler r) ++ (receive_all r frames).2 =
    delivered P (assembler (receive_all r frames).1) /\
  (exists seen', receiving P seen' (receive_all r frames).1) /\
  max_received (dup_filter r) <= max_received (dup_filter (receive_all r frames).1).
Proof.
  intros HP Hr HF. revert seen r Hr. induction HF as [|f frames Hf HF IH]; intros seen r Hr; cbn.
  { rewrite app_nil_r. split_and!; [done|by exists seen|lia]. }
  destruct (receive_spec P HP seen r f Hr Hf) as (ps & Hps & Hdel & Hmax & Hcase).
  destruct (receive r f) as [r1 out]. cbn in *. subst out.
  assert (exists seen', receiving P seen' r1) as [seen' Hr1]
    by (destruct Hcase as [[? _]|[? _]]; by eexists).
  destruct (IH seen' r1 Hr1) as (Hd & Hex & Hle). destruct (receive_all r1 frames) as [r2 rest].
  cbn in *. rewrite app_assoc, Hdel, Hd. split_and!; [done|done|lia].
Qed.

(** In-order, exactly-once delivery: whatever the network delivers of the
    frames of a sequence of payloads, lost, duplicated and reordered in any way,
    the receiver hands out a prefix of that sequence, and its next expected number
    is the length of the prefix. *)
Theorem in_order_exactly_once P frames :
  zlen P < 2 ^ 64 -> Forall (genuine P) frames ->
  (receive_all receiver_new frames).2 =
    take (Z.to_nat (next_expected (assembler (receive_all receiver_new frames).1))) P /\
  0 <= next_expected (assembler (receive_all receiver_new frames).1) <= zlen P.
Proof.
  intros HP HF.
  destruct (receive_all_spec P [] receiver_new frames HP (receiving_new P) HF) as (Hd & (seen & Hr) & _).
  split; [exact Hd|]. apply (rc_asm _ _ _ Hr).
Qed.

Definition numbered (P : list (list Z)) (i : Z) : ReliableFrame :=
  {| rf_seq := i; rf_payload := default [] (P !! Z.to_nat i) |}.

Definition sample_payloads : list (list Z) := [[1]; [2; 2]; [3]; [4]].

(** Reordered and duplicated, with the last frame lost. *)
Lemma in_order_exactly_once_witness :
  let frames := numbered sample_payloads <$> [2; 0; 0; 2; 1; 1] in
  (receive_all receiver_new frames).2 = [[1]; [2; 2]; [3]] /\
  (receive_all receiver_new frames).2 =
    take (Z.to_nat (next_expected (assembler (receive_all receiver_new frames).1))) sample_payloads.
Proof.
  intros frames. split; [vm_compute; reflexivity|].
  apply (in_order_exactly_once sample_payloads frames); [by_decide|].
  unfold frames, genuine. by_decide.
Defined.

Lemma delivered_next P seen seen' a a' ps :
  assembling P seen a -> assembling P seen' a' -> delivered P a ++ ps = delivered P a' ->
  next_expected a' = next_expected a + zlen ps.
Proof.
  intros Ha Ha' Heq%(f_equal length). unfold delivered in Heq.
  rewrite length_app, !length_take in Heq.
  pose proof (as_next _ _ _ Ha). pose proof (as_next _ _ _ Ha'). unfold zlen in *. lia.
Qed.

(** The frame of a missing number is in the queue, unacknowledged. *)
Lemma missing_is_pending l n :
  link_inv l -> 0 <= n < zlen (l_sent l) -> n ∉ l_arrived l ->
  numbered (l_sent l) n ∈ pending_frames (l_sender l).
Proof.
  intros [Hs Ha Hn Hf Hb _ _ _ _] Hrange Hni.
  assert (base (window (l_sender l)) <= n).
  { destruct (Z.le_gt_cases (base (window (l_sender l))) n); [done|]. destruct Hni. apply Hb. lia. }
  pose proof (so_next _ Hs) as Hnext. unfold zlen at 1 in Hnext. rewrite length_fmap in Hnext.
  destruct (lookup_lt_is_Some_2 (queue (l_sender l)) (Z.to_nat (n - base (window (l_sender l))))) as [e He].
  { lia. }
  assert ((re_frame <$> queue (l_sender l)) !! Z.to_nat (n - base (window (l_sender l))) =
          Some (re_frame e)) as Hfe by (by rewrite list_lookup_fmap, He).
  pose proof (so_seqs _ Hs _ _ Hfe) as Hseq.
  pose proof (Hf _ (list_elem_of_lookup_2 _ _ _ Hfe)) as [_ HP].
  assert (re_frame e = numbered (l_sent l) n) as <-.
  { unfold numbered. replace n with (rf_seq (re_frame e)) by lia. rewrite HP. by destruct (re_frame e). }
  apply list_elem_of_fmap. exists e. split; [done|]. apply list_elem_of_filter.
  split; [|by eapply list_elem_of_lookup_2]. unfold outstanding.
  destruct (re_state e) eqn:Hst; [by left| |by right].
  exfalso. apply Hni. replace n with (rf_seq (re_frame e)) by lia.
  by apply (Forall_lookup_1 _ _ _ _ Ha He).
Qed.

(** C17.  With a window of at most 64 the link never loses a frame for good.  In
    every state reachable by sends, arbitrary deliveries of sent frames, honest
    acknowledgments, timeouts and retransmissions: what has been handed out is the
    sequence up to the first number that has not arrived; and if that is not the
    end, its frame is still in the sender's queue of unacknowledged frames, and
    delivering it makes progress. *)
Theorem link_no_deadlock ws p l :
  0 <= ws <= 64 -> rtc link_step (link_new ws p) l -> zlen (l_sent l) < 2 ^ 64 ->
  let n := next_expected (assembler (l_receiver l)) in
  l_out l = take (Z.to_nat n) (l_sent l) /\ (forall x, 0 <= x < n -> x ∈ l_arrived l) /\
  n ∉ l_arrived l /\
  (n < zlen (l_sent l) ->
   numbered (l_sent l) n ∈ pending_frames (l_sender l) /\
   n < next_expected (assembler (l_receiver (deliver l (numbered (l_sent l) n))))).
Proof.
  intros Hws Hreach Hroom n.
  pose proof (link_reachable_inv ws p l Hws Hreach Hroom) as Hinv.
  destruct (li_receiver _ Hinv) as (seen & Hr & Hseen). pose proof (rc_asm _ _ _ Hr) as Ha.
  assert (n ∉ l_arrived l) as Hni by (rewrite <- Hseen; apply (rc_stuck _ _ _ Hr)).
  pose proof (as_next _ _ _ Ha) as Hn.
  split_and!; [apply (li_out _ Hinv)| |done|].
  { intros x Hx. rewrite <- Hseen. by apply (as_delivered _ _ _ Ha). }
  intros Hlt. split; [apply missing_is_pending; [done|lia|done]|].
  assert (genuine (l_sent l) (numbered (l_sent l) n)) as Hg.
  { split; cbn; [lia|]. destruct (lookup_lt_is_Some_2 (l_sent l) (Z.to_nat n)) as [x ->]; [|done].
    unfold zlen in *. lia. }
  destruct (receive_spec (l_sent l) Hroom seen _ _ Hr Hg) as (ps & _ & Hdel & _ & Hcase).
  cbn [deliver l_receiver]. destruct Hcase as [[Hr' _]|(_ & _ & [Hin|Hold])].
  - pose proof (delivered_next _ _ _ _ _ _ Ha (rc_asm _ _ _ Hr') Hdel) as Hps.
    pose proof (rc_stuck _ _ _ Hr') as Hst. pose proof (zlen_nonneg ps).
    cbn [numbered rf_seq] in Hst. rewrite elem_of_cons in Hst.
    destruct (Z.eq_dec (zlen ps) 0); [|lia]. exfalso. apply Hst. left. lia.
  - exfalso. apply Hni. by rewrite <- Hseen.
  - exfalso. pose proof (missing_in_window l n Hinv ltac:(lia) Hni). cbn in Hold. lia.
Qed.

Definition sample_policy : TimeoutPolicy := {| rto := 100; max_retransmissions := 3 |}.

(** Two frames sent, the second one delivered. *)
Definition sample_link : link :=
  let s1 := send (sender_new 4 sample_policy) 0 [1] in
  let s2 := send s1.1 1 [2] in
  deliver {| l_sender := s2.1; l_receiver := receiver_new; l_sent := [[1]; [2]];
             l_arrived := []; l_out := [] |} {| rf_seq := 1; rf_payload := [2] |}.

Lemma link_no_deadlock_witness :
  rtc link_step (link_new 4 sample_policy) sample_link /\
  next_expected (assembler (l_receiver sample_link)) = 0 /\
  numbered (l_sent sample_link) 0 ∈ pending_frames (l_sender sample_link).
Proof.
  assert (rtc link_step (link_new 4 sample_policy) sample_link) as Hreach.
  { eapply rtc_l; [by eapply (step_send _ 0 [1])|]. eapply rtc_l; [by eapply (step_send _ 1 [2])|].
    eapply rtc_once. apply step_deliver. by_decide. }
  split; [done|]. split; [vm_compute; reflexivity|].
  apply (link_no_deadlock 4 sample_policy sample_link); [lia|done|by_decide|by_decide].
Defined.

Lemma receive_stalled P seen r f :
  zlen P < 2 ^ 64 -> receiving P seen r -> genuine P f ->
  next_expected (assembler r) <= max_received (dup_filter r) - 64 ->
  (receive r f).2 = Ok [] /\
  next_expected (assembler (receive r f).1) = next_expected (assembler r) /\
  max_received (dup_filter r) <= max_received (dup_filter (receive r f).1) /\
  exists seen', receiving P seen' (receive r f).1.
Proof.
  intros HP Hr Hf Hold.
  destruct (receive_spec P HP seen r f Hr Hf) as (ps & Hps & Hdel & Hmax & Hcase).
  pose proof (rc_asm _ _ _ Hr) as Ha.
  assert (exists seen', receiving P seen' (receive r f).1) as [seen' Hr']
    by (destruct Hcase as [[? _]|[? _]]; by eexists).
  pose proof (delivered_next _ _ _ _ _ _ Ha (rc_asm _ _ _ Hr') Hdel) as Hn.
  enough (next_expected (assembler (receive r f).1) = next_expected (assembler r)) as Heq.
  { rewrite Hps, (zlen_nil_inv ps) by lia. split_and!; [done|done|lia|by eexists]. }
  destruct Hcase as [[Hr'' Hni]|(_ & -> & _)]; [|done].
  destruct (Z.eq_dec (zlen ps) 0); [lia|]. exfalso. pose proof (zlen_nonneg ps).
  pose proof (as_delivered _ _ _ (rc_asm _ _ _ Hr'') (next_expected (assembler r))) as Hin.
  pose proof (as_next _ _ _ Ha).
  apply elem_of_cons in Hin as [Heq|Hin]; [|by apply (rc_stuck _ _ _ Hr)|lia].
  revert Hdel Hn. unfold receive. rewrite check_and_track_slide.
  pose proof (slide_refines _ _ _ (rf_seq f) (rc_filter _ _ _ Hr) ltac:(lia)) as Hs.
  unfold WINDOW in Hs. destruct (slide _ _ _) as [[m k]|]; [lia|].
  cbn. lia.
Qed.

(** With a larger window the link can stall for good: once the largest
    number that has arrived is 64 or more past the next expected one, nothing the
    network delivers afterwards, retransmissions of the missing frame included, is
    ever handed out. *)
Theorem wide_window_stalls P frames later :
  zlen P < 2 ^ 64 -> Forall (genuine P) frames -> Forall (genuine P) later ->
  let r := (receive_all receiver_new frames).1 in
  next_expected (assembler r) <= max_received (dup_filter r) - 64 ->
  (receive_all r later).2 = [] /\
  next_expected (assembler (receive_all r later).1) = next_expected (assembler r).
Proof.
  intros HP HF HL r Hold.
  destruct (receive_all_spec P [] receiver_new frames HP (receiving_new P) HF) as (_ & (seen & Hr) & _).
  change (receiving P seen r) in Hr. clearbody r. clear HF frames.
  revert seen r Hr Hold. induction HL as [|f later Hf HL IH]; intros seen r Hr Hold; [done|].
  destruct (receive_stalled P seen r f HP Hr Hf Hold) as (Hps & Hn & Hmax & seen' & Hr').
  cbn [receive_all]. destruct (receive r f) as [r1 out]. cbn [fst snd] in *. subst out.
  destruct (IH seen' r1 Hr' ltac:(lia)) as [Hnil Hn'].
  destruct (receive_all r1 later) as [r2 rest]. cbn in *. by rewrite Hnil, Hn', Hn.
Qed.

(** Frame 64 overtakes frame 0: frame 0 is then dropped each time it comes. *)
Lemma wide_window_stalls_witness :
  let P := replicate 65 [7] in
  let r := (receive_all receiver_new [numbered P 64]).1 in
  (receive_all r [numbered P 0; numbered P 1; numbered P 0]).2 = [].
Proof.
  intros P r. apply (wide_window_stalls P); [by_decide|unfold genuine; by_decide..].
Defined.
