(* ===== verification/Session.v ===== *)
(** * Handshake and session table (bw-protocol)

    Models [handshake.rs] (capability negotiation, request validation, the
    derivation of session keys) and [session.rs] (the table of sessions behind a
    mutex).  The mutex is part of the state: a closure that aborts inside
    [with_session_context] poisons it, and every operation checks for that. *)

From S2P Require Import Prelude Codec Cbor Message Routing Window Symmetric Encryption.

(** ** Capabilities *)

Record Capabilities := { cap_bits : Z }.

Definition COMPRESSION : Z := Z.shiftl 1 0.
Definition ENCRYPTION : Z := Z.shiftl 1 1.
Definition STREAMING : Z := Z.shiftl 1 2.
Definition HEARTBEAT : Z := Z.shiftl 1 3.
Definition MULTIPLEXING : Z := Z.shiftl 1 4.
Definition AUTHENTICATION : Z := Z.shiftl 1 5.

Definition contains (c : Capabilities) (capability : Z) : bool :=
  negb (Z.land (cap_bits c) capability =? 0).

Definition negotiate (c other : Capabilities) : Capabilities :=
  {| cap_bits := Z.land (cap_bits c) (cap_bits other) |}.

Inductive HandshakeStatus : Type :=
| Accepted
| RejectedVersionMismatch
| RejectedAuthenticationFailed
| RejectedCapabilitiesMismatch.

Record HandshakeRequest := {
  client_version : ProtocolVersion;
  supported_capabilities : Capabilities;
  device_id : list Z;
  hs_nonce : list Z;
  timestamp : Z;
}.

Record HandshakeResponse := {
  accepted_version : ProtocolVersion;
  negotiated_capabilities : Capabilities;
  server_nonce : list Z;
  hs_session_id : SessionId;
  hs_status : HandshakeStatus;
}.

(** [HandshakeRequest::validate]. *)
Definition validate_request (r : HandshakeRequest) : result ProtocolError unit :=
  if negb (is_compatible_with (client_version r) CURRENT_VERSION)
  then Err (InvalidVersion (version_to_u16 (client_version r)))
  else if negb (contains (supported_capabilities r) ENCRYPTION) then Err InvalidHandshake
  else Ok tt.

Definition negotiate_capabilities (client server : Capabilities) : result ProtocolError Capabilities :=
  let negotiated := negotiate client server in
  if negb (contains negotiated ENCRYPTION) then Err IncompatibleCapabilities else Ok negotiated.

Section KeyDerivation.
Context `{Primitives}.

Definition derive_session_keys (master_secret : SymmetricKey) (client_nonce server_nonce : list Z) :
    result ProtocolError SessionKeys :=
  let salt := client_nonce ++ server_nonce in
  let? send_key := to_encryption_error
    (hkdf_derive (Some salt) master_secret (Some (string_bytes "client-key"))) in
  let? recv_key := to_encryption_error
    (hkdf_derive (Some salt) master_secret (Some (string_bytes "server-key"))) in
  Ok {| sk_send_key := send_key; sk_recv_key := recv_key; sk_epoch := 0 |}.
End KeyDerivation.

(** ** Session table *)

#[global] Instance SessionId_eq_dec : EqDecision SessionId.
Proof. unfold SessionId. apply _. Defined.

#[global] Instance SessionId_countable : Countable SessionId.
Proof. unfold SessionId. apply _. Defined.

Record SessionManager := {
  active_sessions : gmap SessionId (option EncryptionContext);
  poisoned : bool;
}.

Definition manager_new : SessionManager := {| active_sessions := ∅; poisoned := false |}.

(** [create_session] and [create_session_with_context] share their body. *)
Definition register (m : SessionManager) (id : SessionId) (ctx : option EncryptionContext) :
    SessionManager * result ProtocolError unit :=
  if poisoned m then (m, Err InvalidHandshake)
  else if bool_decide (is_Some (active_sessions m !! id)) then (m, Err SessionDuplicate)
  else ({| active_sessions := <[id := ctx]> (active_sessions m); poisoned := poisoned m |}, Ok tt).

Definition create_session (m : SessionManager) (id : SessionId) :
    SessionManager * result ProtocolError unit := register m id None.

Definition create_session_with_context (m : SessionManager) (id : SessionId) (ctx : EncryptionContext) :
    SessionManager * result ProtocolError unit := register m id (Some ctx).

Definition create_session_from_handshake `{Primitives} (m : SessionManager) (id : SessionId)
    (master_secret : SymmetricKey) (client_nonce server_nonce : list Z)
    (policy : KeyRotationPolicy) : SessionManager * result ProtocolError unit :=
  match derive_session_keys master_secret client_nonce server_nonce with
  | Err err => (m, Err err)
  | Ok keys => create_session_with_context m id (context_new keys policy)
  end.

(** [with_session_context]: the closure works on the stored context, and may abort
    after changing it.  The abort unwinds through the lock guard. *)
Definition with_session_context {R} (m : SessionManager) (id : SessionId)
    (f : EncryptionContext -> EncryptionContext * outcome R) :
    SessionManager * outcome (result ProtocolError R) :=
  if poisoned m then (m, Ret (Err InvalidHandshake))
  else
    match active_sessions m !! id with
    | None => (m, Ret (Err SessionNotFound))
    | Some None => (m, Ret (Err InvalidHandshake))
    | Some (Some ctx) =>
        let (ctx', out) := f ctx in
        let sessions := <[id := Some ctx']> (active_sessions m) in
        match out with
        | Ret r => ({| active_sessions := sessions; poisoned := false |}, Ret (Ok r))
        | Panic => ({| active_sessions := sessions; poisoned := true |}, Panic)
        end
    end.

Definition close_session (m : SessionManager) (id : SessionId) :
    SessionManager * result ProtocolError bool :=
  if poisoned m then (m, Err InvalidHandshake)
  else ({| active_sessions := delete id (active_sessions m); poisoned := false |},
        Ok (bool_decide (is_Some (active_sessions m !! id)))).

Definition validate_session (m : SessionManager) (id : SessionId) : result ProtocolError bool :=
  if poisoned m then Err InvalidHandshake
  else Ok (bool_decide (is_Some (active_sessions m !! id))).

Definition lookup_session (m : SessionManager) (id : SessionId) : result ProtocolError SessionId :=
  let? active := validate_session m id in
  if active then Ok id else Err SessionNotFound.

(** ** Sequences of session operations *)

Inductive session_op (R : Type) : Type :=
| OpCreate (id : SessionId) (ctx : option EncryptionContext)
| OpWith (id : SessionId) (f : EncryptionContext -> EncryptionContext * outcome R)
| OpClose (id : SessionId)
| OpValidate (id : SessionId).
Arguments OpCreate {R} id ctx.
Arguments OpWith {R} id f.
Arguments OpClose {R} id.
Arguments OpValidate {R} id.

Inductive session_reply (R : Type) : Type :=
| ReplyUnit (r : result ProtocolError unit)
| ReplyWith (r : outcome (result ProtocolError R))
| ReplyBool (r : result ProtocolError bool).
Arguments ReplyUnit {R} r.
Arguments ReplyWith {R} r.
Arguments ReplyBool {R} r.

Definition op_id {R} (op : session_op R) : SessionId :=
  match op with OpCreate id _ | OpWith id _ | OpClose id | OpValidate id => id end.

Definition session_exec {R} (m : SessionManager) (op : session_op R) :
    SessionManager * session_reply R :=
  match op with
  | OpCreate id ctx => let (m, r) := register m id ctx in (m, ReplyUnit r)
  | OpWith id f => let (m, r) := with_session_context m id f in (m, ReplyWith r)
  | OpClose id => let (m, r) := close_session m id in (m, ReplyBool r)
  | OpValidate id => (m, ReplyBool (validate_session m id))
  end.

(** The replies, each with the session it concerns. *)
Fixpoint session_run {R} (m : SessionManager) (ops : list (session_op R)) :
    SessionManager * list (SessionId * session_reply R) :=
  match ops with
  | [] => (m, [])
  | op :: ops =>
      let (m, r) := session_exec m op in
      let (m, rs) := session_run m ops in
      (m, (op_id op, r) :: rs)
  end.

(** ** Lemmas *)

(** Two tables that agree on one session. *)
Definition agree_on (id : SessionId) (m m' : SessionManager) : Prop :=
  poisoned m = poisoned m' /\ active_sessions m !! id = active_sessions m' !! id.

Section Isolation.
Context {R : Type}.

Lemma session_exec_same id m m' (op : session_op R) :
  agree_on id m m' -> op_id op = id ->
  (session_exec m op).2 = (session_exec m' op).2 /\
  agree_on id (session_exec m op).1 (session_exec m' op).1.
Proof.
  intros [Hp Hl] <-. unfold agree_on. destruct op as [id ctx|id f|id|id]; cbn [session_exec op_id] in *.
  - unfold register. rewrite Hp, Hl. destruct (poisoned m') eqn:?; [cbn; split_and!; congruence|].
    destruct (bool_decide _); [cbn; split_and!; congruence|]. cbn. rewrite ?lookup_insert_eq; split_and!; congruence.
  - unfold with_session_context. rewrite Hp, Hl. destruct (poisoned m') eqn:?; [cbn; split_and!; congruence|].
    destruct (active_sessions m' !! id) as [[ctx|]|] eqn:?; [|cbn; split_and!; congruence..].
    destruct (f ctx) as [ctx' [r|]]; cbn; rewrite ?lookup_insert_eq; split_and!; congruence.
  - unfold close_session. rewrite Hp, Hl. destruct (poisoned m') eqn:?; [cbn; split_and!; congruence|].
    cbn. rewrite ?lookup_delete_eq; split_and!; congruence.
  - cbn. unfold validate_session. rewrite Hp, Hl. split_and!; congruence.
Qed.

Lemma session_exec_other id m (op : session_op R) :
  op_id op <> id -> poisoned (session_exec m op).1 = false -> agree_on id (session_exec m op).1 m.
Proof.
  unfold agree_on. intros Hne. destruct op as [id' ctx|id' f|id'|id']; cbn [session_exec op_id] in *.
  - unfold register. destruct (poisoned m) eqn:?; [done|].
    destruct (bool_decide _); [done|]. cbn. by rewrite lookup_insert_ne.
  - unfold with_session_context. destruct (poisoned m) eqn:?; [done|].
    destruct (active_sessions m !! id') as [[ctx|]|]; [|done..].
    destruct (f ctx) as [ctx' [r|]]; cbn; [|done]. by rewrite lookup_insert_ne.
  - unfold close_session. destruct (poisoned m) eqn:?; cbn; [done|]. by rewrite lookup_delete_ne.
  - done.
Qed.

(** A poisoned table answers every operation with the same error and keeps its
    contents. *)
Definition refused (r : session_reply R) : Prop :=
  r = ReplyUnit (Err InvalidHandshake) \/ r = ReplyWith (Ret (Err InvalidHandshake)) \/
  r = ReplyBool (Err InvalidHandshake).

Lemma session_run_poisoned m (ops : list (session_op R)) :
  poisoned m = true ->
  (session_run m ops).1 = m /\ Forall (fun r => refused r.2) (session_run m ops).2.
Proof.
  intros Hp. induction ops as [|op ops [IH1 IH2]]; cbn [session_run]; [by split|].
  assert ((session_exec m op).1 = m /\ refused (session_exec m op).2) as [Hm Hr].
  { unfold refused. destruct op; cbn; unfold register, with_session_context, close_session, validate_session;
      rewrite Hp; cbn; auto. }
  destruct (session_exec m op) as [m1 r]. cbn in *. subst m1.
  destruct (session_run m ops) as [m2 rs]. cbn in *. split; [done|by constructor].
Qed.

Lemma session_run_cons m (op : session_op R) ops :
  (session_run m (op :: ops)).1 = (session_run (session_exec m op).1 ops).1 /\
  (session_run m (op :: ops)).2 = (op_id op, (session_exec m op).2) :: (session_run (session_exec m op).1 ops).2.
Proof. cbn. destruct (session_exec m op) as [m1 r]. cbn. by destruct (session_run m1 ops). Qed.

(** Before the table is poisoned, one session sees its own operations only. *)
Lemma session_run_agree id ops : forall m m', agree_on id m m' ->
  exists before after : list (session_op R), ops = before ++ after /\
    (after = [] \/ poisoned (session_run m before).1 = true) /\
    (session_run m ops).1 = (session_run (session_run m before).1 after).1 /\
    (session_run m ops).2 = (session_run m before).2 ++ (session_run (session_run m before).1 after).2 /\
    filter (fun r => r.1 = id) (session_run m before).2 =
      (session_run m' (filter (fun op => op_id op = id) before)).2 /\
    (poisoned (session_run m before).1 = false ->
     agree_on id (session_run m before).1 (session_run m' (filter (fun op => op_id op = id) before)).1).
Proof.
  induction ops as [|op ops IH]; intros m m' Hag.
  { exists [], []. split_and!; try done. by left. }
  destruct (session_run_cons m op ops) as [Hr1 Hr2]. set (m1 := (session_exec m op).1) in *.
  assert (Hkeep : forall before after, ops = before ++ after ->
    (session_run m (op :: before)).1 = (session_run m1 before).1 /\
    filter (fun r => r.1 = id) (session_run m (op :: before)).2 =
      (if decide (op_id op = id) then [(op_id op, (session_exec m op).2)] else []) ++
      filter (fun r => r.1 = id) (session_run m1 before).2).
  { intros before after _. destruct (session_run_cons m op before) as [-> ->]. split; [done|].
    rewrite filter_cons. cbn [fst]. by case_decide. }
  destruct (poisoned m1) eqn:Hp1.
  { exists [op], ops. destruct (session_run_cons m op []) as [Hs1 Hs2]. fold m1 in Hs1, Hs2. rewrite Hs1, Hs2.
    split; [done|]. split; [by right|]. split; [done|]. split; [done|]. split.
    - rewrite !filter_cons. cbn [fst]. case_decide as Hid; [|done]. rewrite !filter_nil.
      destruct (session_exec_same id m m' op Hag Hid) as [Hr _]. destruct (session_run_cons m' op []) as [_ ->].
      by rewrite Hr.
    - intros Hf. cbn in Hf. congruence. }
  assert (exists m1', agree_on id m1 m1' /\ forall before,
    (session_run m' (filter (fun op => op_id op = id) (op :: before))).1 = (session_run m1' (filter (fun op => op_id op = id) before)).1 /\
    (session_run m' (filter (fun op => op_id op = id) (op :: before))).2 =
      (if decide (op_id op = id) then [(op_id op, (session_exec m op).2)] else []) ++
      (session_run m1' (filter (fun op => op_id op = id) before)).2) as (m1' & Hag' & Hown).
  { destruct (decide (op_id op = id)) as [Hid|Hid].
    - destruct (session_exec_same id m m' op Hag Hid) as [Hr Hag']. exists (session_exec m' op).1. split; [done|].
      intros before. rewrite filter_cons_True by done. destruct (session_run_cons m' op (filter (fun op => op_id op = id) before)) as [-> ->].
      by rewrite Hr.
    - exists m'. split; [|intros before; by rewrite filter_cons_False].
      destruct (session_exec_other id m op Hid Hp1), Hag. unfold m1; split; congruence. }
  destruct (IH m1 m1' Hag') as (before & after & Hops & Hend & Hs1 & Hs2 & Hown1 & Hag1).
  exists (op :: before), after. destruct (Hkeep before after Hops) as [Hk1 Hk2]. destruct (Hown before) as [Ho1 Ho2].
  destruct (session_run_cons m op before) as [_ Hb2]. fold m1 in Hb2.
  split; [cbn; congruence|]. rewrite Hk1, Hk2, Hr1, Hr2, Ho1, Ho2, Hb2, Hs1, Hs2. split; [done|]. split; [done|].
  split; [done|]. split; [by rewrite Hown1|done].
Qed.
End Isolation.

(** C28.  Sessions do not interfere, in any interleaving of operations on any number of
    sessions, up to the first closure that aborts: the replies that concern one session, that of
    the abort included, are those of running its own operations alone, and without an abort so is
    its final entry.  After an abort, whoever it was that aborted, every operation of every
    session is refused with the same error. *)
Theorem session_isolation {R} id m (ops : list (session_op R)) :
  exists before after, ops = before ++ after /\
    (after = [] \/ poisoned (session_run m before).1 = true) /\
    let own := filter (fun op => op_id op = id) before in
    let later := (session_run (session_run m before).1 after).2 in
    (session_run m ops).2 = (session_run m before).2 ++ later /\
    filter (fun r => r.1 = id) (session_run m before).2 = (session_run m own).2 /\
    Forall (fun r => refused r.2) later /\
    (poisoned (session_run m ops).1 = false ->
     active_sessions (session_run m ops).1 !! id = active_sessions (session_run m own).1 !! id).
Proof.
  destruct (session_run_agree id ops m m) as (before & after & Hops & Hend & Hs1 & Hs2 & Hown & Hag); [by split|].
  exists before, after. split; [done|]. split; [done|]. split; [done|]. split; [done|]. rewrite Hs1.
  destruct Hend as [->|Hp].
  - split; [constructor|]. intros Hf. cbn in Hf |- *. by apply Hag.
  - destruct (session_run_poisoned _ after Hp) as [Heq HF]. split; [done|]. rewrite Heq, Hp. done.
Qed.

Definition sample_context : EncryptionContext := context_new (sample_keys 7 9) Manual.

Definition send_one (ctx : EncryptionContext) : EncryptionContext * outcome (result ProtocolError EncryptedFrame) :=
  let (ctx', r) := context_encrypt (H := toy_primitives) ctx sample_frame in (ctx', Ret r).

(** Two sessions, one of which aborts inside the lock: the other's replies are its own until then. *)
Lemma session_isolation_witness :
  let ops := [OpCreate [1] (Some sample_context); OpCreate [2] (Some sample_context);
              OpWith [1] send_one; OpWith [2] (fun ctx => (ctx, Panic)); OpWith [1] send_one] in
  exists before after, ops = before ++ after /\ (after = [] \/ poisoned (session_run manager_new before).1 = true) /\
    filter (fun r => r.1 = [1]) (session_run manager_new before).2 =
      (session_run manager_new (filter (fun op => op_id op = [1]) before)).2.
Proof.
  intros ops. destruct (session_isolation [1] manager_new ops) as (before & after & Ho & He & _ & Hr & _).
  by exists before, after.
Defined.

(** The table fails closed: when a closure aborts while it holds the lock,
    every later operation on every session is refused, for good, and the table no
    longer changes. *)
Theorem abort_poisons_all_sessions {R} m m' id (f : EncryptionContext -> EncryptionContext * outcome R)
    (ops : list (session_op R)) :
  with_session_context m id f = (m', Panic) ->
  (session_run m' ops).1 = m' /\ Forall (fun r => refused r.2) (session_run m' ops).2.
Proof.
  intros Hf. apply session_run_poisoned. revert Hf. unfold with_session_context.
  destruct (poisoned m); [done|]. destruct (active_sessions m !! id) as [[ctx|]|]; [|done..].
  destruct (f ctx) as [ctx' [r|]]; [done|]. by intros [= <-].
Qed.

Lemma abort_poisons_all_sessions_witness :
  let m := (create_session_with_context manager_new [1] sample_context).1 in
  let aborting := fun ctx : EncryptionContext => (ctx, @Panic unit) in
  let m' := (with_session_context m [1] aborting).1 in
  Forall (fun r => refused r.2) (session_run (R := unit) m' [OpValidate [1]; OpCreate [2] None]).2.
Proof.
  intros m aborting m'. apply (abort_poisons_all_sessions m m' [1] aborting). vm_compute. reflexivity.
Defined.

(** ** Negotiation *)

Lemma contains_bit c i : 0 <= i -> contains c (Z.shiftl 1 i) = Z.testbit (cap_bits c) i.
Proof.
  intros Hi. unfold contains. destruct (Z.testbit (cap_bits c) i) eqn:Hb.
  - destruct (Z.eqb_spec (Z.land (cap_bits c) (Z.shiftl 1 i)) 0) as [Hz|]; [|done].
    rewrite land_bit_zero in Hz by done. congruence.
  - by rewrite (proj2 (land_bit_zero _ _ Hi) Hb).
Qed.

(** Negotiation succeeds exactly when both sides offer encryption, and then
    yields the capabilities both offer.  Authentication plays no part: clearing
    that bit on one side changes only that bit of the outcome. *)
Theorem negotiation_outcome client server :
  match negotiate_capabilities client server with
  | Ok n => (forall i, 0 <= i ->
               Z.testbit (cap_bits n) i = Z.testbit (cap_bits client) i && Z.testbit (cap_bits server) i) /\
            contains client ENCRYPTION = true /\ contains server ENCRYPTION = true /\
            negotiate_capabilities {| cap_bits := Z.ldiff (cap_bits client) AUTHENTICATION |} server =
              Ok {| cap_bits := Z.ldiff (cap_bits n) AUTHENTICATION |}
  | Err e => e = IncompatibleCapabilities /\
             (contains client ENCRYPTION = false \/ contains server ENCRYPTION = false)
  end.
Proof.
  unfold negotiate_capabilities. unfold ENCRYPTION. rewrite !contains_bit by lia.
  cbn [negotiate cap_bits]. rewrite !Z.land_spec, Z.ldiff_spec.
  destruct (Z.testbit (cap_bits client) 1) eqn:Hc, (Z.testbit (cap_bits server) 1) eqn:Hs; cbn; auto.
  split_and!; [|done|done|].
  - intros i _. by rewrite Z.land_spec.
  - do 2 f_equal. unfold negotiate; cbn. f_equal. apply Z.bits_inj'. intros i Hi.
    rewrite !Z.land_spec, !Z.ldiff_spec, !Z.land_spec.
    by destruct (Z.testbit (cap_bits client) i), (Z.testbit (cap_bits server) i), (Z.testbit AUTHENTICATION i).
Qed.
