(* ===== verification/Io.v ===== *)
(** * Programs over a pair of byte streams

    An asynchronous function of the transport and session layers is a program
    that writes to its send stream, reads from its receive stream and works on its
    own state.  A stream is what the QUIC implementation documents it to be: bytes
    arrive in order and exactly once, [read_exact] waits until enough of them have
    arrived and reports the end of a finished stream, [write_all] fails on a
    stream that was finished or whose connection is lost.

    Two programs connected by two streams run in any interleaving; the file
    proves that the interleaving does not matter. *)

From stdpp Require Import relations.
From S2P Require Import Prelude.

Inductive read_result : Type :=
| Full (bytes : list Z)
| FinishedEarly
| ReadFailed.

(** ** Programs *)

Inductive io (M A : Type) : Type :=
| Done (a : A)
| WriteAll (bytes : list Z) (k : bool -> io M A)
| ReadExact (n : nat) (k : read_result -> io M A)
| FinishStream (k : io M A)
| Local (B : Type) (f : M -> M * B) (k : B -> io M A).
Arguments Done {M A} a.
Arguments WriteAll {M A} bytes k.
Arguments ReadExact {M A} n k.
Arguments FinishStream {M A} k.
Arguments Local {M A B} f k.

Fixpoint bind {M A B} (p : io M A) (k : A -> io M B) : io M B :=
  match p with
  | Done a => k a
  | WriteAll bytes p => WriteAll bytes (fun r => bind (p r) k)
  | ReadExact n p => ReadExact n (fun r => bind (p r) k)
  | FinishStream p => FinishStream (bind p k)
  | Local f p => Local f (fun b => bind (p b) k)
  end.

Notation "'do' x <- c ; k" := (bind c (fun x => k))
  (at level 10, x name, c at level 200, k at level 200,
   format "'do'  x  <-  c ; '//' k") : rust_scope.

(** [c?]: leave the program on an error, converted by [From]. *)
Definition try {M E F A B} (conv : E -> F) (c : io M (result E A)) (k : A -> io M (result F B)) :
    io M (result F B) :=
  bind c (fun r => match r with Ok a => k a | Err e => Done (Err (conv e)) end).

Notation "'do?' x <- c 'as' conv ; k" := (try conv c (fun x => k))
  (at level 10, x name, c at level 200, conv at level 9, k at level 200,
   format "'do?'  x  <-  c  'as'  conv ; '//' k") : rust_scope.

(** Reading and updating the program's own state. *)
Definition local {M B} (f : M -> M * B) : io M B := Local f Done.

(** ** Streams *)

Record channel := { pending : list Z; fin : bool; lost : bool }.

Definition channel_new : channel := {| pending := []; fin := false; lost := false |}.

Definition ch_write (c : channel) (bytes : list Z) : channel * bool :=
  if fin c || lost c then (c, false)
  else ({| pending := pending c ++ bytes; fin := fin c; lost := lost c |}, true).

Definition ch_finish (c : channel) : channel :=
  {| pending := pending c; fin := true; lost := lost c |}.

(** [None]: the read waits. *)
Definition ch_read (c : channel) (n : nat) : option (channel * read_result) :=
  if decide (n <= length (pending c))%nat then
    Some ({| pending := drop n (pending c); fin := fin c; lost := lost c |}, Full (take n (pending c)))
  else if lost c then Some ({| pending := []; fin := fin c; lost := lost c |}, ReadFailed)
  else if fin c then Some ({| pending := []; fin := fin c; lost := lost c |}, FinishedEarly)
  else None.

(** ** One endpoint *)

Record endpoint (M A : Type) := { prog : io M A; state : M }.
Arguments prog {M A} e.
Arguments state {M A} e.
Arguments Build_endpoint {M A} prog state.

(** One step of an endpoint between its inbound and outbound stream. *)
Definition exec {M A} (e : endpoint M A) (i o : channel) : option (endpoint M A * channel * channel) :=
  match prog e with
  | Done _ => None
  | WriteAll bytes k =>
      let (o, r) := ch_write o bytes in Some (Build_endpoint (k r) (state e), i, o)
  | ReadExact n k =>
      match ch_read i n with
      | Some (i, r) => Some (Build_endpoint (k r) (state e), i, o)
      | None => None
      end
  | FinishStream k => Some (Build_endpoint k (state e), i, ch_finish o)
  | Local f k => let (m, b) := f (state e) in Some (Build_endpoint (k b) m, i, o)
  end.

(** Running a program alone, up to its end or to a read that waits. *)
Fixpoint run_io {M A} (p : io M A) (m : M) (i o : channel) : io M A * M * channel * channel :=
  match p with
  | Done a => (Done a, m, i, o)
  | WriteAll bytes k => let (o, r) := ch_write o bytes in run_io (k r) m i o
  | ReadExact n k =>
      match ch_read i n with
      | Some (i, r) => run_io (k r) m i o
      | None => (ReadExact n k, m, i, o)
      end
  | FinishStream k => run_io k m i (ch_finish o)
  | Local f k => let (m, b) := f m in run_io (k b) m i o
  end.

(** ** Two endpoints *)

Record duplex (M A N B : Type) := {
  left : endpoint M A;
  right : endpoint N B;
  l2r : channel;
  r2l : channel;
}.
Arguments left {M A N B} d.
Arguments right {M A N B} d.
Arguments l2r {M A N B} d.
Arguments r2l {M A N B} d.
Arguments Build_duplex {M A N B} left right l2r r2l.

Inductive step {M A N B} : duplex M A N B -> duplex M A N B -> Prop :=
| step_left d l i o :
    exec (left d) (r2l d) (l2r d) = Some (l, i, o) -> step d (Build_duplex l (right d) o i)
| step_right d r i o :
    exec (right d) (l2r d) (r2l d) = Some (r, i, o) -> step d (Build_duplex (left d) r i o).

(** ** Lemmas *)

Lemma read_write_commute c n c1 r bytes c2 w :
  ch_read c n = Some (c1, r) -> ch_write c bytes = (c2, w) ->
  exists c3, ch_read c2 n = Some (c3, r) /\ ch_write c1 bytes = (c3, w).
Proof.
  destruct c as [p f l]. unfold ch_read, ch_write. cbn [pending fin lost].
  destruct f, l; cbn; intros Hr [= <- <-]; cbn in *; repeat case_decide; simplify_eq/=;
    eauto; try (rewrite length_app in *; lia).
  eexists. rewrite drop_app_le, take_app_le by lia. done.
Qed.

Lemma read_finish_commute c n c1 r :
  ch_read c n = Some (c1, r) ->
  ch_read (ch_finish c) n = Some (ch_finish c1, r).
Proof.
  destruct c as [p f l]. unfold ch_read, ch_finish. cbn.
  destruct f, l; repeat case_decide; intros; simplify_eq/=; done.
Qed.

Ltac exec_cases :=
  repeat match goal with
  | H : context [let (_, _) := ch_write ?c ?b in _] |- _ => destruct (ch_write c b) as [? ?] eqn:?
  | H : context [match ch_read ?c ?n with _ => _ end] |- _ => destruct (ch_read c n) as [[? ?]|] eqn:?
  | H : context [let (_, _) := ?f ?s in _] |- _ => destruct (f s) as [? ?] eqn:?
  | H : Some _ = Some _ |- _ => injection H as <- <- <-
  end.

(** Steps of the two endpoints commute. *)
Lemma exec_commute {M A N B} (l : endpoint M A) (r : endpoint N B) a b l' a1 b1 r' a2 b2 :
  exec l a b = Some (l', a1, b1) -> exec r b a = Some (r', b2, a2) ->
  exists a3 b3, exec r b1 a1 = Some (r', b3, a3) /\ exec l a2 b2 = Some (l', a3, b3).
Proof.
  unfold exec. intros Hl Hr.
  destruct (prog l), (prog r); try done; exec_cases; try done.
  all: repeat match goal with
  | Hr : ch_read ?c _ = Some _, Hw : ch_write ?c _ = _ |- _ =>
      destruct (read_write_commute _ _ _ _ _ _ _ Hr Hw) as (? & ? & ?); clear Hr Hw
  | Hr : ch_read ?c _ = Some _ |- context [ch_finish ?c] =>
      apply read_finish_commute in Hr
  end.
  all: repeat match goal with
  | H : ch_read ?c ?n = _ |- context [ch_read ?c ?n] => rewrite H
  | H : ch_write ?c ?n = _ |- context [ch_write ?c ?n] => rewrite H
  | H : ?f ?s = (_, _) |- context [?f ?s] => rewrite H
  end.
  all: eauto.
Qed.

Section Confluence.
Context {M A N B : Type}.
Implicit Types d : duplex M A N B.

Lemma step_diamond d d1 d2 :
  step d d1 -> step d d2 -> d1 = d2 \/ exists d3, step d1 d3 /\ step d2 d3.
Proof.
  destruct 1 as [d l i o Hl|d r i o Hr]; inversion 1 as [? l2 i2 o2 Hl2|? r2 i2 o2 Hr2]; subst.
  - left. congruence.
  - right. destruct (exec_commute _ _ _ _ _ _ _ _ _ _ Hl Hr2) as (a3 & b3 & ? & ?).
    exists (Build_duplex l r2 b3 a3). split; [by apply (step_right (Build_duplex _ _ _ _))|].
    by apply (step_left (Build_duplex _ _ _ _)).
  - right. destruct (exec_commute _ _ _ _ _ _ _ _ _ _ Hl2 Hr) as (a3 & b3 & ? & ?).
    exists (Build_duplex l2 r b3 a3). split; [by apply (step_left (Build_duplex _ _ _ _))|].
    by apply (step_right (Build_duplex _ _ _ _)).
  - left. congruence.
Qed.

Lemma step_strip d d1 d2 :
  step d d1 -> rtc step d d2 -> exists d3, rtc step d1 d3 /\ (d2 = d3 \/ step d2 d3).
Proof.
  intros H1 H2. revert d1 H1. induction H2 as [d|d d' d2 Hs Hrest IH]; intros d1 H1.
  - exists d1. split; [done|by right].
  - destruct (step_diamond _ _ _ H1 Hs) as [<-|(d3 & H13 & H'3)].
    + exists d2. split; [done|by left].
    + destruct (IH d3 H'3) as (d4 & H34 & H24). exists d4. split; [by eapply rtc_l|done].
Qed.

(** From any state reached by some interleaving, a state that cannot move and
    that another interleaving reaches is still reached. *)
Lemma step_confluent_nf d d1 d2 : rtc step d d1 -> rtc step d d2 -> nf step d2 -> rtc step d1 d2.
Proof.
  intros H1 H2 Hnf. induction H1 as [d|d d' d1 Hs _ IH]; [done|]. apply IH.
  destruct (step_strip d d' d2 Hs H2) as (d3 & H3 & [->|Hstep]); [done|].
  exfalso. apply Hnf. by eexists.
Qed.

(** Running one side alone is a sequence of steps. *)
Lemma run_left (p p' : io M A) m m' (r : endpoint N B) a b a' b' :
  run_io p m a b = (p', m', a', b') ->
  rtc step (Build_duplex (Build_endpoint p m) r b a)
           (Build_duplex (Build_endpoint p' m') r b' a').
Proof.
  revert m a b. induction p as [x|bytes k IH|n k IH|k IH|X f k IH]; intros m a b Hrun; cbn in Hrun.
  - by simplify_eq.
  - destruct (ch_write b bytes) as [o w] eqn:Hw. eapply rtc_l; [|by apply (IH w)].
    apply (step_left (Build_duplex (Build_endpoint _ m) r b a)). unfold exec. cbn. by rewrite Hw.
  - destruct (ch_read a n) as [[i w]|] eqn:Hr; [|by simplify_eq]. eapply rtc_l; [|by apply (IH w)].
    apply (step_left (Build_duplex (Build_endpoint _ m) r b a)). unfold exec. cbn. by rewrite Hr.
  - eapply rtc_l; [|by apply IH]. by apply (step_left (Build_duplex (Build_endpoint _ m) r b a)).
  - destruct (f m) as [m1 x] eqn:Hf. eapply rtc_l; [|by apply (IH x)].
    apply (step_left (Build_duplex (Build_endpoint _ m) r b a)). unfold exec. cbn. by rewrite Hf.
Qed.

Lemma run_right (p p' : io N B) m m' (l : endpoint M A) a b a' b' :
  run_io p m a b = (p', m', a', b') ->
  rtc step (Build_duplex l (Build_endpoint p m) a b)
           (Build_duplex l (Build_endpoint p' m') a' b').
Proof.
  revert m a b. induction p as [x|bytes k IH|n k IH|k IH|X f k IH]; intros m a b Hrun; cbn in Hrun.
  - by simplify_eq.
  - destruct (ch_write b bytes) as [o w] eqn:Hw. eapply rtc_l; [|by apply (IH w)].
    apply (step_right (Build_duplex l (Build_endpoint _ m) a b)). unfold exec. cbn. by rewrite Hw.
  - destruct (ch_read a n) as [[i w]|] eqn:Hr; [|by simplify_eq]. eapply rtc_l; [|by apply (IH w)].
    apply (step_right (Build_duplex l (Build_endpoint _ m) a b)). unfold exec. cbn. by rewrite Hr.
  - eapply rtc_l; [|by apply IH]. by apply (step_right (Build_duplex l (Build_endpoint _ m) a b)).
  - destruct (f m) as [m1 x] eqn:Hf. eapply rtc_l; [|by apply (IH x)].
    apply (step_right (Build_duplex l (Build_endpoint _ m) a b)). unfold exec. cbn. by rewrite Hf.
Qed.

Lemma done_nf (x : A) (y : B) (m : M) (n : N) a b :
  nf step (Build_duplex (Build_endpoint (Done x) m) (Build_endpoint (Done y) n) a b).
Proof. intros [d Hs]. inversion Hs; subst; done. Qed.
End Confluence.

(** ** Running a composed program *)

Lemma run_bind {M A B} (p : io M A) (k : A -> io M B) m i o x m' i' o' :
  run_io p m i o = (Done x, m', i', o') -> run_io (bind p k) m i o = run_io (k x) m' i' o'.
Proof.
  revert m i o. induction p as [y|bytes p IH|n p IH|p IH|X f p IH]; intros m i o Hrun; cbn in *.
  - by simplify_eq.
  - destruct (ch_write o bytes). by apply IH.
  - destruct (ch_read i n) as [[? ?]|]; [by apply IH|done].
  - by apply IH.
  - destruct (f m). by apply IH.
Qed.

(** A program that waits. *)
Lemma run_bind_wait {M A B} (p : io M A) (k : A -> io M B) m i o n q m' i' o' :
  run_io p m i o = (ReadExact n q, m', i', o') ->
  run_io (bind p k) m i o = (ReadExact n (fun r => bind (q r) k), m', i', o').
Proof.
  revert m i o. induction p as [y|bytes p IH|n' p IH|p IH|X f p IH]; intros m i o Hrun; cbn in *.
  - done.
  - destruct (ch_write o bytes). by apply IH.
  - destruct (ch_read i n') as [[? ?]|]; [by apply IH|]. by simplify_eq.
  - by apply IH.
  - destruct (f m). by apply IH.
Qed.

(** Bytes that arrive while a program waits might as well have been there from the
    start. *)
Lemma run_resume {M A} (p p' : io M A) m m' i o i' o' bytes :
  fin i = false -> lost i = false ->
  run_io p m i o = (p', m', i', o') ->
  fin i' = false /\ lost i' = false /\
  run_io p m {| pending := pending i ++ bytes; fin := false; lost := false |} o =
    run_io p' m' {| pending := pending i' ++ bytes; fin := false; lost := false |} o'.
Proof.
  revert m i o. induction p as [x|bs k IH|n k IH|k IH|X f k IH]; intros m i o Hf Hl Hrun; cbn in Hrun |- *.
  - by simplify_eq.
  - destruct (ch_write o bs). by apply (IH _ _ i).
  - destruct (ch_read i n) as [[i1 r]|] eqn:Hr.
    + assert (fin i1 = false /\ lost i1 = false) as [Hf1 Hl1].
      { revert Hr. unfold ch_read. rewrite Hf, Hl. case_decide; [|done]. by intros [= <- <-]. }
      destruct (read_write_commute _ _ _ _ bytes _ _ Hr (surjective_pairing _)) as (i3 & Hr3 & Hw3).
      destruct (IH r m i1 o Hf1 Hl1 Hrun) as (Hf' & Hl' & Heq). split_and!; [done..|].
      unfold ch_write in Hr3, Hw3. rewrite Hf, Hl in Hr3, Hw3. cbn in Hr3, Hw3.
      rewrite Hf1, Hl1 in Hw3. cbn in Hw3. injection Hw3 as <-.
      by rewrite Hr3.
    + by simplify_eq.
  - by apply (IH _ i).
  - destruct (f m). by apply (IH _ _ i).
Qed.

(** What a program writes does not depend on what its outbound stream holds. *)
Lemma run_output {M A} (p p' : io M A) m m' i i' x f l o' :
  run_io p m i {| pending := x; fin := f; lost := l |} = (p', m', i', o') ->
  exists w f', o' = {| pending := x ++ w; fin := f'; lost := l |} /\
    forall y, run_io p m i {| pending := y; fin := f; lost := l |} =
                (p', m', i', {| pending := y ++ w; fin := f'; lost := l |}).
Proof.
  revert m i x f. induction p as [a|bs k IH|n k IH|k IH|X g k IH]; intros m i x f Hrun; cbn in Hrun |- *.
  - simplify_eq. exists [], f. setoid_rewrite app_nil_r. done.
  - unfold ch_write in *. cbn in *. destruct (f || l) eqn:Hfl; [by apply IH in Hrun|].
    apply IH in Hrun as (w & f' & -> & Hy). exists (bs ++ w), f'. rewrite app_assoc. split; [done|].
    intros y. rewrite Hy. by rewrite app_assoc.
  - destruct (ch_read i n) as [[i1 r]|]; [by apply IH in Hrun|].
    simplify_eq. exists [], f. setoid_rewrite app_nil_r. done.
  - by apply IH in Hrun.
  - destruct (g m). by apply IH in Hrun.
Qed.

(** A run that stops at a read stops because the read waits. *)
Lemma run_io_waits {M A} (p : io M A) m i o n q m' i' o' :
  run_io p m i o = (ReadExact n q, m', i', o') -> ch_read i' n = None.
Proof.
  revert m i o. induction p as [x|bs k IH|k' k IH|k IH|X f k IH]; intros m i o Hrun; cbn in Hrun.
  - done.
  - destruct (ch_write o bs). by eapply IH.
  - destruct (ch_read i k') as [[i1 r]|] eqn:Hr; [by eapply IH|]. by simplify_eq.
  - by eapply IH.
  - destruct (f m). by eapply IH.
Qed.

(** ** Conversations

    Two programs that never finish their streams, run in turns.  [plain l] is an
    open stream holding [l]. *)

Definition plain (l : list Z) : channel := {| pending := l; fin := false; lost := false |}.

(** What a program does from the point where it waits, when more input arrives. *)
Lemma resume_turn {M A} (p p1 p2 : io M A) m m1 m2 in1 in2 out1 out2 :
  run_io p m (plain in1) (plain []) = (p1, m1, plain [], plain out1) ->
  run_io p m (plain (in1 ++ in2)) (plain []) = (p2, m2, plain [], plain (out1 ++ out2)) ->
  run_io p1 m1 (plain in2) (plain []) = (p2, m2, plain [], plain out2).
Proof.
  intros H1 H2.
  destruct (run_resume _ _ _ _ (plain in1) _ _ _ in2 eq_refl eq_refl H1) as (_ & _ & Hres).
  change (run_io p m (plain (in1 ++ in2)) (plain []) = run_io p1 m1 (plain in2) (plain out1)) in Hres.
  rewrite H2 in Hres. symmetry in Hres.
  destruct (run_output _ _ _ _ _ _ _ _ _ _ Hres) as (w & f & Hw & Hout).
  pose proof (f_equal fin Hw) as Hf. pose proof (f_equal pending Hw) as Hp. cbn in Hf, Hp. subst f.
  apply app_inv_head in Hp as ->. exact (Hout []).
Qed.

(** ** Two programs that go on after a first part *)

Lemma exec_bind {M A B} (p : io M A) (k : A -> io M B) m i o e i' o' :
  exec (Build_endpoint p m) i o = Some (e, i', o') ->
  exec (Build_endpoint (bind p k) m) i o = Some (Build_endpoint (bind (prog e) k) (state e), i', o').
Proof. unfold exec. cbn. intros He. destruct p; cbn in *; repeat case_match; by simplify_eq. Qed.

Definition extend {M A B N C D} (k : A -> io M B) (k' : C -> io N D) (d : duplex M A N C) : duplex M B N D :=
  Build_duplex (Build_endpoint (bind (prog (left d)) k) (state (left d)))
    (Build_endpoint (bind (prog (right d)) k') (state (right d))) (l2r d) (r2l d).

Lemma step_extend {M A B N C D} (k : A -> io M B) (k' : C -> io N D) (d d' : duplex M A N C) :
  step d d' -> step (extend k k' d) (extend k k' d').
Proof.
  intros [d1 l i o He|d1 r i o He]; destruct d1 as [[pl ml] [pr mr] ca cb]; cbn in He.
  - apply (exec_bind _ k) in He. exact (step_left (extend k k' (Build_duplex (Build_endpoint pl ml) (Build_endpoint pr mr) ca cb)) _ _ _ He).
  - apply (exec_bind _ k') in He. exact (step_right (extend k k' (Build_duplex (Build_endpoint pl ml) (Build_endpoint pr mr) ca cb)) _ _ _ He).
Qed.

Lemma steps_extend {M A B N C D} (k : A -> io M B) (k' : C -> io N D) (d d' : duplex M A N C) :
  rtc step d d' -> rtc step (extend k k' d) (extend k k' d').
Proof. induction 1; [done|]. eapply rtc_l; [by apply step_extend|done]. Qed.

(** ** Where a run stops *)

(** A program that is done, or that waits. *)
Definition stops {M A} (p : io M A) (i : channel) : Prop :=
  match p with
  | Done _ => True
  | ReadExact n _ => ch_read i n = None
  | _ => False
  end.

Lemma run_io_stops {M A} (p p' : io M A) m i o m' i' o' : run_io p m i o = (p', m', i', o') -> stops p' i'.
Proof.
  revert m i o. induction p as [x|bs k IH|n k IH|k IH|X f k IH]; intros m i o Hrun; cbn in Hrun.
  - by simplify_eq.
  - destruct (ch_write o bs). by eapply IH.
  - destruct (ch_read i n) as [[i1 r]|] eqn:Hr; [by eapply IH|]. by simplify_eq.
  - by eapply IH.
  - destruct (f m). by eapply IH.
Qed.

Lemma stops_run {M A} (p : io M A) m i o : stops p i -> run_io p m i o = (p, m, i, o).
Proof. destruct p; cbn; try done. by intros ->. Qed.

Lemma stops_exec {M A} (p : io M A) m i o : stops p i -> exec (Build_endpoint p m) i o = None.
Proof. unfold exec. destruct p; cbn; try done. by intros ->. Qed.

Lemma run_bind_on {M A B} (p p' : io M A) (k : A -> io M B) m i o m' i' o' :
  run_io p m i o = (p', m', i', o') -> run_io (bind p k) m i o = run_io (bind p' k) m' i' o'.
Proof.
  revert m i o. induction p as [y|bytes p IH|n p IH|p IH|X f p IH]; intros m i o Hrun; cbn in *.
  - by simplify_eq.
  - destruct (ch_write o bytes). by apply IH.
  - destruct (ch_read i n) as [[? ?]|] eqn:Hr; [by apply IH|]. simplify_eq. cbn. by rewrite Hr.
  - by apply IH.
  - destruct (f m). by apply IH.
Qed.
