(* ===== verification/Split.v ===== *)
(** * A connection split into two tasks

    After the login each program splits its connection into a sender and a receiver, which
    two tasks drive concurrently while they share the connection's state
    ([SecureConnection::into_split]).  Here are the two machines of a session with their four
    tasks, in any interleaving, and the reduction of their joint behaviour to that of the two
    directions taken alone. *)

From stdpp Require Import relations.
From Stdlib Require Import Wellfounded.
From S2P Require Import Prelude Io.

(** ** What a program does *)

(** A program that only reads, and updates its state only in given ways. *)
Fixpoint only_reads {M A} (L : forall B, (M -> M * B) -> Prop) (p : io M A) : Prop :=
  match p with
  | Done _ => True
  | WriteAll _ _ | FinishStream _ => False
  | ReadExact _ k => forall r, only_reads L (k r)
  | Local f k => L _ f /\ forall b, only_reads L (k b)
  end.

(** A program that only writes, and updates its state in given ways, at most [n] times. *)
Fixpoint only_writes {M A} (L : forall B, (M -> M * B) -> Prop) (n : nat) (p : io M A) : Prop :=
  match p with
  | Done _ => True
  | WriteAll _ k => forall r, only_writes L n (k r)
  | ReadExact _ _ => False
  | FinishStream k => only_writes L n k
  | Local f k => L _ f /\ exists n', n = S n' /\ forall b, only_writes L n' (k b)
  end.

(** A program that does not end its stream. *)
Fixpoint keeps_open {M A} (p : io M A) : Prop :=
  match p with
  | Done _ => True
  | WriteAll _ k => forall r, keeps_open (k r)
  | ReadExact _ k => forall r, keeps_open (k r)
  | FinishStream _ => False
  | Local f k => forall b, keeps_open (k b)
  end.

(** ** What the two tasks need of the state they share

    [joined m ms mr]: the state [m] that both work on is the one the sender would have alone,
    [ms], together with the one the receiver would have alone, [mr].  Accesses of a sender and
    of a receiver do not disturb each other, as long as the state has [room] for the sender's;
    [fresh] is a state no sender has worked on. *)
Class Halves (M : Type) := {
  sender_access : forall B, (M -> M * B) -> Prop;
  receiver_access : forall B, (M -> M * B) -> Prop;
  joined : M -> M -> M -> Prop;
  fresh : M -> Prop;
  room : nat -> M -> Prop;
  most_sends : nat;
  joined_refl : forall m, joined m m m;
  fresh_room : forall m n, fresh m -> (n < most_sends)%nat -> room n m;
  sent_room : forall B (f : M -> M * B) m n, sender_access B f -> room (S n) m -> room n (f m).1;
  received_fresh : forall B (f : M -> M * B) m, receiver_access B f -> fresh (f m).1 <-> fresh m;
  sent_joined : forall B (f : M -> M * B) m ms mr n, sender_access B f -> joined m ms mr -> room (S n) ms ->
    (f m).2 = (f ms).2 /\ joined (f m).1 (f ms).1 mr;
  received_joined : forall B (f : M -> M * B) m ms mr, receiver_access B f -> joined m ms mr ->
    (f m).2 = (f mr).2 /\ joined (f m).1 ms (f mr).1
}.

Abbreviation sends := (only_writes sender_access).
Abbreviation receives := (only_reads receiver_access).

(** ** Two machines with two tasks each *)

(** A machine logs in, and then runs its sender and its receiver. *)
Inductive side (M E X A B : Type) : Type :=
| Login (p : io M (result E X))
| Tasks (s : io M (result E A)) (r : io M (result E B)).
Arguments Login {M E X A B} p.
Arguments Tasks {M E X A B} s r.

Inductive side_step {M E X A B : Type} (spawn : X -> io M (result E A) * io M (result E B)) :
    side M E X A B -> M -> channel -> channel -> side M E X A B -> M -> channel -> channel -> Prop :=
| login_step p m i o e i' o' :
    exec (Build_endpoint p m) i o = Some (e, i', o') ->
    side_step spawn (Login p) m i o (Login (prog e)) (state e) i' o'
| spawn_step x m i o :
    side_step spawn (Login (Done (Ok x))) m i o (Tasks (spawn x).1 (spawn x).2) m i o
| send_step s r m i o e i' o' :
    exec (Build_endpoint s m) i o = Some (e, i', o') ->
    side_step spawn (Tasks s r) m i o (Tasks (prog e) r) (state e) i' o'
| recv_step s r m i o e i' o' :
    exec (Build_endpoint r m) i o = Some (e, i', o') ->
    side_step spawn (Tasks s r) m i o (Tasks s (prog e)) (state e) i' o'.

Record split (M X A B N Y C D E : Type) := {
  lside : side M E X A B;
  lstate : M;
  rside : side N E Y C D;
  rstate : N;
  to_right : channel;
  to_left : channel;
}.
Arguments Build_split {M X A B N Y C D E} lside lstate rside rstate to_right to_left.
Arguments lside {M X A B N Y C D E} s.
Arguments lstate {M X A B N Y C D E} s.
Arguments rside {M X A B N Y C D E} s.
Arguments rstate {M X A B N Y C D E} s.
Arguments to_right {M X A B N Y C D E} s.
Arguments to_left {M X A B N Y C D E} s.

Inductive split_step {M X A B N Y C D E : Type} (lspawn : X -> io M (result E A) * io M (result E B))
    (rspawn : Y -> io N (result E C) * io N (result E D)) :
    split M X A B N Y C D E -> split M X A B N Y C D E -> Prop :=
| split_left d l m i o :
    side_step lspawn (lside d) (lstate d) (to_left d) (to_right d) l m i o ->
    split_step lspawn rspawn d (Build_split l m (rside d) (rstate d) o i)
| split_right d r n i o :
    side_step rspawn (rside d) (rstate d) (to_right d) (to_left d) r n i o ->
    split_step lspawn rspawn d (Build_split (lside d) (lstate d) r n i o).

(** ** Every run ends *)

(** What remains of a program after a step. *)
Definition rest {M A} (q p : io M A) : Prop :=
  match p with
  | Done _ => False
  | WriteAll _ k => exists x, q = k x
  | ReadExact _ k => exists x, q = k x
  | FinishStream k => q = k
  | Local f k => exists x, q = k x
  end.

Lemma exec_rest {M A} (e : endpoint M A) i o e' i' o' :
  exec e i o = Some (e', i', o') -> rest (prog e') (prog e).
Proof. unfold exec. destruct (prog e); intros He; exec_cases; try done; cbn; eauto. Qed.

Lemma rest_wf {M A} : well_founded (@rest M A).
Proof. intros p. induction p; constructor; intros q Hq; cbn in Hq; naive_solver. Qed.

(** A machine's step leaves less to do. *)
Definition side_rest {M E X A B} (c d : side M E X A B) : Prop :=
  match c, d with
  | Login q, Login p => rest q p
  | Tasks _ _, Login _ => True
  | Tasks s' r', Tasks s r => (rest s' s /\ r' = r) \/ (s' = s /\ rest r' r)
  | Login _, Tasks _ _ => False
  end.

Lemma side_rest_wf {M E X A B} : well_founded (@side_rest M E X A B).
Proof.
  assert (Htasks : forall s r, Acc (@side_rest M E X A B) (Tasks s r)).
  { intros s. induction s as [s IHs] using (well_founded_induction rest_wf).
    intros r. induction r as [r IHr] using (well_founded_induction rest_wf).
    constructor. intros [q|s' r']; [done|]. intros [[Hs ->]|[-> Hr]]; auto. }
  intros [p|s r]; [|apply Htasks]. induction p as [p IH] using (well_founded_induction rest_wf).
  constructor. intros [q|s r] Hq; [by apply IH|apply Htasks].
Qed.

Lemma side_step_rest {M E X A B} (spawn : X -> io M (result E A) * io M (result E B)) c m i o c' m' i' o' :
  side_step spawn c m i o c' m' i' o' -> side_rest c' c.
Proof.
  destruct 1 as [? ? ? ? ? ? ? He| |? ? ? ? ? ? ? ? He|? ? ? ? ? ? ? ? He]; cbn; [|done|left|right];
    apply exec_rest in He; cbn in He; done.
Qed.

Definition side_stuck {M E X A B} (c : side M E X A B) (m : M) (i o : channel) : Prop :=
  match c with
  | Login (Done (Ok _)) => False
  | Login p => exec (Build_endpoint p m) i o = None
  | Tasks s r => exec (Build_endpoint s m) i o = None /\ exec (Build_endpoint r m) i o = None
  end.

(** A machine moves, or both its tasks wait. *)
Lemma side_moves {M E X A B} (spawn : X -> io M (result E A) * io M (result E B)) c m i o :
  (exists c' m' i' o', side_step spawn c m i o c' m' i' o') \/ side_stuck c m i o.
Proof.
  destruct c as [p|s r]; cbn.
  - destruct (exec (Build_endpoint p m) i o) as [[[e i'] o']|] eqn:He.
    + left. eauto 6 using login_step.
    + destruct p as [[x|e]| | | |]; try (by right). left. eauto 6 using spawn_step.
  - destruct (exec (Build_endpoint s m) i o) as [[[e i'] o']|] eqn:He; [left; eauto 6 using send_step|].
    destruct (exec (Build_endpoint r m) i o) as [[[e i'] o']|] eqn:He'; [left; eauto 6 using recv_step|].
    by right.
Qed.

Section Runs.
Context {M X A B N Y C D E : Type}.
Context (lspawn : X -> io M (result E A) * io M (result E B)) (rspawn : Y -> io N (result E C) * io N (result E D)).
Abbreviation step := (split_step lspawn rspawn).

Definition stuck (d : split M X A B N Y C D E) : Prop :=
  side_stuck (lside d) (lstate d) (to_left d) (to_right d) /\
  side_stuck (rside d) (rstate d) (to_right d) (to_left d).

(** No run goes on for ever: from every state one is reached in which nothing moves. *)
Lemma split_ends (d : split M X A B N Y C D E) : exists d', rtc step d d' /\ stuck d'.
Proof.
  destruct d as [l m r n a b]. revert r m n a b.
  induction l as [l IHl] using (well_founded_induction side_rest_wf).
  intros r. induction r as [r IHr] using (well_founded_induction side_rest_wf). intros m n a b.
  destruct (side_moves lspawn l m b a) as [(l' & m' & i & o & Hs)|Hl].
  { destruct (IHl l' (side_step_rest _ _ _ _ _ _ _ _ _ Hs) r m' n o i) as (d' & Hd & Hst).
    exists d'. split; [|done]. eapply rtc_l; [|exact Hd]. by apply (split_left _ _ (Build_split l m r n a b)). }
  destruct (side_moves rspawn r n a b) as [(r' & n' & i & o & Hs)|Hr].
  { destruct (IHr r' (side_step_rest _ _ _ _ _ _ _ _ _ Hs) m n' i o) as (d' & Hd & Hst).
    exists d'. split; [|done]. eapply rtc_l; [|exact Hd]. by apply (split_right _ _ (Build_split l m r n a b)). }
  by exists (Build_split l m r n a b).
Qed.
End Runs.

(** ** One direction alone *)

Lemma only_writes_exec {M A} L n (e : endpoint M A) i o e' i' o' :
  only_writes L n (prog e) -> exec e i o = Some (e', i', o') ->
  i' = i /\ exists n', only_writes L n' (prog e').
Proof.
  unfold exec. destruct (prog e); cbn; intros Hp He; exec_cases; try done; cbn; eauto.
  destruct Hp as (_ & n' & -> & Hk). eauto.
Qed.

Lemma only_reads_exec {M A} L (e : endpoint M A) i o e' i' o' :
  only_reads L (prog e) -> exec e i o = Some (e', i', o') -> o' = o /\ only_reads L (prog e').
Proof.
  unfold exec. destruct (prog e); cbn; intros Hp He; exec_cases; try done; cbn; eauto.
  by destruct Hp as [_ Hk].
Qed.

Lemma exec_outbound {M A} (e : endpoint M A) i o e' i' o' :
  exec e i o = Some (e', i', o') -> exists w, pending o' = pending o ++ w.
Proof.
  unfold exec. destruct (prog e); intros He; exec_cases; try done.
  all: try (exists []; by rewrite app_nil_r).
  match goal with H : ch_write _ _ = _ |- _ => revert H end. unfold ch_write.
  case_match; intros [= <- <-]; cbn; [exists []; by rewrite app_nil_r|by eexists].
Qed.

Section Alone.
Context {M A N B : Type}.
Implicit Types d : duplex M A N B.

(** A machine that only writes leaves what arrives on its stream. *)
Lemma writer_leaves L n d d' : only_writes L n (prog (left d)) -> rtc step d d' ->
  exists w, pending (r2l d') = pending (r2l d) ++ w.
Proof.
  intros Hw Hd. revert n Hw. induction Hd as [d|d d1 d2 Hs _ IH]; intros n Hw.
  { exists []. by rewrite app_nil_r. }
  destruct Hs as [d l i o He|d r i o He].
  - destruct (only_writes_exec _ _ _ _ _ _ _ _ Hw He) as [-> [n' Hw']]. exact (IH n' Hw').
  - destruct (IH n Hw) as [w Hp]. destruct (exec_outbound _ _ _ _ _ _ He) as [w' Hp']. cbn in Hp.
    exists (w' ++ w). by rewrite Hp, Hp', app_assoc.
Qed.

(** A machine that waits for one that only reads waits for ever. *)
Lemma reader_waits L n k d d' : only_reads L (prog (right d)) ->
  prog (left d) = ReadExact n k -> ch_read (r2l d) n = None -> rtc step d d' -> prog (left d') = ReadExact n k.
Proof.
  intros Hr Hl Hn Hd. induction Hd as [d|d d1 d2 Hs _ IH]; [done|]. destruct Hs as [d l i o He|d r i o He].
  - exfalso. unfold exec in He. by rewrite Hl, Hn in He.
  - destruct (only_reads_exec _ _ _ _ _ _ _ Hr He) as [-> Hr']. by apply IH.
Qed.

(** A machine that only receives is as fresh as it will be. *)
Lemma receiver_fresh `{!Halves M} d d' : receives (prog (left d)) -> rtc step d d' ->
  fresh (state (left d')) -> fresh (state (left d)).
Proof.
  intros Hr Hd. induction Hd as [d|d d1 d2 Hs _ IH]; [done|]. intros Hf.
  destruct Hs as [d l i o He|d r i o He]; [|by apply IH].
  destruct (only_reads_exec _ _ _ _ _ _ _ Hr He) as [_ Hr']. specialize (IH Hr' Hf). cbn in IH. revert He IH.
  unfold exec. destruct (prog (left d)) as [| |n k| |X f k]; cbn in Hr; intros He; exec_cases; try done.
  cbn. destruct Hr as [Hf' _]. intros Hm. apply (received_fresh _ f); [done|].
  by match goal with H : f _ = _ |- _ => rewrite H end.
Qed.
End Alone.

(** ** The two directions together *)

(** The program of a machine that is left to one of its tasks after the login. *)
Definition kont {M E X A} (k : X -> io M (result E A)) (r : result E X) : io M (result E A) :=
  match r with Ok x => k x | Err e => Done (Err e) end.

Definition is_login {M E X A B} (c : side M E X A B) : bool :=
  match c with Login _ => true | Tasks _ _ => false end.

(** A machine beside the two it would be with one task each, [eS] and [eR]. *)
Definition side_sim {M E X A B} `{!Halves M} (spawn : X -> io M (result E A) * io M (result E B))
    (c : side M E X A B) (m : M) (eS : endpoint M (result E A)) (eR : endpoint M (result E B)) : Prop :=
  match c with
  | Login p =>
      keeps_open p /\ eS = Build_endpoint (bind p (kont (fun x => (spawn x).1))) m /\
      eR = Build_endpoint (bind p (kont (fun x => (spawn x).2))) m
  | Tasks s r =>
      prog eS = s /\ prog eR = r /\ joined m (state eS) (state eR) /\ receives r /\
      exists n, sends n s /\ room n (state eS)
  end.

(** A stream that holds what the login wrote, beside one on which a task wrote more. *)
Definition grown (same : bool) (big small : channel) : Prop :=
  (exists w, pending big = pending small ++ w) /\ lost big = false /\ lost small = false /\ fin small = false /\
  (same = true -> big = small).

Lemma grown_refl c : lost c = false -> fin c = false -> grown true c c.
Proof. intros Hl Hf. split_and!; try done. exists []. by rewrite app_nil_r. Qed.

Lemma grown_more same big small big' :
  grown same big small -> (exists w, pending big' = pending big ++ w) -> lost big' = lost big -> grown false big' small.
Proof.
  intros ([w Hw] & Hl & Hs & Hf & _) [w' Hw'] Hl'. split_and!; try done; [|congruence].
  exists (w ++ w'). by rewrite Hw', Hw, app_assoc.
Qed.

Lemma grown_read same big small n big' r : grown same big small -> ch_read big n = Some (big', r) ->
  (exists small', ch_read small n = Some (small', r) /\ grown same big' small') \/
  (ch_read small n = None /\ same = false).
Proof.
  intros ([w Hw] & Hl & Hs & Hf & Hsame) Hr. destruct (ch_read small n) as [[small' r']|] eqn:Hr'.
  - left. exists small'. revert Hr Hr'. unfold ch_read. rewrite Hs, Hf, Hl, Hw.
    destruct (decide (n <= length (pending small))%nat) as [Hn|Hn]; [|done].
    rewrite decide_True by (rewrite length_app; lia). intros [= <- <-] [= <- <-].
    rewrite take_app_le, drop_app_le by lia. split; [done|]. split_and!; try done; cbn; [by eexists|].
    intros Hb. specialize (Hsame Hb). subst big. rewrite <- (app_nil_r (pending small)) in Hw at 1.
    apply app_inv_head in Hw as <-. by rewrite app_nil_r, Hf.
  - right. split; [done|]. destruct same; [|done]. by rewrite (Hsame eq_refl), Hr' in Hr.
Qed.

Section Together.
Context {M X A B N Y C D E : Type} `{!Halves M, !Halves N}.
Context (lspawn : X -> io M (result E A) * io M (result E B)) (rspawn : Y -> io N (result E C) * io N (result E D)).

(** Four tasks beside the two directions alone: in [da] the left machine sends and the right one
    receives, in [db] the other way round. *)
Record sim (d : split M X A B N Y C D E) (da : duplex M (result E A) N (result E D))
    (db : duplex M (result E B) N (result E C)) : Prop := {
  sim_left_side : side_sim lspawn (lside d) (lstate d) (left da) (left db);
  sim_right_side : side_sim rspawn (rside d) (rstate d) (right db) (right da);
  sim_to_right : to_right d = l2r da;
  sim_to_left : to_left d = r2l db;
  sim_right_grown : grown (is_login (lside d)) (to_right d) (l2r db);
  sim_left_grown : grown (is_login (rside d)) (to_left d) (r2l da)
}.

Context (n0 : nat) (Hn0 : (n0 < most_sends (M := M))%nat).
Context (Hspawn : forall x, sends n0 (lspawn x).1 /\ receives (lspawn x).2).

(** The end of each direction: the sender is done and has read what the login wrote; the
    receiver has not touched the sender's half. *)
Context (fa : duplex M (result E A) N (result E D)) (fb : duplex M (result E B) N (result E C)).
Context (Hdone : exists x, prog (left fa) = Done x) (Hread : pending (r2l fa) = []) (Hfresh : fresh (state (left fb))).

Lemma login_exec (p : io M (result E X)) m b a e b' a' same bA :
  exec (Build_endpoint p m) b a = Some (e, b', a') -> grown same b bA ->
  (exists bA', exec (Build_endpoint p m) bA a = Some (e, bA', a') /\ grown same b' bA') \/
  (exists n k, p = ReadExact n k /\ ch_read bA n = None /\ same = false).
Proof.
  intros He Hg. unfold exec in He |- *. cbn in He |- *. destruct p as [|bs k|n k|k|T f k]; [done|left|..].
  - exec_cases. eauto.
  - destruct (ch_read b n) as [[b1 r]|] eqn:Hr; [|done]. injection He as <- <- <-.
    destruct (grown_read _ _ _ _ _ _ Hg Hr) as [(bA' & Hr' & Hg')|[Hn Hs]].
    + left. rewrite Hr'. eauto.
    + right. eauto.
  - left. exec_cases. eauto.
  - left. exec_cases. eauto.
Qed.

Lemma open_exec (p : io M (result E X)) m i o e i' o' :
  keeps_open p -> exec (Build_endpoint p m) i o = Some (e, i', o') -> lost o = false -> fin o = false ->
  keeps_open (prog e) /\ lost o' = false /\ fin o' = false.
Proof.
  unfold exec. cbn. intros Hp He Hl Hf. destruct p; cbn in Hp; try done; exec_cases; try done; cbn; eauto.
  match goal with H : ch_write _ _ = _ |- _ => revert H end. unfold ch_write. rewrite Hl, Hf.
  by intros [= <- <-].
Qed.

Lemma sim_login d da db p e i o : sim d da db -> lside d = Login p -> rtc step da fa ->
  exec (Build_endpoint p (lstate d)) (to_left d) (to_right d) = Some (e, i, o) ->
  exists da' db', rtc step da da' /\ rtc step db db' /\
    sim (Build_split (Login (prog e)) (state e) (rside d) (rstate d) o i) da' db'.
Proof.
  intros [Hl Hr Ha Hb Hga Hgb] Hp Hfa He. rewrite Hp in Hl, Hga. destruct Hl as (Hopen & Hla & Hlb).
  destruct da as [la ra aa ba], db as [lb rb ab bb]. cbn in *. subst la lb aa bb.
  destruct Hga as (_ & Hlo & _ & Hfi & Hsame). specialize (Hsame eq_refl). subst ab.
  destruct (login_exec _ _ _ _ _ _ _ _ _ He Hgb) as [(bA' & He' & Hg')|(n & k & -> & Hn & Hs)].
  - exists (Build_duplex (Build_endpoint (bind (prog e) (kont (fun x => (lspawn x).1))) (state e)) ra o bA').
    exists (Build_duplex (Build_endpoint (bind (prog e) (kont (fun x => (lspawn x).2))) (state e)) rb o i).
    destruct (open_exec _ _ _ _ _ _ _ Hopen He Hlo Hfi) as (Hopen' & Hlo' & Hfi').
    split; [|split].
    + apply rtc_once, (step_left (Build_duplex (Build_endpoint _ (lstate d)) ra (to_right d) ba)). by apply exec_bind.
    + apply rtc_once, (step_left (Build_duplex (Build_endpoint _ (lstate d)) rb (to_right d) (to_left d))). by apply exec_bind.
    + split; cbn; try done. by apply grown_refl.
  - exfalso. destruct (rside d) as [|s r]; [done|]. cbn in Hr. destruct Hr as (_ & Hr & _ & Hrecv & _).
    destruct Hdone as [x Hx].
    eapply (reader_waits receiver_access) in Hfa; [|cbn; by rewrite Hr|reflexivity|exact Hn]. by rewrite Hfa in Hx.
Qed.

Lemma sim_spawn d da db x : sim d da db -> lside d = Login (Done (Ok x)) -> rtc step db fb ->
  sim (Build_split (Tasks (lspawn x).1 (lspawn x).2) (lstate d) (rside d) (rstate d) (to_right d) (to_left d)) da db.
Proof.
  intros [Hl Hr Ha Hb Hga Hgb] Hp Hfb. rewrite Hp in Hl, Hga. destruct Hl as (_ & Hla & Hlb).
  destruct (Hspawn x) as [Hs Hrc]. split; cbn; try done.
  - rewrite Hla, Hlb. cbn. split_and!; [done|done|apply joined_refl|done|]. exists n0. split; [done|].
    apply fresh_room; [|done].
    pose proof (receiver_fresh db fb ltac:(by rewrite Hlb) Hfb Hfresh) as Hf. by rewrite Hlb in Hf.
  - destruct Hga as (? & ? & ? & ? & _). by split_and!.
Qed.

Lemma sim_send d da db s r e i o : sim d da db -> lside d = Tasks s r ->
  exec (Build_endpoint s (lstate d)) (to_left d) (to_right d) = Some (e, i, o) ->
  exists da', rtc step da da' /\ sim (Build_split (Tasks (prog e) r) (state e) (rside d) (rstate d) o i) da' db.
Proof.
  intros [Hl Hr Ha Hb Hga Hgb] Hp He. rewrite Hp in Hl, Hga. destruct Hl as (Hs & Hrc & Hj & Hrec & n & Hsend & Hroom).
  destruct da as [[pa ma] ra aa ba], db as [lb rb ab bb]. cbn in *. subst pa aa bb.
  pose proof (only_writes_exec _ _ (Build_endpoint s (lstate d)) _ _ _ _ _ Hsend He) as [-> _].
  pose proof (exec_outbound _ _ _ _ _ _ He) as Hout.
  assert (Hex : exists e', exec (Build_endpoint s ma) ba (to_right d) = Some (e', ba, o) /\ prog e' = prog e /\
    joined (state e) (state e') (state lb) /\ (exists n', sends n' (prog e) /\ room n' (state e')) /\ lost o = lost (to_right d)).
  { revert He. unfold exec. cbn. destruct s as [|bs k|m k|k|T f k]; cbn in Hsend; [done|..]; intros He.
    - destruct (ch_write (to_right d) bs) as [o1 w] eqn:Hw. injection He as <- <-. eexists. split; [done|]. cbn.
      split_and!; [done|done|by eauto|]. revert Hw. unfold ch_write. case_match; intros [= <- <-]; done.
    - done.
    - injection He as <- <-. eexists. split; [done|]. cbn. split_and!; [done|done|by eauto|done].
    - destruct Hsend as (Hf & n' & -> & Hk). destruct (sent_joined _ f _ _ _ _ Hf Hj Hroom) as [Hx Hj'].
      pose proof (sent_room _ f _ _ Hf Hroom) as Hroom'.
      destruct (f (lstate d)) as [m1 x1] eqn:Hf1. destruct (f ma) as [m2 x2] eqn:Hf2. cbn in Hx, Hj', Hroom'. subst x2.
      injection He as <- <-. eexists. split; [done|]. cbn. split_and!; [done|done|by eauto|done]. }
  destruct Hex as (e' & He' & Hpe & Hj' & (n' & Hs' & Hroom') & Hlo).
  exists (Build_duplex e' ra o ba). split.
  - by apply rtc_once, (step_left (Build_duplex (Build_endpoint s ma) ra (to_right d) ba)).
  - split; cbn; try done; [split_and!; try done; by eauto|by eapply grown_more].
Qed.

Lemma sim_recv d da db s r e i o : sim d da db -> lside d = Tasks s r -> rtc step da fa ->
  exec (Build_endpoint r (lstate d)) (to_left d) (to_right d) = Some (e, i, o) ->
  exists db', rtc step db db' /\ sim (Build_split (Tasks s (prog e)) (state e) (rside d) (rstate d) o i) da db'.
Proof.
  intros [Hl Hr Ha Hb Hga Hgb] Hp Hfa He. rewrite Hp in Hl, Hga. destruct Hl as (Hs & Hrc & Hj & Hrec & n & Hsend & Hroom).
  destruct (writer_leaves sender_access n da fa ltac:(by rewrite Hs) Hfa) as [w Hw].
  rewrite Hread in Hw. symmetry in Hw. apply app_eq_nil in Hw as [Hempty _].
  destruct da as [la ra aa ba], db as [[pb mb] rb ab bb]. cbn in *. subst pb aa bb.
  pose proof (only_reads_exec _ (Build_endpoint r (lstate d)) _ _ _ _ _ Hrec He) as [-> Hrec'].
  assert (Hex : exists e', exec (Build_endpoint r mb) (to_left d) ab = Some (e', i, ab) /\ prog e' = prog e /\
    joined (state e) (state la) (state e') /\ grown (is_login (rside d)) i ba).
  { revert He. unfold exec. cbn. destruct r as [|bs k|m k|k|T f k]; cbn in Hrec; [done|done|..|done|]; intros He.
    - destruct (ch_read (to_left d) m) as [[i1 x]|] eqn:Hi; [|done]. injection He as <- <-. eexists. split; [done|]. cbn.
      split_and!; [done|done|]. destruct (grown_read _ _ _ _ _ _ Hgb Hi) as [(ba' & Hr' & Hg')|[Hn Hsame]].
      + revert Hr'. unfold ch_read. rewrite Hempty. destruct Hgb as (_ & _ & Hlo & Hfi & _). rewrite Hlo, Hfi.
        case_decide as Hm; [|done]. rewrite drop_nil. intros [= <- <-]. destruct ba. cbn in *. by subst.
      + destruct Hgb as (_ & Hlo & Hlo' & Hfi & _). rewrite Hsame. split_and!; try done.
        * exists (pending i1). by rewrite Hempty.
        * revert Hi. unfold ch_read. rewrite Hlo. repeat case_match; intros; by simplify_eq.
    - destruct Hrec as [Hf Hk]. destruct (received_joined _ f _ _ _ Hf Hj) as [Hx Hj'].
      destruct (f (lstate d)) as [m1 x1] eqn:Hf1. destruct (f mb) as [m2 x2] eqn:Hf2. cbn in Hx, Hj'. subst x2.
      injection He as <- <-. eexists. split; [done|]. by split_and!. }
  destruct Hex as (e' & He' & Hpe & Hj' & Hg').
  exists (Build_duplex e' rb ab i). split.
  - by apply rtc_once, (step_left (Build_duplex (Build_endpoint r mb) rb ab (to_left d))).
  - split; cbn; try done. split_and!; try done. by eauto.
Qed.

Lemma sim_left_step d da db l m i o : sim d da db -> rtc step da fa -> rtc step db fb ->
  side_step lspawn (lside d) (lstate d) (to_left d) (to_right d) l m i o ->
  exists da' db', rtc step da da' /\ rtc step db db' /\ sim (Build_split l m (rside d) (rstate d) o i) da' db'.
Proof.
  intros Hsim Hfa Hfb Hs.
  inversion Hs as [p m1 i1 o1 e i' o' He Hp|x m1 i1 o1 Hp|s r m1 i1 o1 e i' o' He Hp|s r m1 i1 o1 e i' o' He Hp]; subst.
  - by eapply sim_login.
  - exists da, db. split; [done|]. split; [done|]. by apply sim_spawn.
  - destruct (sim_send d da db s r e i o Hsim ltac:(done) He) as (da' & Hda & Hsim'). by exists da', db.
  - destruct (sim_recv d da db s r e i o Hsim ltac:(done) Hfa He) as (db' & Hdb & Hsim'). by exists da, db'.
Qed.
End Together.

(** *** Seen from the other machine *)

Definition flip_duplex {M A N B} (d : duplex M A N B) : duplex N B M A := Build_duplex (right d) (left d) (r2l d) (l2r d).

Definition flip_split {M X A B N Y C D E} (d : split M X A B N Y C D E) : split N Y C D M X A B E :=
  Build_split (rside d) (rstate d) (lside d) (lstate d) (to_left d) (to_right d).

Lemma flip_step {M A N B} (d d' : duplex M A N B) : step d d' -> step (flip_duplex d) (flip_duplex d').
Proof.
  destruct 1 as [d l i o He|d r i o He]; [exact (step_right (flip_duplex d) l i o He)|exact (step_left (flip_duplex d) r i o He)].
Qed.

Lemma flip_steps {M A N B} (d d' : duplex M A N B) : rtc step d d' -> rtc step (flip_duplex d) (flip_duplex d').
Proof. induction 1; [done|]. eapply rtc_l; [by apply flip_step|done]. Qed.

Lemma unflip_steps {M A N B} (d : duplex M A N B) d' : rtc step (flip_duplex d) d' -> rtc step d (flip_duplex d').
Proof. intros Hd. apply flip_steps in Hd. by destruct d. Qed.

Lemma flip_sim {M X A B N Y C D E} `{!Halves M, !Halves N} (lspawn : X -> io M (result E A) * io M (result E B))
    (rspawn : Y -> io N (result E C) * io N (result E D)) d da db :
  sim lspawn rspawn d da db -> sim rspawn lspawn (flip_split d) (flip_duplex db) (flip_duplex da).
Proof. intros []. by split. Qed.

(** *** A machine whose tasks wait, waits in both directions *)

Lemma stuck_alone {M X A B E} `{!Halves M} (spawn : X -> io M (result E A) * io M (result E B)) c m eS eR same b bA a aB :
  side_sim spawn c m eS eR -> side_stuck c m b a -> grown same b bA ->
  exec eS bA a = None /\ exec eR b aB = None.
Proof.
  intros Hsim Hst ([w Hw] & Hl & Hl' & Hf & _). destruct c as [p|s r]; cbn in Hsim, Hst.
  - destruct Hsim as (_ & -> & ->). unfold exec in *. cbn in *.
    destruct p as [[x|e]|bs k|n k|k|T f k]; cbn; try done; [by destruct (ch_write a bs)| |by destruct (f m)].
    destruct (ch_read b n) as [[? ?]|] eqn:Hr; [done|]. split; [|done].
    assert (ch_read bA n = None) as ->; [|done]. revert Hr. unfold ch_read. rewrite Hl, Hl', Hf, Hw.
    case_decide as H1; [done|]. rewrite decide_False; [done|]. rewrite length_app in H1. lia.
  - destruct Hsim as (Hs & Hr & _ & Hrec & n & Hsend & _). destruct Hst as [Hes Her]. unfold exec in *. rewrite Hs, Hr. split.
    + destruct s as [|bs k|n' k|k|T f k]; cbn in *; try done; [by destruct (ch_write a bs)|by destruct (f m)].
    + destruct r as [|bs k|n' k|k|T f k]; cbn in *; try done; [|by destruct (f m)].
      by destruct (ch_read b n') as [[? ?]|].
Qed.

Lemma idle_nf {M A N B} (d : duplex M A N B) :
  exec (left d) (r2l d) (l2r d) = None -> exec (right d) (l2r d) (r2l d) = None -> nf step d.
Proof. intros Hl Hr [d' Hs]. inversion Hs; congruence. Qed.

Lemma side_done {M X A B E} `{!Halves M} (spawn : X -> io M (result E A) * io M (result E B)) c m eS eR a b x :
  side_sim spawn c m eS eR -> side_stuck c m b a -> prog eS = Done (Ok x) -> c = Tasks (prog eS) (prog eR).
Proof.
  intros Hsim Hst Hd. destruct c as [p|s r]; cbn in Hsim, Hst.
  - destruct Hsim as (_ & -> & _). cbn in Hd. by destruct p as [[y|e]| | | |].
  - by destruct Hsim as (-> & -> & _).
Qed.

Lemma side_stuck_waits {M X A B E} (spawn : X -> io M (result E A) * io M (result E B)) c m i o c' m' i' o' :
  side_stuck c m i o -> side_step spawn c m i o c' m' i' o' -> False.
Proof.
  intros Hst Hs. destruct Hs as [p m i o e1 ? ? He|x|s r m i o e1 ? ? He|s r m i o e1 ? ? He]; cbn in Hst; try done;
    [|by destruct Hst; congruence..].
  destruct p as [[x|e]| | | |]; try done; congruence.
Qed.

Lemma stuck_nf {M X A B N Y C D E} lspawn rspawn (d : split M X A B N Y C D E) : stuck d -> nf (split_step lspawn rspawn) d.
Proof. intros [Hl Hr] [d' Hs]. inversion Hs; subst; [by apply (side_stuck_waits _ _ _ _ _ _ _ _ _ Hl) in H|by apply (side_stuck_waits _ _ _ _ _ _ _ _ _ Hr) in H]. Qed.

Section Follows.
Context {M X A B N Y C D E : Type} `{!Halves M, !Halves N}.
Context (lspawn : X -> io M (result E A) * io M (result E B)) (rspawn : Y -> io N (result E C) * io N (result E D)).
Context (nl nr : nat) (Hnl : (nl < most_sends (M := M))%nat) (Hnr : (nr < most_sends (M := N))%nat).
Context (Hlspawn : forall x, sends nl (lspawn x).1 /\ receives (lspawn x).2).
Context (Hrspawn : forall y, sends nr (rspawn y).1 /\ receives (rspawn y).2).

(** The logins, and where each direction alone ends. *)
Context (p : io M (result E X)) (q : io N (result E Y)) (Hp : keeps_open p) (Hq : keeps_open q) (m0 : M) (n0 : N).

Definition split_start : split M X A B N Y C D E := Build_split (Login p) m0 (Login q) n0 channel_new channel_new.

Definition rightward : duplex M (result E A) N (result E D) :=
  Build_duplex (Build_endpoint (bind p (kont (fun x => (lspawn x).1))) m0)
    (Build_endpoint (bind q (kont (fun y => (rspawn y).2))) n0) channel_new channel_new.

Definition leftward : duplex M (result E B) N (result E C) :=
  Build_duplex (Build_endpoint (bind p (kont (fun x => (lspawn x).2))) m0)
    (Build_endpoint (bind q (kont (fun y => (rspawn y).1))) n0) channel_new channel_new.

Context (fa : duplex M (result E A) N (result E D)) (fb : duplex M (result E B) N (result E C)).
Context (Hfa : rtc step rightward fa) (Hfb : rtc step leftward fb) (Hnfa : nf step fa) (Hnfb : nf step fb).
Context (xa : A) (Hxa : prog (left fa) = Done (Ok xa)) (Hra : pending (r2l fa) = []) (Hna : fresh (state (right fa))).
Context (xb : C) (Hxb : prog (right fb) = Done (Ok xb)) (Hrb : pending (l2r fb) = []) (Hmb : fresh (state (left fb))).

Lemma split_sim d d' da db : rtc (split_step lspawn rspawn) d d' ->
  rtc step rightward da -> rtc step leftward db -> sim lspawn rspawn d da db ->
  exists da' db', rtc step rightward da' /\ rtc step leftward db' /\ sim lspawn rspawn d' da' db'.
Proof.
  intros Hd. revert da db. induction Hd as [d|d d1 d2 Hs _ IH]; intros da db Hda Hdb Hsim; [by exists da, db|].
  pose proof (step_confluent_nf _ _ _ Hda Hfa Hnfa) as Hda'. pose proof (step_confluent_nf _ _ _ Hdb Hfb Hnfb) as Hdb'.
  destruct Hs as [d l m i o Hs|d r n i o Hs].
  - destruct (sim_left_step lspawn rspawn nl Hnl Hlspawn fa fb ltac:(eauto) Hra Hmb d da db l m i o Hsim Hda' Hdb' Hs)
      as (da1 & db1 & Ha & Hb & Hsim'). apply (IH da1 db1); [by etrans|by etrans|done].
  - destruct (sim_left_step rspawn lspawn nr Hnr Hrspawn (flip_duplex fb) (flip_duplex fa) ltac:(eauto) Hrb Hna
      (flip_split d) _ _ r n i o (flip_sim _ _ _ _ _ Hsim) (flip_steps _ _ Hdb') (flip_steps _ _ Hda') Hs)
      as (db1 & da1 & Hb & Ha & Hsim'). apply unflip_steps in Ha, Hb. apply flip_sim in Hsim'.
    apply (IH (flip_duplex da1) (flip_duplex db1)); [by etrans|by etrans|exact Hsim'].
Qed.

Lemma start_sim : sim lspawn rspawn split_start rightward leftward.
Proof. split; cbn; try done; by apply grown_refl. Qed.

(** Whatever the four tasks do, they come to where the two directions alone come to: both senders
    are done, and each receiver is where it is when nothing is sent the other way. *)
Theorem split_follows d : rtc (split_step lspawn rspawn) split_start d ->
  exists m n, let d' := Build_split (Tasks (prog (left fa)) (prog (left fb))) m
                          (Tasks (prog (right fb)) (prog (right fa))) n (l2r fa) (r2l fb) in
    rtc (split_step lspawn rspawn) d d' /\ nf (split_step lspawn rspawn) d'.
Proof.
  intros Hd. destruct (split_ends lspawn rspawn d) as (d' & Hd' & Hst). pose proof Hst as [Hl Hr].
  destruct (split_sim split_start d' rightward leftward ltac:(by etrans) (rtc_refl _ _) (rtc_refl _ _) start_sim) as (da & db & Hda & Hdb & Hsim).
  pose proof (sim_left_side _ _ _ _ _ Hsim) as Hls. pose proof (sim_right_side _ _ _ _ _ Hsim) as Hrs.
  destruct (stuck_alone _ _ _ _ _ _ _ _ _ (l2r db) Hls Hl (sim_left_grown _ _ _ _ _ Hsim)) as [Hla Hlb].
  destruct (stuck_alone _ _ _ _ _ _ _ _ _ (r2l da) Hrs Hr (sim_right_grown _ _ _ _ _ Hsim)) as [Hrb' Hra'].
  rewrite (sim_to_right _ _ _ _ _ Hsim) in *. rewrite (sim_to_left _ _ _ _ _ Hsim) in *.
  assert (da = fa) as ->.
  { pose proof (step_confluent_nf _ _ _ Hda Hfa Hnfa) as Hc. by apply (rtc_nf _ _ Hc), idle_nf. }
  assert (db = fb) as ->.
  { pose proof (step_confluent_nf _ _ _ Hdb Hfb Hnfb) as Hc. by apply (rtc_nf _ _ Hc), idle_nf. }
  exists (lstate d'), (rstate d'). rewrite <- (side_done _ _ _ _ _ _ _ _ Hls Hl Hxa), <- (side_done _ _ _ _ _ _ _ _ Hrs Hr Hxb).
  rewrite <- (sim_to_right _ _ _ _ _ Hsim), <- (sim_to_left _ _ _ _ _ Hsim). destruct d'. split; [done|by apply stuck_nf].
Qed.
End Follows.

(** A task that receives, run alone, leaves the sender's half as it was. *)
Lemma run_receives_fresh {M A} `{!Halves M} (p p' : io M A) m i o m' i' o' :
  receives p -> run_io p m i o = (p', m', i', o') -> fresh m -> fresh m'.
Proof.
  revert m i o. induction p as [x|bs k IH|n k IH|k IH|X f k IH]; intros m i o Hr Hrun Hf; cbn in Hr, Hrun; try done.
  - by simplify_eq.
  - destruct (ch_read i n) as [[i1 r]|]; [by eapply IH|]. by simplify_eq.
  - destruct Hr as [Hfr Hk]. destruct (f m) as [m1 x] eqn:Hm. eapply IH; [by apply Hk|exact Hrun|].
    pose proof (received_fresh _ f m Hfr) as Hiff. rewrite Hm in Hiff. by apply Hiff.
Qed.
