(* ===== verification/Fragments.v ===== *)
(** * Frames on a stream, and fragmentation

    Models [adapter.rs] of bw-transport (a protocol frame written to and read from
    a QUIC stream) and the fragmentation of large payloads.  The session layer
    fragments twice with the same code: [secure_conn.rs] splits an encrypted frame
    over wire frames, [wire.rs] splits a message over protocol frames (and both
    files repeat the code for the split connection halves).  The loops are written
    once here, over the operation that sends or receives one frame. *)

From S2P Require Import Prelude Codec Io.

(** ** The adapter *)

Inductive AdapterError : Type :=
| AdapterWrite
| AdapterRead
| AdapterProtocol (e : ProtocolError)
| AdapterClosed.

#[global] Instance AdapterError_eq_dec : EqDecision AdapterError.
Proof. solve_decision. Defined.

(** [PacketHeader::try_from_bytes] on a header-aligned vector. *)
Definition try_from_vec (bytes : list Z) : result ProtocolError PacketHeader :=
  match try_from_bytes 0 bytes with
  | Ret r => r
  | Panic => Err BufferTooSmall
  end.

Section Adapter.
Context {M : Type}.

(** [QuicProtocolAdapter::send_frame], [QuicSendAdapter::send_frame]. *)
Definition send_frame (frame : ProtocolFrame) : io M (result AdapterError unit) :=
  let buffer := encode_frame frame in
  WriteAll buffer (fun ok => Done (if ok then Ok tt else Err AdapterWrite)).

Definition read_exact (n : nat) : io M (result AdapterError (list Z)) :=
  ReadExact n (fun r => Done match r with
                             | Full bytes => Ok bytes
                             | FinishedEarly => Err AdapterClosed
                             | ReadFailed => Err AdapterRead
                             end).

(** [QuicProtocolAdapter::recv_frame], [QuicRecvAdapter::recv_frame]. *)
Definition recv_frame : io M (result AdapterError ProtocolFrame) :=
  do? header_buf <- read_exact HEADER_SIZE as id;
  match try_from_vec header_buf with
  | Err e => Done (Err (AdapterProtocol e))
  | Ok h =>
      do? rest <- (if 0 <? payload_length h then read_exact (Z.to_nat (payload_length h))
                   else Done (Ok [])) as id;
      let buffer := header_buf ++ rest in
      Done (map_err AdapterProtocol (decode_vec buffer))
  end.

(** [close]: [let _ = self.send.finish()]. *)
Definition adapter_close : io M unit := FinishStream (Done tt).
End Adapter.

(** ** Fragmentation *)

Definition FRAGMENT_SIZE : Z := 60000.
Definition FLAG_FRAGMENT_MORE : Z := 1.
Definition MAX_REASSEMBLED_SIZE : Z := 4 * 1024 * 1024.

Definition fragment_flags (index : Z) (more : bool) : Z :=
  Z.lor (wrap 16 (Z.shiftl index 1)) (Z.b2z more).

(** The frame that carries one fragment. *)
Definition fragment_frame (ptype fl : Z) (chunk : list Z) : ProtocolFrame :=
  {| header := {| magic := PROTOCOL_MAGIC;
                  schema_version := version_to_u16 CURRENT_VERSION;
                  flags := fl;
                  packet_type := ptype;
                  payload_length := wrap 16 (zlen chunk);
                  sequence_number := sequence_number default_header;
                  session_epoch := session_epoch default_header;
                  monotonic_timestamp := monotonic_timestamp default_header |};
     payload := chunk |}.

Definition frag_index (f : ProtocolFrame) : Z := Z.shiftr (flags (header f)) 1.

Definition frag_more (f : ProtocolFrame) : bool :=
  negb (Z.land (flags (header f)) FLAG_FRAGMENT_MORE =? 0).

Section Loops.
Context {M E : Type}.
(** Sending and receiving one frame, and the two errors of reassembly. *)
Context (emit : ProtocolFrame -> io M (result E unit)).
Context (next : io M (result E ProtocolFrame)).
Context (ptype : Z) (out_of_order : E) (oversized : Z -> E).

(** The [while offset < total] loop.  Every turn moves [offset] forward, so the
    length of the data bounds the number of turns. *)
Fixpoint send_loop (fuel : nat) (bytes : list Z) (index offset : Z) : io M (result E unit) :=
  match fuel with
  | O => Done (Ok tt)
  | S fuel =>
      let total := zlen bytes in
      if offset <? total then
        let e := Z.min (offset + FRAGMENT_SIZE) total in
        let more := e <? total in
        do? _ <- emit (fragment_frame ptype (fragment_flags index more)
                         (slice bytes (Z.to_nat offset) (Z.to_nat e))) as id;
        send_loop fuel bytes (wrap 16 (index + 1)) e
      else Done (Ok tt)
  end.

(** [send_fragments] and [send_fragmented]. *)
Definition send_fragments (bytes : list Z) : io M (result E unit) :=
  if zlen bytes <=? FRAGMENT_SIZE then emit (fragment_frame ptype (fragment_flags 0 false) bytes)
  else send_loop (length bytes) bytes 0 0.

(** The [while more] loop.  An index has 15 bits and each turn expects the next
    one, so no stream keeps the loop going for more than [2 ^ 15] turns. *)
Fixpoint recv_loop (fuel : nat) (data : list Z) (expected : Z) (more : bool) :
    io M (result E (list Z)) :=
  if more then
    match fuel with
    | O => Done (Err out_of_order)
    | S fuel =>
        do? fragment <- next as id;
        if negb (frag_index fragment =? expected) then Done (Err out_of_order)
        else
          let new_len := zlen data + zlen (payload fragment) in
          if MAX_REASSEMBLED_SIZE <? new_len then Done (Err (oversized new_len))
          else recv_loop fuel (data ++ payload fragment) (expected + 1) (frag_more fragment)
    end
  else Done (Ok data).

Definition RECV_FUEL : nat := Z.to_nat (2 ^ 15).

(** [recv_fragments] and [recv_reassembled]. *)
Definition recv_fragments : io M (result E (list Z)) :=
  do? first <- next as id;
  let index := frag_index first in
  let more := frag_more first in
  if (index =? 0) && negb more then Done (Ok (payload first))
  else recv_loop RECV_FUEL (payload first) (index + 1) more.
End Loops.

(** ** Lemmas on flags *)

Lemma fragment_flags_fields index more : 0 <= index < 2 ^ 15 ->
  uint 16 (fragment_flags index more) /\
  Z.shiftr (fragment_flags index more) 1 = index /\
  negb (Z.land (fragment_flags index more) FLAG_FRAGMENT_MORE =? 0) = more.
Proof.
  intros Hi. unfold fragment_flags, FLAG_FRAGMENT_MORE.
  rewrite wrap_small by (unfold uint; rewrite Z.shiftl_mul_pow2 by lia; lia).
  rewrite lor_shiftl_add by (destruct more; unfold uint; cbn; lia). change (2 ^ 1) with 2.
  split_and!.
  - unfold uint. destruct more; cbn; lia.
  - rewrite Z.shiftr_div_pow2 by lia. destruct more; cbn; Z.div_mod_to_equations; lia.
  - assert (Z.land (index * 2 + Z.b2z more) 1 = (index * 2 + Z.b2z more) mod 2) as ->
      by (apply (Z.land_ones _ 1); lia).
    destruct more; cbn [Z.b2z].
    + replace ((index * 2 + 1) mod 2) with 1 by (Z.div_mod_to_equations; lia). done.
    + replace ((index * 2 + 0) mod 2) with 0 by (Z.div_mod_to_equations; lia). done.
Qed.

Lemma fragment_frame_ok ptype fl chunk :
  uint 16 ptype -> uint 16 fl -> is_bytes chunk -> zlen chunk <= FRAGMENT_SIZE ->
  frame_ok (fragment_frame ptype fl chunk).
Proof.
  intros Hp Hf Hb Hl. unfold FRAGMENT_SIZE in *. pose proof (zlen_nonneg chunk).
  assert (wrap 16 (zlen chunk) = zlen chunk) as Hw by (apply wrap_small; unfold uint; lia).
  split_and!; unfold fragment_frame; cbn [header payload payload_length].
  - unfold header_ok. cbn -[wrap uint byte_array version_to_u16]. rewrite Hw.
    split_and!; try done; try by_decide. unfold uint. lia.
  - done.
  - done.
Qed.

(** ** The interface between layers

    What a layer that transports frames promises to the layer above it.  [Q n fs m
    m' c]: with the sender in state [m], the receiver in state [m'] and the stream
    [c] between them, the frames [fs] have been sent and not yet received, and at
    least [n] more may be sent. *)
Class FrameLink {M N E F : Type} (emit : ProtocolFrame -> io M (result E unit))
    (next : io N (result F ProtocolFrame)) (good : ProtocolFrame -> Prop)
    (Q : nat -> list ProtocolFrame -> M -> N -> channel -> Prop) : Prop := {
  link_emit : forall n fs m m' c a f, Q (S n) fs m m' c -> good f ->
    exists m1 c1, run_io (emit f) m a c = (Done (Ok tt), m1, a, c1) /\ Q n (fs ++ [f]) m1 m' c1;
  link_next : forall n fs m m' c b f, Q n (f :: fs) m m' c ->
    exists m1 c1, run_io next m' c b = (Done (Ok f), m1, c1, b) /\ Q n fs m m1 c1;
  link_weaken : forall n fs m m' c, Q (S n) fs m m' c -> Q n fs m m' c;
}.

(** Converting the errors of a layer keeps its promise. *)
Lemma convert_link {M N E F E' F'} emit next good Q (ce : E -> E') (cf : F -> F') :
  @FrameLink M N E F emit next good Q ->
  FrameLink (fun f => do? _ <- emit f as ce; Done (Ok tt)) (do? f <- next as cf; Done (Ok f)) good Q.
Proof.
  intros [Hemit Hnext Hweak]. split; [| |done].
  - intros n fs m m' c a f HQ Hg. destruct (Hemit n fs m m' c a f HQ Hg) as (m1 & c1 & Hrun & HQ1).
    exists m1, c1. split; [|done]. unfold try. by rewrite (run_bind _ _ _ _ _ _ _ _ _ Hrun).
  - intros n fs m m' c b f HQ. destruct (Hnext n fs m m' c b f HQ) as (m1 & c1 & Hrun & HQ1).
    exists m1, c1. split; [|done]. unfold try. by rewrite (run_bind _ _ _ _ _ _ _ _ _ Hrun).
Qed.

(** ** The adapter implements it *)

(** The endpoints' own states, [m0] and [m0'], play no part. *)
Definition stream_carries {M N} (m0 : M) (m0' : N) (n : nat) (fs : list ProtocolFrame)
    (m : M) (m' : N) (c : channel) : Prop :=
  m = m0 /\ m' = m0' /\
  c = {| pending := concat (encode_frame <$> fs); fin := false; lost := false |} /\ Forall frame_ok fs.

Lemma length_encode_frame f : frame_ok f ->
  length (encode_frame f) = (HEADER_SIZE + Z.to_nat (payload_length (header f)))%nat.
Proof.
  intros ([[Hl _] _] & _ & Hp). unfold encode_frame.
  rewrite length_app, length_as_bytes, Hp by done. unfold zlen. by rewrite Nat2Z.id.
Qed.

Lemma try_from_vec_header h rest :
  header_ok h -> validate_header h = Ok tt -> try_from_vec (take HEADER_SIZE (as_bytes h ++ rest)) = Ok h.
Proof.
  intros Hok Hv. assert (length (as_bytes h) = HEADER_SIZE) as Hl by apply length_as_bytes, Hok.
  rewrite take_app_le, take_ge by lia. unfold try_from_vec, try_from_bytes.
  rewrite (proj2 (Nat.ltb_ge _ _)), slice_full, header_of_as_bytes by (done || lia). cbn. by rewrite Hv.
Qed.

Section AdapterLemmas.
Context {M : Type}.

Lemma run_read_exact (m : M) i o bytes rest :
  pending i = bytes ++ rest ->
  run_io (read_exact (length bytes)) m i o =
    (Done (Ok bytes), m, {| pending := rest; fin := fin i; lost := lost i |}, o).
Proof.
  intros Hp. cbn. unfold ch_read. rewrite Hp, decide_True by (rewrite length_app; lia).
  by rewrite drop_app_length, take_app_length.
Qed.

Lemma run_recv_frame (m : M) i o f rest :
  frame_ok f -> pending i = encode_frame f ++ rest ->
  run_io recv_frame m i o =
    (Done (Ok f), m, {| pending := rest; fin := fin i; lost := lost i |}, o).
Proof.
  intros Hok Hp. pose proof Hok as (Hh & Hv & Hpl). unfold recv_frame, try.
  assert (length (as_bytes (header f)) = HEADER_SIZE) as Hl by apply length_as_bytes, Hh.
  unfold encode_frame in Hp. rewrite <- app_assoc in Hp.
  pose proof (run_read_exact m i o _ _ Hp) as Hrun. rewrite Hl in Hrun.
  rewrite (run_bind _ _ _ _ _ _ _ _ _ Hrun).
  pose proof (try_from_vec_header (header f) [] Hh Hv) as Htry.
  rewrite app_nil_r, take_ge in Htry by lia. rewrite Htry.
  assert (run_io (if 0 <? payload_length (header f)
                  then read_exact (Z.to_nat (payload_length (header f))) else Done (Ok [])) m
            {| pending := payload f ++ rest; fin := fin i; lost := lost i |} o =
          (Done (Ok (payload f)), m, {| pending := rest; fin := fin i; lost := lost i |}, o)) as Hrun2.
  { destruct (Z.ltb_spec 0 (payload_length (header f))).
    - rewrite Hpl. unfold zlen. rewrite Nat2Z.id.
      exact (run_read_exact m {| pending := payload f ++ rest; fin := fin i; lost := lost i |}
               o (payload f) rest eq_refl).
    - rewrite (zlen_nil_inv (payload f)) by (pose proof (zlen_nonneg (payload f)); lia). done. }
  rewrite (run_bind _ _ _ _ _ _ _ _ _ Hrun2). cbn [run_io].
  change (as_bytes (header f) ++ payload f) with (encode_frame f). by rewrite decode_vec_encode.
Qed.
End AdapterLemmas.

#[export] Instance adapter_link {M N} (m0 : M) (m0' : N) :
  FrameLink send_frame recv_frame frame_ok (stream_carries m0 m0').
Proof.
  split.
  - intros n fs m m' c a f (-> & -> & -> & HF) Hok. eexists m0, _. split; [done|].
    split_and!; [done|done| |].
    + rewrite fmap_app, concat_app. cbn [fmap list_fmap concat]. by rewrite app_nil_r.
    + by rewrite Forall_app, Forall_singleton.
  - intros n fs m m' c b f (-> & -> & -> & HF). inversion_clear HF as [|? ? Hok HF'].
    eexists m0', _. split; [by apply (run_recv_frame _ _ _ f (concat (encode_frame <$> fs)) Hok)|].
    by split_and!.
  - done.
Qed.

(** ** What the loops send *)

Lemma FRAGMENT_SIZE_eq : FRAGMENT_SIZE = 60000.
Proof. done. Qed.

#[global] Opaque FRAGMENT_SIZE.

Fixpoint chunks (n : nat) (l : list Z) : list (list Z) :=
  match n with
  | O => []
  | S n => if zlen l <=? FRAGMENT_SIZE then [l]
           else take (Z.to_nat FRAGMENT_SIZE) l :: chunks n (drop (Z.to_nat FRAGMENT_SIZE) l)
  end.

Fixpoint frames_of (ptype index : Z) (cs : list (list Z)) : list ProtocolFrame :=
  match cs with
  | [] => []
  | c :: cs => fragment_frame ptype (fragment_flags index (negb (bool_decide (cs = [])))) c ::
               frames_of ptype (index + 1) cs
  end.

Definition fragments (ptype : Z) (bytes : list Z) : list ProtocolFrame :=
  frames_of ptype 0 (chunks (S (length bytes)) bytes).

Lemma zlen_drop {A} (l : list A) k : 0 <= k <= zlen l -> zlen (drop (Z.to_nat k) l) = zlen l - k.
Proof. intros Hk. unfold zlen in *. rewrite length_drop. lia. Qed.

Lemma chunks_spec n l : (length l < n)%nat ->
  concat (chunks n l) = l /\ chunks n l <> [] /\
  (zlen (chunks n l) - 1) * FRAGMENT_SIZE <= zlen l /\
  (is_bytes l -> Forall (fun c => is_bytes c /\ zlen c <= FRAGMENT_SIZE) (chunks n l)).
Proof.
  pose proof FRAGMENT_SIZE_eq as HS.
  revert l. induction n as [|n IH]; intros l Hn; [lia|]. cbn [chunks].
  destruct (Z.leb_spec (zlen l) FRAGMENT_SIZE) as [Hle|Hgt].
  - cbn [concat]. rewrite app_nil_r, zlen_singleton. split_and!; [done|done| |].
    + pose proof (zlen_nonneg l). lia.
    + intros Hb. by repeat constructor.
  - assert (length (drop (Z.to_nat FRAGMENT_SIZE) l) < n)%nat as Hd
      by (rewrite length_drop; unfold zlen in *; lia).
    destruct (IH _ Hd) as (Hc & Hne & Hlen & HF). cbn [concat]. rewrite Hc, take_drop.
    rewrite zlen_drop in Hlen by lia. rewrite zlen_cons. split_and!; [done|done|lia|].
    intros Hb. constructor; [|by apply HF, Forall_drop]. split; [by apply Forall_take|].
    unfold zlen. rewrite length_take. lia.
Qed.

Section LinkLoops.
Context {M N E F : Type}.
Context (emit : ProtocolFrame -> io M (result E unit)) (next : io N (result F ProtocolFrame)).
Context (good : ProtocolFrame -> Prop) (Q : nat -> list ProtocolFrame -> M -> N -> channel -> Prop).
Context `{!FrameLink emit next good Q}.
Context (ptype : Z) (out_of_order : F) (oversized : Z -> F).
Context (Hgood : forall fl chunk, uint 16 fl -> is_bytes chunk -> zlen chunk <= FRAGMENT_SIZE ->
                   good (fragment_frame ptype fl chunk)).

Lemma run_send_loop k fuel bytes index offset n fs m m' c a :
  let cs := chunks k (drop (Z.to_nat offset) bytes) in
  (length (drop (Z.to_nat offset) bytes) < k)%nat -> 0 <= offset < zlen bytes ->
  zlen bytes - offset <= Z.of_nat fuel -> 0 <= index -> index + zlen cs <= 2 ^ 15 ->
  is_bytes bytes -> Q (length cs + n) fs m m' c ->
  exists m1 c1, run_io (send_loop emit ptype fuel bytes index offset) m a c = (Done (Ok tt), m1, a, c1) /\
    Q n (fs ++ frames_of ptype index cs) m1 m' c1.
Proof.
  pose proof FRAGMENT_SIZE_eq as HS.
  revert fuel index offset fs m c. induction k as [|k IH];
    intros fuel index offset fs m c cs Hk Hoff Hfuel Hidx Hcount Hb HQ; [lia|].
  subst cs. cbn [chunks] in *.
  destruct fuel as [|fuel]; [lia|]. cbn [send_loop]. rewrite (proj2 (Z.ltb_lt _ _)) by lia.
  rewrite zlen_drop in * by lia.
  destruct (Z.leb_spec (zlen bytes - offset) FRAGMENT_SIZE) as [Hle|Hgt].
  - rewrite Z.min_r, Z.ltb_irrefl by lia.
    assert (slice bytes (Z.to_nat offset) (Z.to_nat (zlen bytes)) = drop (Z.to_nat offset) bytes) as ->.
    { unfold slice. apply take_ge. rewrite length_drop. unfold zlen. lia. }
    rewrite zlen_singleton in Hcount.
    destruct (link_emit n fs m m' c a
      (fragment_frame ptype (fragment_flags index false) (drop (Z.to_nat offset) bytes)))
      as (m1 & c1 & Hrun & HQ1); [done|apply Hgood|].
    { apply fragment_flags_fields. lia. } { by apply Forall_drop. } { by rewrite zlen_drop by lia. }
    exists m1, c1. unfold try. rewrite (run_bind _ _ _ _ _ _ _ _ _ Hrun).
    split; [|done]. destruct fuel as [|fuel]; [done|]. cbn [send_loop]. by rewrite Z.ltb_irrefl.
  - rewrite Z.min_l, (proj2 (Z.ltb_lt (offset + FRAGMENT_SIZE) _)) by lia.
    assert (slice bytes (Z.to_nat offset) (Z.to_nat (offset + FRAGMENT_SIZE)) =
            take (Z.to_nat FRAGMENT_SIZE) (drop (Z.to_nat offset) bytes)) as ->
      by (unfold slice; f_equal; lia).
    rewrite drop_drop in *. rewrite zlen_cons in Hcount.
    replace (Z.to_nat offset + Z.to_nat FRAGMENT_SIZE)%nat with (Z.to_nat (offset + FRAGMENT_SIZE)) in * by lia.
    pose proof (chunks_spec k (drop (Z.to_nat (offset + FRAGMENT_SIZE)) bytes)) as (_ & Hne & _ & _).
    { rewrite length_drop in *. unfold zlen in *. lia. }
    pose proof (zlen_nonneg (chunks k (drop (Z.to_nat (offset + FRAGMENT_SIZE)) bytes))).
    edestruct (link_emit (length (chunks k (drop (Z.to_nat (offset + FRAGMENT_SIZE)) bytes)) + n) fs m m' c a
      (fragment_frame ptype (fragment_flags index true)
         (take (Z.to_nat FRAGMENT_SIZE) (drop (Z.to_nat offset) bytes))))
      as (m1 & c1 & Hrun & HQ1); [done|apply Hgood|].
    { apply fragment_flags_fields. lia. } { by apply Forall_take, Forall_drop. }
    { unfold zlen. rewrite length_take. lia. }
    unfold try. rewrite (run_bind _ _ _ _ _ _ _ _ _ Hrun).
    rewrite wrap_small by (unfold uint; lia).
    destruct (IH fuel (index + 1) (offset + FRAGMENT_SIZE)
      (fs ++ [fragment_frame ptype (fragment_flags index true)
                (take (Z.to_nat FRAGMENT_SIZE) (drop (Z.to_nat offset) bytes))]) m1 c1)
      as (m2 & c2 & Hrun2 & HQ2);
      [rewrite length_drop in *; unfold zlen in *; lia|lia|lia|lia|lia|done|exact HQ1|].
    exists m2, c2. split; [done|]. cbn [frames_of].
    rewrite bool_decide_false by done. by rewrite <- app_assoc in HQ2.
Qed.

Lemma run_recv_loop cs fuel data index n fs m m' c b :
  cs <> [] -> (length cs <= fuel)%nat -> 0 <= index -> index + zlen cs <= 2 ^ 15 ->
  zlen data + zlen (concat cs) <= MAX_REASSEMBLED_SIZE ->
  Q n (frames_of ptype index cs ++ fs) m m' c ->
  exists m1 c1, run_io (recv_loop next out_of_order oversized fuel data index true) m' c b =
      (Done (Ok (data ++ concat cs)), m1, c1, b) /\ Q n fs m m1 c1.
Proof.
  revert fuel data index m' c. induction cs as [|x cs IH];
    intros fuel data index m' c Hne Hfuel Hidx Hcount Hlen HQ; [done|].
  destruct fuel as [|fuel]; [cbn in Hfuel; lia|]. cbn [recv_loop].
  cbn [frames_of app] in HQ. destruct (link_next _ _ _ _ _ b _ HQ) as (m1 & c1 & Hrun & HQ1).
  unfold try. rewrite (run_bind _ _ _ _ _ _ _ _ _ Hrun).
  rewrite zlen_cons in Hcount. pose proof (zlen_nonneg cs).
  destruct (fragment_flags_fields index (negb (bool_decide (cs = []))) ltac:(lia)) as (_ & Hi & Hm).
  unfold frag_index, frag_more, fragment_frame. cbn [header flags payload]. rewrite Hi, Hm, Z.eqb_refl.
  cbn [negb]. cbn [concat] in Hlen. rewrite zlen_app in Hlen.
  pose proof (zlen_nonneg (concat cs)). rewrite (proj2 (Z.ltb_ge _ _)) by lia.
  destruct (decide (cs = [])) as [->|Hcs].
  - rewrite bool_decide_true by done. cbn [concat]. rewrite app_nil_r.
    exists m1, c1. split; [by destruct fuel|done].
  - rewrite bool_decide_false by done. cbn [negb].
    destruct (IH fuel (data ++ x) (index + 1) m1 c1) as (m2 & c2 & Hrun2 & HQ2);
      [done|cbn in Hfuel; lia|lia|lia|rewrite zlen_app; lia|done|].
    exists m2, c2. rewrite Hrun2. cbn [concat]. by rewrite app_assoc.
Qed.

Lemma link_weaken_le n k fs m m' c : (n <= k)%nat -> Q k fs m m' c -> Q n fs m m' c.
Proof. induction 1; [done|]. intros HQ. by apply IHle, link_weaken. Qed.

(** A message of at most 4 MiB takes at most this many frames. *)
Definition MAX_FRAGMENTS : nat := 70.

Lemma fragments_count bytes :
  zlen bytes <= MAX_REASSEMBLED_SIZE ->
  (1 <= length (chunks (S (length bytes)) bytes) <= MAX_FRAGMENTS)%nat.
Proof.
  intros Hlen. destruct (chunks_spec (S (length bytes)) bytes) as (_ & Hne & Hc & _); [lia|].
  unfold MAX_REASSEMBLED_SIZE, MAX_FRAGMENTS in *. rewrite FRAGMENT_SIZE_eq in Hc.
  destruct (chunks _ _) as [|x cs]; [done|]. rewrite zlen_cons in Hc. unfold zlen in *. cbn [length]. lia.
Qed.

(** As many frames as the data has chunks are sent. *)
Lemma run_send_chunks bytes n fs m m' c a :
  let cs := chunks (S (length bytes)) bytes in
  is_bytes bytes -> zlen cs <= 2 ^ 15 -> Q (length cs + n) fs m m' c ->
  exists m1 c1, run_io (send_fragments emit ptype bytes) m a c = (Done (Ok tt), m1, a, c1) /\
    Q n (fs ++ fragments ptype bytes) m1 m' c1.
Proof.
  intros cs Hb Hcount HQ. unfold send_fragments, fragments. fold cs.
  destruct (Z.leb_spec (zlen bytes) FRAGMENT_SIZE) as [Hle|Hgt].
  - assert (cs = [bytes]) as Hcs.
    { unfold cs. cbn [chunks]. by rewrite (proj2 (Z.leb_le _ _)). }
    rewrite Hcs in *. apply link_emit; [done|]. by apply Hgood.
  - pose proof (run_send_loop (S (length bytes)) (length bytes) bytes 0 0 n fs m m' c a) as Hloop.
    cbv zeta in Hloop. change (Z.to_nat 0) with 0%nat in Hloop. rewrite drop_0 in Hloop.
    rewrite FRAGMENT_SIZE_eq in Hgt. fold cs in Hloop.
    apply Hloop; try done; unfold zlen in *; lia.
Qed.

Lemma run_send_fragments bytes n fs m m' c a :
  is_bytes bytes -> zlen bytes <= MAX_REASSEMBLED_SIZE -> Q (MAX_FRAGMENTS + n) fs m m' c ->
  exists m1 c1, run_io (send_fragments emit ptype bytes) m a c = (Done (Ok tt), m1, a, c1) /\
    Q n (fs ++ fragments ptype bytes) m1 m' c1.
Proof.
  intros Hb Hlen HQ. pose proof (fragments_count bytes Hlen) as Hcount.
  apply run_send_chunks; [done|unfold MAX_FRAGMENTS, zlen in *; lia|].
  eapply link_weaken_le; [|exact HQ]. lia.
Qed.

(** Reassembly from any index on: the first fragment's index is not checked. *)
Lemma run_recv_from cs index n fs m m' c b :
  cs <> [] -> 0 <= index -> index + zlen cs <= 2 ^ 15 ->
  zlen (concat cs) <= MAX_REASSEMBLED_SIZE -> Q n (frames_of ptype index cs ++ fs) m m' c ->
  exists m1 c1, run_io (recv_fragments next out_of_order oversized) m' c b =
      (Done (Ok (concat cs)), m1, c1, b) /\ Q n fs m m1 c1.
Proof.
  intros Hne Hidx Hcount Hlen HQ. destruct cs as [|x cs]; [done|].
  rewrite zlen_cons in Hcount. pose proof (zlen_nonneg cs). unfold recv_fragments.
  cbn [frames_of app] in HQ. destruct (link_next _ _ _ _ _ b _ HQ) as (m1 & c1 & Hrun & HQ1).
  unfold try. rewrite (run_bind _ _ _ _ _ _ _ _ _ Hrun).
  destruct (fragment_flags_fields index (negb (bool_decide (cs = []))) ltac:(lia)) as (_ & Hi & Hm).
  unfold frag_index, frag_more, fragment_frame. cbn [header flags payload]. rewrite Hi, Hm.
  destruct (decide (cs = [])) as [->|Hcs].
  - rewrite bool_decide_true by done. exists m1, c1. split; [|done].
    cbn [negb]. rewrite andb_true_r. cbn [concat]. rewrite app_nil_r. by destruct (index =? 0), RECV_FUEL.
  - rewrite bool_decide_false, andb_false_r by done. cbn [concat] in Hlen |- *. rewrite zlen_app in Hlen.
    apply run_recv_loop; try done; try lia. unfold RECV_FUEL, zlen in *. lia.
Qed.

(** More than 4 MiB: the fragments are refused at the one that exceeds the limit. *)
Lemma run_recv_oversized_loop cs fuel data index n fs m m' c b :
  (length cs <= fuel)%nat -> 0 <= index -> index + zlen cs <= 2 ^ 15 ->
  zlen data <= MAX_REASSEMBLED_SIZE < zlen data + zlen (concat cs) ->
  Q n (frames_of ptype index cs ++ fs) m m' c ->
  exists k m1 c1, run_io (recv_loop next out_of_order oversized fuel data index true) m' c b =
      (Done (Err (oversized k)), m1, c1, b).
Proof.
  revert fuel data index m' c. induction cs as [|x cs IH];
    intros fuel data index m' c Hfuel Hidx Hcount Hlen HQ; [change (zlen (concat [])) with 0 in Hlen; lia|].
  destruct fuel as [|fuel]; [cbn in Hfuel; lia|]. cbn [recv_loop].
  cbn [frames_of app] in HQ. destruct (link_next _ _ _ _ _ b _ HQ) as (m1 & c1 & Hrun & HQ1).
  unfold try. rewrite (run_bind _ _ _ _ _ _ _ _ _ Hrun).
  rewrite zlen_cons in Hcount. pose proof (zlen_nonneg cs).
  destruct (fragment_flags_fields index (negb (bool_decide (cs = []))) ltac:(lia)) as (_ & Hi & Hm).
  unfold frag_index, frag_more, fragment_frame. cbn [header flags payload]. rewrite Hi, Hm, Z.eqb_refl.
  cbn [negb concat] in Hlen |- *. rewrite zlen_app in Hlen.
  destruct (Z.ltb_spec MAX_REASSEMBLED_SIZE (zlen data + zlen x)) as [Hbig|Hfits]; [by eexists _, m1, c1|].
  destruct (decide (cs = [])) as [->|Hcs]; [change (zlen (concat [])) with 0 in Hlen; lia|].
  rewrite bool_decide_false by done. apply IH; [cbn in Hfuel; lia|lia|lia|rewrite zlen_app; lia|done].
Qed.

Lemma run_recv_oversized bytes n fs m m' c b :
  is_bytes bytes -> MAX_REASSEMBLED_SIZE < zlen bytes -> zlen (chunks (S (length bytes)) bytes) <= 2 ^ 15 ->
  Q n (fragments ptype bytes ++ fs) m m' c ->
  exists k m1 c1, run_io (recv_fragments next out_of_order oversized) m' c b =
      (Done (Err (oversized k)), m1, c1, b).
Proof.
  intros Hb Hlen Hcount HQ. destruct (chunks_spec (S (length bytes)) bytes) as (Hconc & Hne & _ & HF); [lia|].
  specialize (HF Hb). unfold fragments in HQ. revert Hconc Hne HF Hcount HQ.
  generalize (chunks (S (length bytes)) bytes) as cs. intros [|x cs] Hconc Hne HF Hcount HQ; [done|].
  pose proof (Forall_inv HF) as [_ Hx]. rewrite zlen_cons in Hcount. pose proof (zlen_nonneg cs).
  unfold recv_fragments. cbn [frames_of app] in HQ.
  destruct (link_next _ _ _ _ _ b _ HQ) as (m1 & c1 & Hrun & HQ1).
  unfold try. rewrite (run_bind _ _ _ _ _ _ _ _ _ Hrun).
  destruct (fragment_flags_fields 0 (negb (bool_decide (cs = []))) ltac:(lia)) as (_ & Hi & Hm).
  unfold frag_index, frag_more, fragment_frame. cbn [header flags payload]. rewrite Hi, Hm.
  rewrite FRAGMENT_SIZE_eq in Hx. subst bytes. cbn [concat] in Hlen. rewrite zlen_app in Hlen.
  unfold MAX_REASSEMBLED_SIZE in *.
  destruct (decide (cs = [])) as [->|Hcs]; [change (zlen (concat [])) with 0 in Hlen; lia|].
  rewrite bool_decide_false, andb_false_r by done.
  apply (run_recv_oversized_loop cs _ _ _ n fs m); [|lia|lia|unfold MAX_REASSEMBLED_SIZE; lia|done].
  unfold RECV_FUEL, zlen in *. lia.
Qed.

Lemma run_recv_fragments bytes n fs m m' c b :
  zlen bytes <= MAX_REASSEMBLED_SIZE -> Q n (fragments ptype bytes ++ fs) m m' c ->
  exists m1 c1, run_io (recv_fragments next out_of_order oversized) m' c b =
      (Done (Ok bytes), m1, c1, b) /\ Q n fs m m1 c1.
Proof.
  intros Hlen HQ. pose proof (fragments_count bytes Hlen) as Hcount.
  destruct (chunks_spec (S (length bytes)) bytes) as (Hconc & Hne & _); [lia|].
  unfold fragments in HQ. unfold MAX_FRAGMENTS in Hcount.
  destruct (run_recv_from (chunks (S (length bytes)) bytes) 0 n fs m m' c b) as (m1 & c1 & Hrun & HQ1);
    try done; [unfold zlen; lia|by rewrite Hconc|].
  rewrite Hconc in Hrun. by exists m1, c1.
Qed.
End LinkLoops.

(** ** Sequences of payloads *)

Fixpoint send_payloads {M E} (emit : ProtocolFrame -> io M (result E unit)) (ptype : Z)
    (ps : list (list Z)) : io M (result E unit) :=
  match ps with
  | [] => Done (Ok tt)
  | p :: ps => do? _ <- send_fragments emit ptype p as id; send_payloads emit ptype ps
  end.

Fixpoint recv_payloads {M E} (next : io M (result E ProtocolFrame)) (out_of_order : E)
    (oversized : Z -> E) (n : nat) : io M (result E (list (list Z))) :=
  match n with
  | O => Done (Ok [])
  | S n =>
      do? p <- recv_fragments next out_of_order oversized as id;
      do? ps <- recv_payloads next out_of_order oversized n as id;
      Done (Ok (p :: ps))
  end.

Section LinkPayloads.
Context {M N E F : Type}.
Context (emit : ProtocolFrame -> io M (result E unit)) (next : io N (result F ProtocolFrame)).
Context (good : ProtocolFrame -> Prop) (Q : nat -> list ProtocolFrame -> M -> N -> channel -> Prop).
Context `{!FrameLink emit next good Q}.
Context (ptype : Z) (out_of_order : F) (oversized : Z -> F).
Context (Hgood : forall fl chunk, uint 16 fl -> is_bytes chunk -> zlen chunk <= FRAGMENT_SIZE ->
                   good (fragment_frame ptype fl chunk)).

Lemma run_send_payloads ps n fs m m' c a :
  Forall (fun p => is_bytes p /\ zlen p <= MAX_REASSEMBLED_SIZE) ps ->
  Q (length ps * MAX_FRAGMENTS + n) fs m m' c ->
  exists m1 c1, run_io (send_payloads emit ptype ps) m a c = (Done (Ok tt), m1, a, c1) /\
    Q n (fs ++ concat (fragments ptype <$> ps)) m1 m' c1.
Proof.
  intros HF. revert fs m c. induction HF as [|p ps [Hb Hl] HF IH]; intros fs m c HQ; cbn [send_payloads].
  { exists m, c. cbn. by rewrite app_nil_r. }
  cbn [length Nat.mul] in HQ. rewrite <- Nat.add_assoc in HQ.
  destruct (run_send_fragments emit next good Q ptype Hgood p _ fs m m' c a Hb Hl HQ) as (m1 & c1 & Hrun & HQ1).
  unfold try. rewrite (run_bind _ _ _ _ _ _ _ _ _ Hrun).
  destruct (IH _ _ _ HQ1) as (m2 & c2 & Hrun2 & HQ2). exists m2, c2. split; [done|].
  cbn. by rewrite app_assoc.
Qed.

Lemma run_recv_payloads ps n m m' c b :
  Forall (fun p => is_bytes p /\ zlen p <= MAX_REASSEMBLED_SIZE) ps ->
  Q n (concat (fragments ptype <$> ps)) m m' c ->
  exists m1 c1, run_io (recv_payloads next out_of_order oversized (length ps)) m' c b =
      (Done (Ok ps), m1, c1, b) /\ Q n [] m m1 c1.
Proof.
  intros HF. revert m' c. induction HF as [|p ps [Hb Hl] HF IH]; intros m' c HQ; cbn [recv_payloads length].
  { by exists m', c. }
  destruct (run_recv_fragments emit next good Q ptype out_of_order oversized p n
    (concat (fmap (M := list) (fragments ptype) ps)) m m' c b Hl HQ) as (m1 & c1 & Hrun & HQ1).
  unfold try. rewrite (run_bind _ _ _ _ _ _ _ _ _ Hrun).
  destruct (IH _ _ HQ1) as (m2 & c2 & Hrun2 & HQ2).
  rewrite (run_bind _ _ _ _ _ _ _ _ _ Hrun2). by exists m2, c2.
Qed.
End LinkPayloads.

(** ** Properties *)

Lemma stream_empty {M N} (m : M) (m' : N) n : stream_carries m m' n [] m m' channel_new.
Proof. by split_and!. Qed.

(** Fragmentation over a stream: any sequence of payloads of at most 4 MiB,
    sent one after the other, is reassembled by the receiver into the same
    sequence, and nothing is left on the stream. *)
Theorem fragmentation_roundtrip {M N} (m : M) (m' : N) ptype ps a b
    (out_of_order : AdapterError) oversized :
  uint 16 ptype -> Forall (fun p => is_bytes p /\ zlen p <= MAX_REASSEMBLED_SIZE) ps ->
  exists c, run_io (send_payloads send_frame ptype ps) m a channel_new = (Done (Ok tt), m, a, c) /\
    run_io (recv_payloads recv_frame out_of_order oversized (length ps)) m' c b =
      (Done (Ok ps), m', channel_new, b).
Proof.
  intros Hp HF.
  pose proof (fun fl chunk => fragment_frame_ok ptype fl chunk Hp) as Hgood.
  destruct (run_send_payloads send_frame recv_frame frame_ok (stream_carries m m') ptype Hgood ps 0 [] m m'
              channel_new a HF) as (m1 & c & Hrun & HQ); [apply stream_empty|].
  destruct (run_recv_payloads send_frame recv_frame frame_ok (stream_carries m m') ptype out_of_order oversized
              ps 0 m1 m' c b HF HQ) as (m2 & c2 & Hrun2 & HQ2).
  destruct HQ as (-> & _), HQ2 as (_ & -> & -> & _). by exists c.
Qed.

(** A payload of two fragments and one of a single fragment. *)
Lemma fragmentation_roundtrip_witness :
  let ps := [replicate (Z.to_nat 60001) 7; [1; 2; 3]] in
  exists c, run_io (send_payloads send_frame 2 ps) tt channel_new channel_new =
      (Done (Ok tt), tt, channel_new, c) /\
    run_io (recv_payloads recv_frame AdapterClosed (fun _ => AdapterClosed) 2) tt c channel_new =
      (Done (Ok ps), tt, channel_new, channel_new).
Proof.
  intros ps. apply (fragmentation_roundtrip tt tt 2 ps); [by_decide|].
  unfold MAX_REASSEMBLED_SIZE. constructor; [split|].
  - apply Forall_replicate. by_decide.
  - unfold zlen. rewrite length_replicate. lia.
  - apply Forall_singleton. by_decide.
Defined.

(** Reassembly does not notice a missing beginning: a stream that starts at
    any fragment of a message but the first is accepted as a complete message made
    of the fragments from there on. *)
Theorem missing_first_fragment_accepted {M} (m : M) ptype cs index b
    (out_of_order : AdapterError) oversized :
  uint 16 ptype -> cs <> [] -> 1 <= index -> index + zlen cs <= 2 ^ 15 ->
  Forall (fun c => is_bytes c /\ zlen c <= FRAGMENT_SIZE) cs ->
  zlen (concat cs) <= MAX_REASSEMBLED_SIZE ->
  run_io (recv_fragments recv_frame out_of_order oversized) m
      {| pending := concat (encode_frame <$> frames_of ptype index cs); fin := false; lost := false |} b =
    (Done (Ok (concat cs)), m, channel_new, b).
Proof.
  intros Hp Hne Hidx Hcount HF Hlen.
  assert (Forall frame_ok (frames_of ptype index cs)) as Hok.
  { clear Hne Hlen. revert index Hidx Hcount. induction HF as [|c cs [Hb Hl] HF IH]; intros index Hidx Hcount;
      cbn [frames_of]; constructor; rewrite zlen_cons in Hcount; pose proof (zlen_nonneg cs).
    - apply fragment_frame_ok; [done|apply fragment_flags_fields; lia|done|done].
    - apply IH; lia. }
  destruct (run_recv_from send_frame recv_frame frame_ok (stream_carries tt m) ptype out_of_order oversized
    cs index 0 [] tt m {| pending := concat (encode_frame <$> frames_of ptype index cs); fin := false; lost := false |} b)
    as (m1 & c1 & Hrun & (_ & -> & -> & _)); [done|lia|done|done| |done].
  rewrite app_nil_r. by split_and!.
Qed.

Lemma missing_first_fragment_accepted_witness :
  run_io (recv_fragments recv_frame AdapterClosed (fun _ => AdapterClosed)) tt
      {| pending := concat (encode_frame <$> frames_of 2 1 [[9; 9]]); fin := false; lost := false |} channel_new =
    (Done (Ok [9; 9]), tt, channel_new, channel_new).
Proof.
  apply (missing_first_fragment_accepted tt 2 [[9; 9]] 1); try by_decide.
Defined.
