(* ===== verification/SecureConn.v ===== *)
(** * Secure connections (bw-session, [lifecycle.rs] and [secure_conn.rs])

    The lifecycle of a connection, the two sides of the key handshake, and
    encrypted frames over a stream.  Every operation is a program over the
    connection's pair of streams ([Io]) whose own state is the connection; the
    session table is part of it.  The nonce a side draws from the operating
    system's generator is an argument, [None] when the generator fails. *)

From S2P Require Import Prelude Codec Cbor Message Routing Window Symmetric Encryption Session Io Fragments.

(** ** Lifecycle *)

Inductive ConnectionState : Type := Connected | Handshaking | Active | Closing | Closed.

#[global] Instance ConnectionState_eq_dec : EqDecision ConnectionState.
Proof. solve_decision. Defined.

(** [as u8] and [impl From<u8>]. *)
Definition lifecycle_code (s : ConnectionState) : Z :=
  match s with Connected => 0 | Handshaking => 1 | Active => 2 | Closing => 3 | Closed => 4 end.

Definition lifecycle_of_code (v : Z) : ConnectionState :=
  if v =? 0 then Connected else if v =? 1 then Handshaking else if v =? 2 then Active
  else if v =? 3 then Closing else Closed.

Record Lifecycle := { lc_state : Z }.

Definition lifecycle_new : Lifecycle := {| lc_state := lifecycle_code Connected |}.

Definition get_state (l : Lifecycle) : ConnectionState := lifecycle_of_code (lc_state l).

(** [compare_exchange]. *)
Definition transition (l : Lifecycle) (expected new : ConnectionState) : Lifecycle * result unit unit :=
  if lc_state l =? lifecycle_code expected then ({| lc_state := lifecycle_code new |}, Ok tt)
  else (l, Err tt).

Definition force_state (l : Lifecycle) (new : ConnectionState) : Lifecycle :=
  {| lc_state := lifecycle_code new |}.

(** ** Connections *)

Inductive SecureConnError : Type :=
| Adapter (e : AdapterError)
| Protocol (e : ProtocolError)
| LifecycleError
| HandshakeFailed
| NonceFailed
| Crypto (e : CryptoError)
| FragmentOutOfOrder
| OversizedMessage (n : Z).

#[global] Instance SecureConnError_eq_dec : EqDecision SecureConnError.
Proof. solve_decision. Defined.

Definition PACKET_TYPE_HANDSHAKE : Z := 1.
Definition PACKET_TYPE_MESSAGE : Z := 2.

(** The connection's own state; its adapter is the pair of streams. *)
Record SecureConnection := {
  conn_id : SessionId;
  session_manager : SessionManager;
  lifecycle : Lifecycle;
}.

Definition connection_new (m : SessionManager) (id : SessionId) : SecureConnection :=
  {| conn_id := id; session_manager := m; lifecycle := lifecycle_new |}.

Definition conn_state (c : SecureConnection) : ConnectionState := get_state (lifecycle c).

Definition set_manager (c : SecureConnection) (m : SessionManager) : SecureConnection :=
  {| conn_id := conn_id c; session_manager := m; lifecycle := lifecycle c |}.

Definition set_lifecycle (c : SecureConnection) (l : Lifecycle) : SecureConnection :=
  {| conn_id := conn_id c; session_manager := session_manager c; lifecycle := l |}.

Definition conn_io (A : Type) : Type := io SecureConnection (result SecureConnError A).

(** [self.lifecycle.transition(a, b).map_err(|_| LifecycleError)]. *)
Definition conn_transition (a b : ConnectionState) : conn_io unit :=
  local (fun c => let (l, r) := transition (lifecycle c) a b in
                  (set_lifecycle c l, map_err (fun _ => LifecycleError) r)).

(** A plain frame of 16 bytes. *)
Definition handshake_frame (nonce : list Z) : ProtocolFrame :=
  {| header := {| magic := PROTOCOL_MAGIC;
                  schema_version := version_to_u16 CURRENT_VERSION;
                  flags := flags default_header;
                  packet_type := PACKET_TYPE_HANDSHAKE;
                  payload_length := 16;
                  sequence_number := sequence_number default_header;
                  session_epoch := session_epoch default_header;
                  monotonic_timestamp := monotonic_timestamp default_header |};
     payload := nonce |}.

Definition is_handshake_frame (f : ProtocolFrame) : bool :=
  negb (negb (packet_type (header f) =? PACKET_TYPE_HANDSHAKE) || negb (zlen (payload f) =? 16)).

Definition ROTATION_LIMIT : Z := 10000.

Section Connection.
Context `{Primitives} `{Cbor EncryptedFrame}.

(** [hkdf_derive(None, session_key, Some(b"opaque-session"))]. *)
Definition master_secret (session_key : list Z) : result CryptoError SymmetricKey :=
  hkdf_derive None session_key (Some (string_bytes "opaque-session")).

(** [SecureConnection::client_handshake]. *)
Definition client_handshake (session_key : list Z) (fresh : option (list Z)) : conn_io unit :=
  do? _ <- conn_transition Connected Handshaking as id;
  match fresh with
  | None => Done (Err NonceFailed)
  | Some client_nonce =>
      do? _ <- send_frame (handshake_frame client_nonce) as Adapter;
      do? resp_frame <- recv_frame as Adapter;
      if negb (is_handshake_frame resp_frame) then Done (Err HandshakeFailed)
      else
        let server_nonce := payload resp_frame in
        match master_secret session_key with
        | Err e => Done (Err (Crypto e))
        | Ok master =>
            do? _ <- local (fun c =>
              let (m, r) := create_session_from_handshake (session_manager c) (conn_id c) master
                              client_nonce server_nonce (Counter ROTATION_LIMIT) in
              (set_manager c m, r)) as Protocol;
            conn_transition Handshaking Active
        end
  end.

(** [SecureConnection::server_handshake]. *)
Definition server_handshake (session_key : list Z) (fresh : option (list Z)) : conn_io unit :=
  do? _ <- conn_transition Connected Handshaking as id;
  do? req_frame <- recv_frame as Adapter;
  if negb (is_handshake_frame req_frame) then Done (Err HandshakeFailed)
  else
    let client_nonce := payload req_frame in
    match fresh with
    | None => Done (Err NonceFailed)
    | Some server_nonce =>
        do? _ <- send_frame (handshake_frame server_nonce) as Adapter;
        match master_secret session_key with
        | Err e => Done (Err (Crypto e))
        | Ok master =>
            match derive_session_keys master client_nonce server_nonce with
            | Err e => Done (Err (Protocol e))
            | Ok client_keys =>
                let server_keys := {| sk_send_key := sk_recv_key client_keys;
                                      sk_recv_key := sk_send_key client_keys;
                                      sk_epoch := sk_epoch client_keys |} in
                let context := context_new server_keys (Counter ROTATION_LIMIT) in
                do? _ <- local (fun c =>
                  let (m, r) := create_session_with_context (session_manager c) (conn_id c) context in
                  (set_manager c m, r)) as Protocol;
                conn_transition Handshaking Active
            end
        end
    end.

(** [session_manager.with_session_context(&id, |ctx| f(ctx))??].  The closures
    passed do not abort. *)
Definition with_context {A} (f : EncryptionContext -> EncryptionContext * result ProtocolError A) :
    conn_io A :=
  local (fun c =>
    let (m, r) := with_session_context (session_manager c) (conn_id c)
                    (fun ctx => let (ctx', r) := f ctx in (ctx', Ret r)) in
    (set_manager c m,
     match r with
     | Ret (Ok (Ok a)) => Ok a
     | Ret (Ok (Err e)) | Ret (Err e) => Err (Protocol e)
     | Panic => Err (Protocol InvalidHandshake)
     end)).

(** Sending and receiving one wire frame. *)
Definition emit_wire (frame : ProtocolFrame) : conn_io unit :=
  do? _ <- send_frame frame as Adapter; Done (Ok tt).

Definition next_wire : conn_io ProtocolFrame :=
  do? frame <- recv_frame as Adapter; Done (Ok frame).

(** [SecureSender::send_secure_frame]. *)
Definition sender_send_secure_frame (frame : ProtocolFrame) : conn_io unit :=
  do? encrypted_frame <- with_context (fun ctx => context_encrypt ctx frame) as id;
  match serialize_encrypted encrypted_frame with
  | Err e => Done (Err (Protocol e))
  | Ok cbor_bytes => send_fragments emit_wire PACKET_TYPE_MESSAGE cbor_bytes
  end.

(** [SecureReceiver::recv_secure_frame]. *)
Definition receiver_recv_secure_frame : conn_io ProtocolFrame :=
  do? cbor_bytes <- recv_fragments next_wire FragmentOutOfOrder OversizedMessage as id;
  match deserialize_encrypted cbor_bytes with
  | Err e => Done (Err (Protocol e))
  | Ok encrypted_frame => with_context (fun ctx => context_decrypt ctx encrypted_frame)
  end.

(** [SecureConnection::send_secure_frame] and [recv_secure_frame]: the same behind
    the lifecycle check. *)
Definition if_active {A} (p : conn_io A) : conn_io A :=
  do state <- local (fun c => (c, conn_state c));
  if decide (state = Active) then p else Done (Err LifecycleError).

Definition send_secure_frame (frame : ProtocolFrame) : conn_io unit :=
  if_active (sender_send_secure_frame frame).

Definition recv_secure_frame : conn_io ProtocolFrame := if_active receiver_recv_secure_frame.

(** [SecureConnection::close]. *)
Definition close : io SecureConnection unit :=
  do _ <- local (fun c => (set_lifecycle c (force_state (lifecycle c) Closing), tt));
  do _ <- local (fun c => let (m, r) := close_session (session_manager c) (conn_id c) in
                          (set_manager c m, r));
  do _ <- adapter_close;
  local (fun c => (set_lifecycle c (force_state (lifecycle c) Closed), tt)).
End Connection.

(** ** The handshake *)

(** A connection ready for its handshake: nothing registered under its id. *)
Definition fresh_connection (c : SecureConnection) : Prop :=
  lifecycle c = lifecycle_new /\ poisoned (session_manager c) = false /\
  active_sessions (session_manager c) !! conn_id c = None.

(** A connection in use, whose session has the given context. *)
Definition established (c : SecureConnection) (ctx : EncryptionContext) : Prop :=
  conn_state c = Active /\ poisoned (session_manager c) = false /\
  active_sessions (session_manager c) !! conn_id c = Some (Some ctx).

Lemma handshake_frame_ok nonce : byte_array 16 nonce -> frame_ok (handshake_frame nonce).
Proof.
  intros [Hl Hb]. split_and!.
  - unfold header_ok. cbn. split_and!; try by_decide.
  - done.
  - cbn. unfold zlen. by rewrite Hl.
Qed.

Lemma is_handshake_frame_ok nonce :
  byte_array 16 nonce -> is_handshake_frame (handshake_frame nonce) = true.
Proof. intros [Hl _]. unfold is_handshake_frame. cbn. unfold zlen. by rewrite Hl. Qed.

Definition after_handshake (c : SecureConnection) (ctx : EncryptionContext) : SecureConnection :=
  {| conn_id := conn_id c;
     session_manager := {| active_sessions := <[conn_id c := Some ctx]> (active_sessions (session_manager c));
                           poisoned := false |};
     lifecycle := {| lc_state := lifecycle_code Active |} |}.

Lemma after_handshake_established c ctx : established (after_handshake c ctx) ctx.
Proof. split_and!; [done|done|]. cbn. by rewrite lookup_insert_eq. Qed.

Section Handshake.
Context `{PrimitivesLaws}.

Definition mirror (k : SessionKeys) : SessionKeys :=
  {| sk_send_key := sk_recv_key k; sk_recv_key := sk_send_key k; sk_epoch := sk_epoch k |}.

(** The keys a handshake agrees on. *)
Definition handshake_keys (session_key cn sn : list Z) (keys : SessionKeys) : Prop :=
  exists master, master_secret session_key = Ok master /\ derive_session_keys master cn sn = Ok keys.

Lemma handshake_keys_total session_key cn sn : exists keys, handshake_keys session_key cn sn keys.
Proof.
  destruct (hkdf_derive_total None session_key (Some (string_bytes "opaque-session"))) as [k Hk].
  destruct (hkdf_derive_total (Some (cn ++ sn)) k (Some (string_bytes "client-key"))) as [k1 Hk1].
  destruct (hkdf_derive_total (Some (cn ++ sn)) k (Some (string_bytes "server-key"))) as [k2 Hk2].
  eexists. exists k. split; [done|]. unfold derive_session_keys. by rewrite Hk1, Hk2.
Qed.

Definition carrying (fs : list ProtocolFrame) : channel := plain (concat (encode_frame <$> fs)).

Lemma resume_frames {M A} (p p1 p2 : io M A) m m1 m2 in1 in2 out1 out2 :
  run_io p m (carrying in1) (carrying []) = (p1, m1, carrying [], carrying out1) ->
  run_io p m (carrying (in1 ++ in2)) (carrying []) = (p2, m2, carrying [], carrying (out1 ++ out2)) ->
  run_io p1 m1 (carrying in2) (carrying []) = (p2, m2, carrying [], carrying out2).
Proof.
  unfold carrying. rewrite !fmap_app, !concat_app. apply resume_turn.
Qed.

Lemma run_recv_carrying {M} (m : M) f fs o :
  frame_ok f -> run_io recv_frame m (carrying (f :: fs)) o = (Done (Ok f), m, carrying fs, o).
Proof. intros Hf. by apply (run_recv_frame m (carrying (f :: fs)) o f (concat (encode_frame <$> fs))). Qed.

Lemma run_send_carrying {M} (m : M) f fs i :
  run_io (send_frame f) m i (carrying fs) = (Done (Ok tt), m, i, carrying (fs ++ [f])).
Proof.
  cbn. do 2 f_equal. unfold carrying. rewrite fmap_app, concat_app. cbn [fmap list_fmap concat].
  by rewrite app_nil_r.
Qed.

Lemma run_transition c a b i o :
  lc_state (lifecycle c) = lifecycle_code a ->
  run_io (conn_transition a b) c i o =
    (Done (Ok tt), set_lifecycle c {| lc_state := lifecycle_code b |}, i, o).
Proof. intros Hl. unfold conn_transition, local, transition. cbn. by rewrite Hl, Z.eqb_refl. Qed.

(** The client sends its nonce and waits. *)
Lemma run_client_first c session_key cn out :
  fresh_connection c ->
  exists n q m, run_io (client_handshake session_key (Some cn)) c (carrying []) (carrying out) =
    (ReadExact n q, m, carrying [], carrying (out ++ [handshake_frame cn])) /\
    ch_read (carrying []) n = None.
Proof.
  intros (Hl & _). destruct c as [cid m l]. cbn in Hl. subst l.
  unfold client_handshake, try at 1. erewrite run_bind; [|by apply run_transition].
  unfold try at 1. erewrite run_bind; [|apply run_send_carrying].
  unfold try at 1. eexists _, _, _. split; [eapply run_bind_wait; reflexivity|reflexivity].
Qed.

Lemma run_client c session_key cn sn keys out :
  fresh_connection c -> byte_array 16 sn -> handshake_keys session_key cn sn keys ->
  run_io (client_handshake session_key (Some cn)) c (carrying [handshake_frame sn]) (carrying out) =
    (Done (Ok tt), after_handshake c (context_new keys (Counter ROTATION_LIMIT)), carrying [],
     carrying (out ++ [handshake_frame cn])).
Proof.
  intros (Hl & Hp & Hn) Hsn (master & Hm & Hk). destruct c as [cid [ss po] l]. cbn in Hl, Hp, Hn. subst l po.
  unfold client_handshake, try at 1. erewrite run_bind; [|by apply run_transition].
  unfold try at 1. erewrite run_bind; [|apply run_send_carrying].
  unfold try at 1. erewrite run_bind; [|by apply run_recv_carrying, handshake_frame_ok].
  cbv beta iota zeta. rewrite is_handshake_frame_ok by done. cbn [negb handshake_frame payload].
  rewrite Hm. unfold try at 1, create_session_from_handshake. rewrite Hk.
  unfold create_session_with_context, register. erewrite run_bind.
  2: { cbn. rewrite Hn, bool_decide_false by (intros [? ?]; done). reflexivity. }
  reflexivity.
Qed.

Lemma run_server c session_key cn sn keys out :
  fresh_connection c -> byte_array 16 cn -> handshake_keys session_key cn sn keys ->
  run_io (server_handshake session_key (Some sn)) c (carrying [handshake_frame cn]) (carrying out) =
    (Done (Ok tt), after_handshake c (context_new (mirror keys) (Counter ROTATION_LIMIT)), carrying [],
     carrying (out ++ [handshake_frame sn])).
Proof.
  intros (Hl & Hp & Hn) Hcn (master & Hm & Hk). destruct c as [cid [ss po] l]. cbn in Hl, Hp, Hn. subst l po.
  unfold server_handshake, try at 1. erewrite run_bind; [|by apply run_transition].
  unfold try at 1. erewrite run_bind; [|by apply run_recv_carrying, handshake_frame_ok].
  cbv beta iota zeta. rewrite is_handshake_frame_ok by done. cbn [negb handshake_frame payload].
  unfold try at 1. erewrite run_bind; [|apply run_send_carrying].
  rewrite Hm, Hk. unfold try at 1.
  unfold create_session_with_context, register. erewrite run_bind.
  2: { cbn. rewrite Hn, bool_decide_false by (intros [? ?]; done). reflexivity. }
  reflexivity.
Qed.
End Handshake.

(** C4.  Handshake agreement: when the two sides of a connection run their halves
    of the handshake with the same session key, no interleaving of their steps can
    get stuck or go wrong.  From every state they can reach, both finish
    successfully, both connections are active with nothing left on the streams,
    and the two contexts hold the same two keys with the directions swapped. *)
Theorem handshake_agreement `{PrimitivesLaws} (client server : SecureConnection) session_key cn sn d :
  fresh_connection client -> fresh_connection server -> byte_array 16 cn -> byte_array 16 sn ->
  rtc step (Build_duplex (Build_endpoint (client_handshake session_key (Some cn)) client)
              (Build_endpoint (server_handshake session_key (Some sn)) server) channel_new channel_new) d ->
  exists keys client' server',
    rtc step d (Build_duplex (Build_endpoint (Done (Ok tt)) client') (Build_endpoint (Done (Ok tt)) server')
                  channel_new channel_new) /\
    established client' (context_new keys (Counter ROTATION_LIMIT)) /\
    established server' (context_new (mirror keys) (Counter ROTATION_LIMIT)) /\ sk_epoch keys = 0.
Proof.
  intros Hc Hs Hcn Hsn Hd. destruct (handshake_keys_total session_key cn sn) as [keys Hk].
  exists keys, (after_handshake client (context_new keys (Counter ROTATION_LIMIT))),
    (after_handshake server (context_new (mirror keys) (Counter ROTATION_LIMIT))).
  split_and!; [|apply after_handshake_established..|].
  2: { destruct Hk as (master & _ & Hk). revert Hk. unfold derive_session_keys.
       destruct (to_encryption_error _); [|done]. destruct (to_encryption_error _); [|done].
       by intros [= <-]. }
  eapply step_confluent_nf; [exact Hd| |apply done_nf].
  destruct (run_client_first client session_key cn [] Hc) as (n & q & m & Hfirst & _).
  pose proof (run_client client session_key cn sn keys [] Hc Hsn Hk) as Hclient.
  pose proof (run_server server session_key cn sn keys [] Hs Hcn Hk) as Hserver.
  change channel_new with (carrying []).
  etrans; [by apply (run_left _ _ _ _ _ _ _ _ _ Hfirst)|].
  etrans; [by apply (run_right _ _ _ _ _ _ _ _ _ Hserver)|].
  by apply run_left, (resume_frames _ _ _ _ _ _ [] _ _ [] Hfirst).
Qed.

Lemma handshake_agreement_witness :
  let client := connection_new manager_new [1] in
  let server := connection_new manager_new [1] in
  exists keys client' server',
    rtc step (Build_duplex (Build_endpoint (client_handshake (H := toy_primitives) [5; 6] (Some (replicate 16 3))) client)
                (Build_endpoint (server_handshake (H := toy_primitives) [5; 6] (Some (replicate 16 4))) server)
                channel_new channel_new)
      (Build_duplex (Build_endpoint (Done (Ok tt)) client') (Build_endpoint (Done (Ok tt)) server')
                  channel_new channel_new) /\
    established client' (context_new keys (Counter ROTATION_LIMIT)) /\
    established server' (context_new (mirror keys) (Counter ROTATION_LIMIT)) /\ sk_epoch keys = 0.
Proof.
  intros client server.
  apply (@handshake_agreement toy_primitives toy_laws client server [5; 6] (replicate 16 3) (replicate 16 4));
    [done|done|by_decide|by_decide|apply rtc_refl].
Defined.

(** ** Encrypted frames in flight *)

Definition encrypted_typed (f : EncryptedFrame) : Prop :=
  uint 32 (ef_epoch f) /\ byte_array 12 (nonce_bytes (ef_nonce f)) /\ is_bytes (ciphertext f) /\
  byte_array 16 (tag f).

(** Serializing an encrypted frame that carries one protocol frame succeeds and
    stays below the deserialization limit: CBOR writes a byte in at most two. *)
Class EncryptedFits `{Cbor EncryptedFrame} : Prop :=
  encrypted_fits : forall f, encrypted_typed f -> zlen (ciphertext f) <= 2 ^ 16 ->
    exists b, into_writer f = Some b /\ zlen b <= MAX_REASSEMBLED_SIZE.

Definition good_frame (f : ProtocolFrame) : Prop :=
  frame_ok f /\ is_bytes (payload f) /\ zlen (payload f) <= FRAGMENT_SIZE.

Lemma good_frame_encode f : good_frame f ->
  is_bytes (encode_frame f) /\ zlen (encode_frame f) <= 2 ^ 16.
Proof.
  intros (Hok & Hb & Hl). pose proof FRAGMENT_SIZE_eq. split.
  - apply Forall_app. split; [apply as_bytes_bytes, Hok|done].
  - unfold zlen in *. rewrite (length_encode_frame f Hok).
    destruct Hok as (_ & _ & ->). unfold HEADER_SIZE, zlen. lia.
Qed.

Section SecureLink.
Context `{PrimitivesLaws} `{!Cbor EncryptedFrame, !CborLaws EncryptedFrame, !EncryptedFits}.

Lemma nonce_new_typed e c : byte_array 12 (nonce_bytes (nonce_new e c)).
Proof.
  unfold nonce_new. split; cbn [nonce_bytes]; [by rewrite length_app, !length_be_bytes|].
  apply Forall_app. split; apply be_bytes_bytes.
Qed.

Lemma encrypt_frame_typed e frame e' f :
  is_bytes (send_key e) -> uint 32 (enc_epoch e) -> good_frame frame ->
  encrypt_frame e frame = (e', Ok f) ->
  encrypted_typed f /\ zlen (ciphertext f) <= 2 ^ 16 /\ send_key e' = send_key e.
Proof.
  intros Hk He Hg. destruct (good_frame_encode _ Hg) as [Hb Hl]. unfold encrypt_frame.
  destruct (encrypt_aead_total (send_key e) (nonce_bytes (generate_nonce e)) (encode_frame frame) [])
    as (ct & t & Henc & Hlen & _); [lia|].
  destruct (nonce_new_typed (enc_epoch e) (counter e)) as [Hnl Hnb].
  destruct (encrypt_aead_bytes _ _ _ _ _ _ Hk Hnb Hb Henc) as [Hct Ht].
  rewrite Henc. cbn. intros [= <- <-]. split_and!; [|unfold zlen in *; cbn; lia|done].
  by split_and!.
Qed.

Lemma context_encrypt_typed c frame c' f :
  is_bytes (send_key (encryptor c)) -> uint 32 (enc_epoch (encryptor c)) -> good_frame frame ->
  context_encrypt c frame = (c', Ok f) ->
  encrypted_typed f /\ zlen (ciphertext f) <= 2 ^ 16 /\ is_bytes (send_key (encryptor c')).
Proof.
  intros Hk He Hg. unfold context_encrypt.
  destruct (encrypt_frame (encryptor c) frame) as [e' [f'|]] eqn:Henc; [|done].
  destruct (encrypt_frame_typed _ _ _ _ Hk He Hg Henc) as (Hty & Hlen & Hkey).
  assert (is_bytes (send_key e')) as Hk' by (by rewrite Hkey).
  cbn [rotation_policy encryptor]. destruct (rotation_policy c) as [|limit]; [by intros [= <- <-]|].
  destruct (limit <=? counter e'); [|by intros [= <- <-]].
  destruct (rotate_keys_total {| encryptor := e'; decryptor := decryptor c; rotation_policy := Counter limit |})
    as (c1 & -> & _ & _ & Hd & _). intros [= <- <-]. split_and!; [done..|].
  by eapply hkdf_derive_bytes.
Qed.

(** [transit e d efs fs]: the encrypted frames [efs] lie between encryptor and
    decryptor, and decrypting them in order yields [fs]. *)
Inductive transit (e : FrameEncryptor) : FrameDecryptor -> list EncryptedFrame -> list ProtocolFrame -> Prop :=
| transit_nil d : synced e d -> 0 <= dec_epoch d -> transit e d [] []
| transit_cons d d' ef efs f fs :
    decrypt_frame d ef = (d', Ok f) -> transit e d' efs fs -> transit e d (ef :: efs) (f :: fs).

Lemma transit_snoc c d efs fs frame n :
  transit (encryptor c) d efs fs -> 0 < n -> encryptor_room (encryptor c) n -> good_frame frame ->
  exists c' ef, context_encrypt c frame = (c', Ok ef) /\
    transit (encryptor c') d (efs ++ [ef]) (fs ++ [frame]) /\ encryptor_room (encryptor c') (n - 1).
Proof.
  intros Ht Hn Hroom Hg. destruct (good_frame_encode _ Hg) as [_ Hl].
  induction Ht as [d Hs Hd|d d' ef efs f fs Hdec Ht IH].
  - destruct (context_step c d frame n Hs Hn Hroom Hd (proj1 Hg)) as (ef & c' & d' & Hc & Hdec & Hs' & Hd' & Hr);
      [lia|]. exists c', ef. split_and!; [done| |done].
    eapply transit_cons; [done|]. by apply transit_nil.
  - destruct IH as (c' & ef' & Hc & Ht' & Hr). exists c', ef'. split_and!; [done| |done].
    cbn. by eapply transit_cons.
Qed.

(** The stream holds the fragments of the serialized frames. *)
Definition secure_carries (n : nat) (fs : list ProtocolFrame) (m m' : SecureConnection) (c : channel) : Prop :=
  exists ctx ctx' efs cbors,
    established m ctx /\ established m' ctx' /\
    transit (encryptor ctx) (decryptor ctx') efs fs /\
    encryptor_room (encryptor ctx) (Z.of_nat n) /\ is_bytes (send_key (encryptor ctx)) /\
    Forall2 (fun ef b => into_writer ef = Some b /\ zlen b <= MAX_REASSEMBLED_SIZE) efs cbors /\
    c = carrying (concat (fragments PACKET_TYPE_MESSAGE <$> cbors)) /\
    Forall frame_ok (concat (fragments PACKET_TYPE_MESSAGE <$> cbors)).

#[local] Instance wire_link (m0 m0' : SecureConnection) :
  FrameLink emit_wire next_wire frame_ok (stream_carries m0 m0').
Proof. apply (convert_link _ _ _ _ Adapter Adapter), adapter_link. Qed.

Lemma run_with_context {A} (f : EncryptionContext -> EncryptionContext * result ProtocolError A) c ctx ctx' a i o :
  established c ctx -> f ctx = (ctx', Ok a) ->
  exists c1, run_io (with_context f) c i o = (Done (Ok a), c1, i, o) /\ established c1 ctx'.
Proof.
  intros (Ha & Hp & Hl) Hf. eexists. unfold with_context, local, with_session_context. cbn.
  rewrite Hp, Hl, Hf. split; [done|]. split_and!; [done|done|]. cbn. by rewrite lookup_insert_eq.
Qed.

Lemma fragment_good fl chunk :
  uint 16 fl -> is_bytes chunk -> zlen chunk <= FRAGMENT_SIZE ->
  frame_ok (fragment_frame PACKET_TYPE_MESSAGE fl chunk).
Proof. by apply fragment_frame_ok. Qed.

Lemma secure_emit n fs m m' c a f :
  secure_carries (S n) fs m m' c -> good_frame f ->
  exists m1 c1, run_io (sender_send_secure_frame f) m a c = (Done (Ok tt), m1, a, c1) /\
    secure_carries n (fs ++ [f]) m1 m' c1.
Proof.
  intros (ctx & ctx' & efs & cbors & Hm & Hm' & Ht & Hr & Hk & H2 & -> & HF) Hg.
  destruct (transit_snoc ctx (decryptor ctx') efs fs f (Z.of_nat (S n)) Ht ltac:(lia) Hr Hg)
    as (ctx1 & ef & Henc & Ht1 & Hr1).
  destruct (context_encrypt_typed ctx f ctx1 ef Hk ltac:(unfold encryptor_room, uint in *; lia) Hg Henc)
    as (Hty & Hlen & Hk1).
  destruct (encrypted_fits ef Hty Hlen) as (b & Hb & Hbl).
  destruct (run_with_context (fun ctx => context_encrypt ctx f) m ctx ctx1 ef a
    (carrying (concat (fragments PACKET_TYPE_MESSAGE <$> cbors))) Hm Henc) as (m1 & Hrun & Hm1).
  destruct (run_send_fragments emit_wire next_wire frame_ok (stream_carries m1 m')
    PACKET_TYPE_MESSAGE fragment_good b 0 (concat (fragments PACKET_TYPE_MESSAGE <$> cbors)) m1 m'
    (carrying (concat (fragments PACKET_TYPE_MESSAGE <$> cbors))) a) as (m2 & c2 & Hrun2 & (-> & _ & -> & HF2));
    [by eapply into_writer_bytes|done|by split_and!|].
  exists m1, (carrying (concat (fragments PACKET_TYPE_MESSAGE <$> cbors) ++ fragments PACKET_TYPE_MESSAGE b)).
  split.
  - unfold sender_send_secure_frame, try. rewrite (run_bind _ _ _ _ _ _ _ _ _ Hrun).
    unfold serialize_encrypted. rewrite Hb. cbn [ok_or]. exact Hrun2.
  - exists ctx1, ctx', (efs ++ [ef]), (cbors ++ [b]).
    replace (Z.of_nat (S n) - 1) with (Z.of_nat n) in Hr1 by lia.
    rewrite fmap_app, concat_app. cbn [fmap list_fmap concat]. rewrite app_nil_r.
    split_and!; try done. apply Forall2_app; [done|]. by constructor.
Qed.

Lemma secure_next n fs m m' c b f :
  secure_carries n (f :: fs) m m' c ->
  exists m1 c1, run_io receiver_recv_secure_frame m' c b = (Done (Ok f), m1, c1, b) /\
    secure_carries n fs m m1 c1.
Proof.
  intros (ctx & ctx' & efs & cbors & Hm & Hm' & Ht & Hr & Hk & H2 & -> & HF).
  inversion Ht as [|? d' ef efs' ? ? Hdec Ht']; subst.
  inversion H2 as [|? bs ? cbors' [Hw Hlen] H2']; subst.
  destruct (run_recv_fragments emit_wire next_wire frame_ok (stream_carries m m')
    PACKET_TYPE_MESSAGE FragmentOutOfOrder OversizedMessage bs 0
    (concat (fmap (M := list) (fragments PACKET_TYPE_MESSAGE) cbors')) m m'
    (carrying (concat (fragments PACKET_TYPE_MESSAGE <$> bs :: cbors'))) b)
    as (m1 & c1 & Hrun & (_ & -> & -> & HF1)); [done|by split_and!|].
  destruct (run_with_context (fun ctx => context_decrypt ctx ef) m' ctx'
    {| encryptor := encryptor ctx'; decryptor := d'; rotation_policy := rotation_policy ctx' |} f
    (carrying (concat (fmap (M := list) (fragments PACKET_TYPE_MESSAGE) cbors'))) b Hm')
    as (m2 & Hrun2 & Hm2); [unfold context_decrypt; by rewrite Hdec|].
  exists m2, (carrying (concat (fmap (M := list) (fragments PACKET_TYPE_MESSAGE) cbors'))). split.
  - unfold receiver_recv_secure_frame, try. rewrite (run_bind _ _ _ _ _ _ _ _ _ Hrun).
    unfold deserialize_encrypted, MAX_DESER_SIZE.
    rewrite (proj2 (Z.ltb_ge _ _)) by (unfold MAX_REASSEMBLED_SIZE in Hlen; lia).
    rewrite (from_into_writer _ _ Hw). cbn [ok_or]. exact Hrun2.
  - eexists ctx, _, efs', cbors'. by split_and!.
Qed.

#[export] Instance secure_half_link :
  FrameLink sender_send_secure_frame receiver_recv_secure_frame good_frame secure_carries.
Proof.
  split; [exact secure_emit|exact secure_next|].
  intros n fs m m' c (ctx & ctx' & efs & cbors & Hm & Hm' & Ht & Hr & Hk & H2 & Hc & HF).
  exists ctx, ctx', efs, cbors. split_and!; try done. unfold encryptor_room in *. lia.
Qed.

Lemma run_if_active {A} (p : conn_io A) c i o :
  conn_state c = Active -> run_io (if_active p) c i o = run_io p c i o.
Proof. intros Ha. unfold if_active. cbn. by rewrite Ha, decide_True. Qed.

(** The connection before it is split, behind the lifecycle check. *)
#[export] Instance secure_link :
  FrameLink send_secure_frame recv_secure_frame good_frame secure_carries.
Proof.
  destruct secure_half_link as [Hemit Hnext Hweak]. split; [| |done].
  - intros n fs m m' c a f HQ Hg. unfold send_secure_frame.
    rewrite run_if_active; [by eapply Hemit|]. by destruct HQ as (? & ? & ? & ? & [? _] & _).
  - intros n fs m m' c b f HQ. unfold recv_secure_frame.
    rewrite run_if_active; [by eapply Hnext|]. by destruct HQ as (? & ? & ? & ? & _ & [? _] & _).
Qed.
End SecureLink.
