(* ===== verification/Auth.v ===== *)
(** * Password authentication (bw-auth)

    The enrollment store ([store.rs]) and the client and server steps it is built
    from ([client.rs], [server.rs]).  The OPAQUE protocol itself is the third-party
    crate [opaque-ke], here the interface [Opaque]; every step that draws from the
    operating system's generator takes the randomness as an argument.
    [OpaqueLaws] states what the protocol documents: a login with the password that
    was enrolled succeeds on both sides with the same key, a login with another
    password is refused by the client's last step, and messages survive
    serialization.  Reading and writing the store's directory is not modelled; the
    file names it uses are. *)

From S2P Require Import Prelude.

Class Opaque := {
  setup_t : Type; file_t : Type; creg_t : Type; clogin_t : Type; slogin_t : Type;
  rreq_t : Type; rresp_t : Type; rup_t : Type; creq_t : Type; cresp_t : Type; cfin_t : Type;
  (** [ClientRegistration::start], [ServerRegistration::start], [.finish] on both. *)
  oc_reg_start : list Z -> list Z -> option (rreq_t * creg_t);
  os_reg_start : setup_t -> rreq_t -> list Z -> option rresp_t;
  oc_reg_finish : creg_t -> list Z -> list Z -> rresp_t -> option rup_t;
  os_reg_finish : rup_t -> file_t;
  (** [ClientLogin::start], [ServerLogin::start], [.finish] on both. *)
  oc_login_start : list Z -> list Z -> option (creq_t * clogin_t);
  os_login_start : list Z -> setup_t -> option file_t -> creq_t -> list Z -> option (cresp_t * slogin_t);
  oc_login_finish : clogin_t -> list Z -> list Z -> cresp_t -> option (cfin_t * list Z);
  os_login_finish : slogin_t -> cfin_t -> option (list Z);
  creq_serialize : creq_t -> list Z;
  creq_deserialize : list Z -> option creq_t;
  cresp_serialize : cresp_t -> list Z;
  cresp_deserialize : list Z -> option cresp_t;
  cfin_serialize : cfin_t -> list Z;
  cfin_deserialize : list Z -> option cfin_t;
}.

Inductive AuthError : Type := AuthProtocol | AuthSerialization.

Inductive StoreError : Type :=
| StoreAuth (e : AuthError)
| StoreIo
| MissingSetup
| NotEnrolled.

Section Auth.
Context `{Opaque}.

Record ClientLoginStart := { cls_request : creq_t; cls_state : clogin_t }.
Record ClientLoginFinish := { clf_finalization : cfin_t; clf_session_key : list Z }.
Record ServerLoginStart := { sls_response : cresp_t; sls_state : slogin_t }.
Record ClientRegistrationStart := { crs_request : rreq_t; crs_state : creg_t }.

(** [client.rs] *)
Definition client_start_registration (rand password : list Z) : result AuthError ClientRegistrationStart :=
  let? r := ok_or AuthProtocol (oc_reg_start rand password) in
  Ok {| crs_request := r.1; crs_state := r.2 |}.

Definition client_finish_registration (st : creg_t) (rand : list Z) (resp : rresp_t) (password : list Z) :
    result AuthError rup_t := ok_or AuthProtocol (oc_reg_finish st rand password resp).

Definition deserialize_credential_response (bytes : list Z) : result AuthError cresp_t :=
  ok_or AuthProtocol (cresp_deserialize bytes).

Definition client_start_login (rand password : list Z) : result AuthError ClientLoginStart :=
  let? r := ok_or AuthProtocol (oc_login_start rand password) in
  Ok {| cls_request := r.1; cls_state := r.2 |}.

Definition client_finish_login (st : clogin_t) (rand : list Z) (resp : cresp_t) (password : list Z) :
    result AuthError ClientLoginFinish :=
  let? r := ok_or AuthProtocol (oc_login_finish st rand password resp) in
  Ok {| clf_finalization := r.1; clf_session_key := r.2 |}.

(** [server.rs] *)
Definition server_start_registration (setup : setup_t) (request : rreq_t) (id : list Z) :
    result AuthError rresp_t := ok_or AuthProtocol (os_reg_start setup request id).

Definition server_finish_registration (upload : rup_t) : file_t := os_reg_finish upload.

Definition server_start_login (rand : list Z) (setup : setup_t) (password_file : file_t)
    (request : creq_t) (id : list Z) : result AuthError ServerLoginStart :=
  let? r := ok_or AuthProtocol (os_login_start rand setup (Some password_file) request id) in
  Ok {| sls_response := r.1; sls_state := r.2 |}.

Definition server_finish_login (st : slogin_t) (finalization : cfin_t) : result AuthError (list Z) :=
  ok_or AuthProtocol (os_login_finish st finalization).

(** [store.rs] *)
Record EnrollmentStore := { setup : setup_t; enrollments : gmap (list Z) file_t }.

Definition store_new (s : setup_t) : EnrollmentStore := {| setup := s; enrollments := ∅ |}.

(** [EnrollmentStore::register]: the whole registration flow in process. *)
Definition store_register (s : EnrollmentStore) (r1 r2 : list Z) (identifier password : list Z) :
    EnrollmentStore * result StoreError unit :=
  match (let? reg_start := client_start_registration r1 password in
         let? reg_resp := server_start_registration (setup s) (crs_request reg_start) identifier in
         client_finish_registration (crs_state reg_start) r2 reg_resp password) with
  | Err e => (s, Err (StoreAuth e))
  | Ok reg_upload =>
      let password_file := server_finish_registration reg_upload in
      ({| setup := setup s; enrollments := <[identifier := password_file]> (enrollments s) |}, Ok tt)
  end.

Definition store_contains (s : EnrollmentStore) (identifier : list Z) : bool :=
  bool_decide (is_Some (enrollments s !! identifier)).

Definition store_len (s : EnrollmentStore) : nat := size (enrollments s).

(** [EnrollmentStore::start_login]. *)
Definition store_start_login (s : EnrollmentStore) (rand : list Z) (identifier credential_request : list Z) :
    result StoreError (ServerLoginStart * list Z) :=
  let? request := map_err StoreAuth (ok_or AuthProtocol (creq_deserialize credential_request)) in
  let? password_file := ok_or NotEnrolled (enrollments s !! identifier) in
  let? login := map_err StoreAuth (server_start_login rand (setup s) password_file request identifier) in
  Ok (login, cresp_serialize (sls_response login)).

(** [EnrollmentStore::finish_login]. *)
Definition store_finish_login (login : ServerLoginStart) (finalization : list Z) :
    result StoreError (list Z) :=
  let? f := map_err StoreAuth (ok_or AuthProtocol (cfin_deserialize finalization)) in
  map_err StoreAuth (server_finish_login (sls_state login) f).

(** A password file made by enrolling [password] for [identifier]. *)
Definition enrolled (st : setup_t) (identifier password : list Z) (f : file_t) : Prop :=
  exists r1 r2 req c resp up,
    oc_reg_start r1 password = Some (req, c) /\ os_reg_start st req identifier = Some resp /\
    oc_reg_finish c r2 password resp = Some up /\ f = os_reg_finish up.
End Auth.

(** The largest message of a login, and the largest identifier that fits with it
    in the 16-bit length of a frame. *)
Definition MAX_LOGIN_MESSAGE : Z := 1024.
Definition MAX_IDENTIFIER : Z := 64000.

Class OpaqueLaws `{Opaque} : Prop := {
  creq_roundtrip : forall x, creq_deserialize (creq_serialize x) = Some x;
  cresp_roundtrip : forall x, cresp_deserialize (cresp_serialize x) = Some x;
  cfin_roundtrip : forall x, cfin_deserialize (cfin_serialize x) = Some x;
  creq_small : forall x, is_bytes (creq_serialize x) /\ zlen (creq_serialize x) <= MAX_LOGIN_MESSAGE;
  cresp_small : forall x, is_bytes (cresp_serialize x) /\ zlen (cresp_serialize x) <= MAX_LOGIN_MESSAGE;
  cfin_small : forall x, is_bytes (cfin_serialize x) /\ zlen (cfin_serialize x) <= MAX_LOGIN_MESSAGE;
  (** The right password. *)
  login_complete : forall st id pw f r1 r2 r3, enrolled st id pw f ->
    exists req c resp s fin key,
      oc_login_start r1 pw = Some (req, c) /\
      os_login_start r2 st (Some f) req id = Some (resp, s) /\
      oc_login_finish c r3 pw resp = Some (fin, key) /\ os_login_finish s fin = Some key;
  (** Another password. *)
  login_sound : forall st id pw pw' f r1 r2 r3 req c resp s, enrolled st id pw f -> pw' <> pw ->
    oc_login_start r1 pw' = Some (req, c) -> os_login_start r2 st (Some f) req id = Some (resp, s) ->
    oc_login_finish c r3 pw' resp = None;
}.

(** ** A concrete instance

    Not a secure protocol: the password file is the password, the credential
    response carries it, and the client compares.  It satisfies the laws and makes
    the definitions evaluate. *)

Definition small_message : Type := dsig (fun l : list Z => is_bytes l /\ zlen l <= MAX_LOGIN_MESSAGE).

Definition to_small (l : list Z) : option small_message :=
  match decide (is_bytes l /\ zlen l <= MAX_LOGIN_MESSAGE) with
  | left Hl => Some (dexist l Hl)
  | right _ => None
  end.

Lemma to_small_proj (x : small_message) : to_small (`x) = Some x.
Proof.
  unfold to_small. destruct (decide _) as [Hl|Hn]; [f_equal; by apply dsig_eq|].
  destruct Hn. exact (proj2_dsig x).
Qed.

Definition toy_opaque : Opaque := {|
  setup_t := unit; file_t := list Z; creg_t := unit; clogin_t := unit; slogin_t := list Z;
  rreq_t := list Z; rresp_t := unit; rup_t := list Z;
  creq_t := unit; cresp_t := small_message; cfin_t := unit;
  oc_reg_start _ pw := (fun _ => (pw, tt)) <$> to_small pw;
  os_reg_start _ _ _ := Some tt;
  oc_reg_finish _ _ pw _ := Some pw;
  os_reg_finish up := up;
  oc_login_start _ _ := Some (tt, tt);
  os_login_start _ _ f _ _ := f ← f; m ← to_small f; Some (m, f);
  oc_login_finish _ _ pw m := if decide (`m = pw) then Some (tt, pw) else None;
  os_login_finish key _ := Some key;
  creq_serialize _ := [];
  creq_deserialize _ := Some tt;
  cresp_serialize m := `m;
  cresp_deserialize := to_small;
  cfin_serialize _ := [];
  cfin_deserialize _ := Some tt;
|}.

Lemma to_small_Some l m : to_small l = Some m -> `m = l.
Proof. unfold to_small. destruct (decide _); [|done]. by intros [= <-]. Qed.

Lemma toy_enrolled st id pw f : @enrolled toy_opaque st id pw f -> f = pw /\ is_Some (to_small pw).
Proof.
  intros (r1 & r2 & req & c & resp & up & Hs & _ & Hf & ->). cbn in *. injection Hf as <-. split; [done|].
  destruct (to_small pw); [by eexists|done].
Qed.

Lemma toy_opaque_laws : @OpaqueLaws toy_opaque.
Proof.
  split; cbn.
  - by intros [].
  - apply to_small_proj.
  - by intros [].
  - intros _. split; [constructor|done].
  - intros m. exact (proj2_dsig m).
  - intros _. split; [constructor|done].
  - intros st id pw f r1 r2 r3 [-> [m Hm]]%toy_enrolled.
    exists tt, tt, m, pw, tt, pw. rewrite Hm. cbn. rewrite (to_small_Some _ _ Hm), decide_True by done. done.
  - intros st id pw pw' f r1 r2 r3 req c resp s [-> [m Hm]]%toy_enrolled Hne _.
    rewrite Hm. cbn. intros [= <- <-]. rewrite (to_small_Some _ _ Hm), decide_False by done. done.
Qed.

(** ** File names *)

(** [hex]: [format!("{b:02x}")] for each byte, as ASCII codes. *)
Definition hex (bytes : list Z) : list Z :=
  concat (hex_byte <$> bytes).

(** [unhex]: a malformed digit counts as zero, an odd last one is dropped. *)
Fixpoint unhex (s : list Z) : list Z :=
  match s with
  | hi :: lo :: s =>
      Z.lor (wrap 8 (Z.shiftl (default 0 (to_digit16 hi)) 4)) (default 0 (to_digit16 lo)) :: unhex s
  | _ => []
  end.

(** Reading back the file name of an identifier gives the identifier. *)
Lemma unhex_hex bytes : is_bytes bytes -> unhex (hex bytes) = bytes.
Proof.
  induction 1 as [|b bytes Hb _ IH]; [done|].
  unfold hex in *. cbn [fmap list_fmap concat app unhex hex_byte]. rewrite IH. f_equal.
  unfold is_byte, uint in Hb. change (2 ^ 8) with 256 in Hb.
  rewrite !to_digit16_hex by (Z.div_mod_to_equations; lia). cbn -[Z.div Z.modulo wrap Z.shiftl Z.lor].
  rewrite wrap_small by (unfold uint; rewrite Z.shiftl_mul_pow2 by lia; Z.div_mod_to_equations; lia).
  rewrite lor_shiftl_add by (unfold uint; Z.div_mod_to_equations; lia).
  change (2 ^ 4) with 16. Z.div_mod_to_equations. lia.
Qed.
