(* ===== verification/Wire.v ===== *)
(** * Sessions: login, handshake, messages (bw-session, [wire.rs])

    Application messages over a secure connection, split over protocol frames and
    reassembled, and the two sides of session establishment: the password login
    over plain frames followed by the key handshake. *)

From S2P Require Import Prelude Codec Cbor Message Routing Window Symmetric Encryption Session Io Fragments.
From S2P Require Import SecureConn Auth.

Definition PACKET_TYPE_AUTH : Z := 3.

Inductive WireError : Type :=
| WireAdapter (e : AdapterError)
| WireAuth (e : AuthError)
| WireStore (e : StoreError)
| WireSession (e : SecureConnError)
| WireProtocol (e : ProtocolError)
| UnexpectedFrame
| MalformedRequest
| WireClosed
| WireFragmentOutOfOrder
| WireOversizedMessage (n : Z).

(** ** Messages *)

Definition wire_io (A : Type) : Type := io SecureConnection (result WireError A).

Section Messages.
Context `{Primitives} `{!Cbor EncryptedFrame} `{!Cbor ProtocolMessage}.

Definition emit_secure (frame : ProtocolFrame) : wire_io unit :=
  do? _ <- send_secure_frame frame as WireSession; Done (Ok tt).

Definition next_secure : wire_io ProtocolFrame :=
  do? frame <- recv_secure_frame as WireSession; Done (Ok frame).

(** [MessageSession::send_message] and [recv_message]. *)
Definition send_message (m : ProtocolMessage) : wire_io unit :=
  match serialize m with
  | Err e => Done (Err (WireProtocol e))
  | Ok bytes => send_fragments emit_secure PACKET_TYPE_MESSAGE bytes
  end.

Definition recv_message : wire_io ProtocolMessage :=
  do? bytes <- recv_fragments next_secure WireFragmentOutOfOrder WireOversizedMessage as id;
  Done (map_err WireProtocol (deserialize bytes)).

Definition emit_half (frame : ProtocolFrame) : wire_io unit :=
  do? _ <- sender_send_secure_frame frame as WireSession; Done (Ok tt).

Definition next_half : wire_io ProtocolFrame :=
  do? frame <- receiver_recv_secure_frame as WireSession; Done (Ok frame).

(** [MessageSender::send_message] and [MessageReceiver::recv_message]. *)
Definition sender_send_message (m : ProtocolMessage) : wire_io unit :=
  match serialize m with
  | Err e => Done (Err (WireProtocol e))
  | Ok bytes => send_fragments emit_half PACKET_TYPE_MESSAGE bytes
  end.

Definition receiver_recv_message : wire_io ProtocolMessage :=
  do? bytes <- recv_fragments next_half WireFragmentOutOfOrder WireOversizedMessage as id;
  Done (map_err WireProtocol (deserialize bytes)).

(** Sending and receiving a list of messages. *)
Fixpoint send_messages (ms : list ProtocolMessage) : wire_io unit :=
  match ms with
  | [] => Done (Ok tt)
  | m :: ms => do? _ <- send_message m as id; send_messages ms
  end.

Fixpoint recv_messages (n : nat) : wire_io (list ProtocolMessage) :=
  match n with
  | O => Done (Ok [])
  | S n => do? m <- recv_message as id; do? ms <- recv_messages n as id; Done (Ok (m :: ms))
  end.
End Messages.

(** ** Establishment *)

(** [auth_frame]. *)
Definition auth_frame (bytes : list Z) : ProtocolFrame :=
  {| header := {| magic := PROTOCOL_MAGIC;
                  schema_version := version_to_u16 CURRENT_VERSION;
                  flags := flags default_header;
                  packet_type := PACKET_TYPE_AUTH;
                  payload_length := wrap 16 (zlen bytes);
                  sequence_number := sequence_number default_header;
                  session_epoch := session_epoch default_header;
                  monotonic_timestamp := monotonic_timestamp default_header |};
     payload := bytes |}.

(** [session_id_from_key]: the first 16 bytes of the key, zero-padded. *)
Definition session_id_from_key (key : list Z) : SessionId :=
  let n := Nat.min (length key) 16 in take n key ++ replicate (16 - n) 0.

(** The two programs start before there is a connection; their state is the node's
    session table, and the connection once it is made. *)
Record node := { node_manager : SessionManager; node_conn : option SecureConnection }.

(** Continue as the connection over the same streams.  A node whose connection has
    not been made has no such steps to take. *)
Fixpoint lift_conn {A} (p : io SecureConnection A) : io node (option A) :=
  match p with
  | Done a => Done (Some a)
  | WriteAll bytes k => WriteAll bytes (fun r => lift_conn (k r))
  | ReadExact n k => ReadExact n (fun r => lift_conn (k r))
  | FinishStream k => FinishStream (lift_conn k)
  | Local f k =>
      Local (fun nd => match node_conn nd with
                       | Some c => let (c', b) := f c in
                                   ({| node_manager := session_manager c'; node_conn := Some c' |}, Some b)
                       | None => (nd, None)
                       end)
            (fun b => match b with Some b => lift_conn (k b) | None => Done None end)
  end.

Section Establish.
Context `{Primitives} `{Opaque}.

Definition node_io (A : Type) : Type := io node (result WireError A).

(** [SecureConnection::new] around the adapter. *)
Definition make_connection (id : SessionId) : io node unit :=
  local (fun nd => ({| node_manager := node_manager nd;
                       node_conn := Some (connection_new (node_manager nd) id) |}, tt)).

Definition run_handshake (p : conn_io unit) : node_io unit :=
  do r <- lift_conn p;
  Done match r with
       | Some (Ok a) => Ok a
       | Some (Err e) => Err (WireSession e)
       | None => Err (WireSession LifecycleError)
       end.

(** The credential request: identifier length, identifier, OPAQUE message. *)
Definition request_payload (identifier request_bytes : list Z) : list Z :=
  be_bytes 2 (wrap 16 (zlen identifier)) ++ identifier ++ request_bytes.

(** [client_establish].  [r1] and [r2] are the randomness of the login steps. *)
Definition client_establish (identifier password r1 r2 : list Z) (fresh : option (list Z)) : node_io unit :=
  match client_start_login r1 password with
  | Err e => Done (Err (WireAuth e))
  | Ok login_start =>
      let request_bytes := creq_serialize (cls_request login_start) in
      do? _ <- send_frame (auth_frame (request_payload identifier request_bytes)) as WireAdapter;
      do? response_frame <- recv_frame as WireAdapter;
      if negb (packet_type (header response_frame) =? PACKET_TYPE_AUTH) then Done (Err UnexpectedFrame)
      else
        match deserialize_credential_response (payload response_frame) with
        | Err e => Done (Err (WireAuth e))
        | Ok credential_response =>
            match client_finish_login (cls_state login_start) r2 credential_response password with
            | Err e => Done (Err (WireAuth e))
            | Ok login_finish =>
                do? _ <- send_frame (auth_frame (cfin_serialize (clf_finalization login_finish))) as WireAdapter;
                let session_key := clf_session_key login_finish in
                do _ <- make_connection (session_id_from_key session_key);
                run_handshake (client_handshake session_key fresh)
            end
        end
  end.

(** The parsing of the credential request. *)
Definition parse_request (bytes : list Z) : result WireError (list Z * list Z) :=
  if zlen bytes <? 2 then Err MalformedRequest
  else
    let id_len := be_num (slice bytes 0 2) in
    if zlen bytes <? 2 + id_len then Err MalformedRequest
    else Ok (slice bytes 2 (2 + Z.to_nat id_len), drop (2 + Z.to_nat id_len) bytes).

(** [server_establish]. *)
Definition server_establish (store : EnrollmentStore) (rand : list Z) (fresh : option (list Z)) :
    node_io (list Z) :=
  do? request_frame <- recv_frame as WireAdapter;
  if negb (packet_type (header request_frame) =? PACKET_TYPE_AUTH) then Done (Err UnexpectedFrame)
  else
    match parse_request (payload request_frame) with
    | Err e => Done (Err e)
    | Ok (identifier, request_bytes) =>
        match store_start_login store rand identifier request_bytes with
        | Err e => Done (Err (WireStore e))
        | Ok (login, response_bytes) =>
            do? _ <- send_frame (auth_frame response_bytes) as WireAdapter;
            do? finalization_frame <- recv_frame as WireAdapter;
            if negb (packet_type (header finalization_frame) =? PACKET_TYPE_AUTH)
            then Done (Err UnexpectedFrame)
            else
              match store_finish_login login (payload finalization_frame) with
              | Err e => Done (Err (WireStore e))
              | Ok session_key =>
                  do _ <- make_connection (session_id_from_key session_key);
                  do? _ <- run_handshake (server_handshake session_key fresh) as id;
                  Done (Ok identifier)
              end
        end
    end.
End Establish.

(** ** Messages over an established session *)

Section MessageLink.
Context `{PrimitivesLaws} `{!Cbor EncryptedFrame, !CborLaws EncryptedFrame, !EncryptedFits}.
Context `{!Cbor ProtocolMessage, !CborLaws ProtocolMessage}.

#[export] Instance message_link : FrameLink emit_secure next_secure good_frame secure_carries.
Proof. apply (convert_link _ _ _ _ WireSession WireSession), secure_link. Qed.

#[export] Instance message_half_link : FrameLink emit_half next_half good_frame secure_carries.
Proof. apply (convert_link _ _ _ _ WireSession WireSession), secure_half_link. Qed.

(** A message that serializes to at most 4 MiB. *)
Definition sendable (m : ProtocolMessage) : Prop :=
  exists b, into_writer m = Some b /\ zlen b <= MAX_REASSEMBLED_SIZE.

(** The bytes of messages. *)
Definition serialized (ms : list ProtocolMessage) (bs : list (list Z)) : Prop :=
  Forall2 (fun m b => into_writer m = Some b /\ zlen b <= MAX_REASSEMBLED_SIZE) ms bs.

Lemma sendable_serialized ms : Forall sendable ms -> exists bs, serialized ms bs.
Proof.
  induction 1 as [|m ms [b Hb] _ [bs IH]]; [exists []; constructor|]. exists (b :: bs). by constructor.
Qed.

Lemma fragment_good_frame fl chunk :
  uint 16 fl -> is_bytes chunk -> zlen chunk <= FRAGMENT_SIZE ->
  good_frame (fragment_frame PACKET_TYPE_MESSAGE fl chunk).
Proof. intros Hf Hb Hl. split_and!; [by apply fragment_frame_ok|done|done]. Qed.

(** One message over a link, before or after the connection is split. *)
Lemma run_send_one (emit : ProtocolFrame -> wire_io unit) (next : wire_io ProtocolFrame)
    `{!FrameLink emit next good_frame secure_carries} m b n fs c c' s a :
  into_writer m = Some b -> zlen b <= MAX_REASSEMBLED_SIZE ->
  secure_carries (MAX_FRAGMENTS + n) fs c c' s ->
  exists c1 s1, run_io (match serialize m with
                        | Err e => Done (Err (WireProtocol e))
                        | Ok bytes => send_fragments emit PACKET_TYPE_MESSAGE bytes
                        end) c a s = (Done (Ok tt), c1, a, s1) /\
    secure_carries n (fs ++ fragments PACKET_TYPE_MESSAGE b) c1 c' s1.
Proof.
  intros Hw Hl HQ. unfold serialize. rewrite Hw. cbn [ok_or].
  exact (run_send_fragments emit next good_frame secure_carries PACKET_TYPE_MESSAGE
           fragment_good_frame b _ fs c c' s a (into_writer_bytes _ _ Hw) Hl HQ).
Qed.

(** A message of any size that the fragments' indices can number is sent. *)
Lemma run_send_large (emit : ProtocolFrame -> wire_io unit) (next : wire_io ProtocolFrame)
    `{!FrameLink emit next good_frame secure_carries} m b K n fs c c' s a :
  into_writer m = Some b -> (length (chunks (S (length b)) b) <= K)%nat -> Z.of_nat K <= 2 ^ 15 ->
  secure_carries (K + n) fs c c' s ->
  exists c1 s1, run_io (match serialize m with
                        | Err e => Done (Err (WireProtocol e))
                        | Ok bytes => send_fragments emit PACKET_TYPE_MESSAGE bytes
                        end) c a s = (Done (Ok tt), c1, a, s1) /\
    secure_carries n (fs ++ fragments PACKET_TYPE_MESSAGE b) c1 c' s1.
Proof.
  intros Hw Hl HK HQ. unfold serialize. rewrite Hw. cbn [ok_or].
  apply (run_send_chunks emit next good_frame secure_carries PACKET_TYPE_MESSAGE fragment_good_frame);
    [exact (into_writer_bytes _ _ Hw)|unfold zlen; lia|].
  eapply (link_weaken_le emit next good_frame secure_carries); [|exact HQ]. lia.
Qed.

(** A receiver refuses a message of more than 4 MiB. *)
Lemma run_recv_large (emit : ProtocolFrame -> wire_io unit) (next : wire_io ProtocolFrame)
    `{!FrameLink emit next good_frame secure_carries} m bs0 n fs c c' s b :
  into_writer m = Some bs0 -> MAX_REASSEMBLED_SIZE < zlen bs0 -> zlen (chunks (S (length bs0)) bs0) <= 2 ^ 15 ->
  secure_carries n (fragments PACKET_TYPE_MESSAGE bs0 ++ fs) c c' s ->
  exists k c1 s1, run_io (do? bytes <- recv_fragments next WireFragmentOutOfOrder WireOversizedMessage as id;
                        Done (@map_err _ _ ProtocolMessage WireProtocol (deserialize bytes))) c' s b =
                  (Done (Err (WireOversizedMessage k)), c1, s1, b).
Proof.
  intros Hw Hl HK HQ.
  destruct (run_recv_oversized emit next good_frame secure_carries PACKET_TYPE_MESSAGE WireFragmentOutOfOrder
    WireOversizedMessage bs0 n fs c c' s b (into_writer_bytes _ _ Hw) Hl HK HQ) as (k & c1 & s1 & Hrun).
  exists k, c1, s1. unfold try. by rewrite (run_bind _ _ _ _ _ _ _ _ _ Hrun).
Qed.

Lemma run_recv_one (emit : ProtocolFrame -> wire_io unit) (next : wire_io ProtocolFrame)
    `{!FrameLink emit next good_frame secure_carries} m bs0 n fs c c' s b :
  into_writer m = Some bs0 -> zlen bs0 <= MAX_REASSEMBLED_SIZE ->
  secure_carries n (fragments PACKET_TYPE_MESSAGE bs0 ++ fs) c c' s ->
  exists c1 s1, run_io (do? bytes <- recv_fragments next WireFragmentOutOfOrder WireOversizedMessage as id;
                        Done (map_err WireProtocol (deserialize bytes))) c' s b = (Done (Ok m), c1, s1, b) /\
    secure_carries n fs c c1 s1.
Proof.
  intros Hw Hl HQ.
  destruct (run_recv_fragments emit next good_frame secure_carries PACKET_TYPE_MESSAGE
    WireFragmentOutOfOrder WireOversizedMessage bs0 n fs c c' s b Hl HQ) as (c1 & s1 & Hrun & HQ1).
  exists c1, s1. split; [|done]. unfold try. rewrite (run_bind _ _ _ _ _ _ _ _ _ Hrun).
  unfold deserialize, Message.MAX_DESER_SIZE.
  rewrite (proj2 (Z.ltb_ge _ _)) by (unfold MAX_REASSEMBLED_SIZE in Hl; lia).
  by rewrite (from_into_writer _ _ Hw).
Qed.

Lemma run_send_messages ms bs n fs c c' s a :
  serialized ms bs -> secure_carries (length ms * MAX_FRAGMENTS + n) fs c c' s ->
  exists c1 s1, run_io (send_messages ms) c a s = (Done (Ok tt), c1, a, s1) /\
    secure_carries n (fs ++ concat (fragments PACKET_TYPE_MESSAGE <$> bs)) c1 c' s1.
Proof.
  intros H2. revert fs c s. induction H2 as [|m b ms bs [Hw Hl] H2 IH]; intros fs c s HQ; cbn [send_messages].
  { exists c, s. cbn. by rewrite app_nil_r. }
  cbn [length Nat.mul] in HQ. rewrite <- Nat.add_assoc in HQ.
  destruct (run_send_one emit_secure next_secure m b _ fs c c' s a Hw Hl HQ) as (c1 & s1 & Hrun & HQ1).
  unfold try, send_message. rewrite (run_bind _ _ _ _ _ _ _ _ _ Hrun).
  destruct (IH _ _ _ HQ1) as (c2 & s2 & Hrun2 & HQ2). exists c2, s2. split; [done|].
  cbn. by rewrite app_assoc.
Qed.

Lemma run_recv_messages ms bs n c c' s b :
  serialized ms bs -> secure_carries n (concat (fragments PACKET_TYPE_MESSAGE <$> bs)) c c' s ->
  exists c1 s1, run_io (recv_messages (length ms)) c' s b = (Done (Ok ms), c1, s1, b) /\
    secure_carries n [] c c1 s1.
Proof.
  intros H2. revert c' s. induction H2 as [|m bs0 ms bs [Hw Hl] H2 IH]; intros c' s HQ; cbn [recv_messages length].
  { by exists c', s. }
  destruct (run_recv_one emit_secure next_secure m bs0 n _ c c' s b Hw Hl HQ) as (c1 & s1 & Hrun & HQ1).
  unfold try at 1, recv_message. rewrite (run_bind _ _ _ _ _ _ _ _ _ Hrun).
  destruct (IH _ _ HQ1) as (c2 & s2 & Hrun2 & HQ2). unfold try.
  rewrite (run_bind _ _ _ _ _ _ _ _ _ Hrun2). by exists c2, s2.
Qed.

(** Two fresh connections that hold the keys of a handshake carry what follows. *)
Lemma fresh_carries (alice bob : SecureConnection) keys policy policy' n :
  established alice (context_new keys policy) -> established bob (context_new (mirror keys) policy') ->
  sk_epoch keys = 0 -> is_bytes (sk_send_key keys) -> Z.of_nat n < 2 ^ 24 ->
  secure_carries (n * MAX_FRAGMENTS + 0) [] alice bob channel_new.
Proof.
  intros Ha Hb He Hk Hlen. exists (context_new keys policy), (context_new (mirror keys) policy'), [], [].
  split_and!; try done; [|unfold encryptor_room, MAX_FRAGMENTS in *; cbn [encryptor context_new encryptor_new enc_epoch counter]; lia].
  apply transit_nil; [left|cbn; lia]. cbn. split_and!; [done|done|done|]. exists [].
  split; [apply remembers_empty|apply not_elem_of_nil].
Qed.

(** A stream that carries nothing more is empty. *)
Lemma carries_nothing n c c' s : secure_carries n [] c c' s -> s = channel_new.
Proof.
  intros (ctx & ctx' & efs & cbors & _ & _ & Ht & _ & _ & Hc & -> & _).
  inversion Ht; subst. by inversion Hc.
Qed.
End MessageLink.

(** One direction of an established session carries messages faithfully:
    between two connections that hold the keys a handshake leaves them with, any
    sequence of messages of at most 4 MiB each arrives complete, unchanged and in
    order, through fragmentation on both levels, encryption, serialization and
    every automatic key rotation, and nothing is left on the stream.  (The bound
    on the number of messages keeps the 32-bit key epoch from wrapping.) *)
Theorem session_carries_messages `{PrimitivesLaws} `{!Cbor EncryptedFrame, !CborLaws EncryptedFrame, !EncryptedFits}
    `{!Cbor ProtocolMessage, !CborLaws ProtocolMessage} (alice bob : SecureConnection) keys policy policy' ms a b :
  established alice (context_new keys policy) -> established bob (context_new (mirror keys) policy') ->
  sk_epoch keys = 0 -> is_bytes (sk_send_key keys) -> Forall sendable ms -> zlen ms < 2 ^ 24 ->
  exists alice' bob' s,
    run_io (send_messages ms) alice a channel_new = (Done (Ok tt), alice', a, s) /\
    run_io (recv_messages (length ms)) bob s b = (Done (Ok ms), bob', channel_new, b).
Proof.
  intros Ha Hb He Hk HF Hlen. destruct (sendable_serialized ms HF) as [bs H2].
  pose proof (fresh_carries alice bob keys policy policy' (length ms) Ha Hb He Hk Hlen) as HQ.
  destruct (run_send_messages ms bs 0 [] alice bob channel_new a H2 HQ) as (alice' & s & Hrun & HQ1).
  destruct (run_recv_messages ms bs 0 alice' bob s b H2 HQ1) as (bob' & s' & Hrun2 & HQ2).
  exists alice', bob', s. split; [done|]. by rewrite Hrun2, (carries_nothing _ _ _ _ HQ2).
Qed.

(** ** Instances on concrete inputs *)

#[global] Instance encrypted_typed_dec f : Decision (encrypted_typed f).
Proof. unfold encrypted_typed. apply _. Defined.

(** A flat encoding of encrypted frames that satisfies the interface. *)
Definition flat_cbor : Cbor EncryptedFrame := {|
  into_writer f :=
    if decide (encrypted_typed f)
    then Some (be_bytes 4 (ef_epoch f) ++ nonce_bytes (ef_nonce f) ++ tag f ++ ciphertext f) else None;
  from_reader b :=
    Some {| ef_epoch := be_num (slice b 0 4); ef_nonce := {| nonce_bytes := slice b 4 16 |};
            ciphertext := drop 32 b; tag := slice b 16 32 |};
|}.

Lemma flat_cbor_laws : @CborLaws EncryptedFrame flat_cbor.
Proof.
  split; unfold into_writer, from_reader, flat_cbor; intros f b; destruct (decide (encrypted_typed f)) as [Hty|]; try done; intros <-%(inj Some);
    destruct f as [ep [nb] ct t]; destruct Hty as (Hep & [Hnl Hnb] & Hct & [Htl Htb]);
    cbn [ef_epoch ef_nonce nonce_bytes ciphertext tag] in *.
  - do 2 f_equal.
    + rewrite slice_0, take_app_le, take_ge by (rewrite length_be_bytes; lia). by apply be_num_be_bytes.
    + f_equal. apply slice_app_mid; by rewrite ?Hnl, length_be_bytes.
    + rewrite app_assoc, app_assoc, drop_app_length'; [done|]. rewrite !length_app, length_be_bytes. lia.
    + rewrite app_assoc. apply slice_app_mid; rewrite length_app, length_be_bytes; lia.
  - intros Hnil%(f_equal length). rewrite length_app, length_be_bytes in Hnil. cbn in Hnil. lia.
  - repeat (apply Forall_app; split); try done. apply be_bytes_bytes.
Qed.

Lemma flat_cbor_fits : @EncryptedFits flat_cbor.
Proof.
  intros f Hty Hl. eexists. unfold into_writer, flat_cbor. rewrite decide_True by done. split; [done|].
  destruct Hty as (_ & [Hnl _] & _ & [Htl _]).
  rewrite !zlen_app. unfold MAX_REASSEMBLED_SIZE, zlen in *. rewrite length_be_bytes. lia.
Qed.

Definition sample_connection (keys : SessionKeys) : SecureConnection :=
  after_handshake (connection_new manager_new [1]) (context_new keys (Counter 2)).

Definition sample_message (n : Z) : ProtocolMessage :=
  {| message_type := Data; message_id := n; msg_flags := 0; msg_payload := [n] |}.

(** Three messages under a rotation limit of two. *)
Lemma session_carries_messages_witness :
  let ms := sample_message <$> [1; 2; 3] in
  exists alice' bob' s,
    run_io (send_messages (H := toy_primitives) (Cbor0 := flat_cbor) (Cbor1 := countable_cbor ProtocolMessage) ms)
      (sample_connection (sample_keys 7 9)) channel_new channel_new = (Done (Ok tt), alice', channel_new, s) /\
    run_io (recv_messages (H := toy_primitives) (Cbor0 := flat_cbor) (Cbor1 := countable_cbor ProtocolMessage) 3)
      (sample_connection (mirror (sample_keys 7 9))) s channel_new = (Done (Ok ms), bob', channel_new, channel_new).
Proof.
  intros ms.
  apply (@session_carries_messages toy_primitives toy_laws flat_cbor flat_cbor_laws flat_cbor_fits
           (countable_cbor ProtocolMessage) (countable_cbor_laws ProtocolMessage)
           (sample_connection (sample_keys 7 9)) (sample_connection (mirror (sample_keys 7 9)))
           (sample_keys 7 9) (Counter 2) (Counter 2) ms).
  - apply after_handshake_established.
  - apply after_handshake_established.
  - reflexivity.
  - by_decide.
  - repeat constructor; eexists; (split; [reflexivity|by_decide]).
  - by_decide.
Defined.

(** ** Establishment lemmas *)

Lemma run_lift {A} (p p' : io SecureConnection A) c c' nd i o i' o' :
  run_io p c i o = (p', c', i', o') -> node_conn nd = Some c ->
  exists nd', node_conn nd' = Some c' /\
    run_io (lift_conn p) nd i o = run_io (lift_conn p') nd' i' o'.
Proof.
  revert c nd i o. induction p as [x|bs k IH|n k IH|k IH|X f k IH]; intros c nd i o Hrun Hnd; cbn in Hrun |- *.
  - simplify_eq. by exists nd.
  - destruct (ch_write o bs). by eapply IH.
  - destruct (ch_read i n) as [[i1 r]|] eqn:Hr; [by eapply IH|]. simplify_eq. exists nd. split; [done|].
    cbn. by rewrite Hr.
  - by eapply IH.
  - rewrite Hnd. destruct (f c) as [c1 x] eqn:Hf. by eapply (IH x c1).
Qed.

(** A handshake that finishes, and one that waits. *)
Lemma run_handshake_done (p : conn_io unit) c c' nd i o i' o' :
  run_io p c i o = (Done (Ok tt), c', i', o') -> node_conn nd = Some c ->
  exists nd', node_conn nd' = Some c' /\ run_io (run_handshake p) nd i o = (Done (Ok tt), nd', i', o').
Proof.
  intros Hrun Hnd. destruct (run_lift _ _ _ _ _ _ _ _ _ Hrun Hnd) as (nd' & Hc & Hl). exists nd'.
  split; [done|]. unfold run_handshake. cbn in Hl. by rewrite (run_bind _ _ _ _ _ _ _ _ _ Hl).
Qed.

Lemma run_handshake_wait (p : conn_io unit) c c' nd i o n q i' o' :
  run_io p c i o = (ReadExact n q, c', i', o') -> ch_read i' n = None -> node_conn nd = Some c ->
  exists q' nd', run_io (run_handshake p) nd i o = (ReadExact n q', nd', i', o').
Proof.
  intros Hrun Hr Hnd. destruct (run_lift _ _ _ _ _ _ _ _ _ Hrun Hnd) as (nd' & _ & Hl).
  cbn in Hl. rewrite Hr in Hl. eexists _, nd'. unfold run_handshake. eapply run_bind_wait. exact Hl.
Qed.

Lemma auth_frame_ok bytes : is_bytes bytes -> zlen bytes < 2 ^ 16 -> frame_ok (auth_frame bytes).
Proof.
  intros Hb Hl. pose proof (zlen_nonneg bytes).
  assert (wrap 16 (zlen bytes) = zlen bytes) as Hw by (apply wrap_small; unfold uint; lia).
  split_and!; unfold auth_frame; cbn [header payload payload_length]; [|done|done].
  unfold header_ok. cbn -[wrap uint byte_array version_to_u16]. rewrite Hw.
  split_and!; try by_decide. unfold uint. lia.
Qed.

(** The parser takes the request payload apart. *)
Lemma parse_request_payload identifier request :
  zlen identifier <= MAX_IDENTIFIER ->
  parse_request (request_payload identifier request) = Ok (identifier, request).
Proof.
  unfold MAX_IDENTIFIER. intros Hl. pose proof (zlen_nonneg identifier). pose proof (zlen_nonneg request).
  unfold parse_request, request_payload.
  rewrite wrap_small by (unfold uint; lia).
  assert (zlen (be_bytes 2 (zlen identifier) ++ identifier ++ request) = 2 + zlen identifier + zlen request) as Ht
    by (rewrite !zlen_app; unfold zlen; rewrite length_be_bytes; lia).
  rewrite Ht, (proj2 (Z.ltb_ge _ _)) by lia.
  rewrite slice_0, take_app_le, take_ge, be_num_be_bytes by
    (rewrite ?length_be_bytes; first [lia | unfold uint; cbn; lia]).
  rewrite (proj2 (Z.ltb_ge _ _)) by lia. do 2 f_equal.
  - apply slice_app_mid; rewrite length_be_bytes; unfold zlen; lia.
  - rewrite app_assoc, drop_app_length'; [done|]. rewrite length_app, length_be_bytes. unfold zlen. lia.
Qed.

Section EstablishLemmas.
Context `{PrimitivesLaws} `{OpaqueLaws}.
Context (st : EnrollmentStore) (id pw : list Z) (file : file_t).
Context (r1 r2 r3 : list Z).
Context (Hid : is_bytes id /\ zlen id <= MAX_IDENTIFIER).
Context (Hfile : enrollments st !! id = Some file).

Lemma request_frame_ok req : frame_ok (auth_frame (request_payload id (creq_serialize req))).
Proof.
  destruct Hid as [Hb Hl]. destruct (creq_small req) as [Hrb Hrl]. unfold MAX_IDENTIFIER, MAX_LOGIN_MESSAGE in *.
  apply auth_frame_ok.
  - apply Forall_app. split; [apply be_bytes_bytes|]. by apply Forall_app.
  - unfold request_payload. rewrite !zlen_app. unfold zlen in *. rewrite length_be_bytes. lia.
Qed.

Lemma response_frame_ok resp : frame_ok (auth_frame (cresp_serialize resp)).
Proof. destruct (cresp_small resp). unfold MAX_LOGIN_MESSAGE in *. apply auth_frame_ok; [done|lia]. Qed.

Lemma finalization_frame_ok fin : frame_ok (auth_frame (cfin_serialize fin)).
Proof. destruct (cfin_small fin). unfold MAX_LOGIN_MESSAGE in *. apply auth_frame_ok; [done|lia]. Qed.

(** The client up to the credential response. *)
Lemma run_client_request req c fresh nd :
  oc_login_start r1 pw = Some (req, c) ->
  exists n q, run_io (client_establish id pw r1 r3 fresh) nd (carrying []) (carrying []) =
    (ReadExact n q, nd, carrying [], carrying [auth_frame (request_payload id (creq_serialize req))]).
Proof.
  intros Hs. unfold client_establish, client_start_login. rewrite Hs. cbn [ok_or fst snd cls_request].
  unfold try at 1. erewrite run_bind; [|apply run_send_carrying].
  unfold try at 1. eexists _, _. eapply run_bind_wait. reflexivity.
Qed.

(** The server up to the finalization. *)
Lemma run_server_request req resp s fresh nd :
  os_login_start r2 (setup st) (Some file) req id = Some (resp, s) ->
  exists n q, run_io (server_establish st r2 fresh) nd
      (carrying [auth_frame (request_payload id (creq_serialize req))]) (carrying []) =
    (ReadExact n q, nd, carrying [], carrying [auth_frame (cresp_serialize resp)]).
Proof.
  intros Hs. unfold server_establish.
  unfold try at 1. erewrite run_bind; [|apply run_recv_carrying, request_frame_ok].
  cbv beta iota. cbn [auth_frame header packet_type payload]. rewrite Z.eqb_refl. cbn [negb].
  rewrite parse_request_payload by apply Hid. cbv iota.
  unfold store_start_login. rewrite creq_roundtrip. cbn [ok_or map_err]. rewrite Hfile. cbn [ok_or].
  unfold server_start_login. rewrite Hs. cbn [ok_or map_err fst snd sls_response]. cbv iota.
  unfold try at 1. erewrite run_bind; [|apply run_send_carrying].
  unfold try at 1. eexists _, _. eapply run_bind_wait. reflexivity.
Qed.

(** The client's programs from the credential response on. *)
Lemma run_client_login req c resp fin key cn nd i out :
  oc_login_start r1 pw = Some (req, c) -> oc_login_finish c r3 pw resp = Some (fin, key) ->
  exists nd1, node_conn nd1 = Some (connection_new (node_manager nd) (session_id_from_key key)) /\
    run_io (client_establish id pw r1 r3 cn) nd (carrying (auth_frame (cresp_serialize resp) :: i)) (carrying out) =
    run_io (run_handshake (client_handshake key cn)) nd1 (carrying i)
      (carrying (out ++ [auth_frame (request_payload id (creq_serialize req)); auth_frame (cfin_serialize fin)])).
Proof.
  intros Hs Hfin. eexists. split; [|].
  2: { unfold client_establish, client_start_login. rewrite Hs. cbn [ok_or fst snd cls_request cls_state].
       unfold try at 1. erewrite run_bind; [|apply run_send_carrying].
       unfold try at 1. erewrite run_bind; [|apply run_recv_carrying, response_frame_ok].
       cbv beta iota. cbn [auth_frame header packet_type payload]. rewrite Z.eqb_refl. cbn [negb].
       unfold deserialize_credential_response. rewrite cresp_roundtrip. cbn [ok_or].
       unfold client_finish_login. rewrite Hfin. cbn [ok_or fst snd clf_finalization clf_session_key].
       unfold try at 1. erewrite run_bind; [|apply run_send_carrying].
       rewrite <- app_assoc. erewrite run_bind; [|reflexivity]. reflexivity. }
  done.
Qed.

Lemma run_server_login req resp s fin key sn nd i out :
  os_login_start r2 (setup st) (Some file) req id = Some (resp, s) -> os_login_finish s fin = Some key ->
  exists nd1, node_conn nd1 = Some (connection_new (node_manager nd) (session_id_from_key key)) /\
    run_io (server_establish st r2 sn) nd
      (carrying (auth_frame (request_payload id (creq_serialize req)) :: auth_frame (cfin_serialize fin) :: i))
      (carrying out) =
    run_io (do? _ <- run_handshake (server_handshake key sn) as Datatypes.id; Done (Ok id)) nd1 (carrying i)
      (carrying (out ++ [auth_frame (cresp_serialize resp)])).
Proof.
  intros Hs Hfin. eexists. split; [|].
  2: { unfold server_establish.
       unfold try at 1. erewrite run_bind; [|apply run_recv_carrying, request_frame_ok].
       cbv beta iota. cbn [auth_frame header packet_type payload]. rewrite Z.eqb_refl. cbn [negb].
       rewrite parse_request_payload by apply Hid. cbv iota.
       unfold store_start_login. rewrite creq_roundtrip. cbn [ok_or map_err]. rewrite Hfile. cbn [ok_or].
       unfold server_start_login. rewrite Hs. cbn [ok_or map_err fst snd sls_response]. cbv iota.
       unfold try at 1. erewrite run_bind; [|apply run_send_carrying].
       unfold try at 1. erewrite run_bind; [|apply run_recv_carrying, finalization_frame_ok].
       cbv beta iota. cbn [auth_frame header packet_type payload]. rewrite Z.eqb_refl. cbn [negb].
       unfold store_finish_login. rewrite cfin_roundtrip. cbn [ok_or map_err].
       unfold server_finish_login. cbn [sls_state]. rewrite Hfin. cbn [ok_or map_err].
       erewrite run_bind; [|reflexivity]. reflexivity. }
  done.
Qed.
End EstablishLemmas.

(** A node with no session under the given id. *)
Definition node_ready (nd : node) (sid : SessionId) : Prop :=
  poisoned (node_manager nd) = false /\ active_sessions (node_manager nd) !! sid = None.

Lemma fresh_connection_new nd sid :
  node_ready nd sid -> fresh_connection (connection_new (node_manager nd) sid).
Proof. intros [Hp Hn]. by split_and!. Qed.

(** The key both sides of a login end up with. *)
Definition login_key `{Opaque} (st : setup_t) (id pw : list Z) (file : file_t) (r1 r2 r3 key : list Z) : Prop :=
  exists req c resp s fin,
    oc_login_start r1 pw = Some (req, c) /\ os_login_start r2 st (Some file) req id = Some (resp, s) /\
    oc_login_finish c r3 pw resp = Some (fin, key) /\ os_login_finish s fin = Some key.

(** The interleaving in which each side runs until it waits. *)
Lemma login_run `{PrimitivesLaws} `{OpaqueLaws} (client server : node) st id pw file r1 r2 r3 cn sn key :
  is_bytes id /\ zlen id <= MAX_IDENTIFIER -> enrollments st !! id = Some file ->
  login_key (setup st) id pw file r1 r2 r3 key ->
  node_ready client (session_id_from_key key) -> node_ready server (session_id_from_key key) ->
  byte_array 16 cn -> byte_array 16 sn ->
  exists keys client' server' cc sc,
    rtc step (Build_duplex (Build_endpoint (client_establish id pw r1 r3 (Some cn)) client)
                (Build_endpoint (server_establish st r2 (Some sn)) server) channel_new channel_new)
      (Build_duplex (Build_endpoint (Done (Ok tt)) client') (Build_endpoint (Done (Ok id)) server')
         channel_new channel_new) /\
    node_conn client' = Some cc /\ node_conn server' = Some sc /\
    conn_id cc = session_id_from_key key /\ conn_id sc = session_id_from_key key /\
    established cc (context_new keys (Counter ROTATION_LIMIT)) /\
    established sc (context_new (mirror keys) (Counter ROTATION_LIMIT)) /\
    handshake_keys key cn sn keys.
Proof.
  intros Hid Hfile (req & c & resp & s & fin & Hl1 & Hl2 & Hl3 & Hl4) Hc Hs Hcn Hsn.
  destruct (handshake_keys_total key cn sn) as [keys Hk].
  apply fresh_connection_new in Hc, Hs.
  (* the five turns *)
  destruct (run_client_request id pw r1 r3 req c (Some cn) client Hl1) as (n0 & q0 & HC0).
  destruct (run_server_request st id file r2 Hid Hfile req resp s (Some sn) server Hl2) as (n1 & q1 & HS1).
  destruct (run_client_login id pw r1 r3 req c resp fin key (Some cn) client [] [] Hl1 Hl3) as (nd2 & Hn2 & HC2).
  destruct (run_client_first _ key cn ([] ++ [auth_frame (request_payload id (creq_serialize req));
    auth_frame (cfin_serialize fin)]) Hc) as (n2 & q2 & m2 & HC2' & Hr2).
  destruct (run_handshake_wait _ _ _ _ _ _ _ _ _ _ HC2' Hr2 Hn2) as (q2' & nd2' & HC2'').
  rewrite HC2'' in HC2.
  destruct (run_server_login st id file r2 Hid Hfile req resp s fin key (Some sn) server [handshake_frame cn] [] Hl2 Hl4)
    as (nd3 & Hn3 & HS3).
  pose proof (run_server _ key cn sn keys ([] ++ [auth_frame (cresp_serialize resp)]) Hs Hcn Hk) as HS3'.
  destruct (run_handshake_done _ _ _ _ _ _ _ _ HS3' Hn3) as (nd3' & Hn3' & HS3'').
  unfold try in HS3. rewrite (run_bind _ _ _ _ _ _ _ _ _ HS3'') in HS3. cbn [run_io] in HS3.
  destruct (run_client_login id pw r1 r3 req c resp fin key (Some cn) client [handshake_frame sn] [] Hl1 Hl3)
    as (nd4 & Hn4 & HC4).
  pose proof (run_client _ key cn sn keys ([] ++ [auth_frame (request_payload id (creq_serialize req));
    auth_frame (cfin_serialize fin)]) Hc Hsn Hk) as HC4'.
  destruct (run_handshake_done _ _ _ _ _ _ _ _ HC4' Hn4) as (nd4' & Hn4' & HC4'').
  rewrite HC4'' in HC4.
  eexists keys, nd4', nd3', _, _. split_and!; [|exact Hn4'|exact Hn3'|done|done|apply after_handshake_established..|exact Hk].
  change channel_new with (carrying []).
  etrans; [apply (run_left _ _ _ _ _ _ _ _ _ HC0)|].
  etrans; [apply (run_right _ _ _ _ _ _ _ _ _ HS1)|].
  etrans; [apply run_left, (resume_frames _ _ _ _ _ _ [] _ [_] [_; _] HC0 HC2)|].
  etrans; [apply run_right, (resume_frames _ _ _ _ _ _ [_] [_; _] [_] [_] HS1 HS3)|].
  apply run_left, (resume_frames _ _ _ _ _ _ [_] [_] [_; _; _] [] HC2 HC4).
Qed.

(** C2.  Session establishment: when a client logs in with the password that was
    enrolled for its identifier, no interleaving of client and server can get stuck
    or go wrong.  From every state they can reach, both finish successfully, the
    server reports the client's identifier, both hold an active connection under
    the same session id with mirrored keys, and nothing is left on the streams. *)
Theorem login_establishes_session `{PrimitivesLaws} `{OpaqueLaws} (client server : node) st id pw file
    r1 r2 r3 cn sn key d :
  is_bytes id /\ zlen id <= MAX_IDENTIFIER -> enrollments st !! id = Some file ->
  login_key (setup st) id pw file r1 r2 r3 key ->
  node_ready client (session_id_from_key key) -> node_ready server (session_id_from_key key) ->
  byte_array 16 cn -> byte_array 16 sn ->
  rtc step (Build_duplex (Build_endpoint (client_establish id pw r1 r3 (Some cn)) client)
              (Build_endpoint (server_establish st r2 (Some sn)) server) channel_new channel_new) d ->
  exists keys client' server' cc sc,
    rtc step d (Build_duplex (Build_endpoint (Done (Ok tt)) client') (Build_endpoint (Done (Ok id)) server')
                  channel_new channel_new) /\
    node_conn client' = Some cc /\ node_conn server' = Some sc /\
    conn_id cc = session_id_from_key key /\ conn_id sc = session_id_from_key key /\
    established cc (context_new keys (Counter ROTATION_LIMIT)) /\
    established sc (context_new (mirror keys) (Counter ROTATION_LIMIT)).
Proof.
  intros Hid Hfile Hkey Hc Hs Hcn Hsn Hd.
  destruct (login_run client server st id pw file r1 r2 r3 cn sn key Hid Hfile Hkey Hc Hs Hcn Hsn)
    as (keys & client' & server' & cc & sc & Hrun & ? & ? & ? & ? & ? & ? & _).
  exists keys, client', server', cc, sc. split_and!; try done.
  eapply step_confluent_nf; [exact Hd|exact Hrun|apply done_nf].
Qed.

(** C3.  A wrong password: no interleaving leads to a session.  From every state
    they can reach, client and server come to a halt with the client reporting an
    authentication error, the server still waiting for a finalization, and both
    session tables and connections as they were at the start. *)
Theorem wrong_password_refused `{PrimitivesLaws} `{OpaqueLaws} (client server : node) st id pw pw' file
    r1 r2 r3 cn sn req c resp s d :
  is_bytes id /\ zlen id <= MAX_IDENTIFIER -> enrollments st !! id = Some file ->
  enrolled (setup st) id pw file -> pw' <> pw ->
  oc_login_start r1 pw' = Some (req, c) -> os_login_start r2 (setup st) (Some file) req id = Some (resp, s) ->
  rtc step (Build_duplex (Build_endpoint (client_establish id pw' r1 r3 cn) client)
              (Build_endpoint (server_establish st r2 sn) server) channel_new channel_new) d ->
  exists n q,
    let halted := Build_duplex (Build_endpoint (Done (Err (WireAuth AuthProtocol))) client)
                    (Build_endpoint (ReadExact n q) server) channel_new channel_new in
    rtc step d halted /\ nf step halted.
Proof.
  intros Hid Hfile Hen Hne Hl1 Hl2 Hd.
  pose proof (login_sound _ _ _ _ _ _ _ r3 _ _ _ _ Hen Hne Hl1 Hl2) as Hl3.
  destruct (run_client_request id pw' r1 r3 req c cn client Hl1) as (n0 & q0 & HC0).
  destruct (run_server_request st id file r2 Hid Hfile req resp s sn server Hl2) as (n1 & q1 & HS1).
  assert (run_io (client_establish id pw' r1 r3 cn) client (carrying [auth_frame (cresp_serialize resp)]) (carrying [])
          = (Done (Err (WireAuth AuthProtocol)), client, carrying [],
             carrying [auth_frame (request_payload id (creq_serialize req))])) as HC2.
  { unfold client_establish, client_start_login. rewrite Hl1. cbn [ok_or fst snd cls_request cls_state].
    unfold try at 1. erewrite run_bind; [|apply run_send_carrying].
    unfold try at 1. erewrite run_bind; [|apply run_recv_carrying, response_frame_ok].
    cbv beta iota. cbn [auth_frame header packet_type payload]. rewrite Z.eqb_refl. cbn [negb].
    unfold deserialize_credential_response. rewrite cresp_roundtrip. cbn [ok_or].
    unfold client_finish_login. by rewrite Hl3. }
  exists n1, q1. intros halted.
  assert (nf step halted) as Hnf.
  { assert (ch_read channel_new n1 = None) as Hr.
    { exact (run_io_waits _ _ _ _ _ _ _ _ _ HS1). }
    intros [d' Hs]. inversion Hs as [? ? ? ? He|? ? ? ? He]; subst; [done|]. cbn in He.
    change (l2r halted) with channel_new in He. unfold exec in He. cbn [prog] in He. by rewrite Hr in He. }
  split; [|done]. eapply step_confluent_nf; [exact Hd| |done].
  change channel_new with (carrying []).
  etrans; [apply (run_left _ _ _ _ _ _ _ _ _ HC0)|].
  etrans; [apply (run_right _ _ _ _ _ _ _ _ _ HS1)|].
  apply run_left, (resume_frames _ _ _ _ _ _ [] [_] [_] [] HC0 HC2).
Qed.

(** The claims at a concrete login: a server that has enrolled one device. *)

#[local] Existing Instance toy_opaque.

Definition sample_store : EnrollmentStore := (store_register (store_new tt) [] [] [8; 8] [1; 2; 3]).1.

Definition sample_node : node := {| node_manager := manager_new; node_conn := None |}.

Lemma login_establishes_session_witness :
  let start := Build_duplex
    (Build_endpoint (client_establish (H := toy_primitives) [8; 8] [1; 2; 3] [] [] (Some (replicate 16 3))) sample_node)
    (Build_endpoint (server_establish (H := toy_primitives) sample_store [] (Some (replicate 16 4))) sample_node)
    channel_new channel_new in
  exists client' server',
    rtc step start (Build_duplex (Build_endpoint (Done (Ok tt)) client') (Build_endpoint (Done (Ok [8; 8])) server')
                      channel_new channel_new).
Proof.
  intros start.
  destruct (@login_establishes_session toy_primitives toy_laws toy_opaque toy_opaque_laws sample_node sample_node
    sample_store [8; 8] [1; 2; 3] [1; 2; 3] [] [] [] (replicate 16 3) (replicate 16 4) [1; 2; 3] start)
    as (keys & client' & server' & cc & sc & Hrun & _).
  - by_decide.
  - vm_compute. reflexivity.
  - eexists _, _, _, _, _. repeat split; try (vm_compute; reflexivity).
  - done.
  - done.
  - by_decide.
  - by_decide.
  - apply rtc_refl.
  - exists client', server'. exact Hrun.
Defined.

Lemma wrong_password_refused_witness :
  let start := Build_duplex
    (Build_endpoint (client_establish (H := toy_primitives) [8; 8] [9] [] [] (Some (replicate 16 3))) sample_node)
    (Build_endpoint (server_establish (H := toy_primitives) sample_store [] (Some (replicate 16 4))) sample_node)
    channel_new channel_new in
  exists n q, rtc step start
    (Build_duplex (Build_endpoint (Done (Err (WireAuth AuthProtocol))) sample_node)
       (Build_endpoint (ReadExact n q) sample_node) channel_new channel_new).
Proof.
  intros start.
  edestruct (@wrong_password_refused toy_primitives toy_laws toy_opaque toy_opaque_laws sample_node sample_node
    sample_store [8; 8] [1; 2; 3] [9] [1; 2; 3] [] [] [] (Some (replicate 16 3)) (Some (replicate 16 4)))
    with (d := start) as (n & q & Hrun & _).
  - by_decide.
  - vm_compute. reflexivity.
  - exists [], [], [1; 2; 3], tt, tt, [1; 2; 3]. repeat split; vm_compute; reflexivity.
  - done.
  - reflexivity.
  - reflexivity.
  - apply rtc_refl.
  - exists n, q. exact Hrun.
Defined.
