(* ===== verification/SplitConn.v ===== *)
(** * The two halves of a secure connection ([SecureConnection::into_split])

    A sender and a receiver that share the encryption context of their session through the
    session table ([SecureSender], [SecureReceiver]).  Here they are shown to be the tasks
    [Split] speaks of: the sender works on the encryptor, the receiver on the decryptor, and
    they do not disturb each other until the sender rotates its key, which rotates the
    receiver's too. *)

From S2P Require Import Prelude Codec Cbor Message Routing Window Symmetric Encryption Session Io Fragments.
From S2P Require Import SecureConn Auth Wire Split.

(** ** The context of a connection *)

Definition live_ctx (c : SecureConnection) : option EncryptionContext :=
  if poisoned (session_manager c) then None else active_sessions (session_manager c) !! conn_id c ≫= id.

Definition put_ctx (c : SecureConnection) (ctx : EncryptionContext) : SecureConnection :=
  set_manager c {| active_sessions := <[conn_id c := Some ctx]> (active_sessions (session_manager c));
                   poisoned := false |}.

(** What an access to the context does to the connection ([with_context]). *)
Definition access {A} (f : EncryptionContext -> EncryptionContext * result ProtocolError A) (c : SecureConnection) :
    SecureConnection * result SecureConnError A :=
  let (m, r) := with_session_context (session_manager c) (conn_id c)
                  (fun ctx => let (ctx', r) := f ctx in (ctx', Ret r)) in
  (set_manager c m,
   match r with
   | Ret (Ok (Ok a)) => Ok a
   | Ret (Ok (Err e)) | Ret (Err e) => Err (Protocol e)
   | Panic => Err (Protocol InvalidHandshake)
   end).

Lemma set_manager_same c : set_manager c (session_manager c) = c.
Proof. by destruct c. Qed.

Lemma access_live {A} (f : EncryptionContext -> EncryptionContext * result ProtocolError A) c ctx :
  live_ctx c = Some ctx -> access f c = (put_ctx c (f ctx).1, map_err Protocol (f ctx).2).
Proof.
  unfold live_ctx, access, with_session_context. destruct (poisoned _); [done|].
  destruct (active_sessions _ !! _) as [[ctx'|]|]; cbn; try done. intros [= ->].
  destruct (f ctx) as [ctx1 [a|e]]; done.
Qed.

Lemma access_dead {A} (f : EncryptionContext -> EncryptionContext * result ProtocolError A) c :
  live_ctx c = None -> (access f c).1 = c.
Proof.
  unfold live_ctx, access, with_session_context. destruct (poisoned _); cbn; [by rewrite set_manager_same|].
  by destruct (active_sessions _ !! _) as [[ctx'|]|]; cbn; rewrite ?set_manager_same.
Qed.

Lemma live_put c ctx ctx' : live_ctx c = Some ctx -> live_ctx (put_ctx c ctx') = Some ctx'.
Proof. intros _. unfold live_ctx, put_ctx. cbn. by rewrite lookup_insert_eq. Qed.

Lemma put_put c ctx ctx' : put_ctx (put_ctx c ctx) ctx' = put_ctx c ctx'.
Proof. unfold put_ctx, set_manager. cbn. by rewrite insert_insert_eq. Qed.

Lemma put_live c ctx : live_ctx c = Some ctx -> put_ctx c ctx = c.
Proof.
  unfold live_ctx, put_ctx, set_manager. destruct c as [i [ss p] l]. cbn. destruct p; [done|]. intros Hs.
  rewrite insert_id; [done|]. destruct (ss !! i) as [[ctx'|]|]; cbn in Hs; congruence.
Qed.

(** The sender's encryptor with the receiver's decryptor. *)
Definition merge (s r : EncryptionContext) : EncryptionContext :=
  {| encryptor := encryptor s; decryptor := decryptor r; rotation_policy := rotation_policy s |}.

Section Halves.
Context `{Primitives}.

Inductive encrypts : forall B : Type, (SecureConnection -> SecureConnection * B) -> Prop :=
| encrypts_frame frame : encrypts _ (access (fun ctx => context_encrypt ctx frame)).

Inductive decrypts : forall B : Type, (SecureConnection -> SecureConnection * B) -> Prop :=
| decrypts_frame ef : decrypts _ (access (fun ctx => context_decrypt ctx ef)).

Definition conn_joined (c s r : SecureConnection) : Prop :=
  (live_ctx c = None /\ s = c /\ r = c) \/
  exists cs cr, live_ctx c = Some (merge cs cr) /\ s = put_ctx c cs /\ r = put_ctx c cr /\
    rotation_policy cs = rotation_policy cr.

Definition unrotated (n : Z) (ctx : EncryptionContext) : Prop :=
  rotation_policy ctx = Counter ROTATION_LIMIT /\ 0 <= counter (encryptor ctx) /\ counter (encryptor ctx) + n < ROTATION_LIMIT.

Definition conn_fresh (c : SecureConnection) : Prop :=
  exists ctx, live_ctx c = Some ctx /\ rotation_policy ctx = Counter ROTATION_LIMIT /\ counter (encryptor ctx) = 0.

Definition conn_room (n : nat) (c : SecureConnection) : Prop :=
  exists ctx, live_ctx c = Some ctx /\ unrotated (Z.of_nat n) ctx.

(** Below the limit an encryption leaves the decryptor alone and does not depend on it. *)
Lemma encrypt_unrotated n s r frame : unrotated (Z.of_nat (S n)) s ->
  let (s', res) := context_encrypt s frame in
  unrotated (Z.of_nat n) s' /\ context_encrypt (merge s r) frame = (merge s' r, res) /\
  rotation_policy s' = rotation_policy s.
Proof.
  intros (Hp & Hc & Hl). unfold context_encrypt, merge. cbn [encryptor decryptor rotation_policy].
  unfold encrypt_frame. destruct (to_encryption_error _) as [[ct tg]|]; cbn [rotation_policy encryptor].
  - rewrite Hp. cbn [counter]. rewrite wrap_small by (unfold uint, ROTATION_LIMIT in *; lia).
    rewrite (proj2 (Z.leb_gt _ _)) by lia. cbn. split_and!; [|done|done].
    unfold unrotated. cbn. split_and!; [done|lia|lia].
  - split_and!; [|done|done]. unfold unrotated. cbn. split_and!; [done|lia|lia].
Qed.

#[export, refine] Instance conn_halves : Halves SecureConnection := {|
  sender_access := encrypts; receiver_access := decrypts; joined := conn_joined;
  fresh := conn_fresh; room := conn_room; most_sends := Z.to_nat ROTATION_LIMIT;
  joined_refl := _; fresh_room := _; sent_room := _; received_fresh := _; sent_joined := _; received_joined := _
|}.
Proof.
  - intros c. destruct (live_ctx c) as [ctx|] eqn:Hl; [right|by left]. exists ctx, ctx.
    rewrite (put_live c ctx Hl), Hl. by destruct ctx.
  - intros c n (ctx & Hl & Hp & Hc) Hn. exists ctx. split; [done|]. split; [done|]. rewrite Hc.
    unfold ROTATION_LIMIT in *. lia.
  - intros B f c n [frame] (ctx & Hl & Hu). rewrite (access_live _ _ _ Hl). cbn.
    pose proof (encrypt_unrotated n ctx ctx frame Hu) as He.
    destruct (context_encrypt ctx frame) as [ctx' res]. eexists. split; [by eapply live_put|]. apply He.
  - intros B f c [ef]. unfold conn_fresh. destruct (live_ctx c) as [ctx|] eqn:Hl.
    + rewrite (access_live _ _ _ Hl). cbn [fst]. setoid_rewrite (live_put c ctx _ Hl). unfold context_decrypt.
      destruct (decrypt_frame _ _). cbn. split; intros (x & [= <-] & Hp & Hc); eauto.
    + by rewrite (access_dead _ _ Hl), Hl.
  - intros B f c s r n [frame] [(Hl & -> & ->)|(cs & cr & Hl & -> & -> & Hp)] (ctx & Hls & Hu); [by rewrite Hl in Hls|].
    rewrite (live_put c _ _ Hl) in Hls. injection Hls as <-.
    pose proof (encrypt_unrotated n cs cr frame Hu) as He.
    rewrite (access_live _ _ _ Hl), (access_live _ _ _ (live_put c _ cs Hl)).
    destruct (context_encrypt cs frame) as [cs' res]. destruct He as (_ & -> & Hp'). cbn. split; [done|]. right.
    exists cs', cr. rewrite (live_put c _ _ Hl), !put_put. split_and!; congruence.
  - intros B f c s r [ef] [(Hl & -> & ->)|(cs & cr & Hl & -> & -> & Hp)].
    + rewrite (access_dead _ _ Hl). split; [done|]. left. done.
    + rewrite (access_live _ _ _ Hl), (access_live _ _ _ (live_put c _ cr Hl)). unfold context_decrypt, merge. cbn.
      destruct (decrypt_frame (decryptor cr) ef) as [d res]. cbn. split; [done|]. right.
      eexists cs, {| encryptor := encryptor cr; decryptor := d; rotation_policy := rotation_policy cr |}.
      rewrite (live_put c _ _ Hl), !put_put. by split_and!.
Defined.
End Halves.

(** ** The halves of a machine *)

(** An access of the connection, as [lift_conn] makes it the machine's. *)
Definition lifted {B} (f : SecureConnection -> SecureConnection * B) (nd : node) : node * option B :=
  match node_conn nd with
  | Some c => let (c', b) := f c in ({| node_manager := session_manager c'; node_conn := Some c' |}, Some b)
  | None => (nd, None)
  end.

Inductive lifts (L : forall B : Type, (SecureConnection -> SecureConnection * B) -> Prop) :
    forall B : Type, (node -> node * B) -> Prop :=
| lifts_access B f : L B f -> lifts L (option B) (lifted f).

Definition node_joined `{Primitives} (m s r : node) : Prop :=
  match node_conn m, node_conn s, node_conn r with
  | Some c, Some cs, Some cr => joined c cs cr
  | None, None, None => True
  | _, _, _ => False
  end.

Definition on_conn (P : SecureConnection -> Prop) (m : node) : Prop := exists c, node_conn m = Some c /\ P c.

Section Machine.
Context `{Primitives}.

#[export, refine] Instance node_halves : Halves node := {|
  sender_access := lifts encrypts; receiver_access := lifts decrypts; joined := node_joined;
  fresh := on_conn fresh; room n := on_conn (room n); most_sends := most_sends (M := SecureConnection);
  joined_refl := _; fresh_room := _; sent_room := _; received_fresh := _; sent_joined := _; received_joined := _
|}.
Proof.
  - intros m. unfold node_joined. destruct (node_conn m); [apply joined_refl|done].
  - intros m n (c & Hc & Hf) Hn. exists c. split; [done|]. by apply fresh_room.
  - intros B f m n [B' f' Hf] (c & Hc & Hr). unfold lifted. rewrite Hc.
    pose proof (sent_room _ f' c n Hf Hr) as Hr'. destruct (f' c). by eexists.
  - intros B f m [B' f' Hf]. unfold lifted, on_conn. destruct (node_conn m) as [c|] eqn:Hc; [|by cbn; rewrite Hc].
    pose proof (received_fresh _ f' c Hf) as Hr. destruct (f' c) as [c' b]. cbn in Hr |- *.
    split; intros (x & [= <-] & Hx); (eexists; split; [done|by apply Hr]).
  - intros B f m s r n [B' f' Hf] Hj (cs & Hcs & Hr). unfold node_joined, lifted in *. rewrite Hcs in *.
    destruct (node_conn m) as [c|]; [|done]. destruct (node_conn r) as [cr|] eqn:Hcr; [|done].
    destruct (@sent_joined _ conn_halves _ f' c cs cr n Hf Hj Hr) as [Hb Hj']. destruct (f' c), (f' cs). cbn in *.
    split; [by f_equal|done].
  - intros B f m s r [B' f' Hf] Hj. unfold node_joined, lifted in *.
    destruct (node_conn m) as [c|] eqn:Hc; destruct (node_conn s) as [cs|] eqn:Hcs; destruct (node_conn r) as [cr|] eqn:Hcr; try done.
    + destruct (@received_joined _ conn_halves _ f' c cs cr Hf Hj) as [Hb Hj']. destruct (f' c), (f' cr). cbn in *.
      split; [by f_equal|done].
    + cbn. by rewrite ?Hc, ?Hcs, ?Hcr.
Defined.
End Machine.

(** ** What the halves' programs do *)

Section Programs.
Context {M : Type} (L : forall B : Type, (M -> M * B) -> Prop).

Lemma only_writes_weaken {A} n k (p : io M A) : (n <= k)%nat -> only_writes L n p -> only_writes L k p.
Proof.
  revert n k. induction p as [x|bs p IH|m p IH|p IH|T f p IH]; intros n k Hk; cbn; eauto.
  intros (Hf & n' & -> & Hp). split; [done|]. destruct k as [|k]; [lia|]. exists k. split; [done|].
  intros b. apply (IH b n'); [lia|done].
Qed.

Lemma only_writes_bind {A B} n k (p : io M A) (q : A -> io M B) :
  only_writes L n p -> (forall x, only_writes L k (q x)) -> only_writes L (n + k) (bind p q).
Proof.
  intros Hp Hq. revert n Hp. induction p as [x|bs p IH|m p IH|p IH|T f p IH]; intros n Hp; cbn in *; eauto.
  - eapply only_writes_weaken; [|by apply Hq]. lia.
  - destruct Hp as (Hf & n' & -> & Hp). split; [done|]. exists (n' + k)%nat. split; [done|]. intros b. by apply IH.
Qed.

Lemma only_reads_bind {A B} (p : io M A) (q : A -> io M B) :
  only_reads L p -> (forall x, only_reads L (q x)) -> only_reads L (bind p q).
Proof. intros Hp Hq. induction p as [x|bs p IH|m p IH|p IH|T f p IH]; cbn in *; naive_solver. Qed.

Lemma keeps_open_bind {A B} (p : io M A) (q : A -> io M B) :
  keeps_open p -> (forall x, keeps_open (q x)) -> keeps_open (bind p q).
Proof. intros Hp Hq. induction p as [x|bs p IH|m p IH|p IH|T f p IH]; cbn in *; naive_solver. Qed.

(** The fragment loops do once what the frame below them does, for each fragment. *)
Lemma send_loop_writes {E} (emit : ProtocolFrame -> io M (result E unit)) ptype c k fuel bytes index offset :
  (forall f, only_writes L c (emit f)) -> (length (drop (Z.to_nat offset) bytes) < k)%nat -> 0 <= offset ->
  only_writes L (c * length (chunks k (drop (Z.to_nat offset) bytes))) (send_loop emit ptype fuel bytes index offset).
Proof.
  intros He. pose proof FRAGMENT_SIZE_eq as HS. revert k index offset. induction fuel as [|fuel IH]; intros k index offset Hk Ho; [done|].
  cbn [send_loop]. destruct (Z.ltb_spec offset (zlen bytes)) as [Hlt|]; [|done].
  destruct k as [|k]; [lia|]. cbn [chunks]. rewrite zlen_drop by lia.
  destruct (Z.leb_spec (zlen bytes - offset) FRAGMENT_SIZE) as [Hle|Hgt].
  - rewrite Z.min_r by lia. eapply only_writes_weaken; [|apply (only_writes_bind c 0); [apply He|]].
    { cbn. lia. }
    intros [x|e]; [|done]. destruct fuel; [done|]. cbn [send_loop]. by rewrite Z.ltb_irrefl.
  - rewrite Z.min_l by lia. cbn [length]. rewrite Nat.mul_succ_r, Nat.add_comm.
    apply only_writes_bind; [apply He|]. intros [x|e]; [|done]. rewrite drop_drop in *.
    replace (Z.to_nat offset + Z.to_nat FRAGMENT_SIZE)%nat with (Z.to_nat (offset + FRAGMENT_SIZE)) in * by lia.
    apply IH; [|lia]. rewrite length_drop in *. unfold zlen in *. lia.
Qed.

Lemma send_fragments_writes {E} (emit : ProtocolFrame -> io M (result E unit)) ptype c bytes :
  (forall f, only_writes L c (emit f)) ->
  only_writes L (c * length (chunks (S (length bytes)) bytes)) (send_fragments emit ptype bytes).
Proof.
  intros He. unfold send_fragments. destruct (Z.leb_spec (zlen bytes) FRAGMENT_SIZE) as [Hle|Hgt].
  - cbn [chunks]. rewrite (proj2 (Z.leb_le _ _)) by done. rewrite Nat.mul_1_r. apply He.
  - apply (send_loop_writes emit ptype c (S (length bytes)) (length bytes) bytes 0 0 He); [rewrite drop_0; lia|lia].
Qed.

Lemma recv_loop_reads {E} (next : io M (result E ProtocolFrame)) ooo over fuel : forall data expected more,
  only_reads L next -> only_reads L (recv_loop next ooo over fuel data expected more).
Proof.
  induction fuel as [|fuel IH]; intros data expected more Hn; destruct more; try done. cbn [recv_loop].
  apply only_reads_bind; [done|]. intros [f|e]; [|done]. repeat case_match; try done. by apply IH.
Qed.

Lemma recv_fragments_reads {E} (next : io M (result E ProtocolFrame)) ooo over :
  only_reads L next -> only_reads L (recv_fragments next ooo over).
Proof.
  intros Hn. unfold recv_fragments. apply only_reads_bind; [done|]. intros [f|e]; [|done].
  cbn. case_match; [done|]. by apply recv_loop_reads.
Qed.

Lemma recv_frame_reads : only_reads L (recv_frame (M := M)).
Proof.
  cbn. intros r. destruct r; cbn; try done. destruct (try_from_vec _); [|done].
  destruct (_ <? _); cbn; [|done]. intros r. by destruct r.
Qed.
End Programs.

Lemma lift_writes L {A} n (p : io SecureConnection A) : only_writes L n p -> only_writes (lifts L) n (lift_conn p).
Proof.
  revert n. induction p as [x|bs p IH|m p IH|p IH|T f p IH]; intros n Hp; cbn in *; eauto.
  destruct Hp as (Hf & n' & -> & Hp). split; [by apply (lifts_access L)|]. exists n'. split; [done|].
  intros [b|]; [by apply IH|done].
Qed.

Lemma lift_reads L {A} (p : io SecureConnection A) : only_reads L p -> only_reads (lifts L) (lift_conn p).
Proof.
  induction p as [x|bs p IH|m p IH|p IH|T f p IH]; intros Hp; cbn in *; eauto.
  destruct Hp as [Hf Hp]. split; [by apply (lifts_access L)|]. intros [b|]; [by apply IH|done].
Qed.

Lemma lift_open {A} (p : io SecureConnection A) : keeps_open p -> keeps_open (lift_conn p).
Proof. induction p as [x|bs p IH|m p IH|p IH|T f p IH]; intros Hp; cbn in *; eauto. intros [b|]; [by apply IH|done]. Qed.

Section Messages.
Context `{Primitives} `{!Cbor EncryptedFrame} `{!Cbor ProtocolMessage}.

(** The encrypted frames a message takes. *)
Definition message_frames (m : ProtocolMessage) : nat :=
  match into_writer m with Some b => length (chunks (S (length b)) b) | None => 0 end.

Lemma emit_half_sends f : sends 1 (emit_half f).
Proof.
  unfold emit_half, sender_send_secure_frame. apply (only_writes_bind _ 1 0); [|by intros [|]].
  apply (only_writes_bind _ 1 0).
  - split; [exact (encrypts_frame f)|]. by exists 0%nat.
  - intros [ef|e]; [|done]. destruct (serialize_encrypted ef) as [b|]; [|done].
    apply (send_fragments_writes _ emit_wire PACKET_TYPE_MESSAGE 0 b). intros g. cbn. by intros [|].
Qed.

Lemma message_sends m : sends (message_frames m) (sender_send_message m).
Proof.
  unfold sender_send_message, message_frames, serialize. destruct (into_writer m) as [b|]; [|done]. cbn [ok_or].
  pose proof (send_fragments_writes _ emit_half PACKET_TYPE_MESSAGE 1 b emit_half_sends) as Hs.
  by rewrite Nat.mul_1_l in Hs.
Qed.

Lemma next_half_receives : receives next_half.
Proof.
  unfold next_half, receiver_recv_secure_frame. apply only_reads_bind; [|by intros [|]]. apply only_reads_bind.
  - apply recv_fragments_reads. unfold next_wire. apply only_reads_bind; [apply recv_frame_reads|by intros [|]].
  - intros [b|e]; [|done]. destruct (deserialize_encrypted b) as [ef|]; [|done].
    split; [exact (decrypts_frame ef)|done].
Qed.

Lemma message_receives : receives receiver_recv_message.
Proof.
  unfold receiver_recv_message. apply only_reads_bind; [apply recv_fragments_reads, next_half_receives|by intros [|]].
Qed.
End Messages.

(** ** The logins keep their streams open *)

Lemma send_frame_open {M} f : keeps_open (send_frame (M := M) f).
Proof. done. Qed.

Lemma recv_frame_open {M} : keeps_open (recv_frame (M := M)).
Proof.
  cbn. intros r. destruct r; cbn; try done. destruct (try_from_vec _); [|done].
  destruct (_ <? _); cbn; [|done]. intros r. by destruct r.
Qed.

Ltac open :=
  repeat first
    [ done | apply send_frame_open | apply recv_frame_open | apply lift_open
    | apply keeps_open_bind; [|intros ?] | case_match ].

Lemma client_establish_open `{Primitives} `{Opaque} identifier password r1 r2 nonce :
  keeps_open (client_establish identifier password r1 r2 nonce).
Proof. unfold client_establish, run_handshake, client_handshake, try. open. Qed.

Lemma server_establish_open `{Primitives} `{Opaque} store rand nonce : keeps_open (server_establish store rand nonce).
Proof. unfold server_establish, run_handshake, server_handshake, try. open. Qed.
