(* ===== verification/SessionTasks.v ===== *)
(** * The tasks of a session ([handle_session] in [bw-server/src/main.rs], [run_session] in
      [bw-client/src/main.rs])

    After the login each program splits its connection: one task drains a queue of messages
    onto the session, another hands what arrives to a handler.  The four tasks run in any
    interleaving, from the login on. *)

From S2P Require Import Prelude Codec Cbor Message Routing Window Symmetric Encryption Session Io Fragments.
From S2P Require Import SecureConn Auth Wire Split SplitConn.

(** How a task that receives comes to its end; [StillReceiving] is none of the program's: the
    messages the model takes are used up. *)
Inductive task_end : Type :=
| SessionEnded (e : WireError)
| HandlerEnded
| StillReceiving.

Section Tasks.
Context `{Primitives} `{!Cbor EncryptedFrame} `{!Cbor ProtocolMessage}.

(** The task that sends: what the queue gives, until a send fails.  [Ok] is a task that has sent
    what there was and waits for the queue. *)
Fixpoint send_task (queue : list ProtocolMessage) : io SecureConnection (result WireError unit) :=
  match queue with
  | [] => Done (Ok tt)
  | message :: queue =>
      do r <- sender_send_message message;
      match r with Ok _ => send_task queue | Err e => Done (Err e) end
  end.

(** The task that receives, for at most [fuel] messages: it goes on until receiving fails, and
    until the handler says so. *)
Fixpoint receive_task {S} (handle : S -> ProtocolMessage -> S * bool) (fuel : nat) (s : S) :
    io SecureConnection (S * task_end) :=
  match fuel with
  | O => Done (s, StillReceiving)
  | Datatypes.S fuel =>
      do r <- receiver_recv_message;
      match r with
      | Err e => Done (s, SessionEnded e)
      | Ok message =>
          let '(s, go_on) := handle s message in
          if go_on then receive_task handle fuel s else Done (s, HandlerEnded)
      end
  end.

(** A task on the machine whose connection it is. *)
Definition task_of {A} (task : io SecureConnection A) : node_io (option A) :=
  do a <- lift_conn task; Done (Ok a).

(** The tasks of [run_session] and of [handle_session], whose handler may use the identifier of
    the client. *)
Definition client_tasks {S} (up : list ProtocolMessage) (handle : S -> ProtocolMessage -> S * bool) (fuel : nat) (x : S)
    (_ : unit) : node_io (option (result WireError unit)) * node_io (option (S * task_end)) :=
  (task_of (send_task up), task_of (receive_task handle fuel x)).

Definition server_tasks {T} (down : list ProtocolMessage) (handle : list Z -> T -> ProtocolMessage -> T * bool) (fuel : nat)
    (x : T) (identifier : list Z) : node_io (option (result WireError unit)) * node_io (option (T * task_end)) :=
  (task_of (send_task down), task_of (receive_task (handle identifier) fuel x)).
End Tasks.

(** What a handler makes of a sequence of messages. *)
Fixpoint handle_all {S} (handle : S -> ProtocolMessage -> S * bool) (s : S) (ms : list ProtocolMessage) : S :=
  match ms with
  | [] => s
  | m :: ms => let '(s, go_on) := handle s m in if go_on then handle_all handle s ms else s
  end.

(** It goes on through all of them. *)
Fixpoint goes_on {S} (handle : S -> ProtocolMessage -> S * bool) (s : S) (ms : list ProtocolMessage) : Prop :=
  match ms with
  | [] => True
  | m :: ms => (handle s m).2 = true /\ goes_on handle (handle s m).1 ms
  end.

(** The encrypted frames of a queue. *)
Definition frames `{Cbor ProtocolMessage} (ms : list ProtocolMessage) : nat := sum_list (message_frames <$> ms).

(** ** One direction *)

Section Proofs.
Context `{PrimitivesLaws} `{!Cbor EncryptedFrame, !CborLaws EncryptedFrame, !EncryptedFits}.
Context `{!Cbor ProtocolMessage, !CborLaws ProtocolMessage}.

(** The bytes of messages whose fragments can be numbered. *)
Definition framed (ms : list ProtocolMessage) (bs : list (list Z)) : Prop :=
  Forall2 (fun m b => into_writer m = Some b /\ zlen (chunks (S (length b)) b) <= 2 ^ 15) ms bs.

Lemma serialized_framed ms bs : serialized ms bs -> framed ms bs.
Proof.
  intros Hs. eapply Forall2_impl; [|exact Hs]. intros m b [Hw Hl]. split; [done|].
  pose proof (fragments_count b Hl). unfold MAX_FRAGMENTS, zlen in *. lia.
Qed.

Lemma run_send_task ms bs n fs c c' s a :
  framed ms bs -> secure_carries (frames ms + n) fs c c' s ->
  exists c1 s1, run_io (send_task ms) c a s = (Done (Ok tt), c1, a, s1) /\
    secure_carries n (fs ++ concat (fragments PACKET_TYPE_MESSAGE <$> bs)) c1 c' s1.
Proof.
  intros H2. revert fs c s. induction H2 as [|m b ms bs [Hw Hl] H2 IH]; intros fs c s HQ; cbn [send_task].
  { exists c, s. cbn. by rewrite app_nil_r. }
  change (frames (m :: ms)) with (message_frames m + frames ms)%nat in HQ.
  unfold message_frames in HQ. rewrite Hw, <- Nat.add_assoc in HQ.
  destruct (run_send_large emit_half next_half m b (length (chunks (S (length b)) b)) _ fs c c' s a Hw
    ltac:(done) Hl HQ) as (c1 & s1 & Hrun & HQ1).
  unfold sender_send_message. rewrite (run_bind _ _ _ _ _ _ _ _ _ Hrun).
  destruct (IH _ _ _ HQ1) as (c2 & s2 & Hrun2 & HQ2). exists c2, s2. split; [done|].
  cbn. by rewrite app_assoc.
Qed.

Lemma send_task_sends ms : sends (frames ms) (send_task ms).
Proof.
  induction ms as [|m ms IH]; [done|]. cbn [send_task]. change (frames (m :: ms)) with (message_frames m + frames ms)%nat.
  apply only_writes_bind; [apply message_sends|]. by intros [|].
Qed.

Lemma receive_task_receives {S} (handle : S -> ProtocolMessage -> S * bool) fuel : forall x, receives (receive_task handle fuel x).
Proof.
  induction fuel as [|fuel IH]; intros x; [done|]. cbn [receive_task]. apply only_reads_bind; [apply message_receives|].
  intros [m|e]; [|done]. destruct (handle x m) as [x' []]; [apply IH|done].
Qed.

(** The receiver is given the messages in front, and goes on with what follows them. *)
Lemma run_receive_task {S} (handle : S -> ProtocolMessage -> S * bool) ms bs k n fs x c c' s b :
  serialized ms bs -> goes_on handle x ms ->
  secure_carries n (concat (fragments PACKET_TYPE_MESSAGE <$> bs) ++ fs) c c' s ->
  exists c1 s1, run_io (receive_task handle (length ms + k) x) c' s b =
      run_io (receive_task handle k (handle_all handle x ms)) c1 s1 b /\
    secure_carries n fs c c1 s1.
Proof.
  intros H2. revert x c' s. induction H2 as [|m bs0 ms bs [Hw Hl] H2 IH]; intros x c' s Hgo HQ.
  { by exists c', s. }
  cbn [receive_task length Nat.add handle_all goes_on fmap list_fmap concat] in *. destruct Hgo as [Hgo Hgos].
  rewrite <- app_assoc in HQ.
  destruct (run_recv_one emit_half next_half m bs0 n _ c c' s b Hw Hl HQ) as (c1 & s1 & Hrun & HQ1).
  unfold receiver_recv_message at 1. rewrite (run_bind _ _ _ _ _ _ _ _ _ Hrun).
  destruct (handle x m) as [x' go]. cbn in Hgo, Hgos. rewrite Hgo.
  exact (IH x' c1 s1 Hgos HQ1).
Qed.


(** What becomes of a queue that crosses a fresh session: [sent] is the sender's report, and [P]
    holds of the receiver's program and of the stream between them, once both stop. *)
Definition crosses {A} (ms : list ProtocolMessage) (receiver : io SecureConnection A) (P : io SecureConnection A -> channel -> Prop) : Prop :=
  forall (alice bob : SecureConnection) keys policy policy',
    established alice (context_new keys policy) -> established bob (context_new (mirror keys) policy') ->
    sk_epoch keys = 0 -> is_bytes (sk_send_key keys) ->
    exists alice' bob' s receiver' s',
      run_io (send_task ms) alice channel_new channel_new = (Done (Ok tt), alice', channel_new, s) /\
      run_io receiver bob s channel_new = (receiver', bob', s', channel_new) /\ P receiver' s'.

(** Messages within the limit are handled, and the receiver waits for more. *)
Lemma queue_crosses {S} (handle : S -> ProtocolMessage -> S * bool) ms fuel x :
  Forall sendable ms -> Z.of_nat (frames ms) < 2 ^ 24 -> goes_on handle x ms -> (length ms < fuel)%nat ->
  crosses ms (receive_task handle fuel x) (fun p s => p = receive_task handle (fuel - length ms) (handle_all handle x ms) /\ s = channel_new).
Proof.
  intros HF Hlen Hgo Hfuel alice bob keys policy policy' Ha Hb He Hk. destruct (sendable_serialized ms HF) as [bs H2].
  pose proof (fresh_carries alice bob keys policy policy' (frames ms) Ha Hb He Hk Hlen) as HQ.
  apply (link_weaken_le emit_half next_half good_frame secure_carries (frames ms + 0)) in HQ; [|unfold MAX_FRAGMENTS; lia].
  destruct (run_send_task ms bs 0 [] alice bob channel_new channel_new (serialized_framed ms bs H2) HQ)
    as (alice' & s & Hrun & HQ1). cbn [app] in HQ1. rewrite <- (app_nil_r (concat _)) in HQ1.
  destruct (run_receive_task handle ms bs (fuel - length ms) 0 [] x alice' bob s channel_new H2 Hgo HQ1) as (bob' & s' & Hrun2 & HQ2).
  replace (length ms + (fuel - length ms))%nat with fuel in Hrun2 by lia.
  rewrite (carries_nothing _ _ _ _ HQ2) in Hrun2.
  destruct (fuel - length ms)%nat as [|k] eqn:Hk'; [lia|].
  eexists alice', bob', s, _, channel_new. split; [exact Hrun|]. split; [by rewrite Hrun2|done].
Qed.

(** A message that exceeds the receiver's limit. *)
Definition oversized (m : ProtocolMessage) : Prop :=
  exists b, into_writer m = Some b /\ MAX_REASSEMBLED_SIZE < zlen b.

Lemma frames_app ms ms' : frames (ms ++ ms') = (frames ms + frames ms')%nat.
Proof. unfold frames. by rewrite fmap_app, sum_list_with_app. Qed.

(** It is sent, and ends the receiver's task. *)
Lemma oversized_crosses {S} (handle : S -> ProtocolMessage -> S * bool) ms big later fuel x :
  Forall sendable ms -> oversized big -> Forall sendable later -> Z.of_nat (frames (ms ++ big :: later)) < 2 ^ 15 ->
  goes_on handle x ms -> (length ms < fuel)%nat ->
  crosses (ms ++ big :: later) (receive_task handle fuel x)
    (fun p _ => exists k, p = Done (handle_all handle x ms, SessionEnded (WireOversizedMessage k))).
Proof.
  intros [bs Hms]%sendable_serialized (bb & Hw & Hl) [bs' Hl']%sendable_serialized Hlen Hgo Hfuel alice bob keys policy policy' Ha Hb He Hk.
  assert (Hbb : zlen (chunks (Datatypes.S (length bb)) bb) <= 2 ^ 15).
  { rewrite frames_app in Hlen. change (frames (big :: later)) with (message_frames big + frames later)%nat in Hlen.
    unfold message_frames in Hlen at 1. rewrite Hw in Hlen. unfold zlen. lia. }
  assert (Hlen24 : Z.of_nat (frames (ms ++ big :: later)) < 2 ^ 24) by lia.
  assert (Hall : framed (ms ++ big :: later) (bs ++ bb :: bs')).
  { apply Forall2_app; [by apply serialized_framed|]. constructor; [|by apply serialized_framed].
    done. }
  pose proof (fresh_carries alice bob keys policy policy' (frames (ms ++ big :: later)) Ha Hb He Hk Hlen24) as HQ.
  apply (link_weaken_le emit_half next_half good_frame secure_carries (frames (ms ++ big :: later) + 0)) in HQ;
    [|unfold MAX_FRAGMENTS; lia].
  destruct (run_send_task _ _ 0 [] alice bob channel_new channel_new Hall HQ) as (alice' & s & Hrun & HQ1).
  cbn [app] in HQ1. rewrite fmap_app, concat_app in HQ1.
  destruct (run_receive_task handle ms bs (fuel - length ms) 0 _ x alice' bob s channel_new Hms Hgo HQ1) as (bob' & s' & Hrun2 & HQ2).
  replace (length ms + (fuel - length ms))%nat with fuel in Hrun2 by lia. cbn [fmap list_fmap concat] in HQ2.
  destruct (run_recv_large emit_half next_half big bb 0 _ alice' bob' s' channel_new Hw Hl Hbb HQ2)
    as (kk & bob2 & s2 & Hrun3).
  destruct (fuel - length ms)%nat as [|k] eqn:Hk'; [lia|].
  exists alice', bob2, s. eexists _, s2. split; [exact Hrun|]. rewrite Hrun2. cbn [receive_task]. unfold receiver_recv_message.
  rewrite (run_bind _ _ _ _ _ _ _ _ _ Hrun3). split; [reflexivity|]. by exists kk.
Qed.

(** The keys of a handshake are bytes, in their first epoch. *)
Lemma handshake_keys_bytes key cn sn keys : handshake_keys key cn sn keys ->
  sk_epoch keys = 0 /\ is_bytes (sk_send_key keys) /\ is_bytes (sk_recv_key keys).
Proof.
  intros (master & _ & Hk). revert Hk. unfold derive_session_keys, to_encryption_error, map_err.
  destruct (hkdf_derive _ _ (Some (string_bytes "client-key"))) as [k1|] eqn:E1; [|done]. cbv beta iota.
  destruct (hkdf_derive _ _ (Some (string_bytes "server-key"))) as [k2|] eqn:E2; [|done].
  intros [= <-]. cbn. eauto using hkdf_derive_bytes.
Qed.

(** *** After the login *)

Context `{OpaqueLaws}.

(** A device that is enrolled logs in, with fresh nonces, at a server that has no session under
    the key they agree on. *)
Record login_setting (client server : node) (store : EnrollmentStore) (id pw : list Z) (file : file_t)
    (r1 r2 r3 cn sn key : list Z) : Prop := {
  set_id : is_bytes id /\ zlen id <= MAX_IDENTIFIER;
  set_file : enrollments store !! id = Some file;
  set_key : login_key (setup store) id pw file r1 r2 r3 key;
  set_client : node_ready client (session_id_from_key key);
  set_server : node_ready server (session_id_from_key key);
  set_cn : byte_array 16 cn;
  set_sn : byte_array 16 sn
}.


(** *** The four tasks *)

(** A task on the machine runs as it does on the connection. *)
Lemma run_task_of {A} (p p' : io SecureConnection A) c c' nd i o i' o' :
  node_conn nd = Some c -> run_io p c i o = (p', c', i', o') ->
  exists nd', node_conn nd' = Some c' /\ run_io (task_of p) nd i o = (task_of p', nd', i', o') /\ stops (task_of p') i'.
Proof.
  intros Hnd Hrun. pose proof (run_io_stops _ _ _ _ _ _ _ _ Hrun) as Hst.
  destruct (run_lift _ _ _ _ _ _ _ _ _ Hrun Hnd) as (nd' & Hc & Hl). exists nd'. split; [done|].
  assert (Hst' : stops (lift_conn p') i') by by destruct p'.
  assert (Hst2 : stops (task_of p') i') by by destruct p'.
  split; [|done]. rewrite (stops_run _ _ _ _ Hst') in Hl. unfold task_of. rewrite (run_bind_on _ _ _ _ _ _ _ _ _ Hl).
  by apply stops_run.
Qed.

Lemma established_fresh nd c keys :
  node_conn nd = Some c -> established c (context_new keys (Counter ROTATION_LIMIT)) -> fresh nd.
Proof.
  intros Hnd (_ & Hp & Hs). exists c. split; [done|]. eexists. unfold live_ctx. rewrite Hp, Hs. by split.
Qed.

Lemma task_sends ms : sends (frames ms) (task_of (send_task ms)).
Proof.
  rewrite <- (Nat.add_0_r (frames ms)). apply only_writes_bind; [|done]. apply lift_writes, send_task_sends.
Qed.

Lemma task_receives {S} (handle : S -> ProtocolMessage -> S * bool) fuel x : receives (task_of (receive_task handle fuel x)).
Proof. apply only_reads_bind; [|done]. apply lift_reads, receive_task_receives. Qed.

Section Logged.
Context (client server : node) (store : EnrollmentStore) (id pw : list Z) (file : file_t).
Context (r1 r2 r3 cn sn key : list Z).
Context (Hset : login_setting client server store id pw file r1 r2 r3 cn sn key).
Context {S T : Type} (up down : list ProtocolMessage).
Context (hc : S -> ProtocolMessage -> S * bool) (fc : nat) (xc : S).
Context (hs : list Z -> T -> ProtocolMessage -> T * bool) (fs : nat) (xs : T).

Abbreviation session := (split node unit (option (result WireError unit)) (option (S * task_end))
  node (list Z) (option (result WireError unit)) (option (T * task_end)) WireError).

(** The two programs before the login, and a step of one of their tasks. *)
Definition session_start : session :=
  split_start (client_establish id pw r1 r3 (Some cn)) (server_establish store r2 (Some sn)) client server.

Definition session_step : session -> session -> Prop := split_step (client_tasks up hc fc xc) (server_tasks down hs fs xs).

(** Both senders have sent what there was; the receivers' tasks and the streams are as given. *)
Definition session_sent (rc : io SecureConnection (S * task_end)) (rs : io SecureConnection (T * task_end))
    (to_server to_client : channel) (client' server' : node) : session :=
  Build_split (Tasks (task_of (Done (Ok tt))) (task_of rc)) client' (Tasks (task_of (Done (Ok tt))) (task_of rs)) server'
    to_server to_client.

(** Each direction alone. *)
Lemma one_way_up (P : io SecureConnection (T * task_end) -> channel -> Prop) :
  crosses up (receive_task (hs id) fs xs) P ->
  exists fa rs, rtc step (rightward (client_tasks up hc fc xc) (server_tasks down hs fs xs)
      (client_establish id pw r1 r3 (Some cn)) (server_establish store r2 (Some sn)) client server) fa /\
    nf step fa /\ prog (left fa) = task_of (Done (Ok tt)) /\ prog (right fa) = task_of rs /\
    r2l fa = channel_new /\ fresh (state (right fa)) /\ P rs (l2r fa).
Proof.
  intros Hcross. destruct Hset as [Hid Hfile Hkey Hc Hs Hcn Hsn].
  destruct (login_run client server store id pw file r1 r2 r3 cn sn key Hid Hfile Hkey Hc Hs Hcn Hsn)
    as (keys & client1 & server1 & cc & sc & Hrun & Hcc & Hsc & _ & _ & He & He' & Hk).
  destruct (handshake_keys_bytes _ _ _ _ Hk) as (Hep & Hks & _).
  destruct (Hcross cc sc keys _ _ He He' Hep Hks) as (cc' & sc' & s & rs & s' & Hsend & Hrecv & HP).
  destruct (run_task_of _ _ _ _ client1 _ _ _ _ Hcc Hsend) as (client' & _ & Hl & _).
  destruct (run_task_of _ _ _ _ server1 _ _ _ _ Hsc Hrecv) as (server' & _ & Hr & Hst).
  exists (Build_duplex (Build_endpoint (task_of (Done (Ok tt))) client') (Build_endpoint (task_of rs) server') s' channel_new), rs.
  split_and!; try done.
  - etrans; [exact (steps_extend (kont (fun x => (client_tasks up hc fc xc x).1)) (kont (fun y => (server_tasks down hs fs xs y).2)) _ _ Hrun)|].
    etrans; [apply (run_left _ _ _ _ _ _ _ _ _ Hl)|apply (run_right _ _ _ _ _ _ _ _ _ Hr)].
  - apply idle_nf; [done|]. by apply stops_exec.
  - eapply run_receives_fresh; [|exact Hr|by eapply established_fresh]. apply task_receives.
Qed.

Lemma one_way_down (P : io SecureConnection (S * task_end) -> channel -> Prop) :
  crosses down (receive_task hc fc xc) P ->
  exists fb rc, rtc step (leftward (client_tasks up hc fc xc) (server_tasks down hs fs xs)
      (client_establish id pw r1 r3 (Some cn)) (server_establish store r2 (Some sn)) client server) fb /\
    nf step fb /\ prog (right fb) = task_of (Done (Ok tt)) /\ prog (left fb) = task_of rc /\
    l2r fb = channel_new /\ fresh (state (left fb)) /\ P rc (r2l fb).
Proof.
  intros Hcross. destruct Hset as [Hid Hfile Hkey Hc Hs Hcn Hsn].
  destruct (login_run client server store id pw file r1 r2 r3 cn sn key Hid Hfile Hkey Hc Hs Hcn Hsn)
    as (keys & client1 & server1 & cc & sc & Hrun & Hcc & Hsc & _ & _ & He & He' & Hk).
  destruct (handshake_keys_bytes _ _ _ _ Hk) as (Hep & _ & Hkr).
  destruct (Hcross sc cc (mirror keys) _ (Counter ROTATION_LIMIT) He' ltac:(by destruct keys) Hep Hkr)
    as (sc' & cc' & s & rc & s' & Hsend & Hrecv & HP).
  destruct (run_task_of _ _ _ _ server1 _ _ _ _ Hsc Hsend) as (server' & _ & Hr & _).
  destruct (run_task_of _ _ _ _ client1 _ _ _ _ Hcc Hrecv) as (client' & _ & Hl & Hst).
  exists (Build_duplex (Build_endpoint (task_of rc) client') (Build_endpoint (task_of (Done (Ok tt))) server') channel_new s'), rc.
  split_and!; try done.
  - etrans; [exact (steps_extend (kont (fun x => (client_tasks up hc fc xc x).2)) (kont (fun y => (server_tasks down hs fs xs y).1)) _ _ Hrun)|].
    etrans; [apply (run_right _ _ _ _ _ _ _ _ _ Hr)|apply (run_left _ _ _ _ _ _ _ _ _ Hl)].
  - apply idle_nf; [|done]. by apply stops_exec.
  - eapply run_receives_fresh; [|exact Hl|by eapply established_fresh]. apply task_receives.
Qed.

(** Both at once, below the limit at which a sender rotates its keys. *)
Lemma session_settles P Q d :
  Z.of_nat (frames up) < ROTATION_LIMIT -> Z.of_nat (frames down) < ROTATION_LIMIT ->
  crosses up (receive_task (hs id) fs xs) P -> crosses down (receive_task hc fc xc) Q ->
  rtc session_step session_start d ->
  exists rc rs s s' client' server', let d' := session_sent rc rs s s' client' server' in
    rtc session_step d d' /\ nf session_step d' /\ P rs s /\ Q rc s'.
Proof.
  intros Hu Hd HP HQ Hrun.
  destruct (one_way_up P HP) as (fa & rs & Hfa & Hnfa & Hla & Hra & Hca & Hfresha & HPa).
  destruct (one_way_down Q HQ) as (fb & rc & Hfb & Hnfb & Hrb & Hlb & Hcb & Hfreshb & HQb).
  assert (Hu' : (frames up < most_sends (M := node))%nat) by (cbn; lia).
  assert (Hd' : (frames down < most_sends (M := node))%nat) by (cbn; lia).
  destruct (split_follows (client_tasks up hc fc xc) (server_tasks down hs fs xs) (frames up) (frames down)
    Hu' Hd'
    (fun _ => conj (task_sends up) (task_receives hc fc xc)) (fun y => conj (task_sends down) (task_receives (hs y) fs xs))
    _ _ (client_establish_open _ _ _ _ _) (server_establish_open _ _ _) client server fa fb Hfa Hfb Hnfa Hnfb
    _ Hla ltac:(by rewrite Hca) Hfresha _ Hrb ltac:(by rewrite Hcb) Hfreshb d Hrun) as (client' & server' & Hend & Hnf).
  rewrite Hla, Hlb, Hra, Hrb in Hend, Hnf. by exists rc, rs, (l2r fa), (r2l fb), client', server'.
Qed.

(** Where the session stands when [ms] has come up and [ms'] has come down: the senders have
    nothing left to send, nothing is left on the streams, and each receiver is at the top of its
    loop, with what its handler made of the messages. *)
Definition session_idle (client' server' : node) : session :=
  session_sent (receive_task hc (fc - length down) (handle_all hc xc down))
    (receive_task (hs id) (fs - length up) (handle_all (hs id) xs up)) channel_new channel_new client' server'.

Lemma session_delivered d :
  Forall sendable up -> Forall sendable down -> Z.of_nat (frames up) < ROTATION_LIMIT -> Z.of_nat (frames down) < ROTATION_LIMIT ->
  goes_on (hs id) xs up -> goes_on hc xc down -> (length up < fs)%nat -> (length down < fc)%nat ->
  rtc session_step session_start d ->
  exists client' server', rtc session_step d (session_idle client' server') /\ nf session_step (session_idle client' server').
Proof.
  intros HU HD Hu Hd Hgu Hgd Hfs Hfc Hrun.
  destruct (session_settles _ _ d Hu Hd (queue_crosses (hs id) up fs xs HU ltac:(unfold ROTATION_LIMIT in Hu; lia) Hgu Hfs)
    (queue_crosses hc down fc xc HD ltac:(unfold ROTATION_LIMIT in Hd; lia) Hgd Hfc) Hrun)
    as (? & ? & ? & ? & client' & server' & Hend & Hnf & [-> ->] & [-> ->]).
  by exists client', server'.
Qed.

(** C1.  From the login to the handlers, both ways at once: a device logs in with its enrolled
    password, and then each program runs a task that drains a queue of messages, of at most
    4 MiB each, onto the session, beside a task that hands what arrives to a handler which does
    not end the session.  As long as each queue takes fewer than 10 000 encrypted frames, the
    limit at which a sender rotates its keys, no interleaving of the four tasks, from the login
    on, gets stuck or fails: from every state they can reach, both queues are sent to their ends,
    each handler is given exactly the other's queue, in order, and the two receivers go back to
    waiting for more, with nothing left on the streams.  The receivers' loops are unrolled [fs]
    and [fc] times; any numbers above those of the messages do, so the bounds are never met.
    Time is not part of this model: the server ends a session's receiver after 15 seconds
    ([Admission]), and this is about what happens before. *)
Theorem session_delivers d :
  Forall sendable up -> Forall sendable down -> Z.of_nat (frames up) < ROTATION_LIMIT -> Z.of_nat (frames down) < ROTATION_LIMIT ->
  goes_on (hs id) xs up -> goes_on hc xc down -> (length up < fs)%nat -> (length down < fc)%nat ->
  rtc session_step session_start d ->
  exists client' server', rtc session_step d (session_idle client' server') /\ nf session_step (session_idle client' server').
Proof. exact (session_delivered d). Qed.

End Logged.

End Proofs.

(** ** A login on concrete inputs *)

Module SessionExample.
#[export] Existing Instance toy_primitives.
#[export] Existing Instance toy_laws.
#[export] Existing Instance toy_opaque.
#[export] Existing Instance toy_opaque_laws.
#[export] Existing Instance flat_cbor.
#[export] Existing Instance flat_cbor_laws.
#[export] Existing Instance flat_cbor_fits.
#[export] Instance message_cbor : Cbor ProtocolMessage := countable_cbor ProtocolMessage.
#[export] Instance message_cbor_laws : CborLaws ProtocolMessage := countable_cbor_laws ProtocolMessage.

Lemma sample_setting : login_setting sample_node sample_node sample_store [8; 8] [1; 2; 3] [1; 2; 3] [] [] []
  (replicate 16 3) (replicate 16 4) [1; 2; 3].
Proof.
  constructor; [by_decide|vm_compute; reflexivity| |done|done|by_decide|by_decide].
  eexists _, _, _, _, _. repeat split; try (vm_compute; reflexivity).
Defined.

(** A handler that keeps the identifiers of the messages. *)
Definition keep (l : list Z) (m : ProtocolMessage) : list Z * bool := (l ++ [message_id m], true).
End SessionExample.

Import SessionExample.

Lemma session_delivers_witness :
  let up := sample_message <$> [1; 2; 3] in
  let down := sample_message <$> [4; 5] in
  let keeps := fun _ : list Z => keep in
  exists client' server',
    rtc (session_step up down keep 5 [] keeps 4 [])
      (session_start sample_node sample_node sample_store [8; 8] [1; 2; 3] [] [] [] (replicate 16 3) (replicate 16 4))
      (session_sent (receive_task keep 3 [4; 5]) (receive_task keep 1 [1; 2; 3]) channel_new channel_new client' server').
Proof.
  intros up down keeps.
  refine (match session_delivers sample_node sample_node sample_store [8; 8] [1; 2; 3] [1; 2; 3] [] [] []
    (replicate 16 3) (replicate 16 4) [1; 2; 3] sample_setting up down keep 5 [] keeps 4 [] _ _ _ _ _ _ _ _ _ (rtc_refl _ _)
    with ex_intro _ client' (ex_intro _ server' (conj H _)) => ex_intro _ client' (ex_intro _ server' H) end).
  - repeat constructor; eexists; (split; [reflexivity|by_decide]).
  - repeat constructor; eexists; (split; [reflexivity|by_decide]).
  - by_decide.
  - by_decide.
  - repeat split.
  - repeat split.
  - by_decide.
  - by_decide.
Defined.

(** An encoding that pads the message with identifier 9 beyond the limit; the zeros it appends
    do not change the number that is read. *)
Definition padding (m : ProtocolMessage) : nat :=
  if message_id m =? 9 then Z.to_nat MAX_REASSEMBLED_SIZE else 0.

Definition padded_cbor : Cbor ProtocolMessage := {|
  into_writer m := Some (digits256 (encode m) ++ replicate (padding m) 0);
  from_reader b := match le_num b with Zpos p => decode p | _ => None end |}.

Lemma le_num_padded l n : le_num (l ++ replicate n 0) = le_num l.
Proof.
  induction l as [|b l IH]; cbn [app le_num]; [|by rewrite IH].
  induction n as [|n IH]; cbn [replicate le_num]; lia.
Qed.

Lemma padded_cbor_laws : @CborLaws ProtocolMessage padded_cbor.
Proof.
  split; intros x b Hb; apply (inj Some) in Hb as <-.
  - unfold from_reader, padded_cbor. by rewrite le_num_padded, le_num_digits256, decode_encode.
  - done.
  - apply Forall_app. split; [apply le_bytes_bytes|]. apply Forall_replicate. by split.
Qed.

Lemma digits_length : length (digits256 (encode (sample_message 9))) = 5%nat.
Proof. vm_compute. reflexivity. Qed.

Lemma large_oversized : @oversized padded_cbor (sample_message 9).
Proof.
  eexists. split; [reflexivity|]. rewrite zlen_app. unfold padding. cbn [message_id sample_message Z.eqb Pos.eqb].
  unfold zlen. rewrite length_replicate, digits_length. unfold MAX_REASSEMBLED_SIZE. lia.
Qed.

#[local] Existing Instance padded_cbor.
#[local] Existing Instance padded_cbor_laws.

Lemma large_frames : Z.of_nat (frames (sample_message <$> [1; 9; 2])) < ROTATION_LIMIT.
Proof. vm_compute. reflexivity. Qed.

