(* ===== verification/Identity.v ===== *)
(** * Device identities (bw-crypto, [identity.rs])

    A device is identified by the SHA-256 digest of its Ed25519 verification key.
    The file models the identifier with its textual form, and the signature
    operations of the Ed25519 backend ([backend/dalek.rs]) over an interface to the
    third-party crates.  A string is the list of its UTF-8 bytes. *)

From S2P Require Import Prelude Symmetric.

(** ** Hashes and signatures *)

Class Signatures := {
  sha256 : list Z -> list Z;
  (** [VerifyingKey::from_bytes]: whether the bytes are the encoding of a point. *)
  verifying_key_valid : list Z -> bool;
  (** [Verifier::verify]: key, message, signature. *)
  ed25519_verify : list Z -> list Z -> list Z -> bool;
  (** [SigningKey::verifying_key] and [Signer::sign], by secret key. *)
  ed25519_public : list Z -> list Z;
  ed25519_sign : list Z -> list Z -> list Z;
}.

Class SignaturesLaws `{Signatures} : Prop := {
  sha256_length : forall m, byte_array 32 (sha256 m);
  public_valid : forall k, verifying_key_valid (ed25519_public k) = true;
  public_length : forall k, byte_array 32 (ed25519_public k);
  sign_length : forall k m, byte_array 64 (ed25519_sign k m);
  verify_sign : forall k m, ed25519_verify (ed25519_public k) m (ed25519_sign k m) = true;
}.

(** ** Device identifiers *)

Definition DEVICE_ID_BYTES : nat := 32.
Definition DEVICE_ID_HEX_LEN : nat := 64.
Definition DEVICE_ID_PREFIX : list Z := string_bytes "bw-id-".
Definition DEVICE_ID_STR_LEN : nat := (length DEVICE_ID_PREFIX + DEVICE_ID_HEX_LEN)%nat.

Record DeviceId := { as_bytes : list Z }.

#[global] Instance DeviceId_eq_dec : EqDecision DeviceId.
Proof. solve_decision. Defined.

#[global] Instance DeviceId_countable : Countable DeviceId.
Proof. apply (inj_countable' as_bytes Build_DeviceId). by intros []. Defined.

Inductive DeviceIdParseError : Type :=
| InvalidPrefix | InvalidLength | InvalidHex | UppercaseNotAllowed.

#[global] Instance DeviceIdParseError_eq_dec : EqDecision DeviceIdParseError.
Proof. solve_decision. Defined.

(** [DeviceId::from_digest]. *)
Definition from_digest (digest : list Z) : DeviceId := {| as_bytes := digest |}.

Definition device_id_ok (id : DeviceId) : Prop := byte_array DEVICE_ID_BYTES (as_bytes id).

(** [Display for DeviceId]. *)
Definition display (id : DeviceId) : list Z :=
  DEVICE_ID_PREFIX ++ concat (hex_byte <$> as_bytes id).

(** [str::is_char_boundary] and [&s[i..j]], which aborts off a boundary. *)
Definition is_char_boundary (s : list Z) (i : nat) : bool :=
  match drop i s with
  | [] => (i =? length s)%nat
  | b :: _ => (i =? 0)%nat || negb ((128 <=? b) && (b <? 192))
  end.

Definition str_slice (s : list Z) (i j : nat) : outcome (list Z) :=
  if (i <=? j)%nat && is_char_boundary s i && is_char_boundary s j then Ret (slice s i j)
  else Panic.

(** [u8::from_str_radix(s, 16)]: an optional plus sign, then digits, at most 255. *)
Fixpoint radix_digits (acc : Z) (s : list Z) : option Z :=
  match s with
  | [] => Some acc
  | c :: s =>
      match to_digit16 c with
      | Some d => if 255 <? acc * 16 + d then None else radix_digits (acc * 16 + d) s
      | None => None
      end
  end.

Definition from_str_radix16 (s : list Z) : option Z :=
  match s with
  | [] => None
  | [c] => if (c =? 43) || (c =? 45) then None else radix_digits 0 [c]
  | c :: rest => if c =? 43 then radix_digits 0 rest else radix_digits 0 (c :: rest)
  end.

Definition is_ascii_uppercase (c : Z) : bool := (65 <=? c) && (c <=? 90).

(** The loop of [from_str] over the bytes [i], [i + 1], ... of the digest. *)
Fixpoint parse_bytes (n i : nat) (hex_body : list Z) : outcome (result DeviceIdParseError (list Z)) :=
  match n with
  | O => Ret (Ok [])
  | S n =>
      match str_slice hex_body (i * 2) (i * 2 + 2) with
      | Panic => Panic
      | Ret byte_str =>
          match from_str_radix16 byte_str with
          | None => Ret (Err InvalidHex)
          | Some byte =>
              match parse_bytes n (S i) hex_body with
              | Ret (Ok bytes) => Ret (Ok (byte :: bytes))
              | r => r
              end
          end
      end
  end.

(** [DeviceId::from_str].  The slice after the prefix starts on a character
    boundary, the prefix being ASCII. *)
Definition from_str (s : list Z) : outcome (result DeviceIdParseError DeviceId) :=
  if negb (bool_decide (take (length DEVICE_ID_PREFIX) s = DEVICE_ID_PREFIX)) then
    Ret (Err InvalidPrefix)
  else if negb (length s =? DEVICE_ID_STR_LEN)%nat then Ret (Err InvalidLength)
  else
    match str_slice s (length DEVICE_ID_PREFIX) (length s) with
    | Panic => Panic
    | Ret hex_body =>
        if existsb is_ascii_uppercase hex_body then Ret (Err UppercaseNotAllowed)
        else
          match parse_bytes DEVICE_ID_BYTES 0 hex_body with
          | Panic => Panic
          | Ret (Err e) => Ret (Err e)
          | Ret (Ok bytes) => Ret (Ok (from_digest bytes))
          end
    end.

(** ** Keys *)

Section Keys.
Context `{Signatures}.

(** [VerifyKey::from_bytes], [as_bytes], [device_id] and [verify]. *)
Record VerifyKey := { vk_bytes : list Z }.

Definition verify_key_from_bytes (bytes : list Z) : result CryptoError VerifyKey :=
  if verifying_key_valid bytes then Ok {| vk_bytes := bytes |} else Err VerificationFailed.

Definition device_id (key : VerifyKey) : DeviceId := from_digest (sha256 (vk_bytes key)).

Definition verify (key : VerifyKey) (message signature : list Z) : result CryptoError unit :=
  if ed25519_verify (vk_bytes key) message signature then Ok tt else Err VerificationFailed.

End Keys.

(** ** What the parser accepts *)

(** The two characters that stand for byte [b]: its two lowercase digits or, for a
    byte below 16, a plus sign and its digit. *)
Definition spells (p : list Z) (b : Z) : Prop :=
  is_byte b /\ (p = hex_byte b \/ b < 16 /\ p = [43; hex_digit b]).

Lemma to_digit16_lower c d :
  to_digit16 c = Some d -> is_ascii_uppercase c = false -> 0 <= d < 16 /\ c = hex_digit d.
Proof.
  unfold to_digit16, is_ascii_uppercase, hex_digit. intros Hd Hu.
  repeat case_match; simplify_eq; try (rewrite ?andb_true_iff, ?andb_false_iff, ?Z.leb_le, ?Z.leb_gt in *; lia).
  all: rewrite ?andb_true_iff, ?andb_false_iff, ?Z.leb_le, ?Z.leb_gt, ?Z.ltb_lt, ?Z.ltb_ge in *; lia.
Qed.

Lemma hex_digit_ascii d : 0 <= d < 16 -> 48 <= hex_digit d <= 57 \/ 97 <= hex_digit d <= 102.
Proof. unfold hex_digit. case_bool. Qed.

Lemma byte_digits b : is_byte b -> 0 <= b / 16 < 16 /\ 0 <= b mod 16 < 16.
Proof. unfold is_byte, uint. change (2 ^ 8) with 256. intros. Z.div_mod_to_equations. lia. Qed.

Lemma spells_ascii p b : spells p b ->
  exists c1 c2, p = [c1; c2] /\ 0 <= c1 < 128 /\ 0 <= c2 < 128 /\
    is_ascii_uppercase c1 = false /\ is_ascii_uppercase c2 = false.
Proof.
  intros [Hb Hp]. pose proof (byte_digits b Hb) as [H1 H2].
  apply hex_digit_ascii in H1. apply hex_digit_ascii in H2.
  unfold is_ascii_uppercase, hex_byte in *.
  destruct Hp as [->|[Hlt ->]].
  - eexists _, _. split; [done|]. rewrite !andb_false_iff, !Z.leb_gt. lia.
  - assert (0 <= b < 16) as Hd%hex_digit_ascii by (unfold is_byte, uint in Hb; lia).
    eexists _, _. split; [done|]. rewrite !andb_false_iff, !Z.leb_gt. lia.
Qed.

Lemma radix_spells p b : length p = 2%nat -> existsb is_ascii_uppercase p = false ->
  from_str_radix16 p = Some b -> spells p b.
Proof.
  destruct p as [|c1 [|c2 [|? ?]]]; try done. intros _. cbn [existsb from_str_radix16].
  rewrite !orb_false_iff. intros (Hu1 & Hu2 & _).
  unfold spells, is_byte, uint, hex_byte. change (2 ^ 8) with 256.
  destruct (Z.eqb_spec c1 43) as [->|Hne]; cbn [radix_digits].
  - destruct (to_digit16 c2) as [d|] eqn:Hd; [|done].
    apply to_digit16_lower in Hd as [Hd ->]; [|done]. case_bool. intros [= <-].
    split; [lia|]. right. split; [lia|]. done.
  - destruct (to_digit16 c1) as [d1|] eqn:Hd1; [|done].
    apply to_digit16_lower in Hd1 as [Hd1 ->]; [|done]. cbn [Z.mul Z.add]. case_bool_step; [lia|].
    destruct (to_digit16 c2) as [d2|] eqn:Hd2; [|done].
    apply to_digit16_lower in Hd2 as [Hd2 ->]; [|done]. case_bool_step; [lia|]. intros [= <-].
    split; [lia|]. left. f_equal; [|f_equal]; f_equal; Z.div_mod_to_equations; lia.
Qed.

Lemma radix_of_spells p b : spells p b -> from_str_radix16 p = Some b.
Proof.
  intros [Hb Hp]. pose proof (byte_digits b Hb) as [H1 H2].
  destruct Hp as [->|[Hlt ->]].
  - unfold hex_byte. cbn [from_str_radix16 radix_digits].
    rewrite (proj2 (Z.eqb_neq _ _)) by (pose proof (hex_digit_ascii _ H1); lia).
    rewrite !to_digit16_hex by done. unfold is_byte, uint in Hb. change (2 ^ 8) with 256 in Hb.
    case_bool_step; [lia|]. case_bool_step; [Z.div_mod_to_equations; lia|].
    f_equal. Z.div_mod_to_equations. lia.
  - unfold is_byte, uint in Hb. cbn [from_str_radix16 radix_digits Z.eqb Pos.eqb].
    rewrite to_digit16_hex by lia. case_bool_step; [lia|]. done.
Qed.

Lemma char_boundary_ascii (s : list Z) (i : nat) :
  (i <= length s)%nat -> Forall (fun c => 0 <= c < 128) (drop i s) -> is_char_boundary s i = true.
Proof.
  intros Hi HF. unfold is_char_boundary. destruct (drop i s) as [|b l] eqn:Hd.
  - apply Nat.eqb_eq. apply (f_equal length) in Hd. rewrite length_drop in Hd. simpl in Hd. lia.
  - apply Forall_cons_1 in HF as [Hb _]. apply orb_true_iff. right.
    apply negb_true_iff, andb_false_iff. left. apply Z.leb_gt. lia.
Qed.

Lemma concat_spells_ascii pairs bs : Forall2 spells pairs bs ->
  Forall (fun c => 0 <= c < 128) (concat pairs) /\
  length (concat pairs) = (2 * length bs)%nat /\
  existsb is_ascii_uppercase (concat pairs) = false.
Proof.
  induction 1 as [|p b pairs bs Hp _ (IH1 & IH2 & IH3)]; [done|].
  apply spells_ascii in Hp as (c1 & c2 & -> & H1 & H2 & Hu1 & Hu2). cbn [concat app length existsb].
  rewrite Hu1, Hu2, IH3, IH2. split; [by constructor; [|constructor]|]. split; [lia|done].
Qed.

(** [parse_bytes] reads exactly the spellings of the bytes it returns. *)
Lemma parse_bytes_spells n i body bytes :
  length body = ((i + n) * 2)%nat -> existsb is_ascii_uppercase body = false ->
  parse_bytes n i body = Ret (Ok bytes) ->
  exists pairs, drop (i * 2) body = concat pairs /\ Forall2 spells pairs bytes /\ length bytes = n.
Proof.
  revert i bytes. induction n as [|n IH]; intros i bytes Hlen Hu; cbn [parse_bytes].
  - intros [= <-]. exists []. rewrite drop_ge by lia. done.
  - unfold str_slice. destruct ((_ <=? _)%nat && _ && _); [|done].
    destruct (from_str_radix16 _) as [b|] eqn:Hr; [|done].
    destruct (parse_bytes n (S i) body) as [[bs|]|] eqn:Hp; try done. intros [= <-].
    apply IH in Hp as (pairs & Hd & HF & Hl); [|lia|done].
    assert (slice body (i * 2) (i * 2 + 2) ++ drop (S i * 2) body = drop (i * 2) body) as Hsplit.
    { unfold slice. replace (i * 2 + 2 - i * 2)%nat with 2%nat by lia.
      replace (S i * 2)%nat with (i * 2 + 2)%nat by lia. rewrite <- drop_drop. apply take_drop. }
    exists (slice body (i * 2) (i * 2 + 2) :: pairs). cbn [concat length]. rewrite <- Hd, Hl.
    split; [done|]. split; [|done]. constructor; [|done]. apply radix_spells; [|clear -Hu Hsplit|exact Hr].
    + rewrite length_slice; lia.
    + rewrite <- (take_drop (i * 2) body), <- Hsplit, !existsb_app, !orb_false_iff in Hu. tauto.
Qed.

Lemma parse_bytes_of_spells pairs bytes n i body :
  Forall2 spells pairs bytes -> length bytes = n -> length body = ((i + n) * 2)%nat ->
  drop (i * 2) body = concat pairs -> parse_bytes n i body = Ret (Ok bytes).
Proof.
  intros HF. revert n i. induction HF as [|p b pairs bytes Hp HF IH]; intros n i <- Hlen Hd; [done|].
  cbn [length parse_bytes]. pose proof (concat_spells_ascii _ _ HF) as (Ha & _ & _).
  pose proof (spells_ascii _ _ Hp) as (c1 & c2 & Hpe & H1 & H2 & _).
  assert (drop (S i * 2) body = concat pairs) as Hd'.
  { replace (S i * 2)%nat with (i * 2 + 2)%nat by lia. rewrite <- drop_drop, Hd, Hpe. done. }
  assert (slice body (i * 2) (i * 2 + 2) = p) as Hs.
  { unfold slice. replace (i * 2 + 2 - i * 2)%nat with 2%nat by lia. rewrite Hd, Hpe. done. }
  simpl in Hlen. unfold str_slice. rewrite Hs, (proj2 (Nat.leb_le _ _)) by lia.
  rewrite (char_boundary_ascii body (i * 2)), (char_boundary_ascii body (i * 2 + 2)).
  2: lia. 2: { replace (i * 2 + 2)%nat with (S i * 2)%nat by lia. by rewrite Hd'. } 2: lia.
  2: { rewrite Hd, Hpe. by constructor; [|constructor]. }
  cbn [andb]. rewrite (radix_of_spells p b Hp), (IH (length bytes) (S i)) by (done || lia). done.
Qed.

Lemma from_str_spells s id : from_str s = Ret (Ok id) ->
  exists pairs, s = DEVICE_ID_PREFIX ++ concat pairs /\ Forall2 spells pairs (as_bytes id) /\
    length (as_bytes id) = DEVICE_ID_BYTES.
Proof.
  unfold from_str. case_bool_decide as Hpre; [|done]. cbn [negb].
  destruct (Nat.eqb_spec (length s) DEVICE_ID_STR_LEN) as [Hlen|]; [|done]. cbn [negb].
  unfold str_slice. destruct ((_ <=? _)%nat && _ && _); [|done].
  set (body := slice s _ _). destruct (existsb is_ascii_uppercase body) eqn:Hu; [done|].
  destruct (parse_bytes DEVICE_ID_BYTES 0 body) as [[bytes|]|] eqn:Hp; try done. intros [= <-].
  assert (s = DEVICE_ID_PREFIX ++ body) as Hs.
  { rewrite <- (take_drop (length DEVICE_ID_PREFIX) s) at 1. rewrite Hpre. f_equal.
    unfold body, slice. by rewrite take_ge by (rewrite length_drop; lia). }
  apply parse_bytes_spells in Hp as (pairs & Hd & HF & Hl); [|clear -Hs Hlen|done].
  - exists pairs. rewrite drop_0 in Hd. by rewrite <- Hd.
  - rewrite Hs, length_app in Hlen. unfold DEVICE_ID_STR_LEN, DEVICE_ID_BYTES, DEVICE_ID_HEX_LEN in *. lia.
Qed.

Lemma from_str_of_spells pairs id :
  Forall2 spells pairs (as_bytes id) -> length (as_bytes id) = DEVICE_ID_BYTES ->
  from_str (DEVICE_ID_PREFIX ++ concat pairs) = Ret (Ok id).
Proof.
  intros HF Hl. pose proof (concat_spells_ascii _ _ HF) as (Ha & Hlc & Hu). unfold from_str.
  rewrite take_app_length, bool_decide_eq_true_2 by done. cbn [negb].
  assert (length (DEVICE_ID_PREFIX ++ concat pairs) = DEVICE_ID_STR_LEN) as Hlen.
  { rewrite length_app, Hlc, Hl. done. }
  rewrite Hlen, Nat.eqb_refl. cbn [negb]. unfold str_slice.
  rewrite !char_boundary_ascii, (proj2 (Nat.leb_le _ _)).
  2: { rewrite <- Hlen, length_app. lia. }
  2: { lia. } 2: { by rewrite <- Hlen, drop_all. } 2: { rewrite length_app. lia. }
  2: { by rewrite drop_app_length. }
  cbn [andb]. unfold slice. rewrite drop_app_length, take_ge by (rewrite <- Hlen, length_app; lia).
  rewrite Hu, (parse_bytes_of_spells pairs (as_bytes id)); try done; [by destruct id|].
  by rewrite Hlc, Hl.
Qed.

Lemma from_str_display id : device_id_ok id -> from_str (display id) = Ret (Ok id).
Proof.
  intros [Hl Hb]. apply from_str_of_spells; [|done]. unfold display. clear Hl.
  induction Hb; constructor; [split; [done|by left]|done].
Qed.

(** [DeviceId::from_str] accepts exactly the prefix followed by 32 two-character
    spellings, and returns the bytes they spell; the spelling of a byte is its two
    lowercase hexadecimal digits or, below 16, also a plus sign and one digit.  In
    particular the printed form of every identifier is accepted and gives the
    identifier back, and it is the only accepted spelling without a plus sign. *)
Theorem device_id_spellings s id :
  (from_str s = Ret (Ok id) <->
   exists pairs, s = DEVICE_ID_PREFIX ++ concat pairs /\ Forall2 spells pairs (as_bytes id) /\
     length (as_bytes id) = DEVICE_ID_BYTES) /\
  (device_id_ok id -> from_str (display id) = Ret (Ok id)) /\
  (from_str s = Ret (Ok id) -> 43 ∉ s -> s = display id).
Proof.
  split; [|split].
  - split; [apply from_str_spells|]. intros (pairs & -> & HF & Hl). by apply from_str_of_spells.
  - apply from_str_display.
  - intros (pairs & -> & HF & _)%from_str_spells Hplus. unfold display. f_equal. f_equal.
    rewrite elem_of_app in Hplus. assert (43 ∉ concat pairs) as Hno by tauto. clear Hplus.
    induction HF as [|p b pairs bs Hp _ IH]; [done|]. cbn [concat fmap list_fmap] in *.
    rewrite elem_of_app in Hno. f_equal; [|apply IH; tauto].
    destruct Hp as [_ [->|[_ ->]]]; [done|]. destruct Hno. left. left.
Qed.

(** ** Instances on concrete inputs *)

Definition sample_id : DeviceId := from_digest (replicate 32 10).

(** Witness of [device_id_spellings]: a printed identifier, and the same identifier
    spelled with plus signs. *)
Lemma device_id_spellings_witness :
  from_str (display sample_id) = Ret (Ok sample_id) /\
  from_str (DEVICE_ID_PREFIX ++ concat (replicate 32 [43; 97])) = Ret (Ok sample_id).
Proof.
  split.
  - apply (device_id_spellings [] sample_id). by_decide.
  - vm_compute. reflexivity.
Defined.

(** A string of the right length that starts with the prefix and continues with
    valid UTF-8 can abort the parser: a two-byte character at an odd position makes
    the slice of the loop end inside a character. *)
Theorem device_id_parse_aborts :
  from_str (DEVICE_ID_PREFIX ++ [97; 195; 169] ++ replicate 61 97) = Panic.
Proof. vm_compute. reflexivity. Qed.

(** An implementation of the interface for concrete inputs. *)
Definition toy_signatures : Signatures := {|
  sha256 m := le_bytes 32 (le_num m);
  verifying_key_valid k := (length k =? 32)%nat;
  ed25519_verify k m s := bool_decide (s = k ++ le_bytes 32 (le_num m));
  ed25519_public k := le_bytes 32 (le_num k);
  ed25519_sign k m := le_bytes 32 (le_num k) ++ le_bytes 32 (le_num m);
|}.

Lemma toy_signatures_laws : @SignaturesLaws toy_signatures.
Proof.
  split; cbn [sha256 verifying_key_valid ed25519_verify ed25519_public ed25519_sign toy_signatures].
  - intros m. split; [apply length_le_bytes|apply le_bytes_bytes].
  - intros k. by rewrite length_le_bytes.
  - intros k. split; [apply length_le_bytes|apply le_bytes_bytes].
  - intros k m. split; [by rewrite length_app, !length_le_bytes|]. apply Forall_app. split; apply le_bytes_bytes.
  - intros k m. by apply bool_decide_eq_true.
Qed.
