(* ===== verification/Forwarding.v ===== *)
(** * The relay's forwarding table (bw-relay, [forwarding.rs])

    A relay token routes datagrams between the two endpoints of an authorized pair.
    The table keeps one context per pair (its lifecycle, the bound addresses, the
    byte counter and a token bucket), an index from tokens to contexts, and a count
    of failed lookups per source address.

    Each operation takes the instant [now] its clock returns, in milliseconds; all
    reads of the clock within one call return the same instant.  The locks are never
    poisoned (no code that can abort runs while one is held), so they do not appear.
    The token bucket is kept in binary64 floating point, as in the code, with the
    Standard Library's [SpecFloat] arithmetic. *)

From Stdlib Require Import Floats.SpecFloat.
From S2P Require Import Prelude Symmetric Identity.

(** ** Socket addresses *)

Inductive IpAddr : Type :=
| IpV4 (octets : list Z)
| IpV6 (octets : list Z).

#[global] Instance IpAddr_eq_dec : EqDecision IpAddr.
Proof. solve_decision. Defined.

#[global] Instance IpAddr_countable : Countable IpAddr.
Proof.
  apply (inj_countable'
    (fun a => match a with IpV4 o => inl o | IpV6 o => inr o end)
    (fun s => match s with inl o => IpV4 o | inr o => IpV6 o end)).
  by intros [].
Defined.

Inductive SocketAddr : Type :=
| AddrV4 (octets : list Z) (port : Z)
| AddrV6 (octets : list Z) (port flowinfo scope_id : Z).

#[global] Instance SocketAddr_eq_dec : EqDecision SocketAddr.
Proof. solve_decision. Defined.

Definition addr_ip (a : SocketAddr) : IpAddr :=
  match a with
  | AddrV4 octets _ => IpV4 octets
  | AddrV6 octets _ _ _ => IpV6 octets
  end.

(** ** Floating point *)

Definition f64 : Type := spec_float.

(** [as f64] of an unsigned integer: rounded to the nearest, ties to even. *)
Definition f64_of (z : Z) : f64 := binary_normalize 53 1024 z 0 false.
Definition f64_add (a b : f64) : f64 := SFadd 53 1024 a b.
Definition f64_sub (a b : f64) : f64 := SFsub 53 1024 a b.
Definition f64_mul (a b : f64) : f64 := SFmul 53 1024 a b.
Definition f64_div (a b : f64) : f64 := SFdiv 53 1024 a b.
Definition f64_lt (a b : f64) : bool := SFltb a b.

(** [f64::min]: the other argument when one is not a number. *)
Definition f64_min (a b : f64) : f64 :=
  match a, b with
  | S754_nan, _ => b
  | _, S754_nan => a
  | _, _ => if f64_lt b a then b else a
  end.

(** ** Constants and data *)

Definition MAX_FORWARDING_PAYLOAD : Z := 1168.
Definition MAX_PACKET_SIZE : Z := 1200.
Definition IDLE_TIMEOUT_MS : Z := 30000.
Definition SESSION_EXPIRY_MS : Z := 120000.
Definition SESSION_BYTE_CAP : Z := 10 * 1024 * 1024 * 1024.
Definition EXCHANGE_TIMEOUT_MS : Z := 10000.
Definition RATE_LIMIT_BYTES_PER_SEC : Z := 625000.
Definition BLOCKLIST_THRESHOLD : Z := 20.
Definition BLOCKLIST_WINDOW_MS : Z := 60000.
Definition MAX_BLOCKLIST_ENTRIES : Z := 4096.

Inductive ForwardingState : Type :=
| Authorized | RelayRequested | RelayActive | RelayExpired | RelayClosed.

#[global] Instance ForwardingState_eq_dec : EqDecision ForwardingState.
Proof. solve_decision. Defined.

Record EndpointBinding := { eb_device_id : DeviceId; eb_addr : option SocketAddr }.

Record RateBucket := { tokens : f64; last_refill_ms : Z }.

Record ForwardingContext := {
  fc_intent_id : list Z;
  fc_token : list Z;
  fc_initiator : EndpointBinding;
  fc_target : EndpointBinding;
  fc_state : ForwardingState;
  last_active_ms : Z;
  expires_at_ms : Z;
  bytes_forwarded : Z;
  authorized_at_ms : Z;
  rate_bucket : RateBucket;
}.

Record ForwardingTable := {
  contexts : gmap (list Z) ForwardingContext;
  token_index : gmap (list Z) (list Z);
  failed_lookups : gmap IpAddr (Z * Z);
  rate_limit_bytes_per_sec : Z;
  session_expiry_ms : Z;
}.

(** Assignments to fields. *)
Definition set_state (ctx : ForwardingContext) (s : ForwardingState) : ForwardingContext :=
  {| fc_intent_id := fc_intent_id ctx; fc_token := fc_token ctx; fc_initiator := fc_initiator ctx;
     fc_target := fc_target ctx; fc_state := s; last_active_ms := last_active_ms ctx;
     expires_at_ms := expires_at_ms ctx; bytes_forwarded := bytes_forwarded ctx;
     authorized_at_ms := authorized_at_ms ctx; rate_bucket := rate_bucket ctx |}.

Definition set_bindings (ctx : ForwardingContext) (i t : EndpointBinding) : ForwardingContext :=
  {| fc_intent_id := fc_intent_id ctx; fc_token := fc_token ctx; fc_initiator := i;
     fc_target := t; fc_state := fc_state ctx; last_active_ms := last_active_ms ctx;
     expires_at_ms := expires_at_ms ctx; bytes_forwarded := bytes_forwarded ctx;
     authorized_at_ms := authorized_at_ms ctx; rate_bucket := rate_bucket ctx |}.

Definition set_last_active (ctx : ForwardingContext) (now : Z) : ForwardingContext :=
  {| fc_intent_id := fc_intent_id ctx; fc_token := fc_token ctx; fc_initiator := fc_initiator ctx;
     fc_target := fc_target ctx; fc_state := fc_state ctx; last_active_ms := now;
     expires_at_ms := expires_at_ms ctx; bytes_forwarded := bytes_forwarded ctx;
     authorized_at_ms := authorized_at_ms ctx; rate_bucket := rate_bucket ctx |}.

Definition set_bytes (ctx : ForwardingContext) (n : Z) : ForwardingContext :=
  {| fc_intent_id := fc_intent_id ctx; fc_token := fc_token ctx; fc_initiator := fc_initiator ctx;
     fc_target := fc_target ctx; fc_state := fc_state ctx; last_active_ms := last_active_ms ctx;
     expires_at_ms := expires_at_ms ctx; bytes_forwarded := n;
     authorized_at_ms := authorized_at_ms ctx; rate_bucket := rate_bucket ctx |}.

Definition set_bucket (ctx : ForwardingContext) (b : RateBucket) : ForwardingContext :=
  {| fc_intent_id := fc_intent_id ctx; fc_token := fc_token ctx; fc_initiator := fc_initiator ctx;
     fc_target := fc_target ctx; fc_state := fc_state ctx; last_active_ms := last_active_ms ctx;
     expires_at_ms := expires_at_ms ctx; bytes_forwarded := bytes_forwarded ctx;
     authorized_at_ms := authorized_at_ms ctx; rate_bucket := b |}.

Definition set_contexts (t : ForwardingTable) (cs : gmap (list Z) ForwardingContext) : ForwardingTable :=
  {| contexts := cs; token_index := token_index t; failed_lookups := failed_lookups t;
     rate_limit_bytes_per_sec := rate_limit_bytes_per_sec t; session_expiry_ms := session_expiry_ms t |}.

Definition set_failed (t : ForwardingTable) (f : gmap IpAddr (Z * Z)) : ForwardingTable :=
  {| contexts := contexts t; token_index := token_index t; failed_lookups := f;
     rate_limit_bytes_per_sec := rate_limit_bytes_per_sec t; session_expiry_ms := session_expiry_ms t |}.

(** [contexts.get_mut(id)] and an assignment through it. *)
Definition put_ctx (t : ForwardingTable) (id : list Z) (ctx : ForwardingContext) : ForwardingTable :=
  set_contexts t (<[id := ctx]> (contexts t)).

(** ** Operations *)

(** [ForwardingTable::with_limits], [with_rate_limit] and [new]. *)
Definition with_limits (rate_limit session_expiry : Z) : ForwardingTable :=
  {| contexts := ∅; token_index := ∅; failed_lookups := ∅;
     rate_limit_bytes_per_sec := rate_limit; session_expiry_ms := session_expiry |}.

Definition with_rate_limit (rate_limit : Z) : ForwardingTable := with_limits rate_limit SESSION_EXPIRY_MS.

Definition table_new : ForwardingTable := with_rate_limit RATE_LIMIT_BYTES_PER_SEC.

Definition new_context (t : ForwardingTable) (now : Z) (intent_id token : list Z)
    (initiator_id target_id : DeviceId) : ForwardingContext :=
  {| fc_intent_id := intent_id;
     fc_token := token;
     fc_initiator := {| eb_device_id := initiator_id; eb_addr := None |};
     fc_target := {| eb_device_id := target_id; eb_addr := None |};
     fc_state := Authorized;
     last_active_ms := now;
     expires_at_ms := wrap 64 (now + session_expiry_ms t);
     bytes_forwarded := 0;
     authorized_at_ms := now;
     rate_bucket := {| tokens := f64_of (rate_limit_bytes_per_sec t); last_refill_ms := now |} |}.

Definition authorize_pair (t : ForwardingTable) (now : Z) (intent_id token : list Z)
    (initiator_id target_id : DeviceId) : ForwardingTable :=
  {| contexts := <[intent_id := new_context t now intent_id token initiator_id target_id]> (contexts t);
     token_index := <[token := intent_id]> (token_index t);
     failed_lookups := failed_lookups t;
     rate_limit_bytes_per_sec := rate_limit_bytes_per_sec t;
     session_expiry_ms := session_expiry_ms t |}.

Definition bound (e : EndpointBinding) : bool := bool_decide (is_Some (eb_addr e)).

Definition bind_endpoint (ctx : ForwardingContext) (now : Z) (device : DeviceId) (addr : SocketAddr) :
    option ForwardingContext :=
  let i := fc_initiator ctx in
  let t := fc_target ctx in
  let bind e := {| eb_device_id := eb_device_id e; eb_addr := Some addr |} in
  let advance ctx :=
    set_state (set_last_active ctx now)
      (if bound (fc_initiator ctx) && bound (fc_target ctx) then RelayActive else RelayRequested) in
  if decide (eb_device_id i = device) then Some (advance (set_bindings ctx (bind i) t))
  else if decide (eb_device_id t = device) then Some (advance (set_bindings ctx i (bind t)))
  else None.

Definition update_binding (t : ForwardingTable) (now : Z) (intent_id : list Z) (device : DeviceId)
    (addr : SocketAddr) : ForwardingTable * result string unit :=
  match contexts t !! intent_id with
  | None => (t, Err "Forwarding session not found"%string)
  | Some ctx =>
      if decide (fc_state ctx = RelayExpired \/ fc_state ctx = RelayClosed) then
        (t, Err "Cannot rebind a closed or expired forwarding session"%string)
      else if IDLE_TIMEOUT_MS <? sat_sub now (last_active_ms ctx) then
        (put_ctx t intent_id (set_state ctx RelayExpired), Err "Forwarding session has expired due to inactivity"%string)
      else if expires_at_ms ctx <=? now then
        (put_ctx t intent_id (set_state ctx RelayExpired), Err "Forwarding session has reached its absolute expiry"%string)
      else
        match bind_endpoint ctx now device addr with
        | None => (t, Err "Device is not part of this forwarding session"%string)
        | Some ctx => (put_ctx t intent_id ctx, Ok tt)
        end
  end.

(** The window test of the blocklist. *)
Definition in_window (now : Z) (entry : Z * Z) : bool :=
  sat_sub now entry.2 <=? BLOCKLIST_WINDOW_MS.

Definition record_failed_lookup (t : ForwardingTable) (ip : IpAddr) (now : Z) : ForwardingTable :=
  let failed := failed_lookups t in
  let failed :=
    if MAX_BLOCKLIST_ENTRIES <=? Z.of_nat (size failed) then
      filter (fun kv => in_window now kv.2 = true) failed
    else failed in
  let entry := default (0, now) (failed !! ip) in
  let entry := if in_window now entry then (wrap 64 (entry.1 + 1), entry.2) else (1, now) in
  set_failed t (<[ip := entry]> failed).

Definition is_blocklisted (t : ForwardingTable) (now : Z) (ip : IpAddr) : bool :=
  match failed_lookups t !! ip with
  | Some entry => (BLOCKLIST_THRESHOLD <=? entry.1) && in_window now entry
  | None => false
  end.

(** The bucket refilled to [now], capped at one second's worth. *)
Definition refill (t : ForwardingTable) (now : Z) (b : RateBucket) : RateBucket :=
  let limit := f64_of (rate_limit_bytes_per_sec t) in
  let elapsed_s := f64_div (f64_of (sat_sub now (last_refill_ms b))) (f64_of 1000) in
  {| tokens := f64_min (f64_add (tokens b) (f64_mul elapsed_s limit)) limit; last_refill_ms := now |}.

(** The rest of [get_destination] once the source is known to be one endpoint and
    [destination] the other: the rate limit and the accounting. *)
Definition charge (t : ForwardingTable) (now : Z) (intent_id : list Z) (ctx : ForwardingContext)
    (packet_len : Z) (destination : SocketAddr) : ForwardingTable * option SocketAddr :=
  let bucket := refill t now (rate_bucket ctx) in
  let ctx := set_bucket ctx bucket in
  if f64_lt (tokens bucket) (f64_of packet_len) then (put_ctx t intent_id ctx, None)
  else
    let ctx := set_bucket ctx
      {| tokens := f64_sub (tokens bucket) (f64_of packet_len);
         last_refill_ms := last_refill_ms bucket |} in
    let ctx := set_bytes ctx (wrap 64 (bytes_forwarded ctx + packet_len)) in
    (put_ctx t intent_id (set_last_active ctx now), Some destination).

Definition get_destination (t : ForwardingTable) (now : Z) (token : list Z) (source : SocketAddr)
    (packet_len : Z) : ForwardingTable * option SocketAddr :=
  if is_blocklisted t now (addr_ip source) then (t, None)
  else
    match token_index t !! token with
    | None => (record_failed_lookup t (addr_ip source) now, None)
    | Some intent_id =>
        match contexts t !! intent_id with
        | None => (t, None)
        | Some ctx =>
            let expire := (put_ctx t intent_id (set_state ctx RelayExpired), None) in
            if negb (bool_decide (fc_state ctx = RelayActive)) then (t, None)
            else if expires_at_ms ctx <=? now then expire
            else if SESSION_BYTE_CAP <=? bytes_forwarded ctx then expire
            else if IDLE_TIMEOUT_MS <? sat_sub now (last_active_ms ctx) then expire
            else
              match eb_addr (fc_initiator ctx), eb_addr (fc_target ctx) with
              | Some init_addr, Some targ_addr =>
                  if decide (source = init_addr) then charge t now intent_id ctx packet_len targ_addr
                  else if decide (source = targ_addr) then
                    charge t now intent_id ctx packet_len init_addr
                  else (t, None)
              | _, _ => (t, None)
              end
        end
    end.

Definition close (t : ForwardingTable) (intent_id : list Z) : ForwardingTable :=
  match contexts t !! intent_id with
  | Some ctx => put_ctx t intent_id (set_state ctx RelayClosed)
  | None => t
  end.

Definition is_terminal (s : ForwardingState) : bool :=
  match s with RelayExpired | RelayClosed => true | _ => false end.

(** The body of [sweep]'s first loop on one context. *)
Definition mark_expired (now : Z) (ctx : ForwardingContext) : ForwardingContext :=
  let idle_timed_out :=
    (match fc_state ctx with RelayActive => true | _ => false end) &&
    (IDLE_TIMEOUT_MS <? sat_sub now (last_active_ms ctx)) in
  let exchange_timed_out :=
    (match fc_state ctx with Authorized | RelayRequested => true | _ => false end) &&
    (EXCHANGE_TIMEOUT_MS <? sat_sub now (authorized_at_ms ctx)) in
  let absolute_expired := expires_at_ms ctx <=? now in
  if idle_timed_out || exchange_timed_out || absolute_expired then set_state ctx RelayExpired
  else ctx.

(** The body of [sweep]'s second loop. *)
Definition remove_context (s : gmap (list Z) ForwardingContext * gmap (list Z) (list Z)) (id : list Z) :
    gmap (list Z) ForwardingContext * gmap (list Z) (list Z) :=
  match s.1 !! id with
  | Some ctx => (delete id s.1, delete (fc_token ctx) s.2)
  | None => s
  end.

Definition sweep (t : ForwardingTable) (now : Z) : ForwardingTable * Z :=
  let marked := mark_expired now <$> contexts t in
  let to_remove := (filter (fun kv => is_terminal (fc_state kv.2) = true) (map_to_list marked)).*1 in
  let s := foldl remove_context (marked, token_index t) to_remove in
  ({| contexts := s.1; token_index := s.2; failed_lookups := failed_lookups t;
      rate_limit_bytes_per_sec := rate_limit_bytes_per_sec t;
      session_expiry_ms := session_expiry_ms t |},
   zlen to_remove).

Definition state_of (t : ForwardingTable) (intent_id : list Z) : option ForwardingState :=
  fc_state <$> contexts t !! intent_id.

Definition bytes_forwarded_of (t : ForwardingTable) (intent_id : list Z) : option Z :=
  bytes_forwarded <$> contexts t !! intent_id.

Definition set_bytes_forwarded (t : ForwardingTable) (intent_id : list Z) (bytes : Z) :
    ForwardingTable * bool :=
  match contexts t !! intent_id with
  | Some ctx => (put_ctx t intent_id (set_bytes ctx bytes), true)
  | None => (t, false)
  end.

(** ** Lookups by case *)

(** A context through which a packet of [source] goes to [destination] at [now]. *)
Record routable (now : Z) (ctx : ForwardingContext) (source destination : SocketAddr) : Prop := {
  routable_active : fc_state ctx = RelayActive;
  routable_expiry : now < expires_at_ms ctx;
  routable_cap : bytes_forwarded ctx < SESSION_BYTE_CAP;
  routable_idle : sat_sub now (last_active_ms ctx) <= IDLE_TIMEOUT_MS;
  routable_pair :
    (eb_addr (fc_initiator ctx) = Some source /\ eb_addr (fc_target ctx) = Some destination) \/
    (eb_addr (fc_initiator ctx) = Some destination /\ eb_addr (fc_target ctx) = Some source);
}.

(** The context after a packet was charged to it. *)
Definition charged (t : ForwardingTable) (now : Z) (ctx : ForwardingContext) (packet_len : Z) :
    ForwardingContext :=
  let bucket := refill t now (rate_bucket ctx) in
  set_last_active (set_bytes (set_bucket ctx
    {| tokens := f64_sub (tokens bucket) (f64_of packet_len); last_refill_ms := now |})
    (wrap 64 (bytes_forwarded ctx + packet_len))) now.

(** The ways a lookup can end. *)
Inductive lookup_case (t : ForwardingTable) (now : Z) (token : list Z) (source : SocketAddr)
    (packet_len : Z) : ForwardingTable * option SocketAddr -> Prop :=
| LookupDropped : lookup_case t now token source packet_len (t, None)
| LookupUnknown :
    is_blocklisted t now (addr_ip source) = false -> token_index t !! token = None ->
    lookup_case t now token source packet_len (record_failed_lookup t (addr_ip source) now, None)
| LookupExpired id ctx :
    contexts t !! id = Some ctx -> token_index t !! token = Some id -> fc_state ctx = RelayActive ->
    lookup_case t now token source packet_len (put_ctx t id (set_state ctx RelayExpired), None)
| LookupLimited id ctx :
    contexts t !! id = Some ctx -> token_index t !! token = Some id ->
    lookup_case t now token source packet_len
      (put_ctx t id (set_bucket ctx (refill t now (rate_bucket ctx))), None)
| LookupForwarded id ctx destination :
    contexts t !! id = Some ctx -> token_index t !! token = Some id ->
    is_blocklisted t now (addr_ip source) = false ->
    routable now ctx source destination ->
    f64_lt (tokens (refill t now (rate_bucket ctx))) (f64_of packet_len) = false ->
    lookup_case t now token source packet_len
      (put_ctx t id (charged t now ctx packet_len), Some destination).

Lemma get_destination_case t now token source packet_len :
  lookup_case t now token source packet_len (get_destination t now token source packet_len).
Proof.
  unfold get_destination, charge. destruct (is_blocklisted _ _ _) eqn:Hb; [constructor|].
  destruct (token_index t !! token) as [id|] eqn:Ht; [|by constructor].
  destruct (contexts t !! id) as [ctx|] eqn:Hc; [|constructor].
  case_bool_decide as Hs; cbn [negb]; [|constructor].
  destruct (Z.leb_spec (expires_at_ms ctx) now); [by econstructor|].
  destruct (Z.leb_spec SESSION_BYTE_CAP (bytes_forwarded ctx)); [by econstructor|].
  destruct (Z.ltb_spec IDLE_TIMEOUT_MS (sat_sub now (last_active_ms ctx))); [by econstructor|].
  destruct (eb_addr (fc_initiator ctx)) as [ia|] eqn:Hi; [|constructor].
  destruct (eb_addr (fc_target ctx)) as [ta|] eqn:Hta; [|constructor].
  repeat case_decide; [..|constructor]; subst.
  all: destruct (f64_lt _ _) eqn:Hlt; [by econstructor|].
  all: eapply (LookupForwarded _ _ _ _ _ id ctx); [done..| |done]; split; auto.
Qed.

(** [get_destination] succeeds whenever the packet may pass. *)
Lemma get_destination_forwards t now token source packet_len id ctx destination :
  is_blocklisted t now (addr_ip source) = false ->
  token_index t !! token = Some id -> contexts t !! id = Some ctx ->
  routable now ctx source destination ->
  f64_lt (tokens (refill t now (rate_bucket ctx))) (f64_of packet_len) = false ->
  get_destination t now token source packet_len =
    (put_ctx t id (charged t now ctx packet_len), Some destination).
Proof.
  intros Hb Ht Hc [Hs He Hcap Hidle Hpair] Hlt.
  unfold get_destination, charge. rewrite Hb, Ht, Hc, bool_decide_eq_true_2 by done. cbn [negb].
  rewrite (proj2 (Z.leb_gt _ _)), (proj2 (Z.leb_gt _ _)), (proj2 (Z.ltb_ge _ _)) by lia.
  destruct Hpair as [[-> ->]|[-> ->]]; repeat case_decide; simplify_eq; by rewrite Hlt.
Qed.

(** ** Sequences of operations *)

Inductive FwdOp : Type :=
| Authorize (now : Z) (intent_id token : list Z) (initiator_id target_id : DeviceId)
| Bind (now : Z) (intent_id : list Z) (device : DeviceId) (addr : SocketAddr)
| Lookup (now : Z) (token : list Z) (source : SocketAddr) (packet_len : Z)
| Close (intent_id : list Z)
| Sweep (now : Z).

Definition step_op (t : ForwardingTable) (op : FwdOp) : ForwardingTable :=
  match op with
  | Authorize now id token i g => authorize_pair t now id token i g
  | Bind now id device addr => (update_binding t now id device addr).1
  | Lookup now token source len => (get_destination t now token source len).1
  | Close id => close t id
  | Sweep now => (sweep t now).1
  end.

Definition run_ops (t : ForwardingTable) (ops : list FwdOp) : ForwardingTable := foldl step_op t ops.

(** The context a lookup forwards through, with the length it charges. *)
Definition forwarded (t : ForwardingTable) (op : FwdOp) : option (list Z * Z) :=
  match op with
  | Lookup now token source len =>
      match (get_destination t now token source len).2 with
      | Some _ => (fun id => (id, len)) <$> token_index t !! token
      | None => None
      end
  | _ => None
  end.

Definition authorizes (id : list Z) (op : FwdOp) : bool :=
  match op with
  | Authorize _ id' _ _ _ => bool_decide (id = id')
  | _ => false
  end.

(** The bytes that a sequence of operations forwards through context [id]. *)
Fixpoint delivered (id : list Z) (t : ForwardingTable) (ops : list FwdOp) : Z :=
  match ops with
  | [] => 0
  | op :: ops =>
      match forwarded t op with
      | Some (id', len) => if decide (id = id') then len else 0
      | None => 0
      end + delivered id (step_op t op) ops
  end.

(** ** Sweeping *)

(** A context that may still forward: not ended, before its expiry, and within the
    timeout of its state. *)
Definition live (now : Z) (ctx : ForwardingContext) : Prop :=
  now < expires_at_ms ctx /\
  match fc_state ctx with
  | RelayActive => sat_sub now (last_active_ms ctx) <= IDLE_TIMEOUT_MS
  | Authorized | RelayRequested => sat_sub now (authorized_at_ms ctx) <= EXCHANGE_TIMEOUT_MS
  | RelayExpired | RelayClosed => False
  end.

#[global] Instance live_dec now ctx : Decision (live now ctx).
Proof. unfold live. destruct (fc_state ctx); apply _. Defined.

Lemma terminal_live now ctx :
  is_terminal (fc_state (mark_expired now ctx)) = false <-> live now ctx.
Proof.
  unfold mark_expired, live, is_terminal.
  destruct (fc_state ctx) eqn:Hs, (Z.leb_spec (expires_at_ms ctx) now); cbn;
    rewrite ?orb_true_r, ?orb_false_r; cbn; try case_bool_step; cbn; rewrite ?Hs; cbn;
    (split; [intros Hf|intros [? ?]]); first [done|lia|split; lia].
Qed.

Lemma mark_live now ctx : live now ctx -> mark_expired now ctx = ctx.
Proof.
  unfold mark_expired, live.
  destruct (fc_state ctx) eqn:Hs, (Z.leb_spec (expires_at_ms ctx) now); cbn;
    rewrite ?orb_true_r, ?orb_false_r; try case_bool_step; try done; lia.
Qed.

Lemma mark_token now ctx : fc_token (mark_expired now ctx) = fc_token ctx.
Proof. unfold mark_expired. by case_match. Qed.

Lemma remove_contexts_lookup ids s id :
  (foldl remove_context s ids).1 !! id = if decide (id ∈ ids) then None else s.1 !! id.
Proof.
  revert s. induction ids as [|i ids IH]; intros s; cbn [foldl]; [done|].
  rewrite IH. unfold remove_context. destruct (decide (id = i)) as [->|Hne].
  - rewrite (decide_True (P := i ∈ i :: ids)) by left. case_decide; [done|].
    destruct (s.1 !! i) eqn:Hi; [by simplify_map_eq|done].
  - destruct (decide (id ∈ ids)) as [Hin|Hnin].
    + by rewrite decide_True by (by right).
    + rewrite decide_False by (rewrite elem_of_cons; tauto).
      destruct (s.1 !! i); [by simplify_map_eq|done].
Qed.

Lemma remove_contexts_index ids s token v :
  (foldl remove_context s ids).2 !! token = Some v <->
  s.2 !! token = Some v /\ forall id ctx, id ∈ ids -> s.1 !! id = Some ctx -> fc_token ctx <> token.
Proof.
  revert s. induction ids as [|i ids IH]; intros s; cbn [foldl].
  { split; [|tauto]. intros Hs. split; [done|]. intros ? ? []%not_elem_of_nil. }
  rewrite IH. unfold remove_context. destruct (s.1 !! i) as [ci|] eqn:Hi; cbn [fst snd].
  - rewrite lookup_delete_Some. split.
    + intros [[Hne Hv] Hids]. split; [done|]. intros id ctx [->|Hin]%elem_of_cons Hc; [congruence|].
      destruct (decide (id = i)) as [->|]; [congruence|]. apply (Hids id); [done|]. by simplify_map_eq.
    + intros [Hv Hids]. split; [split; [apply (Hids i ci); [left|done]|done]|].
      intros id ctx Hin [_ Hc]%lookup_delete_Some. apply (Hids id); [by right|done].
  - split; intros [Hv Hids]; (split; [done|]); intros id ctx Hin Hc.
    + apply elem_of_cons in Hin as [->|Hin]; [congruence|]. by apply (Hids id).
    + apply (Hids id); [by right|done].
Qed.

Lemma elem_of_swept t now id :
  id ∈ (filter (fun kv => is_terminal (fc_state kv.2) = true)
          (map_to_list (mark_expired now <$> contexts t))).*1 <->
  exists ctx, contexts t !! id = Some ctx /\ ~ live now ctx.
Proof.
  rewrite list_elem_of_fmap. setoid_rewrite list_elem_of_filter. split.
  - intros ([i c] & -> & Ht & Hin). apply elem_of_map_to_list in Hin. cbn in *.
    apply lookup_fmap_Some in Hin as (ctx & <- & Hc). exists ctx. split; [done|].
    intros Hl%terminal_live. congruence.
  - intros (ctx & Hc & Hl). exists (id, mark_expired now ctx). split; [done|]. cbn. split.
    + destruct (is_terminal _) eqn:Ht; [done|]. by apply terminal_live in Ht.
    + apply elem_of_map_to_list. by rewrite lookup_fmap, Hc.
Qed.

Lemma sweep_context t now id ctx :
  contexts (sweep t now).1 !! id = Some ctx <-> contexts t !! id = Some ctx /\ live now ctx.
Proof.
  cbn [sweep contexts fst]. rewrite remove_contexts_lookup. cbn [fst].
  case_decide as Hin; rewrite elem_of_swept in Hin.
  - split; [done|]. destruct Hin as (ctx' & Hc & Hl). intros [? ?]. congruence.
  - rewrite lookup_fmap_Some. split.
    + intros (c & <- & Hc). destruct (decide (live now c)) as [Hl|Hl].
      * by rewrite mark_live.
      * destruct Hin. eauto.
    + intros [Hc Hl]. exists ctx. split; [|done]. by apply mark_live.
Qed.

Lemma sweep_token t now token v :
  token_index (sweep t now).1 !! token = Some v <->
  token_index t !! token = Some v /\
  forall id ctx, contexts t !! id = Some ctx -> fc_token ctx = token -> live now ctx.
Proof.
  cbn [sweep token_index fst]. rewrite remove_contexts_index. cbn [fst snd].
  split; intros [Hv Hall]; (split; [done|]); intros id ctx.
  - intros Hc Htok. destruct (decide (live now ctx)) as [|Hl]; [done|]. exfalso.
    apply (Hall id (mark_expired now ctx)).
    + rewrite elem_of_swept. eauto.
    + by rewrite lookup_fmap, Hc.
    + by rewrite mark_token.
  - rewrite elem_of_swept. intros (c & Hc & Hl) Hm Htok.
    rewrite lookup_fmap, Hc in Hm. injection Hm as <-.
    rewrite mark_token in Htok. by apply Hl, (Hall id).
Qed.

(** ** How one context evolves *)

(** What an operation other than its authorization does to a context: its pair and
    its expiry stay, an end is final, and its counter moves by what is forwarded. *)
Record evolves (fwd : option Z) (ctx ctx' : ForwardingContext) : Prop := {
  evolves_initiator : eb_device_id (fc_initiator ctx') = eb_device_id (fc_initiator ctx);
  evolves_target : eb_device_id (fc_target ctx') = eb_device_id (fc_target ctx);
  evolves_expiry : expires_at_ms ctx' = expires_at_ms ctx;
  evolves_end : is_terminal (fc_state ctx) = true -> is_terminal (fc_state ctx') = true;
  evolves_bytes : bytes_forwarded ctx' =
    match fwd with Some len => wrap 64 (bytes_forwarded ctx + len) | None => bytes_forwarded ctx end;
}.

Lemma evolves_refl ctx : evolves None ctx ctx.
Proof. by constructor. Qed.

Lemma evolves_state ctx s : (is_terminal (fc_state ctx) = true -> is_terminal s = true) ->
  evolves None ctx (set_state ctx s).
Proof. by constructor. Qed.

#[local] Hint Resolve evolves_refl evolves_state : bw.

Definition charge_to (id : list Z) (f : option (list Z * Z)) : option Z :=
  match f with Some (id', len) => if decide (id = id') then Some len else None | None => None end.

Lemma put_ctx_lookup t id ctx id' ctx' :
  contexts (put_ctx t id ctx) !! id' = Some ctx' ->
  id = id' /\ ctx = ctx' \/ id <> id' /\ contexts t !! id' = Some ctx'.
Proof. unfold put_ctx, set_contexts. cbn [contexts]. rewrite lookup_insert_Some. tauto. Qed.

Lemma update_binding_evolves t now i device addr id ctx' :
  contexts (update_binding t now i device addr).1 !! id = Some ctx' ->
  exists ctx, contexts t !! id = Some ctx /\ evolves None ctx ctx'.
Proof.
  unfold update_binding. destruct (contexts t !! i) as [c|] eqn:Hc; [|eauto with bw].
  repeat case_match; simplify_eq; cbn [fst]; intros Hp; [eauto with bw|..].
  all: try (eauto with bw; fail).
  all: apply put_ctx_lookup in Hp as [[-> <-]|[_ Hp]]; [|eauto with bw].
  all: exists c; split; [done|]; try (apply evolves_state; done).
  all: unfold bind_endpoint in *; repeat case_decide; simplify_eq; constructor; try done; cbn.
  all: intros Ht; exfalso; destruct (fc_state c); naive_solver.
Qed.

Lemma step_evolves t op id ctx' :
  authorizes id op = false -> contexts (step_op t op) !! id = Some ctx' ->
  exists ctx, contexts t !! id = Some ctx /\ evolves (charge_to id (forwarded t op)) ctx ctx'.
Proof.
  destruct op as [now i tok a b|now i dev addr|now tok src len|i|now]; cbn [authorizes step_op forwarded charge_to].
  - rewrite bool_decide_eq_false. intros Hne. cbn. rewrite lookup_insert_ne by done. eauto with bw.
  - intros _. apply update_binding_evolves.
  - intros _. pose proof (get_destination_case t now tok src len) as Hcase.
    destruct (get_destination t now tok src len) as [t' r].
    inversion Hcase as [|Hb Ht|i c Hc Ht|i c Hc Ht|i c d Hc Ht Hb Hr Hl]; subst; cbn [fst snd charge_to]; try (eauto with bw; fail).
    + intros [[-> <-]|[_ Hp]]%put_ctx_lookup; eauto with bw.
    + intros [[-> <-]|[_ Hp]]%put_ctx_lookup; [|eauto with bw]. exists c. split; [done|]. by constructor.
    + rewrite Ht. cbn [fmap option_fmap option_map charge_to].
      intros [[-> <-]|[Hne Hp]]%put_ctx_lookup.
      * rewrite decide_True by done. exists c. split; [done|]. by constructor.
      * rewrite decide_False by done. eauto with bw.
  - intros _. unfold close. destruct (contexts t !! i) as [c|] eqn:Hc; [|eauto with bw].
    intros [[-> <-]|[_ Hp]]%put_ctx_lookup; eauto with bw.
  - intros _ [Hc _]%sweep_context. eauto with bw.
Qed.

(** What a forwarding lookup found. *)
Lemma forwarded_ctx t op id len : forwarded t op = Some (id, len) ->
  exists now token source destination ctx, op = Lookup now token source len /\
    token_index t !! token = Some id /\ contexts t !! id = Some ctx /\
    routable now ctx source destination /\
    get_destination t now token source len = (put_ctx t id (charged t now ctx len), Some destination).
Proof.
  destruct op as [| |now tok src l| |]; try done. cbn [forwarded].
  pose proof (get_destination_case t now tok src l) as Hcase.
  destruct (get_destination t now tok src l) as [t' r] eqn:Hg.
  inversion Hcase as [| | | |i c d Hc Ht Hb Hr Hl]; subst; try done. cbn [snd]. rewrite Ht. intros [= <- <-].
  eexists now, tok, src, d, c. done.
Qed.

(** ** The endpoints of a context *)

Definition same_endpoints (ctx ctx' : ForwardingContext) : Prop :=
  fc_initiator ctx' = fc_initiator ctx /\ fc_target ctx' = fc_target ctx.

(** Binding [device] to [addr] sets one endpoint's address. *)
Definition rebound (device : DeviceId) (addr : SocketAddr) (ctx ctx' : ForwardingContext) : Prop :=
  let bind e := {| eb_device_id := eb_device_id e; eb_addr := Some addr |} in
  eb_device_id (fc_initiator ctx) = device /\
    fc_initiator ctx' = bind (fc_initiator ctx) /\ fc_target ctx' = fc_target ctx \/
  eb_device_id (fc_initiator ctx) <> device /\ eb_device_id (fc_target ctx) = device /\
    fc_initiator ctx' = fc_initiator ctx /\ fc_target ctx' = bind (fc_target ctx).

Lemma update_binding_endpoints t now i device addr id ctx' :
  contexts (update_binding t now i device addr).1 !! id = Some ctx' ->
  exists ctx, contexts t !! id = Some ctx /\
    (same_endpoints ctx ctx' \/ id = i /\ rebound device addr ctx ctx').
Proof.
  unfold update_binding, same_endpoints. destruct (contexts t !! i) as [c|] eqn:Hc; [|eauto].
  case_decide; [eauto|].
  destruct (_ <? _); [intros [[-> <-]|[_ Hp]]%put_ctx_lookup; by eauto|].
  destruct (_ <=? _); [intros [[-> <-]|[_ Hp]]%put_ctx_lookup; by eauto|].
  unfold bind_endpoint. repeat case_decide; cbn [fst]; [..|eauto].
  all: intros [[-> <-]|[_ Hp]]%put_ctx_lookup; [|eauto]; exists c; split; [done|]; right; split; [done|].
  - by left.
  - by right.
Qed.

(** No other operation than authorizing and binding changes an endpoint. *)
Lemma step_endpoints t op id ctx' :
  match op with Authorize _ _ _ _ _ | Bind _ _ _ _ => False | _ => True end ->
  contexts (step_op t op) !! id = Some ctx' ->
  exists ctx, contexts t !! id = Some ctx /\ same_endpoints ctx ctx'.
Proof.
  unfold same_endpoints.
  destruct op as [now i tok a b|now i dev addr|now tok src len|i|now]; intros Hop; cbn [step_op]; try done.
  - pose proof (get_destination_case t now tok src len) as Hcase.
    destruct (get_destination t now tok src len) as [t' r].
    inversion Hcase as [|Hb Ht|i c Hc Ht|i c Hc Ht|i c d Hc Ht Hb Hr Hl]; subst; cbn [fst]; eauto.
    all: intros [[-> <-]|[_ Hp]]%put_ctx_lookup; eauto.
  - unfold close. destruct (contexts t !! i) as [c|] eqn:Hc; [|eauto].
    intros [[-> <-]|[_ Hp]]%put_ctx_lookup; eauto.
  - intros [Hc _]%sweep_context. eauto.
Qed.

Lemma update_binding_ok t now id device addr ctx ctx' :
  contexts t !! id = Some ctx -> is_terminal (fc_state ctx) = false ->
  sat_sub now (last_active_ms ctx) <= IDLE_TIMEOUT_MS -> now < expires_at_ms ctx ->
  bind_endpoint ctx now device addr = Some ctx' ->
  update_binding t now id device addr = (put_ctx t id ctx', Ok tt).
Proof.
  intros Hc Hs Hi He Hb. unfold update_binding. rewrite Hc.
  rewrite decide_False by (intros [Hst|Hst]; by rewrite Hst in Hs).
  rewrite (proj2 (Z.ltb_ge _ _)), (proj2 (Z.leb_gt _ _)) by done. by rewrite Hb.
Qed.

(** ** Ended contexts *)

Definition ended (t : ForwardingTable) (id : list Z) : Prop :=
  forall ctx, contexts t !! id = Some ctx -> is_terminal (fc_state ctx) = true.

Lemma step_ended t op id : authorizes id op = false -> ended t id -> ended (step_op t op) id.
Proof.
  intros Ha He ctx' Hc. destruct (step_evolves _ _ _ _ Ha Hc) as (ctx & Hctx & Hev).
  apply (evolves_end _ _ _ Hev), He, Hctx.
Qed.

Lemma ended_forwards_nothing t op id len : ended t id -> forwarded t op <> Some (id, len).
Proof.
  intros He (now & tok & src & dst & ctx & -> & _ & Hc & Hr & _)%forwarded_ctx.
  apply He in Hc. by rewrite (routable_active _ _ _ _ Hr) in Hc.
Qed.

Lemma run_ended ops t id : Forall (fun op => authorizes id op = false) ops -> ended t id ->
  ended (run_ops t ops) id.
Proof.
  intros HF. revert t. induction HF as [|op ops Ha _ IH]; intros t He; [done|].
  apply IH. by apply step_ended.
Qed.

(** Revocation is final: once a context is closed, expired or removed, no packet
    is forwarded through it and it never becomes active again, whatever operations
    follow, until the same intent is authorized anew; [close] ends a context. *)
Theorem ended_is_final t id ops :
  ended (close t id) id /\
  (ended t id -> Forall (fun op => authorizes id op = false) ops ->
   delivered id t ops = 0 /\ state_of (run_ops t ops) id <> Some RelayActive).
Proof.
  split.
  - intros ctx. unfold close. destruct (contexts t !! id) as [c|] eqn:Hc; [|congruence].
    intros [[_ <-]|[? _]]%put_ctx_lookup; done.
  - intros He HF. split.
    + revert t He. induction HF as [|op ops Ha _ IH]; intros t He; [done|]. cbn [delivered].
      rewrite (IH _ (step_ended _ _ _ Ha He)).
      destruct (forwarded t op) as [[id' len]|] eqn:Hf; [|done]. case_decide; [subst|done].
      by apply ended_forwards_nothing in Hf.
    + unfold state_of. intros (ctx & Hc & Hs)%fmap_Some.
      apply (run_ended ops t id HF He) in Hc. by rewrite <- Hs in Hc.
Qed.

(** ** Limits of one authorization *)

(** The largest packet of a sequence of lookups is [max] bytes. *)
Definition packets_within (max : Z) (op : FwdOp) : Prop :=
  match op with Lookup _ _ _ len => 0 <= len <= max | _ => True end.

Lemma delivered_cap max ops t id :
  0 <= max <= 2 ^ 64 - SESSION_BYTE_CAP ->
  Forall (fun op => authorizes id op = false) ops -> Forall (packets_within max) ops ->
  match contexts t !! id with
  | Some ctx => 0 <= bytes_forwarded ctx ->
      delivered id t ops <= Z.max 0 (SESSION_BYTE_CAP + max - 1 - bytes_forwarded ctx)
  | None => delivered id t ops = 0
  end.
Proof.
  intros Hmax HF. revert t. induction HF as [|op ops Ha HF IH]; intros t HP.
  { destruct (contexts t !! id); cbn [delivered]; lia. }
  apply Forall_cons_1 in HP as [Hop HP]. specialize (IH (step_op t op) HP). cbn [delivered].
  pose proof (step_evolves t op id) as Hev.
  destruct (contexts t !! id) as [ctx|] eqn:Hc.
  - intros Hb. destruct (forwarded t op) as [[id' len]|] eqn:Hf; [destruct (decide (id = id')) as [<-|]|].
    + destruct (forwarded_ctx _ _ _ _ Hf) as (now & tok & src & dst & c & -> & _ & Hc' & Hr & _).
      rewrite Hc in Hc'. injection Hc' as <-. pose proof (routable_cap _ _ _ _ Hr). cbn in Hop.
      destruct (contexts (step_op t _) !! id) as [ctx'|]; [|lia].
      destruct (Hev _ Ha eq_refl) as (? & [= <-] & Hv). pose proof (evolves_bytes _ _ _ Hv) as Hbytes.
      cbn [charge_to] in Hbytes. rewrite decide_True, wrap_small in Hbytes by (done || (unfold uint; lia)).
      lia.
    + destruct (contexts (step_op t _) !! id) as [ctx'|]; [|lia].
      destruct (Hev _ Ha eq_refl) as (? & [= <-] & Hv). pose proof (evolves_bytes _ _ _ Hv) as Hbytes.
      cbn [charge_to] in Hbytes. rewrite decide_False in Hbytes by done. lia.
    + destruct (contexts (step_op t _) !! id) as [ctx'|]; [|lia].
      destruct (Hev _ Ha eq_refl) as (? & [= <-] & Hv). pose proof (evolves_bytes _ _ _ Hv) as Hbytes.
      cbn [charge_to] in Hbytes. lia.
  - destruct (contexts (step_op t op) !! id) as [ctx'|].
    { destruct (Hev _ Ha eq_refl) as (? & ? & _). done. }
    rewrite IH. destruct (forwarded t op) as [[id' len]|] eqn:Hf; [|done]. case_decide; [subst|done].
    destruct (forwarded_ctx _ _ _ _ Hf) as (? & ? & ? & ? & c & _ & _ & Hc' & _). congruence.
Qed.

(** After any operations that do not authorize it anew a context has the expiry and
    the pair it was authorized with. *)
Lemma run_evolves ops t id ctx' :
  Forall (fun op => authorizes id op = false) ops -> contexts (run_ops t ops) !! id = Some ctx' ->
  exists ctx, contexts t !! id = Some ctx /\ expires_at_ms ctx' = expires_at_ms ctx /\
    eb_device_id (fc_initiator ctx') = eb_device_id (fc_initiator ctx) /\
    eb_device_id (fc_target ctx') = eb_device_id (fc_target ctx).
Proof.
  intros HF. revert t. induction HF as [|op ops Ha _ IH]; intros t Hc; [eauto|].
  apply IH in Hc as (c & Hc & -> & -> & ->).
  destruct (step_evolves _ _ _ _ Ha Hc) as (ctx & Hctx & [Hi Ht He _ _]). exists ctx. by rewrite Hi, Ht, He.
Qed.

(** C25.  The limits of one authorization: whatever operations follow, a context
    forwards fewer bytes in total than the cap plus one packet, and nothing at or
    after the end of the session's lifetime, counted from the authorization. *)
Theorem session_limits t t0 id token initiator target ops max :
  0 <= max <= 2 ^ 64 - SESSION_BYTE_CAP ->
  Forall (fun op => authorizes id op = false) ops -> Forall (packets_within max) ops ->
  let t1 := authorize_pair t t0 id token initiator target in
  delivered id t1 ops < SESSION_BYTE_CAP + max /\
  forall pre now tok source len post,
    ops = pre ++ Lookup now tok source len :: post ->
    forwarded (run_ops t1 pre) (Lookup now tok source len) = Some (id, len) ->
    now < wrap 64 (t0 + session_expiry_ms t).
Proof.
  intros Hmax HF HP t1. split.
  - pose proof (delivered_cap max ops t1 id Hmax HF HP) as Hd.
    unfold t1 in Hd at 1. unfold authorize_pair in Hd at 1. cbn [contexts] in Hd.
    rewrite lookup_insert_eq in Hd. cbn [new_context bytes_forwarded] in Hd. unfold SESSION_BYTE_CAP in *. lia.
  - intros pre now tok source len post -> Hf.
    apply Forall_app in HF as [HF _].
    apply forwarded_ctx in Hf as (n & tk & src & dst & ctx & [= <- <- <-] & _ & Hc & Hr & _).
    apply run_evolves in Hc as (c & Hc & He & _); [|done].
    unfold t1, authorize_pair in Hc. cbn [contexts] in Hc. rewrite lookup_insert_eq in Hc. injection Hc as <-.
    pose proof (routable_expiry _ _ _ _ Hr). rewrite He in *. done.
Qed.

(** ** Guessing tokens *)

(** A lookup from [ip] of a token that is not in the table, which the blocklist lets
    through. *)
Definition is_guess (ip : IpAddr) (t : ForwardingTable) (op : FwdOp) : bool :=
  match op with
  | Lookup now token source _ =>
      bool_decide (addr_ip source = ip) && negb (is_blocklisted t now ip) &&
      bool_decide (token_index t !! token = None)
  | _ => false
  end.

Fixpoint guesses (ip : IpAddr) (t : ForwardingTable) (ops : list FwdOp) : Z :=
  match ops with
  | [] => 0
  | op :: ops => (if is_guess ip t op then 1 else 0) + guesses ip (step_op t op) ops
  end.

Definition lookups_within (a b : Z) (op : FwdOp) : Prop :=
  match op with Lookup now _ _ _ => a <= now <= b | _ => True end.

(** Every count lies between one and the threshold. *)
Definition blocklist_ok (t : ForwardingTable) : Prop :=
  forall ip entry, failed_lookups t !! ip = Some entry -> 1 <= entry.1 <= BLOCKLIST_THRESHOLD.

(** How many more guesses an entry leaves in the interval that ends at [b]: what is
    left of its own window, and one more window if that one ends before [b]. *)
Definition guesses_left (b : Z) (entry : option (Z * Z)) : Z :=
  match entry with
  | None => BLOCKLIST_THRESHOLD
  | Some (c, s) =>
      BLOCKLIST_THRESHOLD - c + (if s + BLOCKLIST_WINDOW_MS <? b then BLOCKLIST_THRESHOLD else 0)
  end.

Lemma put_ctx_failed t id ctx : failed_lookups (put_ctx t id ctx) = failed_lookups t.
Proof. done. Qed.

(** Only a guess changes the counts. *)
Lemma step_failed t op :
  failed_lookups (step_op t op) = failed_lookups t /\ (forall ip, is_guess ip t op = false) \/
  exists now token source len, op = Lookup now token source len /\
    is_blocklisted t now (addr_ip source) = false /\
    failed_lookups (step_op t op) = failed_lookups (record_failed_lookup t (addr_ip source) now) /\
    (forall ip, is_guess ip t op = bool_decide (addr_ip source = ip)).
Proof.
  destruct op as [now i tok a b|now i dev addr|now tok src len|i|now]; cbn [step_op is_guess]; auto.
  - left. split; [|done]. unfold update_binding. repeat case_match; done.
  - destruct (is_blocklisted t now (addr_ip src)) eqn:Hb.
    + left. unfold get_destination. rewrite Hb. split; [done|]. intros ip.
      case_bool_decide; [subst; by rewrite Hb|done].
    + destruct (token_index t !! tok) as [id|] eqn:Ht.
      * left. split.
        -- pose proof (get_destination_case t now tok src len) as Hcase.
           destruct (get_destination t now tok src len) as [t' r]. inversion Hcase; subst; cbn [fst]; congruence || done.
        -- intros ip. by rewrite andb_false_r.
      * right. exists now, tok, src, len. unfold get_destination. rewrite Hb, Ht. split_and!; try done.
        intros ip. rewrite andb_true_r. case_bool_decide; [subst; by rewrite Hb|done].
  - left. unfold close. by case_match.
Qed.

(** The entry of [ip] after a failed lookup from [ip'] at [now]. *)
Lemma record_failed_entry t ip ip' now :
  exists kept,
    (kept = failed_lookups t !! ip \/
     kept = None /\ exists entry, failed_lookups t !! ip = Some entry /\ in_window now entry = false) /\
    failed_lookups (record_failed_lookup t ip' now) !! ip =
      if decide (ip = ip') then
        let entry := default (0, now) kept in
        Some (if in_window now entry then (wrap 64 (entry.1 + 1), entry.2) else (1, now))
      else kept.
Proof.
  unfold record_failed_lookup. set (failed := if _ <=? _ then _ else _).
  exists (failed !! ip). split.
  - subst failed. case_bool_step; [|by left].
    destruct (failed_lookups t !! ip) as [entry|] eqn:He.
    + destruct (in_window now entry) eqn:Hw.
      * left. by apply map_lookup_filter_Some_2.
      * right. split; [|by eauto]. apply map_lookup_filter_None. right. intros e. rewrite He.
        intros [= <-]. cbn. congruence.
    + left. apply map_lookup_filter_None. by left.
  - cbn [set_failed failed_lookups]. case_decide as Hd; [subst; by rewrite lookup_insert_eq|].
    by rewrite lookup_insert_ne.
Qed.

Lemma in_window_new now : in_window now (0, now) = true.
Proof. apply Z.leb_le. unfold sat_sub, BLOCKLIST_WINDOW_MS. cbn. lia. Qed.

(** The new entry of an address whose guess was let through. *)
Lemma guess_entry t ip now : blocklist_ok t -> is_blocklisted t now ip = false ->
  let entry' := failed_lookups (record_failed_lookup t ip now) !! ip in
  entry' = Some (1, now) /\
    (forall c s, failed_lookups t !! ip = Some (c, s) -> s + BLOCKLIST_WINDOW_MS < now) \/
  exists c s, failed_lookups t !! ip = Some (c, s) /\ entry' = Some (c + 1, s) /\ c < BLOCKLIST_THRESHOLD.
Proof.
  intros Hok Hnb entry'. subst entry'. destruct (record_failed_entry t ip ip now) as (kept & Hkept & ->).
  rewrite decide_True by done. cbv zeta. unfold is_blocklisted in Hnb.
  assert (forall e, in_window now e = false -> e.2 + BLOCKLIST_WINDOW_MS < now) as Hout.
  { intros e. unfold in_window, sat_sub, BLOCKLIST_WINDOW_MS. rewrite Z.leb_gt. lia. }
  destruct Hkept as [->|[-> (e & He & Hw)]].
  - destruct (failed_lookups t !! ip) as [[c s]|] eqn:He; cbn [default from_option]; unfold id.
    + destruct (in_window now (c, s)) eqn:Hw.
      * right. exists c, s. rewrite andb_true_r in Hnb. apply Z.leb_gt in Hnb.
        pose proof (Hok _ _ He) as Hc. cbn [fst snd] in *.
        rewrite wrap_small by (unfold uint, BLOCKLIST_THRESHOLD in *; lia). done.
      * left. split; [done|]. intros c' s' [= <- <-]. exact (Hout _ Hw).
    + left. rewrite in_window_new. split; [done|]. by intros.
  - left. cbn [default from_option]. rewrite in_window_new. split; [done|]. rewrite He. intros c s [= ->]. exact (Hout _ Hw).
Qed.

Lemma step_blocklist_ok t op : blocklist_ok t -> blocklist_ok (step_op t op).
Proof.
  intros Hok ip entry.
  destruct (step_failed t op) as [[-> _]|(now & tok & src & len & -> & Hb & -> & _)]; [apply Hok|].
  destruct (decide (ip = addr_ip src)) as [->|Hne].
  - destruct (guess_entry t (addr_ip src) now Hok Hb) as [[-> _]|(c & s & He & -> & Hlt)]; intros [= <-]; cbn.
    + unfold BLOCKLIST_THRESHOLD. lia.
    + apply Hok in He. cbn in He. lia.
  - destruct (record_failed_entry t ip (addr_ip src) now) as (kept & Hkept & ->). rewrite decide_False by done.
    destruct Hkept as [->|[-> _]]; [apply Hok|done].
Qed.

Lemma guesses_left_pos b t ip : blocklist_ok t -> 0 <= guesses_left b (failed_lookups t !! ip).
Proof.
  intros Hok. destruct (failed_lookups t !! ip) as [[c s]|] eqn:He; cbn [guesses_left]; [|done].
  apply Hok in He. cbn [fst] in He. case_bool_step; unfold BLOCKLIST_THRESHOLD in *; lia.
Qed.

(** An entry whose window ended before [b] leaves at least as much as none. *)
Lemma guesses_left_restart b t ip : blocklist_ok t ->
  (forall c s, failed_lookups t !! ip = Some (c, s) -> s + BLOCKLIST_WINDOW_MS < b) ->
  BLOCKLIST_THRESHOLD <= guesses_left b (failed_lookups t !! ip).
Proof.
  intros Hok Hout. destruct (failed_lookups t !! ip) as [[c s]|] eqn:He; cbn [guesses_left]; [|done].
  rewrite (proj2 (Z.ltb_lt _ _)) by eauto. apply Hok in He. cbn in He. lia.
Qed.

Lemma guesses_potential a ip ops t :
  blocklist_ok t -> Forall (lookups_within a (a + BLOCKLIST_WINDOW_MS)) ops ->
  guesses ip t ops <= guesses_left (a + BLOCKLIST_WINDOW_MS) (failed_lookups t !! ip).
Proof.
  intros Hok HF. revert t Hok. induction HF as [|op ops Hop _ IH]; intros t Hok; [by apply guesses_left_pos|].
  cbn [guesses]. specialize (IH _ (step_blocklist_ok t op Hok)).
  destruct (step_failed t op) as [[Hsame ->]|(now & tok & src & len & -> & Hb & Hrec & ->)].
  { rewrite Hsame in IH. lia. }
  rewrite Hrec in IH. cbn in Hop. case_bool_decide as Hip.
  - subst ip. destruct (guess_entry t (addr_ip src) now Hok Hb) as [[He Hout]|(c & s & Hold & He & Hlt)]; rewrite He in IH.
    + pose proof (guesses_left_restart (a + BLOCKLIST_WINDOW_MS) t (addr_ip src) Hok) as Hl.
      cbn [guesses_left] in IH. rewrite (proj2 (Z.ltb_ge _ _)) in IH by lia.
      assert (BLOCKLIST_THRESHOLD <= guesses_left (a + BLOCKLIST_WINDOW_MS) (failed_lookups t !! addr_ip src)); [|lia].
      apply Hl. intros c s Hc. apply Hout in Hc. lia.
    + rewrite Hold. cbn [guesses_left] in *. lia.
  - destruct (record_failed_entry t ip (addr_ip src) now) as (kept & Hkept & Heq).
    rewrite Heq, decide_False in IH by done. destruct Hkept as [->|[-> (e & He & Hw)]]; [lia|].
    assert (BLOCKLIST_THRESHOLD <= guesses_left (a + BLOCKLIST_WINDOW_MS) (failed_lookups t !! ip)); [|cbn [guesses_left] in IH; lia].
    apply guesses_left_restart; [done|]. rewrite He. intros c s [= ->].
    unfold in_window, sat_sub, BLOCKLIST_WINDOW_MS in *. apply Z.leb_gt in Hw. cbn in Hw. lia.
Qed.

Lemma run_blocklist_ok ops t : blocklist_ok t -> blocklist_ok (run_ops t ops).
Proof. revert t. induction ops as [|op ops IH]; intros t Hok; [done|]. by apply IH, step_blocklist_ok. Qed.

(** Brute force is bounded: in every run from an empty table, and whatever other
    addresses do, the lookups of one source address within any 60 seconds test fewer
    than 40 tokens that are not in the table (twice the threshold). *)
Theorem guesses_bounded rate expiry before ops ip a :
  Forall (lookups_within a (a + BLOCKLIST_WINDOW_MS)) ops ->
  guesses ip (run_ops (with_limits rate expiry) before) ops < 2 * BLOCKLIST_THRESHOLD.
Proof.
  intros HF. set (t := run_ops _ _).
  assert (blocklist_ok t) as Hok by (apply run_blocklist_ok; by intros ? ?).
  pose proof (guesses_potential a ip ops t Hok HF) as Hp.
  destruct (failed_lookups t !! ip) as [[c s]|] eqn:He; cbn [guesses_left] in Hp; [apply Hok in He; cbn [fst] in He|];
    try case_bool_step; unfold BLOCKLIST_THRESHOLD in *; lia.
Qed.

(** The eviction bounds the blocklist only as far as entries are stale: with every
    entry inside its window, each failed lookup from a new address adds an entry,
    beyond [MAX_BLOCKLIST_ENTRIES] as well. *)
Theorem blocklist_grows_past_cap t now token source len :
  token_index t !! token = None -> failed_lookups t !! addr_ip source = None ->
  (forall ip entry, failed_lookups t !! ip = Some entry -> in_window now entry = true) ->
  size (failed_lookups (get_destination t now token source len).1) = S (size (failed_lookups t)).
Proof.
  intros Ht Hip Hfresh. unfold get_destination, is_blocklisted. rewrite Hip, Ht.
  cbn [fst]. unfold record_failed_lookup. cbn [set_failed failed_lookups].
  set (failed := if _ <=? _ then _ else _).
  assert (failed = failed_lookups t) as ->.
  { subst failed. case_bool_step; [|done]. apply map_filter_id. intros ip entry Hl. by apply (Hfresh ip). }
  by rewrite map_size_insert_None.
Qed.

Lemma remove_contexts_size ids s : NoDup ids -> (forall id, id ∈ ids -> is_Some (s.1 !! id)) ->
  (size (foldl remove_context s ids).1 + length ids = size s.1)%nat.
Proof.
  intros Hnd. revert s. induction Hnd as [|i ids Hi _ IH]; intros s Hin; cbn [foldl length]; [lia|].
  destruct (Hin i) as [c Hc]; [left|]. rewrite <- Nat.add_succ_comm. cbn [Nat.add].
  rewrite IH; unfold remove_context; rewrite Hc; cbn [fst].
  - rewrite map_size_delete_Some by done. assert (size s.1 <> 0%nat) as Hne; [|lia].
    intros He%map_size_empty_iff. by rewrite He in Hc.
  - intros id Hid. rewrite lookup_delete_ne by set_solver. apply Hin. by right.
Qed.

Lemma swept_nodup t now :
  NoDup (filter (fun kv => is_terminal (fc_state kv.2) = true)
           (map_to_list (mark_expired now <$> contexts t))).*1.
Proof.
  refine (sublist_NoDup _ _ (NoDup_fst_map_to_list (mark_expired now <$> contexts t)) _).
  apply fmap_sublist, sublist_filter.
Qed.

(** [sweep] removes exactly the contexts that can no longer forward (ended, past
    their expiry, or past the timeout of their state), leaves the others untouched,
    drops the index entries of the removed contexts' tokens and no others, and
    returns how many contexts it removed. *)
Theorem sweep_exact t now :
  (forall id ctx, contexts (sweep t now).1 !! id = Some ctx <->
     contexts t !! id = Some ctx /\ live now ctx) /\
  (forall token id, token_index (sweep t now).1 !! token = Some id <->
     token_index t !! token = Some id /\
     forall id' ctx, contexts t !! id' = Some ctx -> fc_token ctx = token -> live now ctx) /\
  (sweep t now).2 = Z.of_nat (size (contexts t)) - Z.of_nat (size (contexts (sweep t now).1)).
Proof.
  split; [intros; apply sweep_context|]. split; [intros; apply sweep_token|].
  pose proof (swept_nodup t now) as Hnd. pose proof (elem_of_swept t now) as Hin.
  cbn [sweep fst snd contexts] in *. set (ids := (filter _ _).*1) in *.
  pose proof (remove_contexts_size ids (mark_expired now <$> contexts t, token_index t) Hnd) as Hs.
  cbn [fst] in Hs. rewrite map_size_fmap in Hs. unfold zlen. rewrite <- Hs; [lia|].
  intros id (ctx & Hc & _)%Hin. by rewrite lookup_fmap, Hc.
Qed.

(** ** Instances on concrete inputs *)

Definition alice : DeviceId := from_digest (replicate 32 1).
Definition bob : DeviceId := from_digest (replicate 32 2).
Definition alice_addr : SocketAddr := AddrV4 [10; 0; 0; 1] 5000.
Definition bob_addr : SocketAddr := AddrV4 [10; 0; 0; 2] 6000.

Definition sample_traffic : list FwdOp :=
  [Bind 1000 [7] alice alice_addr; Bind 1001 [7] bob bob_addr;
   Lookup 1002 [9] alice_addr 1200; Lookup 1003 [9] bob_addr 300].

(** Witness of [session_limits]: 1500 bytes go through, within both limits. *)
Lemma session_limits_witness :
  let t1 := authorize_pair table_new 1000 [7] [9] alice bob in
  delivered [7] t1 sample_traffic = 1500 /\
  delivered [7] t1 sample_traffic < SESSION_BYTE_CAP + 1400 /\
  1003 < wrap 64 (1000 + session_expiry_ms table_new).
Proof.
  split; [vm_compute; reflexivity|].
  destruct (session_limits table_new 1000 [7] [9] alice bob sample_traffic 1400) as [Hcap Hexp].
  - unfold SESSION_BYTE_CAP. lia.
  - by repeat constructor.
  - unfold packets_within. repeat constructor; lia.
  - split; [exact Hcap|].
    apply (Hexp (take 3 sample_traffic) 1003 [9] bob_addr 300 []); vm_compute; reflexivity.
Defined.

(** Witness of [ended_is_final]: after [close], binding again and sending do nothing. *)
Lemma ended_is_final_witness :
  let t := run_ops (authorize_pair table_new 1000 [7] [9] alice bob) sample_traffic in
  state_of t [7] = Some RelayActive /\
  delivered [7] (close t [7]) sample_traffic = 0 /\
  state_of (run_ops (close t [7]) sample_traffic) [7] <> Some RelayActive.
Proof.
  split; [vm_compute; reflexivity|].
  apply (ended_is_final (close (run_ops (authorize_pair table_new 1000 [7] [9] alice bob) sample_traffic) [7])
    [7] sample_traffic).
  - apply (ended_is_final _ [7] []).
  - by repeat constructor.
Defined.

(** Witness of [guesses_bounded]: of 50 unknown tokens in a second, 20 are tested. *)
Lemma guesses_bounded_witness :
  let ops := replicate 50 (Lookup 2000 [1; 2; 3] alice_addr 100) in
  guesses (IpV4 [10; 0; 0; 1]) (run_ops table_new []) ops = 20 /\
  guesses (IpV4 [10; 0; 0; 1]) (run_ops table_new []) ops < 2 * BLOCKLIST_THRESHOLD.
Proof.
  split; [vm_compute; reflexivity|].
  apply (guesses_bounded RATE_LIMIT_BYTES_PER_SEC SESSION_EXPIRY_MS [] _ _ 2000).
  unfold lookups_within, BLOCKLIST_WINDOW_MS. apply Forall_replicate. lia.
Defined.
