(* ===== verification/Rendezvous.v ===== *)
(** * Connect intents (bw-relay, [rendezvous.rs], [candidate.rs])

    An intent is a request of one device to connect to another; the target accepts it
    and each side then learns the other's candidates and the relay token.  Operations
    take the instant [now] and, for [accept_intent], the token the operating system's
    generator returns ([None] when it fails).  Nothing aborts while the registry's lock
    is held, so the lock is never poisoned and does not appear. *)

From S2P Require Import Prelude Symmetric Identity Forwarding.

Inductive CandidateType : Type := Host | ServerReflexive | Relay.

#[global] Instance CandidateType_eq_dec : EqDecision CandidateType.
Proof. solve_decision. Defined.

Record Candidate := { candidate_type : CandidateType; cand_addr : SocketAddr; priority : Z }.

#[global] Instance Candidate_eq_dec : EqDecision Candidate.
Proof. solve_decision. Defined.

Definition cand_host (addr : SocketAddr) : Candidate :=
  {| candidate_type := Host; cand_addr := addr; priority := 30000 |}.

Definition cand_server_reflexive (addr : SocketAddr) : Candidate :=
  {| candidate_type := ServerReflexive; cand_addr := addr; priority := 20000 |}.

Definition cand_relay_addr (addr : SocketAddr) : Candidate :=
  {| candidate_type := Relay; cand_addr := addr; priority := 10000 |}.

Definition INTENT_TIMEOUT_MS : Z := 30000.
Definition MAX_INTENTS : Z := 2048.

Inductive IntentState : Type :=
| Pending (created_at : Z)
| Accepted (relay_token : list Z)
| Expired.

#[global] Instance IntentState_eq_dec : EqDecision IntentState.
Proof. solve_decision. Defined.

Record PendingIntent := {
  pi_initiator : DeviceId;
  pi_target : DeviceId;
  initiator_candidates : list Candidate;
  target_candidates : list Candidate;
  pi_state : IntentState;
}.

(** [RendezvousRegistry]: the intents by identifier. *)
Abbreviation RendezvousRegistry := (gmap (list Z) PendingIntent).

Definition is_pending (i : PendingIntent) : bool :=
  match pi_state i with Pending _ => true | _ => false end.

(** What [register_intent] retains and [pending_for] delivers: a pending intent
    created after [stale_before]. *)
Definition fresh_pending (stale_before : Z) (i : PendingIntent) : bool :=
  match pi_state i with Pending created_at => stale_before <? created_at | _ => false end.

Definition retain_intents (now : Z) (intents : RendezvousRegistry) : RendezvousRegistry :=
  let stale_before := sat_sub now INTENT_TIMEOUT_MS in
  filter (fun kv => fresh_pending stale_before kv.2 || negb (is_pending kv.2) = true) intents.

Definition register_intent (intents : RendezvousRegistry) (now : Z) (intent_id : list Z)
    (initiator target : DeviceId) (candidates : list Candidate) :
    RendezvousRegistry * result string unit :=
  let intents := retain_intents now intents in
  if MAX_INTENTS <=? Z.of_nat (size intents) then
    (intents, Err "Rendezvous registry is at capacity"%string)
  else if from_option is_pending false (intents !! intent_id) then
    (intents, Err "Duplicate intent_id: an active intent with this ID already exists"%string)
  else
    (<[intent_id := {| pi_initiator := initiator; pi_target := target;
                       initiator_candidates := candidates; target_candidates := [];
                       pi_state := Pending now |}]> intents, Ok tt).

Definition set_intent_state (i : PendingIntent) (s : IntentState) : PendingIntent :=
  {| pi_initiator := pi_initiator i; pi_target := pi_target i;
     initiator_candidates := initiator_candidates i; target_candidates := target_candidates i;
     pi_state := s |}.

Definition set_target_candidates (i : PendingIntent) (cs : list Candidate) : PendingIntent :=
  {| pi_initiator := pi_initiator i; pi_target := pi_target i;
     initiator_candidates := initiator_candidates i; target_candidates := cs;
     pi_state := pi_state i |}.

Definition accept_intent (intents : RendezvousRegistry) (now : Z) (random : option (list Z))
    (intent_id : list Z) (acceptor : DeviceId) (candidates : list Candidate) :
    RendezvousRegistry * result string (DeviceId * list Candidate * list Z) :=
  match intents !! intent_id with
  | None => (intents, Err "Intent not found"%string)
  | Some intent =>
      match pi_state intent with
      | Accepted _ => (intents, Err "Intent is already accepted"%string)
      | Expired => (intents, Err "Intent has expired"%string)
      | Pending created_at =>
          if INTENT_TIMEOUT_MS <? sat_sub now created_at then
            (<[intent_id := set_intent_state intent Expired]> intents, Err "Intent has expired"%string)
          else if decide (pi_target intent <> acceptor) then
            (intents, Err "Acceptor identity does not match the intended target"%string)
          else
            let intent := set_target_candidates intent candidates in
            match random with
            | None => (<[intent_id := intent]> intents, Err "Failed to generate random token"%string)
            | Some relay_token =>
                (<[intent_id := set_intent_state intent (Accepted relay_token)]> intents,
                 Ok (pi_initiator intent, initiator_candidates intent, relay_token))
            end
      end
  end.

Definition get_target_candidates (intents : RendezvousRegistry) (intent_id : list Z)
    (requester : DeviceId) : result string (list Candidate * list Z) :=
  match intents !! intent_id with
  | None => Err "Intent not found"%string
  | Some intent =>
      match pi_state intent with
      | Pending _ => Err "Intent not yet accepted by the target"%string
      | Expired => Err "Intent has expired"%string
      | Accepted token =>
          if decide (pi_initiator intent <> requester) then
            Err "Unauthorized: requester is not the initiator of this intent"%string
          else Ok (target_candidates intent, token)
      end
  end.

(** Whether [sweep_expired] expires the intent. *)
Definition overdue (now : Z) (i : PendingIntent) : bool :=
  match pi_state i with
  | Pending created_at => INTENT_TIMEOUT_MS <? sat_sub now created_at
  | _ => false
  end.

Definition sweep_expired (intents : RendezvousRegistry) (now : Z) : RendezvousRegistry * Z :=
  ((fun i => if overdue now i then set_intent_state i Expired else i) <$> intents,
   Z.of_nat (size (filter (fun kv => overdue now kv.2 = true) intents))).

Definition peek_initiator (intents : RendezvousRegistry) (intent_id : list Z) : result string DeviceId :=
  match intents !! intent_id with
  | None => Err "Intent not found"%string
  | Some intent => Ok (pi_initiator intent)
  end.

(** The order of the result is that of the source's hash map, which is unspecified. *)
Definition pending_for (intents : RendezvousRegistry) (now : Z) (target : DeviceId) :
    list (list Z * DeviceId) :=
  let stale_before := sat_sub now INTENT_TIMEOUT_MS in
  (fun kv => (kv.1, pi_initiator kv.2)) <$>
    filter (fun kv => pi_target kv.2 = target /\ fresh_pending stale_before kv.2 = true)
      (map_to_list intents).

(** ** Sequences of operations *)

Inductive RvOp : Type :=
| RvRegister (now : Z) (intent_id : list Z) (initiator target : DeviceId) (candidates : list Candidate)
| RvAccept (now : Z) (random : option (list Z)) (intent_id : list Z) (acceptor : DeviceId)
    (candidates : list Candidate)
| RvSweep (now : Z).

Definition rv_step (intents : RendezvousRegistry) (op : RvOp) : RendezvousRegistry :=
  match op with
  | RvRegister now id i g cs => (register_intent intents now id i g cs).1
  | RvAccept now random id a cs => (accept_intent intents now random id a cs).1
  | RvSweep now => (sweep_expired intents now).1
  end.

Definition rv_run (intents : RendezvousRegistry) (ops : list RvOp) : RendezvousRegistry :=
  foldl rv_step intents ops.

(** ** Capacity *)

Lemma retain_size now intents : (size (retain_intents now intents) <= size intents)%nat.
Proof. apply map_size_filter. Qed.

Lemma accept_dom intents now random id a cs :
  dom (accept_intent intents now random id a cs).1 = dom intents.
Proof.
  unfold accept_intent. destruct (intents !! id) as [i|] eqn:Hi; [|done].
  assert (id ∈ dom intents) as Hd by (by apply elem_of_dom).
  repeat case_match; cbn [fst]; try done; rewrite dom_insert_L; set_solver.
Qed.

Lemma rv_step_bounded intents op :
  Z.of_nat (size intents) <= MAX_INTENTS -> Z.of_nat (size (rv_step intents op)) <= MAX_INTENTS.
Proof.
  intros Hs. destruct op as [now id i g cs|now random id a cs|now]; cbn [rv_step].
  - unfold register_intent. pose proof (retain_size now intents).
    case_bool_step; cbn [fst]; [lia|]. destruct (from_option _ _ _); cbn [fst]; [lia|].
    rewrite map_size_insert. destruct (_ !! id); unfold Datatypes.id, MAX_INTENTS in *; lia.
  - by rewrite <- size_dom, accept_dom, size_dom.
  - cbn. by rewrite map_size_fmap.
Qed.

(** The intents that are no longer pending: accepted or expired. *)
Definition settled_ids (intents : RendezvousRegistry) : gset (list Z) :=
  dom (filter (fun kv => is_pending kv.2 = false) intents).

Lemma elem_of_settled intents id :
  id ∈ settled_ids intents <-> exists i, intents !! id = Some i /\ is_pending i = false.
Proof.
  unfold settled_ids. rewrite elem_of_dom. unfold is_Some. by setoid_rewrite map_lookup_filter_Some.
Qed.

Lemma settled_retain now intents : settled_ids (retain_intents now intents) = settled_ids intents.
Proof.
  apply set_eq. intros id. rewrite !elem_of_settled. unfold retain_intents.
  setoid_rewrite map_lookup_filter_Some. cbn [snd]. split.
  - intros (i & [Hi _] & Hp). eauto.
  - intros (i & Hi & Hp). exists i. rewrite Hp, orb_true_r. eauto.
Qed.

Lemma settled_size intents : (size (settled_ids intents) <= size intents)%nat.
Proof. unfold settled_ids. rewrite size_dom. apply map_size_filter. Qed.

Definition exhausted (intents : RendezvousRegistry) : Prop :=
  MAX_INTENTS <= Z.of_nat (size (settled_ids intents)).

Lemma register_exhausted intents now id i g cs : exhausted intents ->
  register_intent intents now id i g cs =
    (retain_intents now intents, Err "Rendezvous registry is at capacity"%string).
Proof.
  unfold exhausted, register_intent. intros He.
  pose proof (settled_size (retain_intents now intents)). rewrite settled_retain in *.
  by rewrite (proj2 (Z.leb_le _ _)) by lia.
Qed.

Lemma settled_insert intents id i :
  is_pending i = false -> settled_ids intents ⊆ settled_ids (<[id := i]> intents).
Proof.
  intros Hp id'. rewrite !elem_of_settled. intros (j & Hj & Hjp).
  destruct (decide (id = id')) as [->|]; [|exists j; by rewrite lookup_insert_ne].
  exists i. by rewrite lookup_insert_eq.
Qed.

(** An intent that is settled stays settled, unless it is registered again. *)
Lemma settled_step intents op : exhausted intents ->
  settled_ids intents ⊆ settled_ids (rv_step intents op).
Proof.
  intros He. destruct op as [now id i g cs|now random id a cs|now]; cbn [rv_step].
  - by rewrite register_exhausted, <- (settled_retain now intents).
  - unfold accept_intent. destruct (intents !! id) as [i|] eqn:Hi; [|done].
    destruct (pi_state i) eqn:Hs; try done. repeat case_match; cbn [fst]; try done;
      try by apply settled_insert.
    intros id'. rewrite !elem_of_settled. intros (j & Hj & Hjp).
    destruct (decide (id = id')) as [->|]; [|exists j; by rewrite lookup_insert_ne].
    unfold is_pending in Hjp. rewrite Hi in Hj. injection Hj as <-. by rewrite Hs in Hjp.
  - intros id. rewrite !elem_of_settled. cbn. intros (j & Hj & Hjp). rewrite lookup_fmap, Hj. cbn.
    eexists. split; [done|]. by case_match.
Qed.

Lemma exhausted_run ops intents : exhausted intents -> exhausted (rv_run intents ops).
Proof.
  revert intents. induction ops as [|op ops IH]; intros intents He; [done|]. apply IH.
  unfold exhausted in *. pose proof (subseteq_size _ _ (settled_step intents op He)). lia.
Qed.

(** Accepted and expired intents are never evicted: once 2048 of them are in the
    registry, every later registration fails, whatever operations come before it and
    however much time passes. *)
Theorem settled_intents_exhaust intents ops now id initiator target candidates :
  exhausted intents ->
  (register_intent (rv_run intents ops) now id initiator target candidates).2 =
    Err "Rendezvous registry is at capacity"%string.
Proof. intros He. by rewrite register_exhausted by (by apply exhausted_run). Qed.

(** ** Polling *)

(** What polling delivers can be accepted: every intent [pending_for] returns for
    a device is accepted when that device accepts it at once, and the acceptance names
    the initiator that was delivered and carries the relay token. *)
Theorem polled_intent_acceptable intents now target id from token candidates :
  (id, from) ∈ pending_for intents now target ->
  exists cs, (accept_intent intents now (Some token) id target candidates).2 = Ok (from, cs, token).
Proof.
  unfold pending_for. rewrite list_elem_of_fmap. intros ([k i] & [= -> ->] & Hin).
  apply list_elem_of_filter in Hin as [[Ht Hf] Hin]. apply elem_of_map_to_list in Hin. cbn [snd] in *.
  unfold accept_intent, fresh_pending in *. rewrite Hin. destruct (pi_state i) as [created| |]; try done.
  apply Z.ltb_lt in Hf. rewrite (proj2 (Z.ltb_ge _ _)) by (unfold sat_sub, INTENT_TIMEOUT_MS in *; lia).
  rewrite decide_False by tauto. cbn [snd]. eauto.
Qed.

(** ** Instances on concrete inputs *)

Definition sample_intent (s : IntentState) : PendingIntent :=
  {| pi_initiator := alice; pi_target := bob; initiator_candidates := [cand_host alice_addr];
     target_candidates := []; pi_state := s |}.

Definition full_registry : RendezvousRegistry :=
  list_to_map ((fun n => ([n], sample_intent Expired)) <$> seqZ 0 2048).

(** Witness of [settled_intents_exhaust]: a registry of 2048 expired intents refuses a
    new one a day later, after a sweep. *)
Lemma settled_intents_exhaust_witness :
  (register_intent (rv_run full_registry [RvSweep 86400000]) 86400000 (replicate 16 5) alice bob []).2 =
    Err "Rendezvous registry is at capacity"%string.
Proof.
  apply settled_intents_exhaust. unfold exhausted. vm_compute. discriminate.
Defined.

(** Witness of [polled_intent_acceptable]. *)
Lemma polled_intent_acceptable_witness :
  exists cs, (accept_intent {[ [7] := sample_intent (Pending 50000) ]} 60000 (Some [9]) [7] bob []).2 =
    Ok (alice, cs, [9]).
Proof.
  apply (polled_intent_acceptable _ 60000 bob [7] alice [9] []). vm_compute. left.
Defined.
