(* ===== verification/RelayServer.v ===== *)
(** * The relay server (bw-relay, [server.rs], [protocol.rs])

    Registration, discovery, rendezvous and binding of data-plane addresses: the
    control plane, one handler per request, over the registries of [Rendezvous] and
    [Forwarding].  A handler returns the new state and the response or the error.  The
    instant, the address the datagram came from, and the random relay token are
    arguments; no lock is ever poisoned (see [Forwarding]). *)

From S2P Require Import Prelude Symmetric Identity Forwarding Rendezvous.

Record PendingIntentInfo := { pii_from : DeviceId; pii_intent_id : list Z }.

Inductive RelayMessage : Type :=
| RegisterRequest (device_id : DeviceId) (verify_key_bytes : list Z) (timestamp : Z)
    (signature_bytes : list Z)
| RegisterAck (relay_session_id : Z) (server_reflexive_addr : option SocketAddr)
| DiscoverRequest (target : DeviceId)
| DiscoverResponse (target : DeviceId) (is_online : bool)
| ErrorResponse (reason : string)
| ConnectIntent (initiator_device_id target : DeviceId) (intent_id : list Z)
    (candidates : list Candidate) (timestamp : Z) (signature_bytes : list Z)
| ConnectInvite (from : DeviceId) (intent_id : list Z)
| AcceptConnect (acceptor_device_id : DeviceId) (intent_id : list Z) (candidates : list Candidate)
    (timestamp : Z) (signature_bytes : list Z)
| CandidateExchange (intent_id : list Z) (candidates : list Candidate) (relay_token : list Z)
| GetCandidates (requester_device_id : DeviceId) (intent_id : list Z)
| ConnectTimeout (target : DeviceId)
| ConnectRejected (target : DeviceId) (reason : string)
| RelayEstablishRequest (intent_id : list Z) (device_id : DeviceId) (timestamp : Z)
    (signature_bytes : list Z)
| RelayEstablishAck (intent_id : list Z)
| PollPendingIntents (device_id : DeviceId)
| PendingIntents (intents : list PendingIntentInfo).

Definition TIMESTAMP_WINDOW_MS : Z := 300000.
Definition MAX_REGISTRATIONS : Z := 1024.
Definition STALE_REGISTRATION_MS : Z := 300000.

Inductive RelayError : Type :=
| AuthFailed (reason : string)
| NotFound
| Internal (reason : string).

#[global] Instance RelayError_eq_dec : EqDecision RelayError.
Proof. solve_decision. Defined.

Record ClientContext := {
  cc_session_id : Z;
  last_seen : Z;
  cc_verify_key_bytes : list Z;
  cc_server_reflexive_addr : option SocketAddr;
}.

Record RelayServer := {
  registry : gmap DeviceId ClientContext;
  rendezvous : RendezvousRegistry;
  forwarding : ForwardingTable;
  next_session_id : Z;
}.

Definition set_registry (st : RelayServer) (r : gmap DeviceId ClientContext) : RelayServer :=
  {| registry := r; rendezvous := rendezvous st; forwarding := forwarding st;
     next_session_id := next_session_id st |}.

Definition set_rendezvous (st : RelayServer) (r : RendezvousRegistry) : RelayServer :=
  {| registry := registry st; rendezvous := r; forwarding := forwarding st;
     next_session_id := next_session_id st |}.

Definition set_forwarding (st : RelayServer) (t : ForwardingTable) : RelayServer :=
  {| registry := registry st; rendezvous := rendezvous st; forwarding := t;
     next_session_id := next_session_id st |}.

Definition set_next_session_id (st : RelayServer) (n : Z) : RelayServer :=
  {| registry := registry st; rendezvous := rendezvous st; forwarding := forwarding st;
     next_session_id := n |}.

(** [RelayServer::with_clock_and_limits]. *)
Definition relay_with_limits (rate_limit session_expiry : Z) : RelayServer :=
  {| registry := ∅; rendezvous := ∅; forwarding := with_limits rate_limit session_expiry;
     next_session_id := 1 |}.

(** The [?] operator in a handler: an error ends it in the state reached. *)
Definition try_ {S E A B} (st : S) (r : result E A) (k : A -> S * result E B) : S * result E B :=
  match r with
  | Ok a => k a
  | Err e => (st, Err e)
  end.

(** [map_err]. *)
Definition map_err {E E' A} (f : E -> E') (r : result E A) : result E' A :=
  match r with Ok a => Ok a | Err e => Err (f e) end.

(** [if cond { return Err(e) }]. *)
Definition fail_if {E} (cond : bool) (e : E) : result E unit := if cond then Err e else Ok tt.

Definition is_registered (st : RelayServer) (target : DeviceId) : bool :=
  bool_decide (is_Some (registry st !! target)).

(** ** Signed statements *)

Definition register_statement (device : DeviceId) (verify_key_bytes : list Z) (timestamp : Z) : list Z :=
  as_bytes device ++ verify_key_bytes ++ be_bytes 8 timestamp.

Definition intent_statement (intent_id : list Z) (initiator target : DeviceId) (timestamp : Z) : list Z :=
  intent_id ++ as_bytes initiator ++ as_bytes target ++ be_bytes 8 timestamp.

Definition accept_statement (intent_id : list Z) (acceptor initiator : DeviceId) (timestamp : Z) : list Z :=
  intent_id ++ as_bytes acceptor ++ as_bytes initiator ++ be_bytes 8 timestamp.

Definition establish_statement (intent_id : list Z) (device : DeviceId) (timestamp : Z) : list Z :=
  intent_id ++ as_bytes device ++ be_bytes 8 timestamp.

Section Server.
Context `{Signatures}.

Definition verify_key_for (st : RelayServer) (device : DeviceId) : result RelayError VerifyKey :=
  match registry st !! device with
  | None => Err NotFound
  | Some ctx =>
      map_err (fun _ => Internal "Stored public key is invalid"%string)
        (verify_key_from_bytes (cc_verify_key_bytes ctx))
  end.

(** The signature check every signed request ends with. *)
Definition verify_statement (key : VerifyKey) (statement signature_bytes : list Z) (failure : string) :
    result RelayError unit :=
  map_err (fun _ => AuthFailed failure) (verify key (sha256 statement) signature_bytes).

Definition out_of_window (now timestamp : Z) : bool := TIMESTAMP_WINDOW_MS <? abs_diff now timestamp.

Definition signature_length : string := "Signature must be exactly 64 bytes".
Definition intent_length : string := "intent_id must be exactly 16 bytes".

Definition handle_register (st : RelayServer) (now : Z) (device : DeviceId) (verify_key_bytes : list Z)
    (timestamp : Z) (signature_bytes : list Z) (peer_addr : option SocketAddr) :
    RelayServer * result RelayError RelayMessage :=
  try_ st (fail_if (out_of_window now timestamp) (AuthFailed "Timestamp out of acceptable bounds")) (fun _ =>
  try_ st (map_err (fun _ => AuthFailed "Invalid Ed25519 public key")
             (verify_key_from_bytes verify_key_bytes)) (fun verify_key =>
  try_ st (fail_if (bool_decide (device_id verify_key <> device))
             (AuthFailed "Device ID does not match the provided public key")) (fun _ =>
  try_ st (fail_if (negb (length signature_bytes =? 64)%nat) (AuthFailed signature_length)) (fun _ =>
  try_ st (verify_statement verify_key (register_statement device verify_key_bytes timestamp)
             signature_bytes "Signature verification failed") (fun _ =>
  let session_id := next_session_id st in
  let st := set_next_session_id st (wrap 64 (session_id + 1)) in
  let at_capacity r := MAX_REGISTRATIONS <=? Z.of_nat (size r) in
  let retained :=
    if at_capacity (registry st) then
      filter (fun kv => (sat_sub now STALE_REGISTRATION_MS <? last_seen kv.2) = true) (registry st)
    else registry st in
  let st := set_registry st retained in
  if at_capacity retained then (st, Err (Internal "Relay registry is at capacity"))
  else
    (set_registry st (<[device := {| cc_session_id := session_id; last_seen := now;
                                     cc_verify_key_bytes := verify_key_bytes;
                                     cc_server_reflexive_addr := peer_addr |}]> retained),
     Ok (RegisterAck session_id peer_addr))))))).

Definition handle_connect_intent (st : RelayServer) (now : Z) (initiator target : DeviceId)
    (intent_id : list Z) (candidates : list Candidate) (timestamp : Z) (signature_bytes : list Z) :
    RelayServer * result RelayError RelayMessage :=
  try_ st (fail_if (out_of_window now timestamp) (AuthFailed "ConnectIntent timestamp out of bounds")) (fun _ =>
  try_ st (verify_key_for st initiator) (fun verify_key =>
  if negb (is_registered st target) then
    (st, Ok (ConnectRejected target "Target device is not registered"))
  else
  try_ st (fail_if (negb (length intent_id =? 16)%nat) (AuthFailed intent_length)) (fun _ =>
  try_ st (fail_if (negb (length signature_bytes =? 64)%nat) (AuthFailed signature_length)) (fun _ =>
  try_ st (verify_statement verify_key (intent_statement intent_id initiator target timestamp)
             signature_bytes "ConnectIntent signature verification failed") (fun _ =>
  let '(r, res) := register_intent (rendezvous st) now intent_id initiator target candidates in
  let st := set_rendezvous st r in
  try_ st (map_err Internal res) (fun _ => (st, Ok (ConnectInvite initiator intent_id)))))))).

Definition handle_accept_connect (st : RelayServer) (now : Z) (random : option (list Z))
    (acceptor : DeviceId) (intent_id : list Z) (candidates : list Candidate) (timestamp : Z)
    (signature_bytes : list Z) : RelayServer * result RelayError RelayMessage :=
  try_ st (fail_if (out_of_window now timestamp) (AuthFailed "AcceptConnect timestamp out of bounds")) (fun _ =>
  try_ st (verify_key_for st acceptor) (fun verify_key =>
  try_ st (fail_if (negb (length intent_id =? 16)%nat) (AuthFailed intent_length)) (fun _ =>
  try_ st (map_err Internal (peek_initiator (rendezvous st) intent_id)) (fun initiator_device_id =>
  try_ st (fail_if (negb (length signature_bytes =? 64)%nat) (AuthFailed signature_length)) (fun _ =>
  try_ st (verify_statement verify_key (accept_statement intent_id acceptor initiator_device_id timestamp)
             signature_bytes "AcceptConnect signature verification failed") (fun _ =>
  let '(r, res) := accept_intent (rendezvous st) now random intent_id acceptor candidates in
  let st := set_rendezvous st r in
  try_ st (map_err Internal res) (fun '(initiator, initiator_cands, relay_token) =>
  (set_forwarding st (authorize_pair (forwarding st) now intent_id relay_token initiator acceptor),
   Ok (CandidateExchange intent_id initiator_cands relay_token))))))))).

Definition handle_get_candidates (st : RelayServer) (requester : DeviceId) (intent_id : list Z) :
    RelayServer * result RelayError RelayMessage :=
  try_ st (fail_if (negb (length intent_id =? 16)%nat) (AuthFailed intent_length)) (fun _ =>
  try_ st (fail_if (negb (is_registered st requester)) (AuthFailed "Requester is not registered")) (fun _ =>
  try_ st (map_err Internal (get_target_candidates (rendezvous st) intent_id requester))
    (fun '(candidates, relay_token) => (st, Ok (CandidateExchange intent_id candidates relay_token))))).

Definition handle_poll_pending_intents (st : RelayServer) (now : Z) (device : DeviceId) :
    RelayServer * result RelayError RelayMessage :=
  try_ st (fail_if (negb (is_registered st device)) (AuthFailed "Device not registered")) (fun _ =>
  (st, Ok (PendingIntents ((fun p => {| pii_from := p.2; pii_intent_id := p.1 |}) <$>
             pending_for (rendezvous st) now device)))).

Definition handle_relay_establish (st : RelayServer) (now : Z) (intent_id : list Z) (device : DeviceId)
    (timestamp : Z) (signature_bytes : list Z) (peer_addr : option SocketAddr) :
    RelayServer * result RelayError RelayMessage :=
  try_ st (fail_if (out_of_window now timestamp)
             (AuthFailed "RelayEstablishRequest timestamp out of bounds")) (fun _ =>
  try_ st (fail_if (negb (length intent_id =? 16)%nat) (AuthFailed intent_length)) (fun _ =>
  try_ st (fail_if (negb (length signature_bytes =? 64)%nat) (AuthFailed signature_length)) (fun _ =>
  try_ st (verify_key_for st device) (fun verify_key =>
  try_ st (verify_statement verify_key (establish_statement intent_id device timestamp)
             signature_bytes "RelayEstablishRequest signature verification failed") (fun _ =>
  try_ st (ok_or (AuthFailed "RelayEstablishRequest requires a known peer address") peer_addr) (fun addr =>
  let '(t, res) := update_binding (forwarding st) now intent_id device addr in
  let st := set_forwarding st t in
  try_ st (map_err Internal res) (fun _ => (st, Ok (RelayEstablishAck intent_id))))))))).

Definition handle_message_from (st : RelayServer) (now : Z) (random : option (list Z))
    (message : RelayMessage) (peer_addr : option SocketAddr) :
    RelayServer * result RelayError RelayMessage :=
  match message with
  | RegisterRequest device key timestamp sig => handle_register st now device key timestamp sig peer_addr
  | DiscoverRequest target => (st, Ok (DiscoverResponse target (is_registered st target)))
  | ConnectIntent initiator target intent_id candidates timestamp sig =>
      handle_connect_intent st now initiator target intent_id candidates timestamp sig
  | AcceptConnect acceptor intent_id candidates timestamp sig =>
      handle_accept_connect st now random acceptor intent_id candidates timestamp sig
  | GetCandidates requester intent_id => handle_get_candidates st requester intent_id
  | RelayEstablishRequest intent_id device timestamp sig =>
      handle_relay_establish st now intent_id device timestamp sig peer_addr
  | PollPendingIntents device => handle_poll_pending_intents st now device
  | _ => (st, Err (Internal "Message type not valid for server-side processing"))
  end.

Definition handle_message (st : RelayServer) (now : Z) (random : option (list Z)) (message : RelayMessage) :
    RelayServer * result RelayError RelayMessage :=
  handle_message_from st now random message None.

End Server.

(** ** What a handler that succeeds has checked *)

Ltac step_try :=
  match goal with
  | |- context [try_ ?st ?r ?k] => let E := fresh "Hr" in destruct r eqn:E; cbn [try_]
  end.

Section Evidence.
Context `{Signatures}.

(** A signature on a statement by the holder of the key a device is named after. *)
Definition signed (device : DeviceId) (statement signature : list Z) : Prop :=
  exists key, verifying_key_valid key = true /\ sha256 key = as_bytes device /\
    ed25519_verify key (sha256 statement) signature = true.

(** Every registered key is the one its device is named after. *)
Definition registry_ok (st : RelayServer) : Prop :=
  forall device ctx, registry st !! device = Some ctx ->
    verifying_key_valid (cc_verify_key_bytes ctx) = true /\
    sha256 (cc_verify_key_bytes ctx) = as_bytes device.

Lemma fail_if_ok {E} cond (e : E) u : fail_if cond e = Ok u -> cond = false.
Proof. unfold fail_if. by case_match. Qed.

Lemma map_err_ok {E E' A} (f : E -> E') (r : result E A) a : map_err f r = Ok a -> r = Ok a.
Proof. destruct r; cbn; congruence. Qed.

Lemma verified_signed st device key statement signature failure u :
  registry_ok st -> verify_key_for st device = Ok key ->
  verify_statement key statement signature failure = Ok u -> signed device statement signature.
Proof.
  unfold verify_key_for, verify_statement, verify, verify_key_from_bytes. intros Hok.
  destruct (registry st !! device) as [ctx|] eqn:Hd; [|done]. destruct (Hok _ _ Hd) as [Hv Hs].
  rewrite Hv. intros [= <-]. cbn [vk_bytes]. intros Hver%map_err_ok.
  exists (cc_verify_key_bytes ctx). split; [done|]. split; [done|]. by destruct (ed25519_verify _ _ _).
Qed.

Lemma handle_register_effect st now device key timestamp sig peer :
  let st' := (handle_register st now device key timestamp sig peer).1 in
  rendezvous st' = rendezvous st /\ forwarding st' = forwarding st /\ (registry_ok st -> registry_ok st').
Proof.
  unfold handle_register. repeat (step_try; [|done]).
  apply map_err_ok in Hr0. unfold verify_key_from_bytes in Hr0.
  destruct (verifying_key_valid key) eqn:Hv; [|done]. injection Hr0 as <-.
  apply fail_if_ok in Hr1. apply bool_decide_eq_false in Hr1. apply dec_stable in Hr1.
  cbv zeta. set (retained := if _ <=? _ then filter _ _ else _).
  assert (forall d ctx, retained !! d = Some ctx -> registry st !! d = Some ctx) as Hret.
  { intros d ctx. unfold retained. case_bool_step; [|done]. by intros [Hd _]%map_lookup_filter_Some. }
  case_bool_step; (split; [done|]; split; [done|]); intros Hok d ctx; cbn [fst registry set_registry].
  - intros Hd. by apply Hok, Hret.
  - intros [[<- <-]|[_ Hd]]%lookup_insert_Some; [|by apply Hok, Hret].
    cbn. split; [done|]. by rewrite <- Hr1.
Qed.

Lemma register_intent_lookup intents now id i g cs k x :
  (register_intent intents now id i g cs).1 !! k = Some x ->
  intents !! k = Some x \/
  k = id /\ pi_initiator x = i /\ pi_target x = g /\ (register_intent intents now id i g cs).2 = Ok tt.
Proof.
  unfold register_intent. repeat case_match; cbn [fst snd]; intros Hk.
  1, 2: left; by apply map_lookup_filter_Some in Hk as [Hk _].
  apply lookup_insert_Some in Hk as [[<- <-]|[_ Hk]]; [by right|].
  left. by apply map_lookup_filter_Some in Hk as [Hk _].
Qed.

Lemma handle_connect_intent_effect st now i g id cs timestamp sig :
  let st' := (handle_connect_intent st now i g id cs timestamp sig).1 in
  registry st' = registry st /\ forwarding st' = forwarding st /\
  (registry_ok st -> forall k x, rendezvous st' !! k = Some x ->
     rendezvous st !! k = Some x \/
     k = id /\ pi_initiator x = i /\ pi_target x = g /\
       signed i (intent_statement id i g timestamp) sig).
Proof.
  unfold handle_connect_intent. do 2 (step_try; [|by auto]).
  destruct (is_registered st g); cbn [negb]; [|by auto]. do 3 (step_try; [|by auto]).
  pose proof (register_intent_lookup (rendezvous st) now id i g cs) as Hl.
  destruct (register_intent (rendezvous st) now id i g cs) as [r res]. cbn [fst snd] in *.
  destruct (map_err Internal res); cbn [try_ fst]; (split; [done|]; split; [done|]); intros Hok k x Hk;
    (apply Hl in Hk as [Hk|(-> & <- & <- & _)]; [by left|right]);
    (split_and!; [done..|]; by eapply verified_signed).
Qed.

Lemma accept_intent_lookup intents now random id a cs :
  (forall k x, (accept_intent intents now random id a cs).1 !! k = Some x ->
     exists y, intents !! k = Some y /\ pi_initiator x = pi_initiator y /\ pi_target x = pi_target y) /\
  (forall i c tok, (accept_intent intents now random id a cs).2 = Ok (i, c, tok) ->
     exists y, intents !! id = Some y /\ i = pi_initiator y /\ a = pi_target y).
Proof.
  unfold accept_intent. destruct (intents !! id) as [y|] eqn:Hy; [|split; [eauto|done]].
  destruct (pi_state y); [|split; [eauto|done]..]. case_bool_step.
  - split; [|done]. intros k x. cbn [fst].
    intros [[<- <-]|[_ Hk]]%lookup_insert_Some; eauto.
  - case_decide as Hd; [split; [eauto|done]|]. subst a.
    destruct random as [tok|]; cbn [fst snd]; (split; [|by naive_solver]); intros k x;
      intros [[<- <-]|[_ Hk]]%lookup_insert_Some; eauto.
Qed.

Lemma handle_accept_connect_effect st now random a id cs timestamp sig :
  let st' := (handle_accept_connect st now random a id cs timestamp sig).1 in
  registry st' = registry st /\
  (forall k x, rendezvous st' !! k = Some x ->
     exists y, rendezvous st !! k = Some y /\ pi_initiator x = pi_initiator y /\ pi_target x = pi_target y) /\
  (forwarding st' = forwarding st \/
   exists y token, rendezvous st !! id = Some y /\ pi_target y = a /\
     forwarding st' = authorize_pair (forwarding st) now id token (pi_initiator y) a /\
     (registry_ok st -> signed a (accept_statement id a (pi_initiator y) timestamp) sig)).
Proof.
  unfold handle_accept_connect. repeat (step_try; [|by eauto 10]).
  pose proof (accept_intent_lookup (rendezvous st) now random id a cs) as [Hl Hres].
  destruct (accept_intent (rendezvous st) now random id a cs) as [r res]. cbn [fst snd] in *.
  destruct res as [[[i c] tok]|]; cbn [map_err try_ fst]; [|by auto].
  split; [done|]. split; [done|]. right.
  destruct (Hres _ _ _ eq_refl) as (y & Hy & -> & ->). exists y, tok. split_and!; try done.
  intros Hok. apply map_err_ok in Hr2. unfold peek_initiator in Hr2. rewrite Hy in Hr2.
  injection Hr2 as ->. by eapply verified_signed.
Qed.

Lemma handle_relay_establish_effect st now id device timestamp sig peer :
  let st' := (handle_relay_establish st now id device timestamp sig peer).1 in
  registry st' = registry st /\ rendezvous st' = rendezvous st /\
  (forwarding st' = forwarding st \/
   exists addr, peer = Some addr /\
     forwarding st' = (update_binding (forwarding st) now id device addr).1 /\
     (registry_ok st -> signed device (establish_statement id device timestamp) sig)).
Proof.
  unfold handle_relay_establish. do 5 (step_try; [|by auto]).
  destruct peer as [addr|]; cbn [ok_or try_]; [|by auto].
  destruct (update_binding (forwarding st) now id device addr) as [t res] eqn:Hu.
  assert (forall x : RelayServer * result RelayError RelayMessage, x.1 = set_forwarding st t ->
    registry x.1 = registry st /\ rendezvous x.1 = rendezvous st /\
    (forwarding x.1 = forwarding st \/ exists addr', Some addr = Some addr' /\
      forwarding x.1 = (update_binding (forwarding st) now id device addr').1 /\
      (registry_ok st -> signed device (establish_statement id device timestamp) sig))) as Hgen.
  { intros x ->. split; [done|]. split; [done|]. right. exists addr. rewrite Hu. split; [done|].
    split; [done|]. intros Hok. by eapply verified_signed. }
  apply Hgen. by destruct (map_err Internal res).
Qed.

(** ** Runs of the relay *)

Inductive RelayInput : Type :=
| Control (now : Z) (random : option (list Z)) (peer : option SocketAddr) (message : RelayMessage)
| Packet (now : Z) (token : list Z) (source : SocketAddr) (len : Z)
| SweepContexts (now : Z)
| SweepIntents (now : Z)
| CloseContext (intent_id : list Z).

Definition relay_step (st : RelayServer) (input : RelayInput) : RelayServer :=
  match input with
  | Control now random peer message => (handle_message_from st now random message peer).1
  | Packet now token source len =>
      set_forwarding st (get_destination (forwarding st) now token source len).1
  | SweepContexts now => set_forwarding st (sweep (forwarding st) now).1
  | SweepIntents now => set_rendezvous st (sweep_expired (rendezvous st) now).1
  | CloseContext id => set_forwarding st (close (forwarding st) id)
  end.

Definition relay_run (st : RelayServer) (inputs : list RelayInput) : RelayServer :=
  foldl relay_step st inputs.

(** ** Consent *)

(** The relay was asked to connect [i] to [g] under [id], signed by [i]. *)
Definition requested (h : list RelayInput) (id : list Z) (i g : DeviceId) : Prop :=
  exists now random peer candidates timestamp sig,
    Control now random peer (ConnectIntent i g id candidates timestamp sig) ∈ h /\
    signed i (intent_statement id i g timestamp) sig.

(** [g] accepted the request of [i] under [id], signed by [g]. *)
Definition agreed (h : list RelayInput) (id : list Z) (i g : DeviceId) : Prop :=
  exists now random peer candidates timestamp sig,
    Control now random peer (AcceptConnect g id candidates timestamp sig) ∈ h /\
    signed g (accept_statement id g i timestamp) sig.

(** A binding under [id] signed by [device] arrived from [addr]. *)
Definition bound_from (h : list RelayInput) (id : list Z) (device : DeviceId) (addr : SocketAddr) : Prop :=
  exists now random timestamp sig,
    Control now random (Some addr) (RelayEstablishRequest id device timestamp sig) ∈ h /\
    signed device (establish_statement id device timestamp) sig.

(** What the history [h] has to show for a context under [id]. *)
Record context_ok (h : list RelayInput) (id : list Z) (ctx : ForwardingContext) : Prop := {
  ctx_requested : requested h id (eb_device_id (fc_initiator ctx)) (eb_device_id (fc_target ctx));
  ctx_agreed : agreed h id (eb_device_id (fc_initiator ctx)) (eb_device_id (fc_target ctx));
  ctx_initiator : forall a, eb_addr (fc_initiator ctx) = Some a ->
    bound_from h id (eb_device_id (fc_initiator ctx)) a;
  ctx_target : forall a, eb_addr (fc_target ctx) = Some a ->
    bound_from h id (eb_device_id (fc_target ctx)) a /\
    eb_device_id (fc_initiator ctx) <> eb_device_id (fc_target ctx);
}.

Record relay_ok (h : list RelayInput) (st : RelayServer) : Prop := {
  relay_registry : registry_ok st;
  relay_intents : forall id x, rendezvous st !! id = Some x -> requested h id (pi_initiator x) (pi_target x);
  relay_contexts : forall id ctx, contexts (forwarding st) !! id = Some ctx -> context_ok h id ctx;
}.

Lemma requested_mono h h' id i g : h ⊆ h' -> requested h id i g -> requested h' id i g.
Proof. unfold requested. set_solver. Qed.

Lemma agreed_mono h h' id i g : h ⊆ h' -> agreed h id i g -> agreed h' id i g.
Proof. unfold agreed. set_solver. Qed.

Lemma bound_from_mono h h' id d a : h ⊆ h' -> bound_from h id d a -> bound_from h' id d a.
Proof. unfold bound_from. set_solver. Qed.

#[local] Hint Resolve requested_mono agreed_mono bound_from_mono : bw.

Lemma context_ok_mono h h' id ctx : h ⊆ h' -> context_ok h id ctx -> context_ok h' id ctx.
Proof.
  intros Hh [Hr Ha Hi Ht]. constructor; eauto with bw. intros a [? ?]%Ht. eauto with bw.
Qed.

Lemma relay_ok_mono h h' st : h ⊆ h' -> relay_ok h st -> relay_ok h' st.
Proof. intros Hh [Hr Hi Hc]. constructor; eauto using context_ok_mono with bw. Qed.

Lemma same_endpoints_ok h id ctx ctx' : same_endpoints ctx ctx' -> context_ok h id ctx -> context_ok h id ctx'.
Proof. intros [Hi Ht] [? ? ? ?]. constructor; by rewrite ?Hi, ?Ht. Qed.

Lemma rebound_ok h id device addr ctx ctx' :
  rebound device addr ctx ctx' -> bound_from h id device addr -> context_ok h id ctx -> context_ok h id ctx'.
Proof.
  intros [(Hd & Hi & Ht)|(Hne & Hd & Hi & Ht)] Hb [Hr Ha Hci Hct]; constructor; rewrite ?Hi, ?Ht; cbn;
    subst device; try done.
  - by intros a [= <-].
  - by intros a [= <-].
Qed.

Lemma new_context_ok h id t now token i g :
  requested h id i g -> agreed h id i g -> context_ok h id (new_context t now id token i g).
Proof. by constructor. Qed.

(** Contexts stay accounted for when the forwarding table takes a step. *)
Lemma forwarding_ok h t op id ctx' :
  match op with Authorize _ _ _ _ _ | Bind _ _ _ _ => False | _ => True end ->
  (forall id ctx, contexts t !! id = Some ctx -> context_ok h id ctx) ->
  contexts (step_op t op) !! id = Some ctx' -> context_ok h id ctx'.
Proof.
  intros Hop Hc (ctx & Hctx & Hs)%step_endpoints; [|done]. eapply same_endpoints_ok; eauto.
Qed.

Lemma control_ok h st now random peer m :
  Control now random peer m ∈ h -> relay_ok h st -> relay_ok h (handle_message_from st now random m peer).1.
Proof.
  intros Hin [Hreg Hint Hctx]. destruct m; cbn [handle_message_from]; try by constructor.
  - pose proof (handle_register_effect st now device_id verify_key_bytes timestamp signature_bytes peer) as (Hr & Hf & Hok).
    constructor; rewrite ?Hr, ?Hf; auto.
  - pose proof (handle_connect_intent_effect st now initiator_device_id target intent_id candidates timestamp
      signature_bytes) as (Hr & Hf & Hi). constructor; unfold registry_ok; rewrite ?Hr, ?Hf; auto.
    intros id x [Hx|(-> & -> & -> & Hs)]%(Hi Hreg); [auto|]. unfold requested. eauto 10.
  - pose proof (handle_accept_connect_effect st now random acceptor_device_id intent_id candidates timestamp
      signature_bytes) as (Hr & Hi & Hf). constructor; unfold registry_ok; rewrite ?Hr; auto.
    + intros id x (y & Hy & -> & ->)%Hi. auto.
    + destruct Hf as [->|(y & token & Hy & <- & -> & Hs)]; [auto|]. intros id ctx. cbn [authorize_pair contexts].
      intros [[<- <-]|[_ Hc]]%lookup_insert_Some; [|auto]. apply new_context_ok; [auto|]. unfold agreed. eauto 10.
  - unfold handle_get_candidates. repeat (step_try; [|by constructor]). destruct a1. by constructor.
  - pose proof (handle_relay_establish_effect st now intent_id device_id timestamp signature_bytes peer)
      as (Hr & Hi & Hf). constructor; unfold registry_ok; rewrite ?Hr, ?Hi; auto.
    destruct Hf as [->|(addr & -> & -> & Hs)]; [auto|].
    intros id ctx (c & Hc & [Hsame|[-> Hre]])%update_binding_endpoints.
    + eapply same_endpoints_ok; eauto.
    + eapply rebound_ok; eauto. unfold bound_from. eauto 10.
  - unfold handle_poll_pending_intents. step_try; by constructor.
Qed.

Lemma relay_step_ok h st input : input ∈ h -> relay_ok h st -> relay_ok h (relay_step st input).
Proof.
  intros Hin Hok. destruct input as [now random peer m|now tok src len|now|now|id]; [by apply control_ok|..];
    destruct Hok as [Hreg Hint Hctx]; cbn [relay_step]; constructor; auto; cbn [set_forwarding forwarding].
  - intros id ctx. apply (forwarding_ok h (forwarding st) (Lookup now tok src len)); auto.
  - intros id ctx. apply (forwarding_ok h (forwarding st) (Sweep now)); auto.
  - intros id x. cbn. rewrite lookup_fmap_Some. intros (y & <- & Hy). case_match; by apply Hint in Hy.
  - intros i ctx. apply (forwarding_ok h (forwarding st) (Close id)); auto.
Qed.

Lemma relay_run_ok h inputs st : inputs ⊆ h -> relay_ok h st -> relay_ok h (relay_run st inputs).
Proof.
  revert st. induction inputs as [|input inputs IH]; intros st Hin Hok; [done|].
  apply IH; [set_solver|]. apply relay_step_ok; [set_solver|done].
Qed.

Lemma relay_start_ok h rate expiry : relay_ok h (relay_with_limits rate expiry).
Proof. constructor; by intros ? ?. Qed.

End Evidence.
