(* ===== verification/RelayClient.v ===== *)
(** * The relay's clients and its datagrams (bw-relay, [relay_client.rs], [bin/relay.rs])

    The requests a device builds and signs, what it makes of the responses, the
    framing of control messages, and the body of the relay program's receive loop:
    control datagrams go to the server, every other datagram is forwarded by its
    token.  A device is its secret key; time stamps are arguments. *)

From S2P Require Import Prelude Cbor Symmetric Identity Forwarding Rendezvous RelayServer.

(** ** Requests *)

Section Requests.
Context `{Signatures}.

(** [signing_key.verify_key().device_id()]. *)
Definition own_device_id (secret : list Z) : DeviceId := from_digest (sha256 (ed25519_public secret)).

(** [signing_key.sign(SHA-256(statement))]. *)
Definition sign_statement (secret statement : list Z) : list Z := ed25519_sign secret (sha256 statement).

Definition register_request (secret : list Z) (timestamp : Z) : RelayMessage :=
  let verify_key_bytes := ed25519_public secret in
  RegisterRequest (own_device_id secret) verify_key_bytes timestamp
    (sign_statement secret (register_statement (own_device_id secret) verify_key_bytes timestamp)).

Definition connect_intent_request (secret : list Z) (timestamp : Z) (target : DeviceId)
    (intent_id : list Z) (candidates : list Candidate) : RelayMessage :=
  ConnectIntent (own_device_id secret) target intent_id candidates timestamp
    (sign_statement secret (intent_statement intent_id (own_device_id secret) target timestamp)).

Definition accept_connect_request (secret : list Z) (timestamp : Z) (intent_id : list Z)
    (initiator : DeviceId) (candidates : list Candidate) : RelayMessage :=
  AcceptConnect (own_device_id secret) intent_id candidates timestamp
    (sign_statement secret (accept_statement intent_id (own_device_id secret) initiator timestamp)).

Definition get_candidates_request (secret intent_id : list Z) : RelayMessage :=
  GetCandidates (own_device_id secret) intent_id.

Definition poll_request (secret : list Z) : RelayMessage := PollPendingIntents (own_device_id secret).

Definition establish_request (secret : list Z) (timestamp : Z) (intent_id : list Z) : RelayMessage :=
  RelayEstablishRequest intent_id (own_device_id secret) timestamp
    (sign_statement secret (establish_statement intent_id (own_device_id secret) timestamp)).

End Requests.

(** [generate_intent_id]: the random bytes, or the clock when the generator fails. *)
Definition generate_intent_id (random : option (list Z)) (nanos : Z) : list Z :=
  default (le_bytes 16 nanos) random.

(** ** Responses *)

Inductive RelayClientError : Type :=
| Io
| Rejected (reason : string)
| CborError
| Protocol.

#[global] Instance RelayClientError_eq_dec : EqDecision RelayClientError.
Proof. solve_decision. Defined.

Definition register_response (m : RelayMessage) : result RelayClientError Z :=
  match m with
  | RegisterAck relay_session_id _ => Ok relay_session_id
  | ErrorResponse reason => Err (Rejected reason)
  | _ => Err Protocol
  end.

Definition connect_intent_response (m : RelayMessage) : result RelayClientError unit :=
  match m with
  | ConnectInvite _ _ => Ok tt
  | ConnectRejected _ reason => Err (Rejected reason)
  | ErrorResponse reason => Err (Rejected reason)
  | _ => Err Protocol
  end.

(** Of [accept_connect] and of [get_candidates]. *)
Definition exchange_response (m : RelayMessage) : result RelayClientError (list Z * list Candidate) :=
  match m with
  | CandidateExchange _ candidates relay_token => Ok (relay_token, candidates)
  | ErrorResponse reason => Err (Rejected reason)
  | _ => Err Protocol
  end.

(** A shorter identifier is padded with zeros, a longer one cut. *)
Definition poll_response (m : RelayMessage) : result RelayClientError (list (list Z * DeviceId)) :=
  match m with
  | PendingIntents intents =>
      Ok ((fun i => (take 16 (pii_intent_id i ++ replicate 16 0), pii_from i)) <$> intents)
  | ErrorResponse reason => Err (Rejected reason)
  | _ => Err Protocol
  end.

Definition establish_response (m : RelayMessage) : result RelayClientError unit :=
  match m with
  | RelayEstablishAck _ => Ok tt
  | ErrorResponse reason => Err (Rejected reason)
  | _ => Err Protocol
  end.

(** ** Control datagrams *)

Definition CONTROL_MAGIC : list Z := string_bytes "BWCTL" ++ [1].
Definition RELAY_HEADER_LEN : nat := 32.
Definition MAX_DATAGRAM : nat := 1400.
Definition RESPONSE_BUFFER : nat := Z.to_nat 4096.

(** [Display for RelayError]. *)
Definition relay_error_string (e : RelayError) : string :=
  match e with
  | AuthFailed reason => "Authentication failed: " +:+ reason
  | NotFound => "Device not found"
  | Internal reason => "Internal error: " +:+ reason
  end.

(** Whether a datagram carries the control prefix. *)
Definition is_control (packet : list Z) : bool :=
  bool_decide (take (length CONTROL_MAGIC) packet = CONTROL_MAGIC).

Section Datagrams.
Context `{Signatures} `{Cbor RelayMessage}.

(** The request datagram of [send_recv]. *)
Definition control_packet (m : RelayMessage) : result RelayClientError (list Z) :=
  match into_writer m with
  | Some body => Ok (CONTROL_MAGIC ++ body)
  | None => Err CborError
  end.

(** The rest of [send_recv] on the datagram that comes back; the receive buffer cuts
    off what is beyond it. *)
Definition control_response (datagram : list Z) : result RelayClientError RelayMessage :=
  let resp_bytes := take RESPONSE_BUFFER datagram in
  if negb (is_control resp_bytes) then Err Protocol
  else ok_or CborError (from_reader (drop (length CONTROL_MAGIC) resp_bytes)).

(** ** The relay program *)

(** [DevBindings], with the fixed intent of the development mode. *)
Record DevBindings := { dev_initiator : option SocketAddr; dev_target : option SocketAddr }.

Definition dev_bindings_default : DevBindings := {| dev_initiator := None; dev_target := None |}.

Definition prebind_target (d : DevBindings) (addr : SocketAddr) : DevBindings :=
  {| dev_initiator := dev_initiator d; dev_target := Some addr |}.

Definition DEV_INTENT : list Z := replicate 16 238.

Definition dev_ids (token : list Z) : DeviceId * DeviceId :=
  (from_digest (sha256 (token ++ string_bytes ":initiator")),
   from_digest (sha256 (token ++ string_bytes ":target"))).

Definition dev_bind (d : DevBindings) (t : ForwardingTable) (now : Z) (src : SocketAddr) (token : list Z) :
    DevBindings * ForwardingTable :=
  let '(initiator_id, target_id) := dev_ids token in
  if decide (dev_initiator d = Some src \/ dev_target d = Some src) then (d, t)
  else
    match dev_initiator d, dev_target d with
    | None, _ =>
        ({| dev_initiator := Some src; dev_target := dev_target d |},
         (update_binding t now DEV_INTENT initiator_id src).1)
    | Some _, None =>
        ({| dev_initiator := dev_initiator d; dev_target := Some src |},
         (update_binding t now DEV_INTENT target_id src).1)
    | Some _, Some _ => (d, t)
    end.

Record RelayNode := {
  node_server : RelayServer;
  node_dev_token : option (list Z);
  node_dev_bindings : DevBindings;
}.

(** The start of [main] and [run_relay]. *)
Definition relay_start (now rate_limit session_expiry : Z) (dev_token : option (list Z))
    (dev_server : option SocketAddr) : result string RelayNode :=
  let server := relay_with_limits rate_limit session_expiry in
  let bindings :=
    match dev_server with
    | Some addr => prebind_target dev_bindings_default addr
    | None => dev_bindings_default
    end in
  match dev_token with
  | None => Ok {| node_server := server; node_dev_token := None; node_dev_bindings := bindings |}
  | Some token =>
      let '(initiator_id, target_id) := dev_ids token in
      let table := authorize_pair (forwarding server) now DEV_INTENT token initiator_id target_id in
      let '(table, res) :=
        match dev_server with
        | Some addr => update_binding table now DEV_INTENT target_id addr
        | None => (table, Ok tt)
        end in
      match res with
      | Err e => Err ("failed to pre-bind server: " +:+ e)
      | Ok _ =>
          Ok {| node_server := set_forwarding server table; node_dev_token := Some token;
                node_dev_bindings := bindings |}
      end
  end.

(** One turn of [run_relay]'s loop: the new state and the datagrams it sends. *)
Definition relay_turn (node : RelayNode) (now : Z) (random : option (list Z)) (datagram : list Z)
    (src : SocketAddr) : RelayNode * list (SocketAddr * list Z) :=
  let packet := take MAX_DATAGRAM datagram in
  let server := node_server node in
  if is_control packet then
    match from_reader (drop (length CONTROL_MAGIC) packet) with
    | None => (node, [])
    | Some msg =>
        let '(server, resp) := handle_message_from server now random msg (Some src) in
        let reply := match resp with Ok r => r | Err e => ErrorResponse (relay_error_string e) end in
        ({| node_server := server; node_dev_token := node_dev_token node;
            node_dev_bindings := node_dev_bindings node |},
         [(src, CONTROL_MAGIC ++ default [] (into_writer reply))])
    end
  else if (length packet <? RELAY_HEADER_LEN)%nat then (node, [])
  else
    let token := take RELAY_HEADER_LEN packet in
    let '(bindings, table) :=
      if decide (node_dev_token node = Some token)
      then dev_bind (node_dev_bindings node) (forwarding server) now src token
      else (node_dev_bindings node, forwarding server) in
    let '(table, dest) := get_destination table now token src (zlen packet) in
    ({| node_server := set_forwarding server table; node_dev_token := node_dev_token node;
        node_dev_bindings := bindings |},
     match dest with Some d => [(d, packet)] | None => [] end).

End Datagrams.
