(* ===== verification/RelaySocket.v ===== *)
(** * The relay's data plane at the endpoints (bw-transport, [relay_socket.rs])

    The socket wrapper under the QUIC library that puts the relay token in front of
    datagrams to the relay and takes it off datagrams from it, and the driver of a
    relay-mode server ([bw-server/src/rendezvous.rs]) that turns pending intents into
    tokens. *)

From S2P Require Import Prelude Symmetric Identity Forwarding Rendezvous RelayServer RelayClient.

(** ** The socket *)

Definition MAX_RELAY_PAYLOAD : nat := 1200.
Definition MAX_RELAY_PACKET : nat := 1232.

Record RelayUdpSocket := { sock_relay_addr : SocketAddr; sock_relay_token : list Z }.

(** [try_send]: the datagram handed to the operating system, [None] when the packet is
    too large and dropped. *)
Definition try_send (s : RelayUdpSocket) (dest : SocketAddr) (contents : list Z) :
    option (SocketAddr * list Z) :=
  if decide (dest = sock_relay_addr s) then
    if (MAX_RELAY_PAYLOAD <? length contents)%nat then None
    else Some (dest, sock_relay_token s ++ contents)
  else Some (dest, contents).

(** [poll_recv] on a datagram from [addr]: what the QUIC library's buffer of [buf_len]
    bytes receives, nothing when the datagram is dropped. *)
Definition poll_recv (s : RelayUdpSocket) (buf_len : nat) (addr : SocketAddr) (datagram : list Z) : list Z :=
  let tmp := take MAX_RELAY_PACKET datagram in
  if decide (addr = sock_relay_addr s) then
    if (length tmp <? RELAY_HEADER_LEN)%nat then []
    else
      let payload := drop RELAY_HEADER_LEN tmp in
      if (buf_len <? length payload)%nat then [] else payload
  else if (buf_len <? length tmp)%nat then [] else tmp.

(** ** The driver *)

Definition RELAY_POLL_INTERVAL : Z := 2000.
Definition INITIATOR_CONNECT_TIMEOUT : Z := 60000.

(** [RelayControl]: the two calls of the control plane, over the state of whatever
    answers them. *)
Class RelayControl (S : Type) := {
  poll_pending_intents : S -> S * result RelayClientError (list (list Z * DeviceId));
  accept_connect : S -> list Z -> DeviceId -> S * result RelayClientError (list Z);
}.

Section Driver.
Context {S : Type} `{RelayControl S}.

Definition next_session_token (s : S) : S * result RelayClientError (option (list Z)) :=
  let '(s, polled) := poll_pending_intents s in
  match polled with
  | Err e => (s, Err e)
  | Ok [] => (s, Ok None)
  | Ok ((intent_id, initiator) :: _) =>
      let '(s, accepted) := accept_connect s intent_id initiator in
      match accepted with
      | Ok token => (s, Ok (Some token))
      | Err (Rejected _) | Err Protocol => (s, Ok None)
      | Err e => (s, Err e)
      end
  end.

(** [run], for a number of turns: the tokens that were served, in order, and the error
    that ended the loop, if one did. *)
Fixpoint run_driver (turns : nat) (s : S) : list (list Z) * option RelayClientError :=
  match turns with
  | O => ([], None)
  | Datatypes.S turns =>
      let '(s, r) := next_session_token s in
      match r with
      | Err e => ([], Some e)
      | Ok None => run_driver turns s
      | Ok (Some token) => let '(served, e) := run_driver turns s in (token :: served, e)
      end
  end.

End Driver.

(** Intents that the relay refuses never end the driver: while polling succeeds and
    acceptance fails only by a rejection or an unexpected response, it keeps going. *)
Theorem driver_survives_refusals {S} `{RelayControl S} turns s :
  (forall s, exists intents, (poll_pending_intents s).2 = Ok intents) ->
  (forall s id i e, (accept_connect s id i).2 = Err e -> e = Protocol \/ exists reason, e = Rejected reason) ->
  (run_driver turns s).2 = None.
Proof.
  intros Hpoll Hacc. revert s. induction turns as [|turns IH]; intros s; [done|]. cbn [run_driver].
  unfold next_session_token. destruct (Hpoll s) as [l Hl]. destruct (poll_pending_intents s) as [s1 r].
  cbn [snd] in Hl. subst r. destruct l as [|[id i] l]; [apply IH|].
  specialize (Hacc s1 id i). destruct (accept_connect s1 id i) as [s2 [token|e]]; cbn [snd] in Hacc.
  - specialize (IH s2). by destruct (run_driver turns s2).
  - destruct (Hacc e eq_refl) as [->|[reason ->]]; apply IH.
Qed.
