(* ===== verification/RelayPath.v ===== *)
(** * A path through the relay

    What the relay's parts achieve together: only devices that agreed exchange
    datagrams, two devices that follow the protocol do obtain a path, and what becomes
    of a path when a binding is replayed or an intent identifier is used again. *)

From Stdlib Require Import Sorting.Sorted.
From S2P Require Import Prelude Cbor Symmetric Identity Forwarding Rendezvous RelayServer RelayClient RelaySocket.

Section Consent.
Context `{Signatures}.

(** C5.  The relay forwards only by mutual consent.  In every run from an empty relay,
    with any messages from anyone, a datagram from [source] is passed on to
    [destination] only if two different devices agreed to it under one intent: one
    signed the request naming the other, the other signed the acceptance naming the
    first, and each signed a binding that arrived from its own end of the path. *)
Theorem forwarding_needs_consent rate expiry h now token source len destination :
  (get_destination (forwarding (relay_run (relay_with_limits rate expiry) h)) now token source len).2 =
    Some destination ->
  exists id i g, i <> g /\ requested h id i g /\ agreed h id i g /\
    (bound_from h id i source /\ bound_from h id g destination \/
     bound_from h id g source /\ bound_from h id i destination).
Proof.
  set (st := relay_run _ h). assert (relay_ok h st) as [_ _ Hctx] by (by apply relay_run_ok, relay_start_ok).
  pose proof (get_destination_case (forwarding st) now token source len) as Hcase.
  destruct (get_destination (forwarding st) now token source len) as [t' r].
  inversion Hcase as [| | | |id ctx d Hc Ht Hb Hr Hl]; subst; cbn [snd]; try done. intros [= <-].
  destruct (Hctx _ _ Hc) as [Hreq Hag Hi Hg]. eexists id, _, _.
  destruct (routable_pair _ _ _ _ Hr) as [[Hs Hd]|[Hd Hs]]; apply Hi in Hd || apply Hi in Hs.
  - destruct (Hg _ Hd) as [Hbg Hne]. split_and!; [done..|]. by left.
  - destruct (Hg _ Hs) as [Hbg Hne]. split_and!; [done..|]. by right.
Qed.

(** A control message that is not a binding request. *)
Definition binds_nothing (input : RelayInput) : Prop :=
  match input with Control _ _ _ (RelayEstablishRequest _ _ _ _) => False | _ => True end.

(** Without binding requests nothing is forwarded: the client and server programs
    register, request, poll, accept and fetch candidates, and a relay that receives
    only such messages drops every datagram. *)
Theorem unbound_relay_forwards_nothing rate expiry h now token source len :
  Forall binds_nothing h ->
  (get_destination (forwarding (relay_run (relay_with_limits rate expiry) h)) now token source len).2 = None.
Proof.
  intros HF. set (st := relay_run _ h).
  assert (relay_ok h st) as [_ _ Hctx] by (by apply relay_run_ok, relay_start_ok).
  pose proof (get_destination_case (forwarding st) now token source len) as Hcase.
  destruct (get_destination (forwarding st) now token source len) as [t' r].
  inversion Hcase as [| | | |id ctx d Hc Ht Hb Hr Hl]; subst; cbn [snd]; try done. exfalso.
  destruct (Hctx _ _ Hc) as [_ _ Hi _].
  assert (exists a, eb_addr (fc_initiator ctx) = Some a) as [a Ha].
  { destruct (routable_pair _ _ _ _ Hr) as [[? _]|[? _]]; eauto. }
  apply Hi in Ha as (n & rnd & ts & sig & Hin & _).
  rewrite Stdlib.Lists.List.Forall_forall in HF. by apply list_elem_of_In, HF in Hin.
Qed.

(** ** Replayed bindings *)

(** The checks of an accepted binding request, other than its time stamp, do not
    depend on the instant or on where it comes from. *)
Lemma establish_accepted st now id device timestamp sig addr st1 m :
  handle_relay_establish st now id device timestamp sig (Some addr) = (st1, Ok m) ->
  st1 = set_forwarding st (update_binding (forwarding st) now id device addr).1 /\
  (update_binding (forwarding st) now id device addr).2 = Ok tt /\
  forall st' now' addr', registry st' = registry st -> abs_diff now' timestamp <= TIMESTAMP_WINDOW_MS ->
    handle_relay_establish st' now' id device timestamp sig (Some addr') =
      let '(t, res) := update_binding (forwarding st') now' id device addr' in
      try_ (set_forwarding st' t) (map_err Internal res)
        (fun _ => (set_forwarding st' t, Ok (RelayEstablishAck id))).
Proof.
  unfold handle_relay_establish. step_try; [|done]. step_try; [|done]. step_try; [|done].
  step_try; [|done]. step_try; [|done]. cbn [ok_or try_].
  destruct (update_binding (forwarding st) now id device addr) as [t [[]|]] eqn:Hu; cbn [map_err try_]; [|done].
  intros [= <- <-]. split; [done|]. split; [done|]. intros st' now' addr' Hreg Hw.
  unfold out_of_window. rewrite (proj2 (Z.ltb_ge _ _) Hw). cbn [fail_if try_].
  assert (verify_key_for st' device = verify_key_for st device) as -> by (unfold verify_key_for; by rewrite Hreg).
  rewrite Hr2. cbn [try_]. by rewrite Hr3.
Qed.

(** The context a binding leaves. *)
Lemma update_binding_bound t now id device addr : (update_binding t now id device addr).2 = Ok tt ->
  exists ctx, contexts (update_binding t now id device addr).1 !! id = Some ctx /\
    is_terminal (fc_state ctx) = false /\ last_active_ms ctx = now /\
    (eb_device_id (fc_initiator ctx) = device /\ eb_addr (fc_initiator ctx) = Some addr \/
     eb_device_id (fc_initiator ctx) <> device /\
     eb_device_id (fc_target ctx) = device /\ eb_addr (fc_target ctx) = Some addr).
Proof.
  unfold update_binding. destruct (contexts t !! id) as [c|] eqn:Hc; [|done]. case_decide; [done|].
  destruct (_ <? _); [done|]. destruct (_ <=? _); [done|].
  unfold bind_endpoint. repeat case_decide; try done; intros _; eexists; cbn [fst put_ctx set_contexts contexts];
    (split; [by rewrite lookup_insert_eq|]); cbn; (split; [by case_match|]); auto.
Qed.

(** A binding request can be replayed: whoever has seen one that was accepted can
    send it again from another address within the time window, and the relay then
    takes that address for the device's, as long as the session is not over. *)
Theorem establish_replay_rebinds st now id device timestamp sig addr st1 m now' random addr' :
  handle_message_from st now random (RelayEstablishRequest id device timestamp sig) (Some addr) = (st1, Ok m) ->
  abs_diff now' timestamp <= TIMESTAMP_WINDOW_MS -> sat_sub now' now <= IDLE_TIMEOUT_MS ->
  (forall ctx, contexts (forwarding st1) !! id = Some ctx -> now' < expires_at_ms ctx) ->
  exists st2 ctx,
    handle_message_from st1 now' random (RelayEstablishRequest id device timestamp sig) (Some addr') =
      (st2, Ok (RelayEstablishAck id)) /\
    contexts (forwarding st2) !! id = Some ctx /\
    (eb_device_id (fc_initiator ctx) = device /\ eb_addr (fc_initiator ctx) = Some addr' \/
     eb_device_id (fc_initiator ctx) <> device /\
     eb_device_id (fc_target ctx) = device /\ eb_addr (fc_target ctx) = Some addr').
Proof.
  cbn [handle_message_from]. intros (-> & Hok & Hagain)%establish_accepted Hw Hidle Hexp.
  apply update_binding_bound in Hok as (c & Hc & Hs & Hl & Hdev). cbn [set_forwarding forwarding] in Hexp.
  rewrite Hagain by done. cbn [set_forwarding forwarding].
  set (t := (update_binding (forwarding st) now id device addr).1) in *.
  assert (exists c', bind_endpoint c now' device addr' = Some c') as [c' Hb].
  { unfold bind_endpoint. repeat case_decide; eauto. naive_solver. }
  assert (update_binding t now' id device addr' = (put_ctx t id c', Ok tt)) as Hu.
  { eapply update_binding_ok; eauto. by rewrite Hl. }
  pose proof (update_binding_bound t now' id device addr') as Hbound. rewrite Hu in *.
  destruct (Hbound eq_refl) as (ctx & Hctx & _ & _ & Hd). do 2 eexists. split; [done|]. eauto.
Qed.

End Consent.

(** ** Requests that succeed *)

Section Success.
Context `{SignaturesLaws}.

(** The relay holds the key of the device with this secret. *)
Definition knows (st : RelayServer) (secret : list Z) : Prop :=
  exists ctx, registry st !! own_device_id secret = Some ctx /\
    cc_verify_key_bytes ctx = ed25519_public secret.

Lemma knows_registered st secret : knows st secret -> is_registered st (own_device_id secret) = true.
Proof. intros (ctx & Hr & _). unfold is_registered. by rewrite Hr, bool_decide_eq_true. Qed.

Lemma verify_key_for_own st secret : knows st secret ->
  verify_key_for st (own_device_id secret) = Ok {| vk_bytes := ed25519_public secret |}.
Proof.
  intros (ctx & Hr & Hk). unfold verify_key_for, verify_key_from_bytes. by rewrite Hr, Hk, public_valid.
Qed.

Lemma verify_statement_own secret statement failure :
  verify_statement {| vk_bytes := ed25519_public secret |} statement (sign_statement secret statement) failure = Ok tt.
Proof. unfold verify_statement, verify, sign_statement. cbn [vk_bytes]. by rewrite verify_sign. Qed.

Lemma signature_length_own secret statement :
  negb (length (sign_statement secret statement) =? 64)%nat = false.
Proof. unfold sign_statement. by rewrite (proj1 (sign_length secret _)). Qed.

Lemma in_time now timestamp : abs_diff now timestamp <= TIMESTAMP_WINDOW_MS -> out_of_window now timestamp = false.
Proof. intros Ht. apply Z.ltb_ge, Ht. Qed.

Lemma register_succeeds st now timestamp secret peer :
  abs_diff now timestamp <= TIMESTAMP_WINDOW_MS ->
  Z.of_nat (size (registry st)) < MAX_REGISTRATIONS ->
  exists st', handle_message_from st now None (register_request secret timestamp) peer =
      (st', Ok (RegisterAck (next_session_id st) peer)) /\
    knows st' secret /\
    (forall k, own_device_id k <> own_device_id secret -> knows st k -> knows st' k) /\
    Z.of_nat (size (registry st')) <= Z.of_nat (size (registry st)) + 1 /\
    rendezvous st' = rendezvous st /\ forwarding st' = forwarding st.
Proof.
  intros Ht Hs. cbn [handle_message_from register_request]. unfold handle_register, verify_key_from_bytes.
  rewrite in_time, public_valid by done. cbn [fail_if try_ map_err].
  rewrite bool_decide_eq_false_2 by tauto. cbn [fail_if try_ map_err].
  rewrite signature_length_own. cbn [fail_if try_ map_err]. rewrite verify_statement_own. cbn [try_]. cbv zeta.
  cbn [registry set_next_session_id]. rewrite !(proj2 (Z.leb_gt _ (Z.of_nat (size (registry st)))) Hs). eexists. split; [done|].
  split_and!; try done; cbn [registry set_registry].
  - eexists. cbn [registry set_registry]. by rewrite lookup_insert_eq.
  - intros k Hne (ctx & Hr & Hk). exists ctx. cbn [registry set_registry]. by rewrite lookup_insert_ne.
  - rewrite map_size_insert. destruct (_ !! _); unfold id; lia.
Qed.

(** The intent a successful request leaves. *)
Definition new_intent (now : Z) (initiator target : DeviceId) (candidates : list Candidate) : PendingIntent :=
  {| pi_initiator := initiator; pi_target := target; initiator_candidates := candidates;
     target_candidates := []; pi_state := Pending now |}.

Lemma connect_intent_succeeds st now timestamp secret target id candidates random peer :
  abs_diff now timestamp <= TIMESTAMP_WINDOW_MS -> knows st secret -> is_registered st target = true ->
  length id = 16%nat -> Z.of_nat (size (rendezvous st)) < MAX_INTENTS ->
  from_option is_pending false (rendezvous st !! id) = false ->
  handle_message_from st now random (connect_intent_request secret timestamp target id candidates) peer =
    (set_rendezvous st (<[id := new_intent now (own_device_id secret) target candidates]>
       (retain_intents now (rendezvous st))), Ok (ConnectInvite (own_device_id secret) id)).
Proof.
  intros Ht Hk Hr Hid Hs Hp. cbn [handle_message_from connect_intent_request]. unfold handle_connect_intent.
  rewrite in_time by done. cbn [fail_if try_]. rewrite verify_key_for_own by done. cbn [try_]. rewrite Hr, Hid.
  cbn [negb Nat.eqb fail_if try_]. rewrite signature_length_own. cbn [fail_if try_].
  rewrite verify_statement_own. cbn [try_]. unfold register_intent.
  pose proof (retain_size now (rendezvous st)).
  rewrite (proj2 (Z.leb_gt _ _)) by lia.
  assert (from_option is_pending false (retain_intents now (rendezvous st) !! id) = false) as ->; [|done].
  destruct (retain_intents now (rendezvous st) !! id) as [i|] eqn:Hi; [|done].
  apply map_lookup_filter_Some in Hi as [Hi _]. by rewrite Hi in Hp.
Qed.

Lemma accept_connect_succeeds st now timestamp secret id candidates token peer i created :
  abs_diff now timestamp <= TIMESTAMP_WINDOW_MS -> knows st secret -> length id = 16%nat ->
  rendezvous st !! id = Some i -> pi_target i = own_device_id secret ->
  pi_state i = Pending created -> sat_sub now created <= INTENT_TIMEOUT_MS ->
  handle_message_from st now (Some token)
      (accept_connect_request secret timestamp id (pi_initiator i) candidates) peer =
    (set_forwarding
       (set_rendezvous st (<[id := set_intent_state (set_target_candidates i candidates) (Accepted token)]>
          (rendezvous st)))
       (authorize_pair (forwarding st) now id token (pi_initiator i) (own_device_id secret)),
     Ok (CandidateExchange id (initiator_candidates i) token)).
Proof.
  intros Ht Hk Hid Hi Htgt Hst Hsub. cbn [handle_message_from accept_connect_request].
  unfold handle_accept_connect. rewrite in_time by done. cbn [fail_if try_].
  rewrite verify_key_for_own by done. cbn [try_]. rewrite Hid. cbn [negb Nat.eqb fail_if try_].
  unfold peek_initiator. rewrite Hi. cbn [map_err try_]. rewrite signature_length_own. cbn [fail_if try_].
  rewrite verify_statement_own. cbn [try_]. unfold accept_intent. rewrite Hi, Hst.
  rewrite (proj2 (Z.ltb_ge _ _)) by done. by rewrite decide_False by tauto.
Qed.

Lemma poll_succeeds st now secret random peer : knows st secret ->
  handle_message_from st now random (poll_request secret) peer =
    (st, Ok (PendingIntents ((fun p => {| pii_from := p.2; pii_intent_id := p.1 |}) <$>
               pending_for (rendezvous st) now (own_device_id secret)))).
Proof.
  intros Hk. cbn [handle_message_from poll_request]. unfold handle_poll_pending_intents.
  by rewrite knows_registered.
Qed.

Lemma get_candidates_succeeds st secret id random peer now i token :
  knows st secret -> length id = 16%nat -> rendezvous st !! id = Some i ->
  pi_initiator i = own_device_id secret -> pi_state i = Accepted token ->
  handle_message_from st now random (get_candidates_request secret id) peer =
    (st, Ok (CandidateExchange id (target_candidates i) token)).
Proof.
  intros Hk Hid Hi Hin Hst. cbn [handle_message_from get_candidates_request]. unfold handle_get_candidates.
  rewrite Hid, knows_registered by done. cbn [negb Nat.eqb fail_if try_].
  unfold get_target_candidates. rewrite Hi, Hst. by rewrite decide_False by tauto.
Qed.

(** A binding request reaches the forwarding table. *)
Lemma establish_reaches st now timestamp secret id addr random :
  abs_diff now timestamp <= TIMESTAMP_WINDOW_MS -> knows st secret -> length id = 16%nat ->
  handle_message_from st now random (establish_request secret timestamp id) (Some addr) =
    let '(t, res) := update_binding (forwarding st) now id (own_device_id secret) addr in
    let st := set_forwarding st t in
    try_ st (map_err Internal res) (fun _ => (st, Ok (RelayEstablishAck id))).
Proof.
  intros Ht Hk Hid. cbn [handle_message_from establish_request]. unfold handle_relay_establish.
  rewrite in_time by done. cbn [fail_if try_]. rewrite Hid. cbn [negb Nat.eqb fail_if try_].
  rewrite signature_length_own. cbn [fail_if try_]. rewrite verify_key_for_own by done. cbn [try_].
  by rewrite verify_statement_own.
Qed.

(** ** Establishing a path *)

Definition relay_reply (st : RelayServer) (input : RelayInput) : option (result RelayError RelayMessage) :=
  match input with
  | Control now random peer m => Some (handle_message_from st now random m peer).2
  | _ => None
  end.

Fixpoint relay_replies (st : RelayServer) (inputs : list RelayInput) :
    list (option (result RelayError RelayMessage)) :=
  match inputs with
  | [] => []
  | input :: inputs => relay_reply st input :: relay_replies (relay_step st input) inputs
  end.

(** The two sides of the protocol: [ka] asks for [kb] under [id], [kb] polls and
    accepts, [ka] fetches the token, both bind.  The instants are the relay's, the
    devices' clocks differ from it by [skew_a] and [skew_b]. *)
Record Plan := {
  ka : list Z; kb : list Z; intent : list Z; relay_token : list Z;
  cands_a : list Candidate; cands_b : list Candidate;
  control_a : SocketAddr; control_b : SocketAddr; data_a : SocketAddr; data_b : SocketAddr;
  skew_a : Z; skew_b : Z;
  t_reg_a : Z; t_reg_b : Z; t_intent : Z; t_poll : Z; t_accept : Z; t_fetch : Z; t_bind_a : Z; t_bind_b : Z;
}.

Definition plan_registration (p : Plan) : list RelayInput :=
  [Control (t_reg_a p) None (Some (control_a p)) (register_request (ka p) (t_reg_a p + skew_a p));
   Control (t_reg_b p) None (Some (control_b p)) (register_request (kb p) (t_reg_b p + skew_b p))].

Definition plan_rendezvous (p : Plan) : list RelayInput :=
  let a := own_device_id (ka p) in
  let b := own_device_id (kb p) in
  [Control (t_intent p) None (Some (control_a p))
     (connect_intent_request (ka p) (t_intent p + skew_a p) b (intent p) (cands_a p));
   Control (t_poll p) None (Some (control_b p)) (poll_request (kb p));
   Control (t_accept p) (Some (relay_token p)) (Some (control_b p))
     (accept_connect_request (kb p) (t_accept p + skew_b p) (intent p) a (cands_b p));
   Control (t_fetch p) None (Some (control_a p)) (get_candidates_request (ka p) (intent p))].

Definition plan_binding (p : Plan) : list RelayInput :=
  [Control (t_bind_a p) None (Some (data_a p)) (establish_request (ka p) (t_bind_a p + skew_a p) (intent p));
   Control (t_bind_b p) None (Some (data_b p)) (establish_request (kb p) (t_bind_b p + skew_b p) (intent p))].

Definition plan_steps (p : Plan) : list RelayInput := plan_registration p ++ plan_rendezvous p ++ plan_binding p.

(** The plan keeps the protocol's time limits, on a relay with the given lifetime. *)
Record plan_ok (expiry : Z) (p : Plan) : Prop := {
  plan_devices : own_device_id (ka p) <> own_device_id (kb p);
  plan_intent : length (intent p) = 16%nat;
  plan_skew_a : Z.abs (skew_a p) <= TIMESTAMP_WINDOW_MS;
  plan_skew_b : Z.abs (skew_b p) <= TIMESTAMP_WINDOW_MS;
  plan_polled : t_poll p <= t_accept p;
  plan_accepted : sat_sub (t_accept p) INTENT_TIMEOUT_MS < t_intent p;
  plan_bound_a : sat_sub (t_bind_a p) (t_accept p) <= IDLE_TIMEOUT_MS;
  plan_bound_b : sat_sub (t_bind_b p) (t_bind_a p) <= IDLE_TIMEOUT_MS;
  plan_lifetime : 0 <= t_accept p + expiry < 2 ^ 64;
  plan_lives_a : t_bind_a p < t_accept p + expiry;
  plan_lives_b : t_bind_b p < t_accept p + expiry;
}.

Lemma skewed now skew : Z.abs skew <= TIMESTAMP_WINDOW_MS -> abs_diff now (now + skew) <= TIMESTAMP_WINDOW_MS.
Proof. unfold abs_diff. lia. Qed.

(** *** What others do meanwhile *)

(** Messages and datagrams of others: they do not register one of the two devices, use the
    plan's intent, or obtain or use its token. *)
Definition foreign (p : Plan) (input : RelayInput) : Prop :=
  match input with
  | Control _ random _ m =>
      match m with
      | RegisterRequest device _ _ _ => device <> own_device_id (ka p) /\ device <> own_device_id (kb p)
      | ConnectIntent _ _ id _ _ _ => id <> intent p
      | AcceptConnect _ id _ _ _ => id <> intent p /\ random <> Some (relay_token p)
      | RelayEstablishRequest id _ _ _ => id <> intent p
      | _ => True
      end
  | Packet _ token _ _ => token <> relay_token p
  | _ => False
  end.

Definition input_now (input : RelayInput) : Z :=
  match input with
  | Control now _ _ _ | Packet now _ _ _ | SweepContexts now | SweepIntents now => now
  | CloseContext _ => 0
  end.

(** The plan's steps, in order, among inputs of others. *)
Inductive woven (p : Plan) : list RelayInput -> list RelayInput -> Prop :=
| WovenNil : woven p [] []
| WovenStep x steps inputs : woven p steps inputs -> woven p (x :: steps) (x :: inputs)
| WovenOther x steps inputs : foreign p x -> woven p steps inputs -> woven p steps (x :: inputs).

(** No token but the plan's leads to its intent. *)
Definition sole_token (p : Plan) (t : ForwardingTable) : Prop :=
  forall tok, token_index t !! tok = Some (intent p) -> tok = relay_token p.

(** The forwarding table is as it was, as far as the plan is concerned. *)
Record same_path (p : Plan) (t t' : ForwardingTable) : Prop := {
  same_context : contexts t' !! intent p = contexts t !! intent p;
  same_token : token_index t' !! relay_token p = token_index t !! relay_token p;
  same_sole : sole_token p t -> sole_token p t';
  same_rate : rate_limit_bytes_per_sec t' = rate_limit_bytes_per_sec t;
  same_expiry : session_expiry_ms t' = session_expiry_ms t;
}.

Lemma same_path_refl p t : same_path p t t.
Proof. done. Qed.

Lemma same_path_put p t id ctx : id <> intent p -> same_path p t (put_ctx t id ctx).
Proof. intros Hne. split; try done. cbn. by rewrite lookup_insert_ne. Qed.

Lemma accept_intent_token intents now random id a cs i c tok :
  (accept_intent intents now random id a cs).2 = Ok (i, c, tok) -> random = Some tok.
Proof. unfold accept_intent. repeat case_match; cbn [snd]; intros; by simplify_eq. Qed.

Lemma get_candidates_state st requester id : (handle_get_candidates st requester id).1 = st.
Proof. unfold handle_get_candidates, try_. repeat case_match; by simplify_eq/=. Qed.

Lemma poll_state st now device : (handle_poll_pending_intents st now device).1 = st.
Proof. unfold handle_poll_pending_intents, try_. by case_match. Qed.

Lemma foreign_forwarding p st x : foreign p x -> sole_token p (forwarding st) ->
  same_path p (forwarding st) (forwarding (relay_step st x)).
Proof.
  intros Hx Hsole. destruct x as [now random peer m|now token source len| | |]; cbn [foreign relay_step] in *; try done.
  - destruct m; cbn [handle_message_from]; try done.
    + by rewrite (proj1 (proj2 (handle_register_effect _ _ _ _ _ _ _))).
    + by rewrite (proj1 (proj2 (handle_connect_intent_effect _ _ _ _ _ _ _ _))).
    + destruct Hx as [Hid Hr]. unfold handle_accept_connect. repeat (step_try; [|done]).
      destruct (accept_intent _ _ _ _ _ _) as [r res] eqn:Ha. cbn [set_rendezvous].
      destruct res as [[[i c] tok]|]; cbn [map_err try_ fst]; [|done].
      assert (random = Some tok) as -> by (eapply accept_intent_token; by rewrite Ha).
      assert (tok <> relay_token p) by congruence. split; cbn; try done.
      * by rewrite lookup_insert_ne.
      * by rewrite lookup_insert_ne.
      * intros Hs tok'. cbn. intros [[_ Hi]|[_ Ht]]%lookup_insert_Some; [congruence|by apply Hs].
    + by rewrite get_candidates_state.
    + match goal with |- context [handle_relay_establish ?s ?n ?i ?d ?ts ?sg ?pr] =>
        destruct (handle_relay_establish_effect s n i d ts sg pr) as (_ & _ & [->|(addr & _ & -> & _)]) end; [done|].
      unfold update_binding. repeat case_match; cbn [fst]; try done; by apply same_path_put.
    + by rewrite poll_state.
  - cbn [set_forwarding forwarding]. pose proof (get_destination_case (forwarding st) now token source len) as Hc.
    destruct Hc as [| |id ctx Hctx Ht Hs|id ctx Hctx Ht|id ctx dst Hctx Ht Hb Hr Hl]; cbn [fst]; try done;
      apply same_path_put; intros ->; by apply Hx, Hsole.
Qed.

Lemma foreign_registry p st x : foreign p x -> Z.of_nat (size (registry st)) < MAX_REGISTRATIONS ->
  (forall k, k = ka p \/ k = kb p -> knows st k -> knows (relay_step st x) k) /\
  (size (registry (relay_step st x)) <= size (registry st) + 1)%nat.
Proof.
  intros Hx Hs.
  assert (Hsame : forall st', registry st' = registry st ->
    (forall k, k = ka p \/ k = kb p -> knows st k -> knows st' k) /\ (size (registry st') <= size (registry st) + 1)%nat).
  { intros st' Hr. split; [|rewrite Hr; lia]. intros k _ (ctx & Hk & Hkey). exists ctx. by rewrite Hr. }
  destruct x as [now random peer m|now token source len| | |]; cbn [foreign relay_step] in *; try done; [|by apply Hsame].
  destruct m; cbn [handle_message_from]; try (by apply Hsame).
  - unfold handle_register. repeat (step_try; [|by apply Hsame]). cbv zeta. cbn [registry set_next_session_id].
    rewrite !(proj2 (Z.leb_gt _ (Z.of_nat (size (registry st)))) Hs). cbn [fst registry set_registry]. split.
    + intros k Hk (ctx & Hc & Hkey). exists ctx. split; [|done]. cbn. rewrite lookup_insert_ne; [done|].
      destruct Hx, Hk as [->| ->]; congruence.
    + rewrite map_size_insert. destruct (_ !! _); unfold id; lia.
  - apply Hsame, handle_connect_intent_effect.
  - apply Hsame, handle_accept_connect_effect.
  - by rewrite get_candidates_state; apply Hsame.
  - apply Hsame, handle_relay_establish_effect.
  - by rewrite poll_state; apply Hsame.
Qed.

Lemma retained_intent p now intents :
  (forall i created, intents !! intent p = Some i -> pi_state i = Pending created -> sat_sub now INTENT_TIMEOUT_MS < created) ->
  retain_intents now intents !! intent p = intents !! intent p.
Proof.
  intros Hk. unfold retain_intents. rewrite map_lookup_filter. destruct (intents !! intent p) as [i|] eqn:Hi; [|done]. cbn.
  rewrite option_guard_True; [done|]. unfold fresh_pending, is_pending. cbn [snd]. destruct (pi_state i) as [created| |] eqn:Hst; try done.
  rewrite (proj2 (Z.ltb_lt _ _)); [done|]. by eapply Hk.
Qed.

Lemma foreign_rendezvous p st x : foreign p x ->
  (forall i created, rendezvous st !! intent p = Some i -> pi_state i = Pending created ->
     sat_sub (input_now x) INTENT_TIMEOUT_MS < created) ->
  rendezvous (relay_step st x) !! intent p = rendezvous st !! intent p /\
  (size (rendezvous (relay_step st x)) <= size (rendezvous st) + 1)%nat.
Proof.
  intros Hx Hk.
  assert (Hsame : forall st', rendezvous st' = rendezvous st -> rendezvous st' !! intent p = rendezvous st !! intent p /\
    (size (rendezvous st') <= size (rendezvous st) + 1)%nat) by (intros st' ->; split; [done|lia]).
  destruct x as [now random peer m|now token source len| | |]; cbn [foreign relay_step input_now] in *; try done; [|by apply Hsame].
  destruct m; cbn [handle_message_from]; try (by apply Hsame).
  - apply Hsame, handle_register_effect.
  - unfold handle_connect_intent. do 2 (step_try; [|by apply Hsame]). destruct (is_registered _ _); cbn [negb]; [|by apply Hsame].
    do 3 (step_try; [|by apply Hsame]). pose proof (retained_intent p now (rendezvous st) Hk) as Hret.
    pose proof (retain_size now (rendezvous st)) as Hsz. unfold register_intent.
    repeat case_match; simplify_eq/=; try (split; [done|lia]).
    rewrite lookup_insert_ne by done. split; [done|]. rewrite map_size_insert. case_match; unfold Datatypes.id; lia.
  - unfold handle_accept_connect. repeat (step_try; [|by apply Hsame]).
    pose proof (accept_dom (rendezvous st) now random intent_id acceptor_device_id candidates) as Hd.
    destruct Hx as [Hne _].
    assert (Hl : (accept_intent (rendezvous st) now random intent_id acceptor_device_id candidates).1 !! intent p = rendezvous st !! intent p).
    { unfold accept_intent. repeat case_match; cbn [fst]; try done; by rewrite lookup_insert_ne. }
    destruct (accept_intent _ _ _ _ _ _) as [r res]. cbn [fst] in Hd, Hl.
    assert (rendezvous (try_ (set_rendezvous st r) (map_err Internal res) (fun '(initiator, cs, tok) =>
      (set_forwarding (set_rendezvous st r) (authorize_pair (forwarding (set_rendezvous st r)) now intent_id tok initiator acceptor_device_id),
       Ok (CandidateExchange intent_id cs tok)))).1 = r) as -> by by destruct res as [[[? ?] ?]|].
    split; [done|]. rewrite <- !size_dom, Hd. lia.
  - by rewrite get_candidates_state; apply Hsame.
  - apply Hsame, handle_relay_establish_effect.
  - by rewrite poll_state; apply Hsame.
Qed.

(** *** The stages of the protocol *)

Section Stages.
Context (p : Plan) (t0 : ForwardingTable) (Hp : plan_ok (session_expiry_ms t0) p).

Definition plan_a : DeviceId := own_device_id (ka p).
Definition plan_b : DeviceId := own_device_id (kb p).

(** The intent and the context the plan's steps leave. *)
Definition asked : PendingIntent := new_intent (t_intent p) plan_a plan_b (cands_a p).

Definition answered : PendingIntent :=
  set_intent_state (set_target_candidates asked (cands_b p)) (Accepted (relay_token p)).

Definition authorized : ForwardingContext := new_context t0 (t_accept p) (intent p) (relay_token p) plan_a plan_b.

Definition with_binding (ctx : ForwardingContext) (now : Z) (i g : EndpointBinding) (s : ForwardingState) : ForwardingContext :=
  set_state (set_last_active (set_bindings ctx i g) now) s.

Definition end_a : EndpointBinding := {| eb_device_id := plan_a; eb_addr := Some (data_a p) |}.
Definition end_b : EndpointBinding := {| eb_device_id := plan_b; eb_addr := Some (data_b p) |}.

Definition half_bound : ForwardingContext :=
  with_binding authorized (t_bind_a p) end_a {| eb_device_id := plan_b; eb_addr := None |} RelayRequested.

Definition both_bound : ForwardingContext := with_binding half_bound (t_bind_b p) end_a end_b RelayActive.

(** The relay after [k] of the eight steps, with room for [n] more inputs of others. *)
Record stage (k n : nat) (st : RelayServer) : Prop := {
  stage_a : (1 <= k)%nat -> knows st (ka p);
  stage_b : (2 <= k)%nat -> knows st (kb p);
  stage_registry : Z.of_nat (size (registry st) + (2 - k) + n) <= MAX_REGISTRATIONS;
  stage_rendezvous : (k < 3)%nat -> Z.of_nat (size (rendezvous st) + 1 + n) <= MAX_INTENTS;
  stage_intent :
    match k with
    | 0 | 1 | 2 => from_option is_pending false (rendezvous st !! intent p) = false
    | 3 | 4 => rendezvous st !! intent p = Some asked
    | _ => rendezvous st !! intent p = Some answered
    end%nat;
  stage_sole : sole_token p (forwarding st);
  stage_token : (5 <= k)%nat -> token_index (forwarding st) !! relay_token p = Some (intent p);
  stage_context :
    match k with
    | 5 | 6 => contexts (forwarding st) !! intent p = Some authorized
    | 7 => contexts (forwarding st) !! intent p = Some half_bound
    | 8 => contexts (forwarding st) !! intent p = Some both_bound
    | _ => True
    end%nat;
  stage_rate : rate_limit_bytes_per_sec (forwarding st) = rate_limit_bytes_per_sec t0;
  stage_expiry : session_expiry_ms (forwarding st) = session_expiry_ms t0;
}.

(** What others do leaves the stage, as long as the intent does not expire before it is
    accepted. *)
Lemma stage_foreign k n st x : foreign p x -> ((k < 5)%nat -> input_now x <= t_accept p) ->
  stage k (S n) st -> stage k n (relay_step st x).
Proof.
  intros Hx Hnow [Ha Hb Hr Hv Hi Hs Ht Hc Hra He].
  destruct (foreign_forwarding p st x Hx Hs) as [Ec Et Es Er Ee].
  destruct (foreign_registry p st x Hx ltac:(lia)) as [Hk Hsz].
  destruct (foreign_rendezvous p st x Hx) as [El Hsz'].
  { intros i created Hl Hst. destruct (decide (k < 3)%nat) as [H3|H3].
    { assert (Hn : from_option is_pending false (rendezvous st !! intent p) = false)
        by (destruct k as [|[|[|k]]]; done || lia).
      rewrite Hl in Hn. cbn in Hn. unfold is_pending in Hn. by rewrite Hst in Hn. }
    destruct (decide (k < 5)%nat) as [H5|H5].
    - assert (Hn : rendezvous st !! intent p = Some asked) by (destruct k as [|[|[|[|[|k]]]]]; done || lia).
      rewrite Hl in Hn. injection Hn as ->. cbn in Hst. injection Hst as <-.
      pose proof (plan_accepted _ _ Hp). specialize (Hnow H5). unfold sat_sub in *. lia.
    - assert (Hn : rendezvous st !! intent p = Some answered) by (do 5 (destruct k as [|k]; [lia|]); done).
      rewrite Hl in Hn. injection Hn as ->. done. }
  constructor; rewrite ?El, ?Et, ?Ec; try done.
  - intros H1. apply Hk; [by left|by apply Ha].
  - intros H2. apply Hk; [by right|by apply Hb].
  - lia.
  - intros H3. specialize (Hv H3). lia.
  - by apply Es.
  - congruence.
  - congruence.
Qed.

(** The replies to the steps that matter. *)
Definition reply_ok (k : nat) (r : option (result RelayError RelayMessage)) : Prop :=
  match k with
  | 2%nat => r = Some (Ok (ConnectInvite plan_a (intent p)))
  | 3%nat => exists polled, r = Some (Ok (PendingIntents polled)) /\ {| pii_from := plan_a; pii_intent_id := intent p |} ∈ polled
  | 4%nat => r = Some (Ok (CandidateExchange (intent p) (cands_a p) (relay_token p)))
  | 5%nat => r = Some (Ok (CandidateExchange (intent p) (cands_b p) (relay_token p)))
  | _ => True
  end.

Lemma step_registers k n st secret now skew control : (k < 2)%nat -> Z.abs skew <= TIMESTAMP_WINDOW_MS ->
  (k = 0%nat /\ secret = ka p \/ k = 1%nat /\ secret = kb p) -> stage k n st ->
  stage (S k) n (handle_message_from st now None (register_request secret (now + skew)) control).1.
Proof.
  intros Hk Hsk Hsec [Ha Hb Hr Hv Hi Hs Ht Hc Hra He].
  destruct (register_succeeds st now (now + skew) secret control) as (st' & -> & Hknown & Hkeep & Hsz & Hrv & Hf);
    [by apply skewed|lia|]. cbn [fst].
  assert (Hi' : from_option is_pending false (rendezvous st !! intent p) = false) by (destruct k as [|[|k]]; done || lia).
  constructor; rewrite ?Hrv, ?Hf.
  - intros _. destruct Hsec as [[-> ->]|[-> ->]]; [done|]. apply Hkeep; [apply Hp|apply Ha; lia].
  - intros H2. destruct Hsec as [[-> ->]|[-> ->]]; [lia|done].
  - lia.
  - intros _. apply Hv. lia.
  - by destruct k as [|[|k]]; [| |lia].
  - done.
  - intros H5. lia.
  - by destruct k as [|[|k]]; [| |lia].
  - done.
  - done.
Qed.

(** The steps, from the first device's registration on. *)
Lemma stage_step k n st x : plan_steps p !! k = Some x -> stage k n st ->
  stage (S k) n (relay_step st x) /\ reply_ok k (relay_reply st x).
Proof.
  intros Hx Hst. destruct k as [|[|[|[|[|[|[|[|k]]]]]]]]; cbn in Hx; [injection Hx as <-..|done].
  - split; [|done]. apply step_registers; [lia|apply Hp|by left|done].
  - split; [|done]. apply step_registers; [lia|apply Hp|by right|done].
  - destruct Hst as [Ha Hb Hr Hv Hi Hs Ht Hc Hra He]. cbn [relay_step relay_reply]. specialize (Hv ltac:(lia)).
    rewrite (connect_intent_succeeds st); [|apply skewed, Hp|apply Ha; lia|apply knows_registered, Hb; lia|apply Hp|lia|done].
    cbn [fst snd]. split; [|done]. constructor; cbn; try done; try lia; [by intros; apply Ha; lia|by intros; apply Hb; lia|].
    by rewrite lookup_insert_eq.
  - cbn [relay_step relay_reply]. rewrite (poll_succeeds st); [|apply Hst; lia]. cbn [fst snd].
    destruct Hst as [Ha Hb Hr Hv Hi Hs Ht Hc Hra He]. split.
    + constructor; try done; try lia; [by intros; apply Ha; lia|by intros; apply Hb; lia].
    + eexists. split; [done|]. apply list_elem_of_fmap. exists (intent p, plan_a). split; [done|].
      apply list_elem_of_fmap. exists (intent p, asked). split; [done|]. apply list_elem_of_filter.
      split; [|by apply elem_of_map_to_list]. split; [done|]. cbn. apply Z.ltb_lt.
      pose proof (plan_accepted _ _ Hp). pose proof (plan_polled _ _ Hp). unfold sat_sub in *. lia.
  - destruct Hst as [Ha Hb Hr Hv Hi Hs Ht Hc Hra He]. cbn [relay_step relay_reply].
    pose proof (accept_connect_succeeds st (t_accept p) (t_accept p + skew_b p) (kb p) (intent p) (cands_b p)
      (relay_token p) (Some (control_b p)) asked (t_intent p)) as Hacc.
    cbn [pi_initiator asked new_intent] in Hacc. fold plan_a.
    rewrite Hacc; [|apply skewed, Hp|apply Hb; lia|apply Hp|done|done|done|].
    2: { pose proof (plan_accepted _ _ Hp). unfold sat_sub, INTENT_TIMEOUT_MS in *. lia. }
    cbn [fst snd]. split; [|done]. constructor; cbn; try done; try lia; [by intros; apply Ha; lia|by intros; apply Hb; lia|..].
    + by rewrite lookup_insert_eq.
    + intros tok. cbn. intros [[<- _]|[_ Hl]]%lookup_insert_Some; [done|by apply Hs].
    + intros _. by rewrite lookup_insert_eq.
    + rewrite lookup_insert_eq. unfold authorized, new_context. by rewrite Hra, He.
  - cbn [relay_step relay_reply].
    rewrite (get_candidates_succeeds st (ka p) (intent p) None (Some (control_a p)) (t_fetch p) answered (relay_token p));
      [|apply Hst; lia|apply Hp|apply Hst|done|done]. cbn [fst snd].
    split; [|done]. destruct Hst as [Ha Hb Hr Hv Hi Hs Ht Hc Hra He].
    constructor; try done; try lia; [by intros; apply Ha; lia|by intros; apply Hb; lia|by intros; apply Ht; lia].
  - split; [|done]. destruct Hst as [Ha Hb Hr Hv Hi Hs Ht Hc Hra He]. cbn [relay_step].
    rewrite (establish_reaches st); [|apply skewed, Hp|apply Ha; lia|apply Hp]. fold plan_a.
    assert (Hlife : 0 <= t_accept p + session_expiry_ms t0 < 2 ^ 64) by apply Hp.
    rewrite (update_binding_ok (forwarding st) (t_bind_a p) (intent p) plan_a (data_a p) authorized half_bound);
      [|done|done|apply Hp|cbn; rewrite wrap_small by done; apply Hp|].
    2: { unfold bind_endpoint. cbn. by rewrite decide_True. }
    cbn [map_err try_ fst]. constructor; cbn; try done; try lia;
      [by intros; apply Ha; lia|by intros; apply Hb; lia|by intros; apply Ht; lia|by rewrite lookup_insert_eq].
  - split; [|done]. destruct Hst as [Ha Hb Hr Hv Hi Hs Ht Hc Hra He]. cbn [relay_step].
    rewrite (establish_reaches st); [|apply skewed, Hp|apply Hb; lia|apply Hp]. fold plan_b.
    assert (Hlife : 0 <= t_accept p + session_expiry_ms t0 < 2 ^ 64) by apply Hp.
    rewrite (update_binding_ok (forwarding st) (t_bind_b p) (intent p) plan_b (data_b p) half_bound both_bound);
      [|done|done|apply Hp|cbn; rewrite wrap_small by done; apply Hp|].
    2: { unfold bind_endpoint. cbn. rewrite decide_False by apply Hp. by rewrite decide_True. }
    cbn [map_err try_ fst]. constructor; cbn; try done; try lia;
      [by intros; apply Ha; lia|by intros; apply Hb; lia|by intros; apply Ht; lia|by rewrite lookup_insert_eq].
Qed.

Lemma woven_elem steps inputs x : woven p steps inputs -> x ∈ steps -> x ∈ inputs.
Proof.
  induction 1 as [|y steps inputs _ IH|y steps inputs _ _ IH]; intros Hx; [done|..].
  - apply elem_of_cons in Hx as [->|Hx]; [by left|right; by apply IH].
  - right. by apply IH.
Qed.

Lemma woven_length steps inputs : woven p steps inputs -> (length steps <= length inputs)%nat.
Proof. induction 1; cbn; lia. Qed.

(** The whole run: the steps come to their end, with their replies in order. *)
Lemma woven_run steps inputs : woven p steps inputs -> forall k n st,
  steps = drop k (plan_steps p) -> StronglySorted Z.le (input_now <$> inputs) ->
  (length inputs - length steps <= n)%nat -> (k <= 8)%nat -> stage k n st ->
  (exists n', stage 8 n' (relay_run st inputs)) /\
  exists replies, replies `sublist_of` relay_replies st inputs /\ length replies = (8 - k)%nat /\
    forall j r, replies !! j = Some r -> reply_ok (k + j) r.
Proof.
  induction 1 as [|x steps inputs Hw IH|x steps inputs Hx Hw IH]; intros k n st Hk Hsort Hn H8 Hst.
  - assert (k = 8%nat) as ->.
    { apply (f_equal length) in Hk. rewrite length_drop in Hk. cbn in Hk. lia. }
    split; [by exists n|]. exists []. by split_and!.
  - assert (Hlk : plan_steps p !! k = Some x).
    { rewrite <- (Nat.add_0_r k), <- lookup_drop, <- Hk. done. }
    assert (Hrest : steps = drop (S k) (plan_steps p)).
    { replace (S k) with (k + 1)%nat by lia. rewrite <- drop_drop, <- Hk. done. }
    destruct (stage_step k n st x Hlk Hst) as [Hst' Hr]. apply lookup_lt_Some in Hlk. cbn in Hlk.
    cbn in Hsort, Hn. apply StronglySorted_inv in Hsort as [Hsort _].
    destruct (IH (S k) n (relay_step st x) Hrest Hsort ltac:(lia) ltac:(lia) Hst') as [Hend (replies & Hsub & Hlen & Hok)].
    split; [done|]. exists (relay_reply st x :: replies). cbn. split_and!; [by apply sublist_skip|lia|].
    intros [|j] r Hj; cbn in Hj; [injection Hj as <-; by rewrite Nat.add_0_r|].
    replace (k + S j)%nat with (S k + j)%nat by lia. by apply Hok.
  - cbn in Hsort, Hn. apply StronglySorted_inv in Hsort as [Hsort Hle].
    pose proof (woven_length _ _ Hw) as Hl. destruct n as [|n]; [lia|].
    assert (Hst' : stage k n (relay_step st x)).
    { apply stage_foreign; [done| |done]. intros H5. rewrite Stdlib.Lists.List.Forall_forall in Hle.
      change (t_accept p) with (input_now (Control (t_accept p) (Some (relay_token p)) (Some (control_b p))
        (accept_connect_request (kb p) (t_accept p + skew_b p) (intent p) plan_a (cands_b p)))).
      apply Hle, list_elem_of_In, list_elem_of_fmap. eexists. split; [done|].
      apply (woven_elem steps); [done|]. rewrite Hk. apply (list_elem_of_lookup_2 _ (4 - k)). rewrite lookup_drop.
      by replace (k + (4 - k))%nat with 4%nat by lia. }
    destruct (IH k n (relay_step st x) Hk Hsort ltac:(lia) H8 Hst') as [Hend (replies & Hsub & Hlen & Hok)].
    split; [done|]. exists replies. split_and!; [by apply sublist_cons|done|done].
Qed.
End Stages.

(** *** The path once it is there *)

Record served (p : Plan) (t0 t : ForwardingTable) (ctx : ForwardingContext) : Prop := {
  served_context : contexts t !! intent p = Some ctx;
  served_token : token_index t !! relay_token p = Some (intent p);
  served_sole : sole_token p t;
  served_initiator : fc_initiator ctx = end_a p;
  served_target : fc_target ctx = end_b p;
  served_expiry : expires_at_ms ctx = wrap 64 (t_accept p + session_expiry_ms t0);
  served_rate : rate_limit_bytes_per_sec t = rate_limit_bytes_per_sec t0;
}.

(** A datagram under the plan's token, from anyone. *)
Definition own_packet (p : Plan) (input : RelayInput) : Prop :=
  match input with Packet _ token _ _ => token = relay_token p | _ => False end.

Lemma served_put p t0 t ctx ctx' : served p t0 t ctx ->
  fc_initiator ctx' = fc_initiator ctx -> fc_target ctx' = fc_target ctx -> expires_at_ms ctx' = expires_at_ms ctx ->
  served p t0 (put_ctx t (intent p) ctx') ctx'.
Proof. intros [Hc Ht Hs Hi Hg He Hr] Ei Eg Ee. split; try done; cbn; try congruence. by rewrite lookup_insert_eq. Qed.

Lemma served_step p t0 st x ctx : foreign p x \/ own_packet p x -> served p t0 (forwarding st) ctx ->
  exists ctx', served p t0 (forwarding (relay_step st x)) ctx'.
Proof.
  intros Hx Hs. pose proof Hs as [Hc Ht Hso Hi Hg He Hr]. destruct Hx as [Hx|Hx].
  { destruct (foreign_forwarding p st x Hx Hso) as [Ec Et Es Er Ee]. exists ctx. split; try done; try congruence. by apply Es. }
  destruct x as [|now token source len| | |]; try done. cbn in Hx. subst token. cbn [relay_step set_forwarding forwarding].
  pose proof (get_destination_case (forwarding st) now (relay_token p) source len) as Hcase.
  destruct Hcase as [|Hb Hn|id c Hc' Ht' Hst|id c Hc' Ht'|id c dst Hc' Ht' Hb Hr' Hl]; cbn [fst].
  - by exists ctx.
  - congruence.
  - rewrite Ht in Ht'. injection Ht' as <-. rewrite Hc in Hc'. injection Hc' as <-. eexists. by apply (served_put _ _ _ ctx).
  - rewrite Ht in Ht'. injection Ht' as <-. rewrite Hc in Hc'. injection Hc' as <-. eexists. by apply (served_put _ _ _ ctx).
  - rewrite Ht in Ht'. injection Ht' as <-. rewrite Hc in Hc'. injection Hc' as <-. eexists. by apply (served_put _ _ _ ctx).
Qed.

Lemma served_run p t0 later : forall st ctx, Forall (fun x => foreign p x \/ own_packet p x) later ->
  served p t0 (forwarding st) ctx -> exists ctx', served p t0 (forwarding (relay_run st later)) ctx'.
Proof.
  induction later as [|x later IH]; intros st ctx HF Hs; [by exists ctx|]. apply Forall_cons_1 in HF as [Hx HF].
  destruct (served_step p t0 st x ctx Hx Hs) as [ctx' Hs']. exact (IH _ ctx' HF Hs').
Qed.

(** What the path's limits still allow, at [now]. *)
Definition admits (t : ForwardingTable) (ctx : ForwardingContext) (now len : Z) : Prop :=
  fc_state ctx = RelayActive /\ now < expires_at_ms ctx /\ bytes_forwarded ctx < SESSION_BYTE_CAP /\
  sat_sub now (last_active_ms ctx) <= IDLE_TIMEOUT_MS /\
  f64_lt (tokens (refill t now (rate_bucket ctx))) (f64_of len) = false.

Lemma served_forwards p t0 t ctx now len : served p t0 t ctx -> admits t ctx now len ->
  (is_blocklisted t now (addr_ip (data_a p)) = false ->
   (get_destination t now (relay_token p) (data_a p) len).2 = Some (data_b p)) /\
  (is_blocklisted t now (addr_ip (data_b p)) = false ->
   (get_destination t now (relay_token p) (data_b p) len).2 = Some (data_a p)).
Proof.
  intros [Hc Ht _ Hi Hg He _] (Hst & Hexp & Hcap & Hidle & Hlt).
  assert (Hgo : forall src dst, (src = data_a p /\ dst = data_b p \/ src = data_b p /\ dst = data_a p) ->
    is_blocklisted t now (addr_ip src) = false -> (get_destination t now (relay_token p) src len).2 = Some dst).
  { intros src dst Hsd Hb. rewrite (get_destination_forwards t now _ src len (intent p) ctx dst); try done.
    split; try done. rewrite Hi, Hg. cbn. destruct Hsd as [[-> ->]|[-> ->]]; auto. }
  split; intros Hb; apply Hgo; auto.
Qed.

(** C6.  Two devices that follow the protocol get a path.  Let them register, ask, poll, accept,
    fetch and bind, in this order and within the protocol's time limits, while the relay serves
    any messages and datagrams of others in between, which do not register one of the two
    devices, use their intent, or know or draw their token; and let the relay have room for the
    registrations and intents that may come, the intent's identifier not be pending and no token
    lead to it.  Then the target's poll delivers the intent and both devices receive the same
    token.  From then on, after any datagrams under this token and any inputs of others, the
    relay's context for it is bound to the two addresses, and while it is active, neither idle
    nor expired nor over its byte cap, a datagram of either device, of any length that the rate
    limit admits, is forwarded to the other, unless the sender's address is blocklisted; right
    after the last binding the context is active, with a full bucket of the acceptance and no
    bytes counted. *)
Theorem protocol_yields_path p st inputs later :
  plan_ok (session_expiry_ms (forwarding st)) p ->
  woven p (plan_steps p) inputs -> StronglySorted Z.le (input_now <$> inputs) ->
  Z.of_nat (size (registry st) + length inputs) <= MAX_REGISTRATIONS ->
  Z.of_nat (size (rendezvous st) + length inputs) <= MAX_INTENTS ->
  from_option is_pending false (rendezvous st !! intent p) = false ->
  sole_token p (forwarding st) ->
  Forall (fun x => foreign p x \/ own_packet p x) later ->
  let t := forwarding (relay_run st (inputs ++ later)) in
  (exists polled,
    [Some (Ok (ConnectInvite (own_device_id (ka p)) (intent p)));
     Some (Ok (PendingIntents polled));
     Some (Ok (CandidateExchange (intent p) (cands_a p) (relay_token p)));
     Some (Ok (CandidateExchange (intent p) (cands_b p) (relay_token p)))] `sublist_of` relay_replies st inputs /\
    {| pii_from := own_device_id (ka p); pii_intent_id := intent p |} ∈ polled) /\
  exists ctx, contexts t !! intent p = Some ctx /\
    fc_initiator ctx = end_a p /\ fc_target ctx = end_b p /\
    expires_at_ms ctx = t_accept p + session_expiry_ms (forwarding st) /\
    (later = [] -> fc_state ctx = RelayActive /\ bytes_forwarded ctx = 0 /\ last_active_ms ctx = t_bind_b p /\
       rate_bucket ctx = {| tokens := f64_of (rate_limit_bytes_per_sec t); last_refill_ms := t_accept p |}) /\
    forall now len, admits t ctx now len ->
      (is_blocklisted t now (addr_ip (data_a p)) = false ->
       (get_destination t now (relay_token p) (data_a p) len).2 = Some (data_b p)) /\
      (is_blocklisted t now (addr_ip (data_b p)) = false ->
       (get_destination t now (relay_token p) (data_b p) len).2 = Some (data_a p)).
Proof.
  intros Hp Hw Hsort Hreg Hint Hfresh Hsole Hlater t. set (t0 := forwarding st) in *.
  pose proof (woven_length p _ _ Hw) as Hl. cbn in Hl.
  assert (Hst0 : stage p t0 0 (length inputs - 8) st) by (constructor; try done; lia).
  destruct (woven_run p t0 Hp _ _ Hw 0 (length inputs - 8) st eq_refl Hsort ltac:(cbn; lia) ltac:(lia) Hst0)
    as [[n H8] (replies & Hsub & Hlen & Hok)].
  split.
  { do 8 (destruct replies as [|? replies]; [cbn in Hlen; lia|]).
    pose proof (Hok 2%nat _ eq_refl) as R2. pose proof (Hok 3%nat _ eq_refl) as (polled & R3 & Hin).
    pose proof (Hok 4%nat _ eq_refl) as R4. pose proof (Hok 5%nat _ eq_refl) as R5. cbn in R2, R4, R5. subst.
    exists polled. split; [|done]. etrans; [|exact Hsub]. do 2 apply sublist_cons. do 4 apply sublist_skip. apply sublist_nil_l. }
  set (st1 := relay_run st inputs) in *.
  assert (Hrun : relay_run st (inputs ++ later) = relay_run st1 later) by (unfold relay_run, st1; by rewrite foldl_app).
  assert (Hs8 : served p t0 (forwarding st1) (both_bound p t0)).
  { destruct H8 as [_ _ _ _ _ Hs Ht Hc Hr _]. split; try done. apply Ht. lia. }
  destruct (served_run p t0 later st1 _ Hlater Hs8) as [ctx Hs]. rewrite <- Hrun in Hs. fold t in Hs.
  exists ctx. pose proof Hs as [Hc Ht _ Hi Hg He Hr]. split_and!; try done.
  - rewrite He, wrap_small; [done|apply Hp].
  - intros ->. unfold t in Hc. rewrite app_nil_r in Hc. fold st1 in Hc. rewrite (served_context _ _ _ _ Hs8) in Hc.
    injection Hc as <-. by rewrite Hr.
  - intros now len Had. by eapply served_forwards.
Qed.

(** ** Intents used again *)

(** An intent identifier can be used again once its intent was accepted: any two
    registered devices that know it replace the pair it was authorized for.  The first
    pair's path is gone, and its token now leads to the context of the second. *)
Theorem intent_reuse_replaces_pair st kc kd id i old_token token t1 t2 ts1 ts2 cs1 cs2 peer1 peer2 :
  knows st kc -> knows st kd -> length id = 16%nat ->
  rendezvous st !! id = Some i -> pi_state i = Accepted old_token ->
  Z.of_nat (size (rendezvous st)) < MAX_INTENTS -> token_index (forwarding st) !! old_token = Some id ->
  abs_diff t1 ts1 <= TIMESTAMP_WINDOW_MS -> abs_diff t2 ts2 <= TIMESTAMP_WINDOW_MS ->
  sat_sub t2 t1 <= INTENT_TIMEOUT_MS ->
  let t := forwarding (relay_run st
    [Control t1 None peer1 (connect_intent_request kc ts1 (own_device_id kd) id cs1);
     Control t2 (Some token) peer2 (accept_connect_request kd ts2 id (own_device_id kc) cs2)]) in
  contexts t !! id =
    Some (new_context (forwarding st) t2 id token (own_device_id kc) (own_device_id kd)) /\
  token_index t !! old_token = Some id /\
  forall now source len, (get_destination t now old_token source len).2 = None.
Proof.
  intros Hc Hd Hid Hi Hst Hs Hidx Hw1 Hw2 Hsub. cbn [relay_run foldl relay_step].
  rewrite (connect_intent_succeeds st) by
    (done || (by apply knows_registered) || (by rewrite Hi; cbn; unfold is_pending; rewrite Hst)).
  cbn [fst]. set (n := new_intent _ _ _ _). set (st1 := set_rendezvous st _).
  assert (rendezvous st1 !! id = Some n) as Hn by (cbn; by rewrite lookup_insert_eq).
  pose proof (accept_connect_succeeds st1 t2 ts2 kd id cs2 token peer2 n t1) as Hacc.
  cbn [pi_initiator n new_intent] in Hacc. rewrite Hacc by done.
  cbn [fst set_forwarding forwarding st1 set_rendezvous authorize_pair contexts token_index].
  assert (<[token := id]> (token_index (forwarding st)) !! old_token = Some id) as Hold.
  { destruct (decide (token = old_token)) as [->|]; [by rewrite lookup_insert_eq|by rewrite lookup_insert_ne]. }
  split; [by rewrite lookup_insert_eq|]. split; [done|]. intros now source len.
  unfold get_destination. case_match; [done|]. cbn [authorize_pair token_index contexts]. rewrite Hold, lookup_insert_eq.
  done.
Qed.

End Success.

(** ** Datagrams *)

Section DatagramPath.
Context `{Signatures} `{CborLaws RelayMessage}.

(** A control exchange over datagrams: a request that fits the relay's buffer
    reaches the server, exactly one datagram goes back to where it came from, and if
    that fits the client's buffer the client reads the server's response, an error as
    an [ErrorResponse]. *)
Theorem control_exchange node now random m packet source st' resp body :
  control_packet m = Ok packet -> (length packet <= MAX_DATAGRAM)%nat ->
  handle_message_from (node_server node) now random m (Some source) = (st', resp) ->
  let reply := match resp with Ok r => r | Err e => ErrorResponse (relay_error_string e) end in
  into_writer reply = Some body -> (length CONTROL_MAGIC + length body <= RESPONSE_BUFFER)%nat ->
  exists node' datagram, relay_turn node now random packet source = (node', [(source, datagram)]) /\
    node_server node' = st' /\ control_response datagram = Ok reply.
Proof.
  unfold control_packet. destruct (into_writer m) as [b|] eqn:Hm; [|done].
  intros Hp Hlen Hh. set (reply := match resp with Ok r => r | Err _ => _ end). intros Hbody Hfit.
  assert (packet = CONTROL_MAGIC ++ b) as -> by congruence. unfold relay_turn. rewrite take_ge by done.
  assert (forall l, is_control (CONTROL_MAGIC ++ l) = true) as Hctl.
  { intros l. unfold is_control. apply bool_decide_eq_true. by rewrite take_app_length. }
  rewrite Hctl, drop_app_length, (from_into_writer _ _ Hm), Hh. fold reply. rewrite Hbody.
  change (default [] (Some body)) with body.
  do 2 eexists. split; [done|]. split; [done|]. unfold control_response.
  rewrite take_ge by (rewrite length_app; done). rewrite Hctl, drop_app_length. cbn [negb].
  by rewrite (from_into_writer _ _ Hbody).
Qed.

(** C27.  A relayed datagram arrives intact: what one endpoint's socket sends through
    the relay, and the relay forwards, the other endpoint's socket hands to its QUIC
    library unchanged, for every payload the sending socket accepts. *)
Theorem relayed_payload_intact node now random relay_addr token source destination payload buf_len wire t' :
  length token = RELAY_HEADER_LEN -> is_control token = false -> node_dev_token node <> Some token ->
  try_send {| sock_relay_addr := relay_addr; sock_relay_token := token |} relay_addr payload =
    Some (relay_addr, wire) ->
  get_destination (forwarding (node_server node)) now token source (zlen wire) = (t', Some destination) ->
  (length payload <= buf_len)%nat ->
  exists node', relay_turn node now random wire source = (node', [(destination, wire)]) /\
    poll_recv {| sock_relay_addr := relay_addr; sock_relay_token := token |} buf_len relay_addr wire = payload.
Proof.
  intros Ht Hctl Hdev. unfold try_send. cbn [sock_relay_addr sock_relay_token]. rewrite decide_True by done.
  destruct (Nat.ltb_spec MAX_RELAY_PAYLOAD (length payload)) as [|Hp]; [done|]. intros [= <-] Hg Hbuf.
  assert (length (token ++ payload) = (32 + length payload)%nat) as Hlen by (rewrite length_app, Ht; done).
  unfold MAX_RELAY_PAYLOAD in Hp. unfold relay_turn, poll_recv. cbn [sock_relay_addr].
  rewrite (take_ge _ MAX_DATAGRAM), (take_ge _ MAX_RELAY_PACKET)
    by (rewrite Hlen; unfold MAX_DATAGRAM, MAX_RELAY_PACKET; lia).
  rewrite (decide_True (P := relay_addr = relay_addr)) by done.
  assert (is_control (token ++ payload) = false) as ->.
  { revert Hctl. unfold is_control. rewrite take_app_le; [done|]. rewrite Ht. vm_compute. lia. }
  rewrite (proj2 (Nat.ltb_ge _ _)) by (rewrite Hlen; unfold RELAY_HEADER_LEN; lia).
  assert (take RELAY_HEADER_LEN (token ++ payload) = token) as -> by (by rewrite <- Ht, take_app_length).
  assert (drop RELAY_HEADER_LEN (token ++ payload) = payload) as -> by (by rewrite <- Ht, drop_app_length).
  rewrite decide_False by done. rewrite Hg.
  eexists. split; [done|]. by rewrite (proj2 (Nat.ltb_ge _ _)).
Qed.

End DatagramPath.

(** ** Instances on concrete inputs *)

#[local] Existing Instance toy_signatures.

Definition sample_plan : Plan := {|
  ka := [1]; kb := [2]; intent := replicate 16 7; relay_token := replicate 32 9;
  cands_a := [cand_host alice_addr]; cands_b := [];
  control_a := AddrV4 [10; 0; 0; 1] 4000; control_b := AddrV4 [10; 0; 0; 2] 4000;
  data_a := alice_addr; data_b := bob_addr; skew_a := 250; skew_b := -1000;
  t_reg_a := 100000; t_reg_b := 100100; t_intent := 101000; t_poll := 102000; t_accept := 102010;
  t_fetch := 104000; t_bind_a := 104100; t_bind_b := 104200;
|}.

Definition sample_relay : RelayServer := relay_with_limits RATE_LIMIT_BYTES_PER_SEC SESSION_EXPIRY_MS.

Definition sample_inputs : list RelayInput :=
  plan_registration sample_plan ++ plan_rendezvous sample_plan ++ plan_binding sample_plan.

Lemma sample_plan_ok : plan_ok SESSION_EXPIRY_MS sample_plan.
Proof. split; try (vm_compute; congruence); vm_compute; repeat split; congruence. Qed.

(** A third device polls, and a stray datagram arrives, between the acceptance and the fetch. *)
Definition others : list RelayInput :=
  [Control 103000 None None (PollPendingIntents (own_device_id [3]));
   Packet 103500 (replicate 32 1) (AddrV4 [66; 6; 6; 6] 666) 100].

Definition woven_inputs : list RelayInput := take 5 sample_inputs ++ others ++ drop 5 sample_inputs.

Lemma sample_woven : woven sample_plan (plan_steps sample_plan) woven_inputs.
Proof.
  do 5 apply WovenStep. apply WovenOther; [done|]. apply WovenOther; [vm_compute; congruence|].
  do 3 apply WovenStep. apply WovenNil.
Qed.

(** Witness of [protocol_yields_path]: 1232 bytes go from one device to the other. *)
Lemma protocol_yields_path_witness :
  (get_destination (forwarding (relay_run sample_relay woven_inputs)) 105000 (relay_token sample_plan)
     alice_addr 1232).2 = Some bob_addr.
Proof.
  destruct (@protocol_yields_path toy_signatures toy_signatures_laws sample_plan sample_relay woven_inputs [] sample_plan_ok
    sample_woven) as (_ & ctx & _ & _ & _ & Hexp & Hnew & Hgo).
  - repeat constructor; vm_compute; congruence.
  - vm_compute. congruence.
  - vm_compute. congruence.
  - reflexivity.
  - intros tok. vm_compute. congruence.
  - constructor.
  - rewrite app_nil_r in *. destruct (Hnew eq_refl) as (Hs & Hb & Hl & Hbucket).
    apply (Hgo 105000 1232); [|vm_compute; reflexivity]. unfold admits. rewrite Hs, Hb, Hl, Hbucket, Hexp.
    repeat split; vm_compute; congruence.
Defined.

(** Witness of [forwarding_needs_consent]. *)
Lemma forwarding_needs_consent_witness :
  exists id i g, i <> g /\ requested sample_inputs id i g /\ agreed sample_inputs id i g /\
    (bound_from sample_inputs id i alice_addr /\ bound_from sample_inputs id g bob_addr \/
     bound_from sample_inputs id g alice_addr /\ bound_from sample_inputs id i bob_addr).
Proof.
  apply (forwarding_needs_consent RATE_LIMIT_BYTES_PER_SEC SESSION_EXPIRY_MS sample_inputs 105000
    (relay_token sample_plan) alice_addr 1232 bob_addr).
  vm_compute. reflexivity.
Defined.

(** Witness of [unbound_relay_forwards_nothing]. *)
Lemma unbound_relay_forwards_nothing_witness :
  (get_destination (forwarding (relay_run sample_relay
     (plan_registration sample_plan ++ plan_rendezvous sample_plan))) 105000 (relay_token sample_plan)
     alice_addr 1232).2 = None.
Proof.
  apply (unbound_relay_forwards_nothing RATE_LIMIT_BYTES_PER_SEC SESSION_EXPIRY_MS). by repeat constructor.
Defined.

Definition before_bind_b : RelayServer := relay_run sample_relay (take 7 sample_inputs).

(** Witness of [establish_replay_rebinds]: the second device's binding, sent again from
    elsewhere ten seconds later. *)
Lemma establish_replay_rebinds_witness :
  let eve := AddrV4 [66; 6; 6; 6] 666 in
  let m := establish_request (kb sample_plan) 103200 (intent sample_plan) in
  let st1 := (handle_message_from before_bind_b 104200 None m (Some bob_addr)).1 in
  exists st2 ctx, handle_message_from st1 114200 None m (Some eve) =
      (st2, Ok (RelayEstablishAck (intent sample_plan))) /\
    contexts (forwarding st2) !! intent sample_plan = Some ctx /\
    (eb_device_id (fc_initiator ctx) = own_device_id (kb sample_plan) /\ eb_addr (fc_initiator ctx) = Some eve \/
     eb_device_id (fc_initiator ctx) <> own_device_id (kb sample_plan) /\
     eb_device_id (fc_target ctx) = own_device_id (kb sample_plan) /\ eb_addr (fc_target ctx) = Some eve).
Proof.
  cbv zeta. unfold establish_request.
  apply (establish_replay_rebinds before_bind_b 104200 _ _ _ _ bob_addr _ (RelayEstablishAck (intent sample_plan))).
  - vm_compute. reflexivity.
  - vm_compute. congruence.
  - vm_compute. congruence.
  - vm_compute. intros ctx [= <-]. reflexivity.
Defined.

(** Witness of [intent_reuse_replaces_pair]: the same two devices, the other way round,
    replace their own path. *)
Lemma intent_reuse_replaces_pair_witness :
  let st := relay_run sample_relay sample_inputs in
  let t := forwarding (relay_run st
    [Control 110000 None None (connect_intent_request [2] 110000 (own_device_id [1]) (replicate 16 7) []);
     Control 111000 (Some (replicate 32 8)) None
       (accept_connect_request [1] 111000 (replicate 16 7) (own_device_id [2]) [])]) in
  contexts t !! replicate 16 7 =
    Some (new_context (forwarding st) 111000 (replicate 16 7) (replicate 32 8) (own_device_id [2]) (own_device_id [1])) /\
  token_index t !! replicate 32 9 = Some (replicate 16 7) /\
  forall now source len, (get_destination t now (replicate 32 9) source len).2 = None.
Proof.
  assert (exists i, rendezvous (relay_run sample_relay sample_inputs) !! replicate 16 7 = Some i /\
    pi_state i = Accepted (replicate 32 9)) as (i & Hi & Hst).
  { eexists. vm_compute. split; reflexivity. }
  refine (@intent_reuse_replaces_pair toy_signatures toy_signatures_laws
    (relay_run sample_relay sample_inputs) [2] [1] (replicate 16 7) i (replicate 32 9) (replicate 32 8)
    110000 111000 110000 111000 [] [] None None _ _ _ Hi Hst _ _ _ _ _); try (vm_compute; congruence).
  - eexists. vm_compute. split; reflexivity.
  - eexists. vm_compute. split; reflexivity.
Defined.

Definition sample_node : RelayNode := {|
  node_server := relay_run sample_relay sample_inputs;
  node_dev_token := None; node_dev_bindings := dev_bindings_default;
|}.

(** Witness of [relayed_payload_intact]. *)
Lemma relayed_payload_intact_witness :
  let relay_addr := AddrV4 [10; 0; 0; 9] 9999 in
  let sock := {| sock_relay_addr := relay_addr; sock_relay_token := replicate 32 9 |} in
  let wire := replicate 32 9 ++ [1; 2; 3] in
  exists node', relay_turn (H0 := Build_Cbor _ (fun _ => None) (fun _ => None)) sample_node 105000 None wire alice_addr =
      (node', [(bob_addr, wire)]) /\
    poll_recv sock 1500 relay_addr wire = [1; 2; 3].
Proof.
  cbv zeta.
  refine (@relayed_payload_intact toy_signatures (Build_Cbor _ (fun _ => None) (fun _ => None)) sample_node 105000 None
    (AddrV4 [10; 0; 0; 9] 9999) (replicate 32 9) alice_addr bob_addr [1; 2; 3] 1500
    (replicate 32 9 ++ [1; 2; 3])
    (get_destination (forwarding (node_server sample_node)) 105000 (replicate 32 9) alice_addr 35).1
    _ _ _ _ _ _); try (vm_compute; congruence). vm_compute. lia.
Defined.
