(* ===== verification/Pool.v ===== *)
(** * Buffer pools (bw-core, [pool.rs] and [memory.rs])

    [StaticSlotPool] is a lock-free stack of slot numbers: a tagged head word
    (16 bits of generation, 48 bits of index), one link per slot, and a mutex
    around each slot's bytes.  Its operations run concurrently, so they are
    modelled as a step function on a state shared by any number of agents (one
    per checkout or guard): one step is one access to shared memory, in an
    interleaving the caller chooses.  [LockFreeMemoryPool], a scan over
    occupancy flags, is modelled the same way in [Module FlagPool]. *)

From S2P Require Import Prelude.

(** ** Tagged indices *)

Module TaggedIndex.

Definition IDX_MASK : Z := 0x0000FFFFFFFFFFFF.

(** [TaggedIndex::new] *)
Definition tagged_new (gen idx : Z) : Z := Z.lor (Z.shiftl gen 48) (Z.land idx IDX_MASK).

Definition generation (v : Z) : Z := wrap 16 (Z.shiftr v 48).

Definition tagged_index (v : Z) : Z := Z.land v IDX_MASK.

Lemma land_idx_mask z : Z.land z IDX_MASK = z mod 2 ^ 48.
Proof. change IDX_MASK with (Z.ones 48). by rewrite Z.land_ones. Qed.

Lemma index_mod v : tagged_index v = v mod 2 ^ 48.
Proof. apply land_idx_mask. Qed.

Lemma new_arith gen idx : uint 48 idx -> tagged_new gen idx = gen * 2 ^ 48 + idx.
Proof.
  intros Hi. unfold tagged_new. rewrite land_idx_mask, Z.mod_small by exact Hi. by rewrite lor_shiftl_add.
Qed.

Lemma index_new gen idx : uint 48 idx -> tagged_index (tagged_new gen idx) = idx.
Proof.
  intros Hi. unfold tagged_index. rewrite new_arith, land_idx_mask by done.
  rewrite Z.add_comm, Z_mod_plus_full. by apply Z.mod_small.
Qed.

Lemma generation_new gen idx : uint 16 gen -> uint 48 idx -> generation (tagged_new gen idx) = gen.
Proof.
  intros Hg Hi. unfold generation. rewrite new_arith, Z.shiftr_div_pow2 by done.
  rewrite Z.div_add_l, (Z.div_small idx), Z.add_0_r by (unfold uint in *; lia).
  by apply wrap_small.
Qed.

End TaggedIndex.

Inductive ZeroizePolicy : Type := Never | OnRelease.

#[global] Instance ZeroizePolicy_eq_dec : EqDecision ZeroizePolicy.
Proof. solve_decision. Defined.

(** A [Mutex<[u8; SLOT_SIZE]>]: its bytes, the agent that holds it, and whether a
    holder panicked. *)
Record slot := { bytes : list Z; holder : option nat; poisoned : bool }.

(** ** Slots behind mutexes

    What both pools rely on: with [lk t] the slot whose mutex agent [t] holds and [hd t] the
    slot agent [t] has a guard to, each mutex is held exactly by the agent that is at a
    point where it holds it, and, in a pool that zeroizes, a slot has bytes other than zero
    only while a guard to it is out. *)
Record mutex_inv (size n : Z) (zeroizes : Prop) (mem : list slot) (lk hd : nat -> option Z) : Prop := {
  mi_memory : length mem = Z.to_nat n;
  mi_range t i : lk t = Some i -> 0 <= i < n;
  mi_locked t i : lk t = Some i -> exists m, mem !! Z.to_nat i = Some m /\ holder m = Some t;
  mi_holder j m t : mem !! j = Some m -> holder m = Some t -> lk t = Some (Z.of_nat j);
  mi_length j m : mem !! j = Some m -> length (bytes m) = Z.to_nat size;
  mi_zero j m : zeroizes -> mem !! j = Some m ->
    bytes m = replicate (Z.to_nat size) 0 \/ exists t, holder m = Some t /\ hd t = Some (Z.of_nat j);
}.

Lemma mutex_inv_ext size n z mem lk hd lk' hd' : mutex_inv size n z mem lk hd ->
  (forall t, lk' t = lk t) -> (forall t i, hd t = Some i -> hd' t = Some i) ->
  mutex_inv size n z mem lk' hd'.
Proof.
  intros [Hm Hr Hl Hh Hlen Hz] Hlk Hhd. split; try done; intros *; rewrite ?Hlk; eauto.
  intros H1 H2. destruct (Hz _ _ H1 H2) as [|(t & ? & ?)]; eauto.
Qed.

Lemma mutex_inv_new size n z lk hd : (forall t, lk t = None) ->
  mutex_inv size n z (replicate (Z.to_nat n)
    {| bytes := replicate (Z.to_nat size) 0; holder := None; poisoned := false |}) lk hd.
Proof.
  intros Hlk. split; intros *; rewrite ?Hlk; try done; rewrite ?length_replicate; try done.
  - by intros [-> _]%lookup_replicate_1.
  - intros [-> _]%lookup_replicate_1. apply length_replicate.
  - intros _ [-> _]%lookup_replicate_1. by left.
Qed.

(** A step of agent [t] that updates the slot it has, or is taking, hold of. *)
Lemma mutex_inv_update size n z mem lk hd lk' hd' t i m m' : mutex_inv size n z mem lk hd ->
  mem !! Z.to_nat i = Some m -> 0 <= i < n ->
  (holder m = None /\ lk t = None \/ lk t = Some i) ->
  (holder m' = None /\ lk' t = None \/ holder m' = Some t /\ lk' t = Some i) ->
  (forall t', t' <> t -> lk' t' = lk t' /\ hd' t' = hd t') -> (forall j, hd t = Some j -> lk t = Some j) ->
  length (bytes m') = Z.to_nat size ->
  (z -> bytes m' = replicate (Z.to_nat size) 0 \/ hd' t = Some i /\ holder m' = Some t) ->
  mutex_inv size n z (<[Z.to_nat i := m']> mem) lk' hd'.
Proof.
  intros [Hm Hr Hl Hh Hlen Hz] Hmi Hir Hold Hnew Hoth Hhl Hlen' Hz'.
  assert (Hmi' : <[Z.to_nat i := m']> mem !! Z.to_nat i = Some m').
  { apply list_lookup_insert_eq. by apply lookup_lt_Some in Hmi. }
  assert (Hother : forall t', t' <> t -> lk t' <> Some i).
  { intros t' Hne Hlk. destruct (Hl _ _ Hlk) as (m0 & ? & ?). simplify_eq.
    destruct Hold as [[? _]|Hold]; [congruence|]. destruct (Hl _ _ Hold) as (? & ? & ?). congruence. }
  assert (Hsame : forall j, j <> Z.to_nat i -> lk t <> Some (Z.of_nat j)).
  { intros j Hne Hj. destruct Hold as [[_ ?]|Hold]; [congruence|]. simplify_eq. lia. }
  split; [by rewrite length_insert|..]; intros *.
  - destruct (decide (t0 = t)) as [->|Hne]; [|destruct (Hoth _ Hne) as [-> _]; apply Hr].
    destruct Hnew as [[_ ?]|[_ ?]]; congruence.
  - destruct (decide (t0 = t)) as [->|Hne]; intros Hlk.
    + exists m'. destruct Hnew as [[_ ?]|[? ?]]; [congruence|]. by simplify_eq.
    + rewrite (proj1 (Hoth _ Hne)) in Hlk. destruct (Hl _ _ Hlk) as (m0 & ? & ?). exists m0.
      rewrite list_lookup_insert_ne; [done|]. intros He.
      apply (Hother t0 Hne). rewrite Hlk. f_equal. specialize (Hr _ _ Hlk). lia.
  - rewrite list_lookup_insert_Some. intros [(<- & <- & _)|(Hne & Hj)] Hh'.
    + destruct Hnew as [[? _]|[? ?]]; [congruence|]. simplify_eq. by rewrite Z2Nat.id by lia.
    + specialize (Hh _ _ _ Hj Hh'). destruct (decide (t0 = t)) as [->|Hne']; [by destruct (Hsame j)|].
      by rewrite (proj1 (Hoth _ Hne')).
  - rewrite list_lookup_insert_Some. intros [(<- & <- & _)|(_ & ?)]; [done|by eapply Hlen].
  - intros Hp. rewrite list_lookup_insert_Some. intros [(<- & <- & _)|(Hne & Hj)].
    + destruct (Hz' Hp) as [?|[? ?]]; [by left|right]. exists t. by rewrite Z2Nat.id by lia.
    + destruct (Hz _ _ Hp Hj) as [|(t' & ? & Ht')]; [by left|right]. exists t'. split; [done|].
      destruct (decide (t' = t)) as [->|Hne']; [by destruct (Hsame j); [|apply Hhl]|].
      by rewrite (proj2 (Hoth _ Hne')).
Qed.

(** Where an agent is.  [k] is an auxiliary stamp, the number of head changes made
    before [current_head] was read; no step looks at it. *)
Inductive pc : Type :=
| Idle
| Loaded (current_head k : Z)                (** [checkout], top of the loop *)
| NextRead (current_head next_index k : Z)   (** [checkout], before its exchange *)
| Won (index : Z)                            (** exchanged; counter not yet increased *)
| Locking (index : Z)                        (** about to lock the slot *)
| Held (index : Z)                           (** holds a [PoolGuard] *)
| RelLoad (index : Z) (panicking : bool)     (** [release], before its first load *)
| RelLoaded (index current_head : Z) (panicking : bool)
| RelStored (index current_head : Z) (panicking : bool)
| Unlocking (index : Z) (panicking : bool)   (** released; the [MutexGuard] is dropped next *)
| Aborted (index : Z).                       (** [unreachable!] was reached *)

Inductive action : Type :=
| Checkout                        (** call [checkout] *)
| Go                              (** the next access of the operation under way *)
| Spurious                        (** [compare_exchange_weak] fails without cause *)
| Fill (data : list Z)            (** write through [as_mut_slice] *)
| DropGuard (panicking : bool).   (** drop the guard, possibly while unwinding *)

Record StaticSlotPool := {
  memory : list slot;
  nodes : list Z;
  head : Z;
  policy : ZeroizePolicy;
  successful_checkouts : Z;
  pool_exhaustion : Z;
  agents : gmap nat pc;
  changes : Z;   (** auxiliary: how often [head] was exchanged *)
}.

Definition agent (s : StaticSlotPool) (t : nat) : pc := default Idle (agents s !! t).

Create Rewrite HintDb pool.

Section pool.
Context (SLOT_SIZE POOL_SIZE : Z).

Definition zeros : list Z := replicate (Z.to_nat SLOT_SIZE) 0.

(** [StaticSlotPool::new] *)
Definition pool_new (p : ZeroizePolicy) : StaticSlotPool := {|
  memory := replicate (Z.to_nat POOL_SIZE) {| bytes := zeros; holder := None; poisoned := false |};
  nodes := seqZ 1 POOL_SIZE;
  head := TaggedIndex.tagged_new 0 0;
  policy := p;
  successful_checkouts := 0;
  pool_exhaustion := 0;
  agents := ∅;
  changes := 0;
|}.

(** ** Accesses to the shared state *)

Definition goto (t : nat) (c : pc) (s : StaticSlotPool) : StaticSlotPool := {|
  memory := memory s; nodes := nodes s; head := head s; policy := policy s;
  successful_checkouts := successful_checkouts s; pool_exhaustion := pool_exhaustion s;
  agents := <[t := c]> (agents s); changes := changes s |}.

Definition set_head (h : Z) (s : StaticSlotPool) : StaticSlotPool := {|
  memory := memory s; nodes := nodes s; head := h; policy := policy s;
  successful_checkouts := successful_checkouts s; pool_exhaustion := pool_exhaustion s;
  agents := agents s; changes := changes s + 1 |}.

Definition set_node (i v : Z) (s : StaticSlotPool) : StaticSlotPool := {|
  memory := memory s; nodes := <[Z.to_nat i := v]> (nodes s); head := head s; policy := policy s;
  successful_checkouts := successful_checkouts s; pool_exhaustion := pool_exhaustion s;
  agents := agents s; changes := changes s |}.

Definition set_slot (i : Z) (m : slot) (s : StaticSlotPool) : StaticSlotPool := {|
  memory := <[Z.to_nat i := m]> (memory s); nodes := nodes s; head := head s; policy := policy s;
  successful_checkouts := successful_checkouts s; pool_exhaustion := pool_exhaustion s;
  agents := agents s; changes := changes s |}.

Definition count_success (s : StaticSlotPool) : StaticSlotPool := {|
  memory := memory s; nodes := nodes s; head := head s; policy := policy s;
  successful_checkouts := wrap 64 (successful_checkouts s + 1);
  pool_exhaustion := pool_exhaustion s; agents := agents s; changes := changes s |}.

Definition count_exhaustion (s : StaticSlotPool) : StaticSlotPool := {|
  memory := memory s; nodes := nodes s; head := head s; policy := policy s;
  successful_checkouts := successful_checkouts s;
  pool_exhaustion := wrap 64 (pool_exhaustion s + 1); agents := agents s; changes := changes s |}.

(** ** The operations

    [None]: the agent cannot make this step (the mutex is held by another, or the
    action does not fit where the agent is). *)

(** [StaticSlotPool::checkout] *)
Definition checkout_step (s : StaticSlotPool) (t : nat) (a : action) : option StaticSlotPool :=
  match agent s t, a with
  | Idle, Checkout => Some (goto t (Loaded (head s) (changes s)) s)
  | Loaded current_head k, Go =>
      let index := TaggedIndex.tagged_index current_head in
      if POOL_SIZE <=? index then Some (goto t Idle (count_exhaustion s))
      else
        match nodes s !! Z.to_nat index with
        | Some next_index => Some (goto t (NextRead current_head next_index k) s)
        | None => None
        end
  | NextRead current_head next_index k, Go =>
      if head s =? current_head then
        let new_head :=
          TaggedIndex.tagged_new (wrap 16 (TaggedIndex.generation current_head + 1)) next_index in
        Some (goto t (Won (TaggedIndex.tagged_index current_head)) (set_head new_head s))
      else Some (goto t (Loaded (head s) (changes s)) s)
  | NextRead _ _ _, Spurious => Some (goto t (Loaded (head s) (changes s)) s)
  | Won index, Go => Some (goto t (Locking index) (count_success s))
  | Locking index, Go =>
      match memory s !! Z.to_nat index with
      | Some m =>
          match holder m with
          | Some _ => None
          | None =>
              if poisoned m then Some (goto t (Aborted index) s)
              else
                Some (goto t (Held index)
                  (set_slot index {| bytes := bytes m; holder := Some t; poisoned := false |} s))
          end
      | None => None
      end
  | _, _ => None
  end.

(** What [PoolGuard::drop] leaves in the slot. *)
Definition released_bytes (p : ZeroizePolicy) (data : list Z) : list Z :=
  match p with OnRelease => zeros | Never => data end.

(** [PoolGuard::drop] up to its call of [release], and [PoolGuard::as_mut_slice]. *)
Definition guard_step (s : StaticSlotPool) (t : nat) (a : action) : option StaticSlotPool :=
  match agent s t, a with
  | Held index, Fill data =>
      match memory s !! Z.to_nat index with
      | Some m =>
          if zlen data =? zlen (bytes m) then
            Some (goto t (Held index)
              (set_slot index {| bytes := data; holder := holder m; poisoned := poisoned m |} s))
          else None
      | None => None
      end
  | Held index, DropGuard panicking =>
      match memory s !! Z.to_nat index with
      | Some m =>
          let data := released_bytes (policy s) (bytes m) in
          Some (goto t (RelLoad index panicking)
            (set_slot index {| bytes := data; holder := holder m; poisoned := poisoned m |} s))
      | None => None
      end
  | _, _ => None
  end.

(** [StaticSlotPool::release], and the drop of the mutex guard after it. *)
Definition release_step (s : StaticSlotPool) (t : nat) (a : action) : option StaticSlotPool :=
  match agent s t, a with
  | RelLoad index p, Go => Some (goto t (RelLoaded index (head s) p) s)
  | RelLoaded index current_head p, Go =>
      Some (goto t (RelStored index current_head p)
        (set_node index (TaggedIndex.tagged_index current_head) s))
  | RelStored index current_head p, Go =>
      if head s =? current_head then
        let new_head :=
          TaggedIndex.tagged_new (wrap 16 (TaggedIndex.generation current_head + 1)) index in
        Some (goto t (Unlocking index p) (set_head new_head s))
      else Some (goto t (RelLoaded index (head s) p) s)
  | RelStored index _ p, Spurious => Some (goto t (RelLoaded index (head s) p) s)
  | Unlocking index p, Go =>
      match memory s !! Z.to_nat index with
      | Some m =>
          Some (goto t Idle
            (set_slot index {| bytes := bytes m; holder := None; poisoned := poisoned m || p |} s))
      | None => None
      end
  | _, _ => None
  end.

(** One step of agent [t]. *)
Definition step (s : StaticSlotPool) (t : nat) (a : action) : option StaticSlotPool :=
  match checkout_step s t a with
  | Some s' => Some s'
  | None =>
      match guard_step s t a with
      | Some s' => Some s'
      | None => release_step s t a
      end
  end.


(** ** Reachable states

    [fresh]: an exchange of [checkout] is tried before [head] has been exchanged
    65536 times since it was read, that is, before the 16-bit generation can come
    back to the value read. *)
Definition fresh (s : StaticSlotPool) (t : nat) : Prop :=
  match agent s t with NextRead _ _ k => changes s - k < 2 ^ 16 | _ => True end.

Inductive reachable (ok : StaticSlotPool -> nat -> Prop) (p : ZeroizePolicy) : StaticSlotPool -> Prop :=
| reachable_new : reachable ok p (pool_new p)
| reachable_step s t a s' :
    reachable ok p s -> ok s t -> step s t a = Some s' -> reachable ok p s'.

(** Any interleaving at all. *)
Definition always (s : StaticSlotPool) (t : nat) : Prop := True.

(** The slot an agent has taken off the stack and not yet put back. *)
Definition owns (c : pc) : option Z :=
  match c with
  | Won i | Locking i | Held i | RelLoad i _ | RelLoaded i _ _ | RelStored i _ _ | Aborted i => Some i
  | _ => None
  end.

(** The slot whose mutex an agent holds. *)
Definition locked (c : pc) : option Z :=
  match c with
  | Held i | RelLoad i _ | RelLoaded i _ _ | RelStored i _ _ | Unlocking i _ => Some i
  | _ => None
  end.

(** The slots on the stack, top first: [free_list] follows the links from [i] for at
    most [n] nodes. *)
Fixpoint free_list (l : list Z) (n : nat) (i : Z) : list Z :=
  match n with
  | O => []
  | S n =>
      if POOL_SIZE <=? i then []
      else i :: match l !! Z.to_nat i with Some j => free_list l n j | None => [] end
  end.

Definition free (s : StaticSlotPool) : list Z :=
  free_list (nodes s) (Z.to_nat POOL_SIZE) (TaggedIndex.tagged_index (head s)).

(** ** The cases of a step *)

Inductive step_case (s : StaticSlotPool) (t : nat) : action -> StaticSlotPool -> Prop :=
| SLoad : agent s t = Idle -> step_case s t Checkout (goto t (Loaded (head s) (changes s)) s)
| SEmpty h k : agent s t = Loaded h k -> POOL_SIZE <= TaggedIndex.tagged_index h ->
    step_case s t Go (goto t Idle (count_exhaustion s))
| SNext h k j : agent s t = Loaded h k -> TaggedIndex.tagged_index h < POOL_SIZE ->
    nodes s !! Z.to_nat (TaggedIndex.tagged_index h) = Some j ->
    step_case s t Go (goto t (NextRead h j k) s)
| SPop h j k : agent s t = NextRead h j k -> head s = h ->
    step_case s t Go (goto t (Won (TaggedIndex.tagged_index h))
      (set_head (TaggedIndex.tagged_new (wrap 16 (TaggedIndex.generation h + 1)) j) s))
| SRetry h j k a : agent s t = NextRead h j k -> a = Spurious \/ a = Go /\ head s <> h ->
    step_case s t a (goto t (Loaded (head s) (changes s)) s)
| SCount i : agent s t = Won i -> step_case s t Go (goto t (Locking i) (count_success s))
| SAbort i m : agent s t = Locking i -> memory s !! Z.to_nat i = Some m -> holder m = None ->
    poisoned m = true -> step_case s t Go (goto t (Aborted i) s)
| SLock i m : agent s t = Locking i -> memory s !! Z.to_nat i = Some m -> holder m = None ->
    poisoned m = false ->
    step_case s t Go (goto t (Held i)
      (set_slot i {| bytes := bytes m; holder := Some t; poisoned := false |} s))
| SFill i m d : agent s t = Held i -> memory s !! Z.to_nat i = Some m -> zlen d = zlen (bytes m) ->
    step_case s t (Fill d) (goto t (Held i)
      (set_slot i {| bytes := d; holder := holder m; poisoned := poisoned m |} s))
| SDrop i m p : agent s t = Held i -> memory s !! Z.to_nat i = Some m ->
    step_case s t (DropGuard p) (goto t (RelLoad i p)
      (set_slot i {| bytes := released_bytes (policy s) (bytes m);
                     holder := holder m; poisoned := poisoned m |} s))
| SRelLoad i p : agent s t = RelLoad i p -> step_case s t Go (goto t (RelLoaded i (head s) p) s)
| SRelStore i h p : agent s t = RelLoaded i h p ->
    step_case s t Go (goto t (RelStored i h p) (set_node i (TaggedIndex.tagged_index h) s))
| SPush i h p : agent s t = RelStored i h p -> head s = h ->
    step_case s t Go (goto t (Unlocking i p)
      (set_head (TaggedIndex.tagged_new (wrap 16 (TaggedIndex.generation h + 1)) i) s))
| SRelRetry i h p a : agent s t = RelStored i h p -> a = Spurious \/ a = Go /\ head s <> h ->
    step_case s t a (goto t (RelLoaded i (head s) p) s)
| SUnlock i p m : agent s t = Unlocking i p -> memory s !! Z.to_nat i = Some m ->
    step_case s t Go (goto t Idle
      (set_slot i {| bytes := bytes m; holder := None; poisoned := poisoned m || p |} s)).

Lemma step_step_case s t a s' : step s t a = Some s' -> step_case s t a s'.
Proof.
  unfold step, checkout_step, guard_step, release_step.
  destruct (agent s t) eqn:Ha; destruct a; try discriminate;
    repeat case_match; intros; simplify_eq.
  all: first [ econstructor; solve [eauto | lia] | eapply SRetry; eauto | eapply SRelRetry; eauto ].
  all: right; split; [done|lia].
Qed.

Lemma step_case_step s t a s' : step_case s t a s' -> step s t a = Some s'.
Proof.
  intros Hs. unfold step, checkout_step, guard_step, release_step.
  destruct Hs; rewrite H; simplify_option_eq; try done.
  all: repeat match goal with
  | H : _ = Some _ |- _ => rewrite H
  | H : _ = None |- _ => rewrite H
  | H : poisoned _ = _ |- _ => rewrite H
  end; try done; case_bool; try done.
  all: destruct H0 as [->|[-> ?]]; done.
Qed.

Lemma agent_goto t c s t' : agent (goto t c s) t' = if decide (t = t') then c else agent s t'.
Proof. unfold agent, goto. simpl. by rewrite lookup_insert; destruct (decide (t = t')). Qed.

Lemma agent_set_head h s t : agent (set_head h s) t = agent s t.
Proof. done. Qed.

Lemma agent_set_node i v s t : agent (set_node i v s) t = agent s t.
Proof. done. Qed.

Lemma agent_set_slot i m s t : agent (set_slot i m s) t = agent s t.
Proof. done. Qed.

Lemma agent_count_success s t : agent (count_success s) t = agent s t.
Proof. done. Qed.

Lemma agent_count_exhaustion s t : agent (count_exhaustion s) t = agent s t.
Proof. done. Qed.

#[local] Hint Rewrite agent_goto agent_set_head agent_set_node agent_set_slot
  agent_count_success agent_count_exhaustion : pool.

(** Slots and links are indexed within bounds. *)
Definition in_bounds (c : pc) : Prop :=
  match c with
  | Won i | Locking i | Aborted i => 0 <= i < POOL_SIZE
  | NextRead h _ _ => TaggedIndex.tagged_index h < POOL_SIZE
  | _ => True
  end.

(** ** The mutexes *)

(** The slot an agent has a guard to. *)
Definition held (c : pc) : option Z := match c with Held i => Some i | _ => None end.

Definition lock_inv (s : StaticSlotPool) : Prop :=
  mutex_inv SLOT_SIZE POOL_SIZE (policy s = OnRelease) (memory s)
    (fun t => locked (agent s t)) (fun t => held (agent s t)) /\
  forall t, in_bounds (agent s t).

Lemma lock_inv_new p : lock_inv (pool_new p).
Proof. split; [by apply mutex_inv_new|done]. Qed.

(** A step that leaves the slots alone. *)
Lemma lock_inv_goto s s' t c : lock_inv s ->
  memory s' = memory s -> policy s' = policy s -> agents s' = agents s ->
  locked c = locked (agent s t) -> in_bounds c -> held c = held (agent s t) -> lock_inv (goto t c s').
Proof.
  intros [Hm Hi] Hmem Hpol Hag Hc Hb Hheld.
  assert (Has : agent s' = agent s) by (unfold agent; by rewrite Hag).
  split; cbn [memory policy goto]; rewrite ?Hmem, ?Hpol.
  - eapply mutex_inv_ext; [done|..]; simpl; intros t' *; rewrite agent_goto, Has;
      destruct (decide _) as [<-|]; congruence.
  - intros t'. rewrite agent_goto, Has. destruct (decide _); [done|apply Hi].
Qed.

(** A step that updates the slot the agent has, or is taking, hold of. *)
Lemma lock_inv_slot s t c i m m' : lock_inv s -> memory s !! Z.to_nat i = Some m -> 0 <= i < POOL_SIZE ->
  (holder m = None /\ locked (agent s t) = None \/ locked (agent s t) = Some i) ->
  (holder m' = None /\ locked c = None \/ holder m' = Some t /\ locked c = Some i) ->
  length (bytes m') = Z.to_nat SLOT_SIZE -> in_bounds c ->
  (policy s = OnRelease -> bytes m' = zeros \/ held c = Some i /\ holder m' = Some t) ->
  lock_inv (goto t c (set_slot i m' s)).
Proof.
  intros [Hm Hi] Hmi Hir Hold Hnew Hlen Hb Hz.
  split; [|intros t'; rewrite agent_goto; destruct (decide _); [done|apply Hi]].
  eapply mutex_inv_update; try done; simpl; rewrite ?agent_goto, ?decide_True by done; try done.
  - intros t' Hne. by rewrite agent_goto, decide_False by done.
  - intros j. by destruct (agent s t).
Qed.

Lemma holds_lock s t i m : lock_inv s -> locked (agent s t) = Some i ->
  memory s !! Z.to_nat i = Some m -> holder m = Some t.
Proof. intros [Hm _] Hl Hi. destruct (mi_locked _ _ _ _ _ _ Hm t i Hl) as (? & ? & ?). congruence. Qed.

Lemma lock_inv_step s t a s' : lock_inv s -> step s t a = Some s' -> lock_inv s'.
Proof.
  intros Hinv Hs%step_step_case. pose proof (proj2 Hinv t) as Hi.
  pose proof (mi_range _ _ _ _ _ _ (proj1 Hinv) t) as Hr. cbn beta in Hr.
  pose proof (fun i m => holds_lock s t i m Hinv) as Hho.
  destruct Hs; rewrite H in Hi, Hr, Hho; simpl in Hi, Hr, Hho;
    try (by eapply lock_inv_goto; [done|..]; rewrite ?H).
  - eapply lock_inv_goto; [done|..]; rewrite ?H; try done. simpl.
    split; [|done]. rewrite TaggedIndex.index_mod. by apply Z.mod_pos_bound.
  - eapply lock_inv_slot; eauto; simpl; rewrite ?H; auto. by eapply mi_length; [apply Hinv|].
  - specialize (Hho _ _ eq_refl H0). eapply lock_inv_slot; eauto; simpl; rewrite ?H; auto.
    pose proof (mi_length _ _ _ _ _ _ (proj1 Hinv) _ _ H0). unfold zlen in *. lia.
  - specialize (Hho _ _ eq_refl H0). eapply lock_inv_slot; eauto; simpl; rewrite ?H; auto.
    + destruct (policy s); simpl; [by eapply mi_length; [apply Hinv|]|apply length_replicate].
    + intros ->. by left.
  - specialize (Hho _ _ eq_refl H0).
    eapply lock_inv_slot; eauto; simpl; rewrite ?H; auto; [by eapply mi_length; [apply Hinv|]|].
    intros Hp. destruct (mi_zero _ _ _ _ _ _ (proj1 Hinv) _ _ Hp H0) as [|(t' & Ht' & Hh)]; [by left|].
    rewrite Hho in Ht'. simplify_eq. by rewrite H in Hh.
Qed.

(** *** What holds in every interleaving *)

Lemma reachable_lock_inv ok p s : reachable ok p s -> lock_inv s.
Proof. induction 1; [apply lock_inv_new|by eapply lock_inv_step]. Qed.

Lemma step_policy s t a s' : step s t a = Some s' -> policy s' = policy s.
Proof. intros Hs%step_step_case. by destruct Hs. Qed.

Lemma reachable_policy ok p s : reachable ok p s -> policy s = p.
Proof. induction 1; [done|]. by erewrite step_policy. Qed.

(** A pool has fewer slots than a tagged index can count. *)
Context (Hsize : 0 <= POOL_SIZE < 2 ^ 48).

(** A sequence of steps; [None] when one of them cannot be made. *)
Fixpoint run (s : StaticSlotPool) (l : list (nat * action)) : option StaticSlotPool :=
  match l with
  | [] => Some s
  | (t, a) :: l => match step s t a with Some s' => run s' l | None => None end
  end.

(** The same, with each step's freshness checked. *)
Fixpoint run_fresh (s : StaticSlotPool) (l : list (nat * action)) : option StaticSlotPool :=
  match l with
  | [] => Some s
  | (t, a) :: l =>
      if match agent s t with NextRead _ _ k => changes s - k <? 2 ^ 16 | _ => true end then
        match step s t a with Some s' => run_fresh s' l | None => None end
      else None
  end.

Lemma run_app s l l' s' : run s l = Some s' -> run s (l ++ l') = run s' l'.
Proof.
  revert s. induction l as [|[t a] l IH]; simpl; [by intros s [= ->]|]. intros s.
  by destruct (step s t a); [apply IH|].
Qed.

Lemma run_reachable p s l s' : reachable always p s -> run s l = Some s' -> reachable always p s'.
Proof.
  revert s. induction l as [|[t a] l IH]; simpl; [by intros s ? [= ->]|]. intros s Hr.
  destruct (step s t a) eqn:Hs; [|done]. apply IH. by eapply reachable_step.
Qed.

Lemma run_fresh_reachable p s l s' :
  reachable fresh p s -> run_fresh s l = Some s' -> reachable fresh p s'.
Proof.
  revert s. induction l as [|[t a] l IH]; simpl; [by intros s ? [= ->]|]. intros s Hr.
  destruct (match agent s t with NextRead _ _ k => _ | _ => true end) eqn:Hf; [|done].
  destruct (step s t a) eqn:Hs; [|done]. apply IH. eapply reachable_step; [done| |done].
  unfold fresh. destruct (agent s t); try done. by apply Z.ltb_lt.
Qed.

(** ** The stack

    [chain l i fr]: following the links [l] from [i] visits the slots [fr] and ends at the
    sentinel. *)
Fixpoint chain (l : list Z) (i : Z) (fr : list Z) : Prop :=
  match fr with
  | [] => i = POOL_SIZE
  | j :: fr => i = j /\ 0 <= j < POOL_SIZE /\ exists n, l !! Z.to_nat j = Some n /\ chain l n fr
  end.

(** [h] was the head after [k] changes. *)
Definition seen (s : StaticSlotPool) (h k : Z) : Prop :=
  k <= changes s /\ TaggedIndex.generation h = wrap 16 k /\ (k = changes s -> h = head s).

(** What an agent knows about the links it has read or written. *)
Definition pc_ok (s : StaticSlotPool) (c : pc) : Prop :=
  match c with
  | Loaded h k => seen s h k
  | NextRead h j k =>
      seen s h k /\
      (k = changes s -> nodes s !! Z.to_nat (TaggedIndex.tagged_index h) = Some j)
  | RelStored i h _ => nodes s !! Z.to_nat i = Some (TaggedIndex.tagged_index h)
  | _ => True
  end.

Record stack_inv (s : StaticSlotPool) (fr : list Z) : Prop := {
  si_nodes : length (nodes s) = Z.to_nat POOL_SIZE;
  si_chain : chain (nodes s) (TaggedIndex.tagged_index (head s)) fr;
  si_nodup : NoDup fr;
  si_gen : TaggedIndex.generation (head s) = wrap 16 (changes s);
  si_own t i : owns (agent s t) = Some i -> 0 <= i < POOL_SIZE /\ i ∉ fr;
  si_excl t t' i : owns (agent s t) = Some i -> owns (agent s t') = Some i -> t = t';
  si_all i : 0 <= i < POOL_SIZE -> i ∈ fr \/ exists t, owns (agent s t) = Some i;
  si_pc t : pc_ok s (agent s t);
}.

Lemma chain_range l i fr j : chain l i fr -> j ∈ fr -> 0 <= j < POOL_SIZE.
Proof.
  revert i. induction fr as [|k fr IH]; simpl; [by intros _ _ ?%not_elem_of_nil|].
  intros i (-> & Hk & n & _ & Hc) [->|Hj]%elem_of_cons; [done|by eapply IH].
Qed.

Lemma chain_insert l i fr j v : chain l i fr -> 0 <= j -> j ∉ fr -> chain (<[Z.to_nat j := v]> l) i fr.
Proof.
  revert i. induction fr as [|k fr IH]; simpl; [done|].
  intros i (-> & Hk & n & Hn & Hc) Hj Hnot. split; [done|]. split; [done|]. exists n.
  apply not_elem_of_cons in Hnot as [Hne Hnot]. rewrite list_lookup_insert_ne by lia. auto.
Qed.

Lemma chain_end l i fr : chain l i fr -> 0 <= i <= POOL_SIZE /\ (i < POOL_SIZE -> i ∈ fr).
Proof using Hsize.
  destruct fr as [|k fr]; simpl; [lia|]. intros (-> & ? & _). split; [lia|]. by left.
Qed.

Lemma chain_free_list l n i fr : chain l i fr -> (length fr <= n)%nat -> free_list l n i = fr.
Proof.
  revert i fr. induction n as [|n IH]; intros i [|k fr]; simpl; try lia; try done.
  - intros -> _. by rewrite Z.leb_refl.
  - intros (-> & Hk & m & Hm & Hc) Hlen. destruct (Z.leb_spec POOL_SIZE k); [lia|].
    rewrite Hm. f_equal. apply IH; [done|lia].
Qed.

Lemma stack_inv_frame s s' fr : stack_inv s fr ->
  nodes s' = nodes s -> head s' = head s -> changes s' = changes s -> agents s' = agents s ->
  stack_inv s' fr.
Proof. destruct s, s'. intros [] ? ? ? ?. simpl in *. subst. by constructor. Qed.

(** What was read before the head changed is no longer claimed to be current. *)
Lemma pc_ok_set_head s h c : pc_ok s c -> pc_ok (set_head h s) c.
Proof.
  destruct c; simpl; try done; unfold seen; simpl.
  - intros (? & ? & _). split; [lia|]. split; [done|]. intros; lia.
  - intros ((? & ? & _) & _). split; [split; [lia|]; split; [done|]|]; intros; lia.
Qed.

(** A step that leaves the stack alone. *)
Lemma stack_inv_goto s fr t c : stack_inv s fr -> owns c = owns (agent s t) -> pc_ok s c ->
  stack_inv (goto t c s) fr.
Proof.
  intros [Hn Hc Hnd Hg Ho He Ha Hp] Hc' Hok. split; try done.
  - intros t' i. rewrite agent_goto. destruct (decide _) as [<-|]; [rewrite Hc'|]; apply Ho.
  - intros t1 t2 i. rewrite !agent_goto.
    destruct (decide (t = t1)) as [<-|], (decide (t = t2)) as [<-|]; rewrite ?Hc'; try done; apply He.
  - intros i Hi. destruct (Ha i Hi) as [|[t' Ht']]; [by left|right]. exists t'.
    rewrite agent_goto. by destruct (decide _) as [<-|]; rewrite ?Hc'.
  - intros t'. rewrite agent_goto. destruct (decide _); [done|apply Hp].
Qed.

Lemma chain_seqZ k : 0 <= k <= POOL_SIZE ->
  chain (seqZ 1 POOL_SIZE) k (seqZ k (POOL_SIZE - k)).
Proof.
  intros Hk. remember (Z.to_nat (POOL_SIZE - k)) as n eqn:Hn. revert k Hk Hn.
  induction n as [|n IH]; intros k Hk Hn.
  - rewrite (seqZ_nil k) by lia. simpl. lia.
  - rewrite (seqZ_cons k) by lia. split; [done|]. split; [lia|]. exists (Z.succ k).
    split; [rewrite lookup_seqZ; lia|].
    replace (Z.pred (POOL_SIZE - k)) with (POOL_SIZE - Z.succ k) by lia. apply IH; lia.
Qed.

Lemma stack_inv_new p : stack_inv (pool_new p) (seqZ 0 POOL_SIZE).
Proof using Hsize.
  split; unfold agent; cbn [nodes head changes agents pool_new]; try done;
    intros *; rewrite ?lookup_empty; simpl; try done.
  - by rewrite length_seqZ.
  - rewrite TaggedIndex.index_new by done. replace POOL_SIZE with (POOL_SIZE - 0) at 2 by lia.
    apply chain_seqZ. lia.
  - apply NoDup_seqZ.
  - intros Hi. left. apply elem_of_seqZ. lia.
Qed.

(** [checkout]'s exchange takes the top slot. *)
Lemma stack_inv_pop s fr t h j k : stack_inv s fr -> agent s t = NextRead h j k -> fresh s t ->
  head s = h -> TaggedIndex.tagged_index h < POOL_SIZE ->
  exists fr', fr = TaggedIndex.tagged_index h :: fr' /\
    stack_inv (goto t (Won (TaggedIndex.tagged_index h))
      (set_head (TaggedIndex.tagged_new (wrap 16 (TaggedIndex.generation h + 1)) j) s)) fr'.
Proof using Hsize.
  intros [Hn Hc Hnd Hg Ho He Ha Hp] Hat Hf <- Hi.
  pose proof (Hp t) as Hok. unfold fresh in Hf. rewrite Hat in Hok, Hf. simpl in Hok.
  destruct Hok as ((Hk & Hgk & _) & Hj).
  assert (k = changes s) as ->.
  { rewrite Hg in Hgk. unfold wrap in Hgk.
    enough (changes s - k = 0) by lia. rewrite <- (Z.mod_small (changes s - k) (2 ^ 16)) by lia.
    rewrite Zminus_mod, Hgk, Z.sub_diag. done. }
  specialize (Hj eq_refl). destruct fr as [|i fr]; simpl in Hc; [lia|].
  destruct Hc as (Hhd & Hir & n & Hn' & Hc). subst i. simplify_eq. exists fr. split; [done|].
  apply list.NoDup_cons in Hnd as [Hni Hnd].
  destruct (chain_end _ _ _ Hc) as [Hjr _].
  assert (Hnew : forall t', owns (agent s t') = Some (TaggedIndex.tagged_index (head s)) -> False).
  { intros t' Ht'. apply Ho in Ht' as [_ Ht']. apply Ht'. by left. }
  split; cbn [nodes head changes set_head goto]; try done; intros *;
    rewrite ?agent_goto, ?agent_set_head.
  - by rewrite TaggedIndex.index_new by (unfold uint; lia).
  - rewrite TaggedIndex.generation_new; [|by apply wrap_uint|unfold uint; lia].
    rewrite Hg. unfold wrap. by rewrite Zplus_mod_idemp_l.
  - destruct (decide _) as [<-|]; simpl; [intros [= <-]; done|].
    intros Ht'. apply Ho in Ht' as [? Hnot]. split; [done|]. by apply not_elem_of_cons in Hnot as [_ ?].
  - destruct (decide (t = t0)) as [<-|], (decide (t = t')) as [<-|]; simpl; try done.
    + intros [= <-] ?. by edestruct Hnew.
    + intros ? [= <-]. by edestruct Hnew.
    + apply He.
  - intros Hi'. destruct (Ha i Hi') as [[->|Hin]%elem_of_cons|[t' Ht']]; [right|by left|right].
    + exists t. by rewrite agent_goto, decide_True.
    + exists t'. rewrite agent_goto. destruct (decide _) as [<-|]; [|done].
      by rewrite Hat in Ht'.
  - destruct (decide _) as [<-|]; [done|]. apply pc_ok_set_head, Hp.
Qed.

(** [release] links the slot it owns. *)
Lemma stack_inv_store s fr t i h p : stack_inv s fr -> lock_inv s -> agent s t = RelLoaded i h p ->
  stack_inv (goto t (RelStored i h p) (set_node i (TaggedIndex.tagged_index h) s)) fr.
Proof using Hsize.
  intros [Hn Hc Hnd Hg Ho He Ha Hp] Hlk Hat.
  assert (Hti : owns (agent s t) = Some i) by by rewrite Hat. destruct (Ho _ _ Hti) as [Hir Hni].
  destruct (chain_end _ _ _ Hc) as [_ Hend].
  apply stack_inv_goto; [|by rewrite agent_set_node, Hat|].
  2: { simpl. apply list_lookup_insert_eq. lia. }
  split; cbn [nodes head changes set_node]; try done; intros *; rewrite ?agent_set_node.
  - by rewrite length_insert.
  - apply chain_insert; [done|lia|done].
  - specialize (Hp t0). pose proof (proj2 Hlk t0) as Hb. unfold pc_ok, seen, in_bounds in *. simpl.
    destruct (agent s t0) as [| | h' j k| | | | | |i' h' p'| |] eqn:Ht0; try done.
    + destruct Hp as [Hseen Hk]. split; [done|]. intros Heq.
      rewrite list_lookup_insert_ne; [by apply Hk|]. destruct Hseen as (_ & _ & Hh). specialize (Hh Heq).
      subst h'. specialize (Hend Hb). pose proof (chain_range _ _ _ _ Hc Hend). intros ?.
      apply Hni. by replace i with (TaggedIndex.tagged_index (head s)) by lia.
    + destruct (decide (t0 = t)) as [->|Hne]; [congruence|].
      assert (Hti' : owns (agent s t0) = Some i') by by rewrite Ht0. destruct (Ho _ _ Hti') as [Hir' _].
      rewrite list_lookup_insert_ne; [done|]. intros ?. apply Hne. apply (He _ _ i'); [done|].
      rewrite Hti. f_equal. lia.
Qed.

(** [release]'s exchange puts the slot on top. *)
Lemma stack_inv_push s fr t i h p : stack_inv s fr -> agent s t = RelStored i h p -> head s = h ->
  stack_inv (goto t (Unlocking i p)
    (set_head (TaggedIndex.tagged_new (wrap 16 (TaggedIndex.generation h + 1)) i) s)) (i :: fr).
Proof using Hsize.
  intros [Hn Hc Hnd Hg Ho He Ha Hp] Hat <-.
  assert (Hti : owns (agent s t) = Some i) by by rewrite Hat. destruct (Ho _ _ Hti) as [Hir Hni].
  pose proof (Hp t) as Hlink. rewrite Hat in Hlink. simpl in Hlink.
  split; cbn [nodes head changes set_head goto]; try done; intros *;
    rewrite ?agent_goto, ?agent_set_head.
  - rewrite TaggedIndex.index_new by (unfold uint; lia). simpl. eauto.
  - by apply list.NoDup_cons.
  - rewrite TaggedIndex.generation_new; [|by apply wrap_uint|unfold uint; lia].
    rewrite Hg. unfold wrap. by rewrite Zplus_mod_idemp_l.
  - destruct (decide _) as [<-|Hne]; simpl; [done|].
    intros Ht'. destruct (Ho _ _ Ht') as [? Hnot]. split; [done|]. apply not_elem_of_cons. split; [|done].
    intros ->. by apply Hne, (He _ _ i).
  - destruct (decide (t = t0)) as [<-|], (decide (t = t')) as [<-|]; simpl; try done. apply He.
  - intros Hi'. destruct (Ha i0 Hi') as [|[t' Ht']]; [left; by right|].
    destruct (decide (t = t')) as [<-|]; [left; rewrite Hti in Ht'; simplify_eq; by left|right].
    exists t'. by rewrite agent_goto, decide_False.
  - destruct (decide _) as [<-|]; [done|]. apply pc_ok_set_head, Hp.
Qed.

(** The abstract stack: what a step does to the free slots. *)
Definition spec_step (fr fr' : list Z) (c c' : pc) : Prop :=
  match c, c' with
  | NextRead _ _ _, Won i => fr = i :: fr'
  | RelStored i _ _, Unlocking j _ => i = j /\ fr' = i :: fr
  | _, _ => fr' = fr
  end.

Lemma stack_inv_step s fr t a s' : stack_inv s fr -> lock_inv s -> fresh s t -> step s t a = Some s' ->
  exists fr', stack_inv s' fr' /\ spec_step fr fr' (agent s t) (agent s' t).
Proof using Hsize.
  intros Hinv Hlk Hf Hs%step_step_case. pose proof (proj2 Hlk t) as Hb.
  pose proof (si_pc _ _ Hinv t) as Hp.
  destruct Hs; rewrite H in Hb, Hp; simpl in Hb, Hp;
    rewrite agent_goto, decide_True, H by done.
  all: try (exists fr; split; [|done];
    apply stack_inv_goto; [by eapply stack_inv_frame|by autorewrite with pool; rewrite ?H|try done]).
  - split; [done|]. split; [apply (si_gen _ _ Hinv)|done].
  - destruct (stack_inv_pop s fr t h j k) as (fr' & -> & ?); [done..|]. by exists fr'.
  - split; [done|]. split; [apply (si_gen _ _ Hinv)|done].
  - exists fr. split; [|done]. by apply stack_inv_store.
  - exists (i :: fr). split; [|done]. by apply stack_inv_push.
Qed.

Lemma reachable_stack_inv p s : reachable fresh p s -> exists fr, stack_inv s fr.
Proof using Hsize.
  induction 1 as [|s t a s' Hr [fr IH] Hf Hs]; [eexists; apply stack_inv_new|].
  destruct (stack_inv_step _ _ _ _ _ IH (reachable_lock_inv _ _ _ Hr) Hf Hs) as (fr' & ? & _). eauto.
Qed.

(** The invariant determines the stack, and [free] computes it. *)
Lemma stack_inv_free s fr : stack_inv s fr -> free s = fr.
Proof using Hsize.
  intros Hinv. apply chain_free_list; [apply Hinv|].
  rewrite <- (length_seqZ 0 POOL_SIZE). apply submseteq_length, NoDup_submseteq; [apply Hinv|].
  intros i Hi. apply elem_of_seqZ. pose proof (chain_range _ _ _ _ (si_chain _ _ Hinv) Hi). lia.
Qed.

Lemma unlocking_enabled s t i b : lock_inv s -> agent s t = Unlocking i b -> is_Some (step s t Go).
Proof.
  intros Hlk Ht. destruct (mi_locked _ _ _ _ _ _ (proj1 Hlk) t i) as (m & Hm & _); [by rewrite Ht|].
  unfold step, checkout_step, guard_step, release_step. rewrite Ht, Hm. eauto.
Qed.

(** Whoever holds the mutex of a slot that another agent owns is about to unlock it. *)
Lemma holder_unlocking s fr t t' i m : stack_inv s fr -> lock_inv s -> agent s t = Locking i ->
  memory s !! Z.to_nat i = Some m -> holder m = Some t' -> exists b, agent s t' = Unlocking i b.
Proof.
  intros Hst Hlk Ht Hm Hh. pose proof (proj2 Hlk t) as Hi. rewrite Ht in Hi. simpl in Hi.
  pose proof (mi_holder _ _ _ _ _ _ (proj1 Hlk) _ _ _ Hm Hh) as Hl. rewrite Z2Nat.id in Hl by lia.
  assert (owns (agent s t') = Some i -> False) as Hno.
  { intros Ho. assert (t = t') as <- by (eapply si_excl; [done| |done]; by rewrite Ht).
    by rewrite Ht in Hl. }
  destruct (agent s t'); simpl in *; simplify_eq; eauto; by destruct Hno.
Qed.

Lemma step_enabled s fr t : stack_inv s fr -> lock_inv s ->
  agent s t = Idle \/ (exists i, agent s t = Held i \/ agent s t = Aborted i) \/
  is_Some (step s t Go) \/
  exists i t' b, agent s t = Locking i /\ agent s t' = Unlocking i b /\ is_Some (step s t' Go).
Proof.
  intros Hst Hlk. pose proof (proj2 Hlk t) as Hb.
  destruct (agent s t) as [|h k|h j k|i|i|i|i b|i h b|i h b|i b|i] eqn:Ht; simpl in Hb; eauto.
  all: try (right; right; left; unfold step, checkout_step, guard_step, release_step; rewrite Ht;
    repeat case_match; by eauto).
  - right; right; left. unfold step, checkout_step. rewrite Ht.
    destruct (Z.leb_spec POOL_SIZE (TaggedIndex.tagged_index h)); [eauto|].
    destruct (lookup_lt_is_Some_2 (nodes s) (Z.to_nat (TaggedIndex.tagged_index h))) as [j ->]; [|eauto].
    rewrite (si_nodes _ _ Hst). rewrite TaggedIndex.index_mod in *.
    pose proof (Z.mod_pos_bound h (2 ^ 48)). lia.
  - right; right. destruct (lookup_lt_is_Some_2 (memory s) (Z.to_nat i)) as [m Hm].
    { rewrite (mi_memory _ _ _ _ _ _ (proj1 Hlk)). lia. }
    destruct (holder m) as [t'|] eqn:Hh.
    + right. destruct (holder_unlocking _ _ _ _ _ _ Hst Hlk Ht Hm Hh) as [b Ht'].
      exists i, t', b. eauto using unlocking_enabled.
    + left. unfold step, checkout_step. rewrite Ht, Hm, Hh. destruct (poisoned m); eauto.
  - right; right; left. by eapply unlocking_enabled.
Qed.

(** While the generation cannot wrap around between a read of the head and the
    exchange that depends on it, the pool neither duplicates nor loses a slot: the free
    list has no repetition, every slot is either on it or taken by exactly one agent, and
    an operation under way can always go on, except that a new owner may have to wait for
    the previous one, which has already released the slot, to drop its mutex guard. *)
Theorem pool_slots_partitioned p s : reachable fresh p s ->
  NoDup (free s) /\
  (forall i, 0 <= i < POOL_SIZE ->
    ((i ∈ free s) /\ (forall t, owns (agent s t) <> Some i)) \/
    ((i ∉ free s) /\ exists t, forall t', owns (agent s t') = Some i <-> t' = t)) /\
  (forall t, agent s t = Idle \/ (exists i, agent s t = Held i \/ agent s t = Aborted i) \/
    is_Some (step s t Go) \/
    (exists i t' b, agent s t = Locking i /\ agent s t' = Unlocking i b /\ is_Some (step s t' Go))).
Proof using Hsize.
  intros Hr. destruct (reachable_stack_inv _ _ Hr) as [fr Hst].
  pose proof (reachable_lock_inv _ _ _ Hr) as Hlk. rewrite (stack_inv_free _ _ Hst).
  split; [apply Hst|]. split; [|intros t; by eapply step_enabled].
  intros i Hi. destruct (si_all _ _ Hst i Hi) as [Hin|[t Ht]].
  - left. split; [done|]. intros t Ht. by apply (si_own _ _ Hst) in Ht as [_ ?].
  - right. split; [by apply (si_own _ _ Hst) in Ht as [_ ?]|]. exists t. intros t'.
    split; [intros; by eapply si_excl|by intros ->].
Qed.

(** C30.  As long as the 16-bit generation does not come round between an agent's read of the
    head and its exchange ([fresh]; 65 536 exchanges of others in between would be needed, and
    [generation_wrap_duplicates_slot] shows what they would do), every step of every operation is
    a step of a last-in first-out stack of slots: [checkout]'s exchange takes the top slot,
    [release]'s exchange puts the released slot on top, no other step changes the stack, and a
    head that [checkout] reads says that the pool is exhausted exactly when the stack is empty at
    that moment. *)
Theorem pool_refines_stack p s t a s' : reachable fresh p s -> fresh s t -> step s t a = Some s' ->
  spec_step (free s) (free s') (agent s t) (agent s' t) /\
  (forall h k, agent s' t = Loaded h k ->
     POOL_SIZE <= TaggedIndex.tagged_index h <-> free s' = []).
Proof using Hsize.
  intros Hr Hf Hs. destruct (reachable_stack_inv _ _ Hr) as [fr Hst].
  destruct (stack_inv_step _ _ _ _ _ Hst (reachable_lock_inv _ _ _ Hr) Hf Hs) as (fr' & Hst' & Hspec).
  rewrite (stack_inv_free _ _ Hst), (stack_inv_free _ _ Hst'). split; [done|].
  intros h k Hat. assert (h = head s') as ->.
  { apply step_step_case in Hs. inversion Hs; subst; rewrite agent_goto, decide_True in Hat by done;
      by simplify_eq. }
  pose proof (si_chain _ _ Hst') as Hc. destruct fr' as [|j fr']; simpl in Hc; [naive_solver lia|].
  destruct Hc as (? & ? & _). split; [lia|done].
Qed.

(** C29.  In every interleaving, even one in which the generation wraps around, no two
    guards to the same slot exist at the same time, and under [ZeroizePolicy::OnRelease] a
    slot has bytes other than zero only while a guard to it exists, so that a new guard
    never shows what an earlier one left. *)
Theorem pool_guards_exclusive p s : reachable always p s ->
  (forall t t' i, agent s t = Held i -> agent s t' = Held i -> t = t') /\
  (forall i m, p = OnRelease -> memory s !! i = Some m ->
    bytes m = zeros \/ exists t, agent s t = Held (Z.of_nat i)).
Proof.
  intros Hr. pose proof (reachable_lock_inv _ _ _ Hr) as Hlk. split.
  - intros t t' i Ht Ht'.
    destruct (mi_locked _ _ _ _ _ _ (proj1 Hlk) t i) as (m & Hm & Hh); [by rewrite Ht|].
    pose proof (holds_lock s t' i m Hlk) as Hh'. rewrite Ht' in Hh'. specialize (Hh' eq_refl Hm).
    congruence.
  - intros i m Hp Hm. rewrite <- (reachable_policy _ _ _ Hr) in Hp.
    destruct (mi_zero _ _ _ _ _ _ (proj1 Hlk) _ _ Hp Hm) as [|(t & _ & Hh)]; [by left|right].
    exists t. destruct (agent s t); simpl in Hh; by simplify_eq.
Qed.

End pool.

#[export] Hint Rewrite agent_goto agent_set_head agent_set_node agent_set_slot
  agent_count_success agent_count_exhaustion : pool.

(** ** Runs of a small pool *)

(** A checkout up to the guard, and a release up to the unlocked mutex, undisturbed. *)
Definition do_checkout (t : nat) : list (nat * action) :=
  [(t, Checkout); (t, Go); (t, Go); (t, Go); (t, Go)].

Definition do_release (t : nat) : list (nat * action) :=
  [(t, DropGuard false); (t, Go); (t, Go); (t, Go); (t, Go)].

(** Two agents race for the top slot; the loser retries, writes and releases. *)
Definition race : list (nat * action) :=
  [(0%nat, Checkout); (1%nat, Checkout); (0%nat, Go); (1%nat, Go); (0%nat, Go); (1%nat, Go)] ++
  [(1%nat, Go); (1%nat, Go); (1%nat, Go); (1%nat, Go); (1%nat, Fill [7; 9]); (0%nat, Go)] ++
  [(1%nat, DropGuard false); (1%nat, Go); (1%nat, Go); (1%nat, Go)].

Definition raced : StaticSlotPool := default (pool_new 2 3 Never) (run_fresh 2 3 (pool_new 2 3 OnRelease) race).

Lemma raced_run : run_fresh 2 3 (pool_new 2 3 OnRelease) race = Some raced.
Proof. vm_compute. reflexivity. Qed.

Lemma raced_reachable : reachable 2 3 fresh OnRelease raced.
Proof. eapply run_fresh_reachable; [apply reachable_new|apply raced_run]. Qed.

Lemma pool_slots_partitioned_witness : free 3 raced = [1; 2] /\ NoDup (free 3 raced).
Proof.
  split; [vm_compute; reflexivity|].
  refine (proj1 (pool_slots_partitioned 2 3 _ OnRelease raced raced_reachable)). lia.
Defined.

(** The released slot 1 goes on top of slot 2 in the step that ends [race]. *)
Lemma pool_refines_stack_witness :
  exists s s', reachable 2 3 fresh OnRelease s /\ agent s 1 = RelStored 1 (TaggedIndex.tagged_new 2 2) false /\
    step 2 3 s 1 Go = Some s' /\ spec_step (free 3 s) (free 3 s') (agent s 1) (agent s' 1).
Proof.
  set (s := default (pool_new 2 3 Never) (run_fresh 2 3 (pool_new 2 3 OnRelease) (take 15 race))).
  assert (Hr : reachable 2 3 fresh OnRelease s).
  { eapply run_fresh_reachable; [apply reachable_new|]. instantiate (1 := take 15 race).
    vm_compute. reflexivity. }
  exists s, raced. split; [exact Hr|]. split; [vm_compute; reflexivity|].
  assert (Hs : step 2 3 s 1 Go = Some raced) by (vm_compute; reflexivity).
  split; [exact Hs|].
  refine (proj1 (pool_refines_stack 2 3 _ OnRelease s 1 Go raced Hr _ Hs)); [lia|vm_compute; exact I].
Defined.

Lemma pool_guards_exclusive_witness :
  memory raced !! 1%nat = Some {| bytes := [0; 0]; holder := Some 1%nat; poisoned := false |} /\
  forall t t' i, agent raced t = Held i -> agent raced t' = Held i -> t = t'.
Proof.
  split; [vm_compute; reflexivity|].
  refine (proj1 (pool_guards_exclusive 2 3 OnRelease raced _)).
  refine (run_reachable 2 3 OnRelease (pool_new 2 3 OnRelease) race raced (reachable_new _ _ _ _) _).
  vm_compute. reflexivity.
Defined.

(** ** The generation wraps around

    Agent 0 reads the head and the link of slot 0 and pauses.  Agents 1, 2 and 3 take the
    slots 0, 1 and 2, agent 1 puts slot 0 back and takes and releases it again and again. *)

Definition wrap_prefix : list (nat * action) :=
  [(0%nat, Checkout); (0%nat, Go)] ++ do_checkout 1 ++ do_checkout 2 ++ do_checkout 3 ++ do_release 1.

(** A state in which slot 0 alone is free, agent 1 is idle, and [k] head changes, modulo
    2^16, have been made. *)
Record rounds (k : Z) (s : StaticSlotPool) : Prop := {
  ro_head : head s = TaggedIndex.tagged_new (wrap 16 k) 0;
  ro_nodes : nodes s = [3; 2; 3];
  ro_slot : exists m, memory s !! 0%nat = Some m /\ holder m = None /\ poisoned m = false;
  ro_agent : agent s 1 = Idle;
  ro_others : agent s 0 = NextRead (TaggedIndex.tagged_new 0 0) 1 0 /\ agent s 2 = Held 1 /\ agent s 4 = Idle;
}.

Lemma run_cons s t a l s1 s' : step 1 3 s t a = Some s1 -> run 1 3 s1 l = Some s' ->
  run 1 3 s ((t, a) :: l) = Some s'.
Proof. intros H. simpl. by rewrite H. Qed.

Ltac pool_step C := eapply run_cons; [apply step_case_step; eapply C;
  rewrite ?agent_goto, ?decide_True by done; simpl; try done|].

Lemma round_run k s : rounds k s ->
  exists s', run 1 3 s (do_checkout 1 ++ do_release 1) = Some s' /\ rounds (k + 2) s'.
Proof.
  intros [Hh Hn (m & Hm & Hho & Hpo) Ha (H0 & H2 & H4)].
  assert (Hi : forall g j, uint 48 j -> TaggedIndex.tagged_index (TaggedIndex.tagged_new g j) = j)
    by apply TaggedIndex.index_new.
  assert (HG : forall x j, uint 48 j -> TaggedIndex.generation (TaggedIndex.tagged_new (wrap 16 x) j) = wrap 16 x)
    by (intros; apply TaggedIndex.generation_new; [by apply wrap_uint|done]).
  assert (HW : forall x, wrap 16 (wrap 16 x + 1) = wrap 16 (x + 1))
    by (intros; unfold wrap; apply Zplus_mod_idemp_l).
  assert (Hlt : (0 < length (memory s))%nat) by (by apply lookup_lt_Some in Hm).
  unfold do_checkout, do_release. simpl app. eexists. split.
  - pool_step SLoad.
    pool_step SNext; [by rewrite Hh, Hi|by rewrite Hh, Hi, Hn|].
    pool_step SPop. pool_step SCount.
    pool_step SLock; [by rewrite Hh, Hi| done..|].
    pool_step SDrop; [rewrite Hh, Hi by done; by apply list_lookup_insert_eq|].
    pool_step SRelLoad. pool_step SRelStore. pool_step SPush.
    pool_step SUnlock; [rewrite Hh, Hi by done; apply list_lookup_insert_eq; by rewrite length_insert|].
    reflexivity.
  - cbn [head goto set_slot set_head set_node count_success].
    rewrite Hh, !HG, !HW, !Hi by done. split; simpl.
    + rewrite <- Z.add_assoc. unfold wrap. by rewrite Zplus_mod_idemp_l.
    + by rewrite Hn.
    + eexists. split; [apply list_lookup_insert_eq; by rewrite !length_insert|]. done.
    + by rewrite agent_goto, decide_True.
    + by autorewrite with pool.
Qed.

Lemma rounds_run (n : nat) s : rounds 4 s ->
  exists l s', run 1 3 s l = Some s' /\ rounds (4 + 2 * Z.of_nat n) s'.
Proof.
  intros Hs. induction n as [|n (l & s1 & Hl & Hs1)]; [by exists [], s|].
  destruct (round_run _ _ Hs1) as (s2 & Hr & Hs2).
  exists (l ++ (do_checkout 1 ++ do_release 1)), s2. rewrite (run_app _ _ _ _ _ _ Hl). split; [done|].
  by replace (4 + 2 * Z.of_nat (S n)) with (4 + 2 * Z.of_nat n + 2) by lia.
Qed.

(** With the head back at the word agent 0 read, its exchange succeeds and makes slot 1,
    which agent 2 holds, the top of the stack; agent 4 takes it. *)
Lemma rounds_wrapped s : rounds (2 ^ 16) s ->
  exists s', run 1 3 s [(0%nat, Go); (4%nat, Checkout); (4%nat, Go); (4%nat, Go)] = Some s' /\
    agent s' 2 = Held 1 /\ agent s' 4 = Won 1.
Proof.
  intros [Hh Hn _ Ha (H0 & H2 & H4)]. change (wrap 16 (2 ^ 16)) with 0 in Hh.
  assert (Hi : forall g, TaggedIndex.tagged_index (TaggedIndex.tagged_new g 1) = 1)
    by (intros; by apply TaggedIndex.index_new).
  eexists. split.
  - pool_step SPop. pool_step SLoad.
    pool_step SNext; [by rewrite Hi, Hn|]. pool_step SPop. reflexivity.
  - split; [by autorewrite with pool|].
    rewrite agent_goto, decide_True by done. f_equal; apply Hi.
Qed.

Lemma rounds_start : exists s, run 1 3 (pool_new 1 3 Never) wrap_prefix = Some s /\ rounds 4 s.
Proof.
  eexists. split; [vm_compute; reflexivity|]. split.
  - vm_compute. reflexivity.
  - reflexivity.
  - eexists. split; [reflexivity|]. split; reflexivity.
  - vm_compute. reflexivity.
  - split; [|split]; vm_compute; reflexivity.
Qed.

(** The 16-bit generation is not enough for every interleaving: when [head] is
    exchanged exactly 65536 times between an agent's read of the head and its exchange,
    the exchange succeeds on a stale link, and a slot that one agent holds a guard to is
    handed to another. *)
Theorem generation_wrap_duplicates_slot :
  exists s t t' i, reachable 1 3 always Never s /\ t <> t' /\ agent s t = Held i /\ agent s t' = Won i.
Proof.
  destruct rounds_start as (s0 & H0 & Hs).
  destruct (rounds_run (Z.to_nat 32766) s0 Hs) as (l & s1 & Hl & Hs1).
  assert (HK : 4 + 2 * Z.of_nat (Z.to_nat 32766) = 2 ^ 16) by (rewrite Z2Nat.id by lia; reflexivity).
  rewrite HK in Hs1. destruct (rounds_wrapped s1 Hs1) as (s2 & Hr & H2 & H4).
  exists s2, 2%nat, 4%nat, 1. split; [|split; [discriminate|split; [exact H2|exact H4]]].
  eapply run_reachable; [|exact Hr]. eapply run_reachable; [|exact Hl].
  eapply run_reachable; [apply reachable_new|exact H0].
Qed.
