(* ===== verification/MemoryPool.v ===== *)
(** * The flag-based buffer pool (bw-core, [memory.rs])

    [LockFreeMemoryPool] hands out the first slot whose occupancy flag it can set.
    As in [Pool], a step is one access to shared memory by one agent; the slots behind
    mutexes and their invariant are shared with [Pool]. *)

From S2P Require Import Prelude Pool.

(** Where an agent is. *)
Inductive pc : Type :=
| Idle
| Scan (index : Z)                            (** [checkout], about to try flag [index] *)
| Locking (index : Z)                         (** flag set, about to lock the slot *)
| Held (index : Z)                            (** holds a [PoolGuard] *)
| Releasing (index : Z) (panicking : bool)    (** zeroized, about to clear the flag *)
| Unlocking (index : Z) (panicking : bool)    (** the [MutexGuard] is dropped next *)
| Aborted (index : Z).                        (** [unreachable!] was reached *)

Record LockFreeMemoryPool := {
  memory : list slot;
  occupancy_flags : list bool;
  pool_size : Z;
  slot_capacity : Z;
  agents : gmap nat pc;
}.

Definition agent (s : LockFreeMemoryPool) (t : nat) : pc := default Idle (agents s !! t).

(** [LockFreeMemoryPool::new] *)
Definition new (pool_size slot_capacity : Z) : LockFreeMemoryPool := {|
  memory := replicate (Z.to_nat pool_size)
    {| bytes := replicate (Z.to_nat slot_capacity) 0; holder := None; poisoned := false |};
  occupancy_flags := replicate (Z.to_nat pool_size) false;
  pool_size := pool_size;
  slot_capacity := slot_capacity;
  agents := ∅;
|}.

Definition update (t : nat) (c : pc) (mem : list slot) (flags : list bool)
    (s : LockFreeMemoryPool) : LockFreeMemoryPool := {|
  memory := mem; occupancy_flags := flags; pool_size := pool_size s;
  slot_capacity := slot_capacity s; agents := <[t := c]> (agents s) |}.

(** [LockFreeMemoryPool::checkout].  At the end of the scan it returns
    [PoolAllocationBoundaryViolated]. *)
Definition checkout_step (s : LockFreeMemoryPool) (t : nat) (a : action) : option LockFreeMemoryPool :=
  match agent s t, a with
  | Idle, Checkout => Some (update t (Scan 0) (memory s) (occupancy_flags s) s)
  | Scan index, Go =>
      if index <? pool_size s then
        match occupancy_flags s !! Z.to_nat index with
        | Some false =>
            Some (update t (Locking index) (memory s)
                    (<[Z.to_nat index := true]> (occupancy_flags s)) s)
        | Some true => Some (update t (Scan (index + 1)) (memory s) (occupancy_flags s) s)
        | None => None
        end
      else Some (update t Idle (memory s) (occupancy_flags s) s)
  | Locking index, Go =>
      match memory s !! Z.to_nat index with
      | Some m =>
          match holder m with
          | Some _ => None
          | None =>
              if poisoned m then Some (update t (Aborted index) (memory s) (occupancy_flags s) s)
              else
                Some (update t (Held index)
                  (<[Z.to_nat index := {| bytes := bytes m; holder := Some t; poisoned := false |}]>
                     (memory s)) (occupancy_flags s) s)
          end
      | None => None
      end
  | _, _ => None
  end.

(** [PoolGuard::get_mut], [PoolGuard::drop] and the drop of the mutex guard after it. *)
Definition guard_step (s : LockFreeMemoryPool) (t : nat) (a : action) : option LockFreeMemoryPool :=
  match agent s t, a with
  | Held index, Fill data =>
      match memory s !! Z.to_nat index with
      | Some m =>
          if zlen data =? zlen (bytes m) then
            Some (update t (Held index)
              (<[Z.to_nat index := {| bytes := data; holder := holder m; poisoned := poisoned m |}]>
                 (memory s)) (occupancy_flags s) s)
          else None
      | None => None
      end
  | Held index, DropGuard panicking =>
      match memory s !! Z.to_nat index with
      | Some m =>
          Some (update t (Releasing index panicking)
            (<[Z.to_nat index := {| bytes := replicate (length (bytes m)) 0; holder := holder m;
                                    poisoned := poisoned m |}]> (memory s)) (occupancy_flags s) s)
      | None => None
      end
  | Releasing index p, Go =>
      Some (update t (Unlocking index p) (memory s)
              (<[Z.to_nat index := false]> (occupancy_flags s)) s)
  | Unlocking index p, Go =>
      match memory s !! Z.to_nat index with
      | Some m =>
          Some (update t Idle
            (<[Z.to_nat index := {| bytes := bytes m; holder := None; poisoned := poisoned m || p |}]>
               (memory s)) (occupancy_flags s) s)
      | None => None
      end
  | _, _ => None
  end.

Definition step (s : LockFreeMemoryPool) (t : nat) (a : action) : option LockFreeMemoryPool :=
  match checkout_step s t a with
  | Some s' => Some s'
  | None => guard_step s t a
  end.

Inductive reachable (n cap : Z) : LockFreeMemoryPool -> Prop :=
| reachable_new : reachable n cap (new n cap)
| reachable_step s t a s' : reachable n cap s -> step s t a = Some s' -> reachable n cap s'.

(** The slot whose flag an agent has set and not cleared. *)
Definition owns (c : pc) : option Z :=
  match c with Locking i | Held i | Releasing i _ | Aborted i => Some i | _ => None end.

(** The slot whose mutex an agent holds, and the slot it has a guard to. *)
Definition locked (c : pc) : option Z :=
  match c with Held i | Releasing i _ | Unlocking i _ => Some i | _ => None end.

Definition held (c : pc) : option Z := match c with Held i => Some i | _ => None end.

(** ** Invariant *)

Lemma agent_update t c mem fl s t' :
  agent (update t c mem fl s) t' = if decide (t = t') then c else agent s t'.
Proof. unfold agent. simpl. by rewrite lookup_insert; destruct (decide (t = t')). Qed.

Record flags_inv (n : Z) (s : LockFreeMemoryPool) (flags : list bool) : Prop := {
  fi_length : length flags = Z.to_nat n;
  fi_scan t i : agent s t = Scan i -> 0 <= i;
  fi_own t i : owns (agent s t) = Some i -> 0 <= i < n /\ flags !! Z.to_nat i = Some true;
  fi_excl t t' i : owns (agent s t) = Some i -> owns (agent s t') = Some i -> t = t';
  fi_all j : flags !! j = Some true -> exists t, owns (agent s t) = Some (Z.of_nat j);
}.

Definition slots_inv (n cap : Z) (s : LockFreeMemoryPool) (mem : list slot) : Prop :=
  mutex_inv cap n True mem (fun t => locked (agent s t)) (fun t => held (agent s t)).

Record pool_inv (n cap : Z) (s : LockFreeMemoryPool) : Prop := {
  pi_size : pool_size s = n;
  pi_flags : flags_inv n s (occupancy_flags s);
  pi_slots : slots_inv n cap s (memory s);
}.

Lemma pool_inv_new n cap : pool_inv n cap (new n cap).
Proof.
  split; [done| |by apply mutex_inv_new].
  split; simpl; intros *; try done.
  - apply length_replicate.
  - by intros [? _]%lookup_replicate_1.
Qed.

(** *** Flags *)

Lemma flags_goto n s t c mem fl : flags_inv n s (occupancy_flags s) -> fl = occupancy_flags s ->
  owns c = owns (agent s t) -> (forall i, c = Scan i -> 0 <= i) -> flags_inv n (update t c mem fl s) fl.
Proof.
  intros [Hl Hsc Ho He Ha] -> Hc Hi. split; [done|..]; intros *; rewrite ?agent_update.
  - destruct (decide _); [apply Hi|apply Hsc].
  - destruct (decide _) as [<-|]; rewrite ?Hc; apply Ho.
  - destruct (decide (t = t0)) as [<-|], (decide (t = t')) as [<-|]; rewrite ?Hc; try done; apply He.
  - intros Hj. destruct (Ha j Hj) as [t' Ht']. exists t'. rewrite agent_update.
    by destruct (decide _) as [<-|]; rewrite ?Hc.
Qed.

(** [compare_exchange(false, true)] succeeds. *)
Lemma flags_take n s t i : flags_inv n s (occupancy_flags s) -> owns (agent s t) = None -> 0 <= i ->
  occupancy_flags s !! Z.to_nat i = Some false ->
  flags_inv n (update t (Locking i) (memory s) (<[Z.to_nat i := true]> (occupancy_flags s)) s)
    (<[Z.to_nat i := true]> (occupancy_flags s)).
Proof.
  intros [Hl Hsc Ho He Ha] Hc Hi Hf. pose proof (lookup_lt_Some _ _ _ Hf) as Hlt.
  assert (Hno : forall t', owns (agent s t') <> Some i) by (intros t' [_ ?]%Ho; congruence).
  split; [by rewrite length_insert|..]; intros *; rewrite ?agent_update.
  - destruct (decide _); [done|apply Hsc].
  - destruct (decide _) as [<-|]; simpl.
    + intros [= <-]. split; [lia|by apply list_lookup_insert_eq].
    + intros Hown. destruct (Ho _ _ Hown). split; [done|]. rewrite list_lookup_insert_ne; [done|].
      intros ?. apply (Hno t0). rewrite Hown. f_equal. lia.
  - destruct (decide (t = t0)) as [<-|], (decide (t = t')) as [<-|]; simpl; try done.
    + by intros [= <-] ?%Hno.
    + by intros Hown [= <-]; apply Hno in Hown.
    + apply He.
  - rewrite list_lookup_insert_Some. intros [(<- & _ & _)|(Hne & Hj)].
    + exists t. rewrite agent_update, decide_True by done. simpl. by rewrite Z2Nat.id.
    + destruct (Ha j Hj) as [t' Ht']. exists t'. rewrite agent_update.
      destruct (decide _) as [<-|]; [congruence|done].
Qed.

(** [store(false)] by the owner. *)
Lemma flags_release n s t i p : flags_inv n s (occupancy_flags s) -> agent s t = Releasing i p ->
  flags_inv n (update t (Unlocking i p) (memory s) (<[Z.to_nat i := false]> (occupancy_flags s)) s)
    (<[Z.to_nat i := false]> (occupancy_flags s)).
Proof.
  intros [Hl Hsc Ho He Ha] Hc. assert (Ht : owns (agent s t) = Some i) by (by rewrite Hc).
  destruct (Ho _ _ Ht) as [Hi Hf].
  split; [by rewrite length_insert|..]; intros *; rewrite ?agent_update.
  - destruct (decide _); [done|apply Hsc].
  - destruct (decide _) as [<-|Hne]; simpl; [done|].
    intros Hown. destruct (Ho _ _ Hown). split; [done|]. rewrite list_lookup_insert_ne; [done|].
    intros ?. apply Hne, (He _ _ i); [done|]. rewrite Hown. f_equal. lia.
  - destruct (decide (t = t0)) as [<-|], (decide (t = t')) as [<-|]; simpl; try done; apply He.
  - rewrite list_lookup_insert_Some. intros [(_ & ? & _)|(Hne & Hj)]; [done|].
    destruct (Ha j Hj) as [t' Ht']. exists t'. rewrite agent_update.
    destruct (decide _) as [<-|]; [|done]. rewrite Ht in Ht'. simplify_eq. lia.
Qed.

(** *** Slots *)

Lemma slots_goto n cap s t c fl : slots_inv n cap s (memory s) -> locked c = locked (agent s t) ->
  held c = held (agent s t) -> slots_inv n cap (update t c (memory s) fl s) (memory s).
Proof.
  intros Hs Hl Hh. eapply mutex_inv_ext; [done|..]; simpl; intros t' *; rewrite agent_update;
    destruct (decide _) as [<-|]; congruence.
Qed.

Lemma slots_update n cap s t c i m m' fl : slots_inv n cap s (memory s) ->
  memory s !! Z.to_nat i = Some m -> 0 <= i < n ->
  (holder m = None /\ locked (agent s t) = None \/ locked (agent s t) = Some i) ->
  (holder m' = None /\ locked c = None \/ holder m' = Some t /\ locked c = Some i) ->
  length (bytes m') = Z.to_nat cap ->
  (bytes m' = replicate (Z.to_nat cap) 0 \/ held c = Some i /\ holder m' = Some t) ->
  slots_inv n cap (update t c (<[Z.to_nat i := m']> (memory s)) fl s) (<[Z.to_nat i := m']> (memory s)).
Proof.
  intros Hs Hm Hi Hold Hnew Hlen Hz. eapply mutex_inv_update; try done; simpl;
    rewrite ?agent_update, ?decide_True by done; try done.
  - intros t' Hne. by rewrite agent_update, decide_False by done.
  - intros j. by destruct (agent s t).
Qed.

Lemma pool_inv_goto n cap s t c : pool_inv n cap s -> owns c = owns (agent s t) ->
  locked c = locked (agent s t) -> held c = held (agent s t) -> (forall i, c = Scan i -> 0 <= i) ->
  pool_inv n cap (update t c (memory s) (occupancy_flags s) s).
Proof. intros [] ? ? ? ?. split; [done|by apply (flags_goto n s)|by apply (slots_goto n cap s)]. Qed.

Lemma pool_inv_slot n cap s t c i m m' : pool_inv n cap s -> owns c = owns (agent s t) ->
  (forall i, c = Scan i -> 0 <= i) ->
  memory s !! Z.to_nat i = Some m -> 0 <= i < n ->
  (holder m = None /\ locked (agent s t) = None \/ locked (agent s t) = Some i) ->
  (holder m' = None /\ locked c = None \/ holder m' = Some t /\ locked c = Some i) ->
  length (bytes m') = Z.to_nat cap ->
  (bytes m' = replicate (Z.to_nat cap) 0 \/ held c = Some i /\ holder m' = Some t) ->
  pool_inv n cap (update t c (<[Z.to_nat i := m']> (memory s)) (occupancy_flags s) s).
Proof. intros [] ? ? ? ? ? ? ? ?. split; [done|by apply (flags_goto n s)|by eapply (slots_update n cap s)]. Qed.

Lemma pool_inv_checkout n cap s t a s' : pool_inv n cap s -> checkout_step s t a = Some s' ->
  pool_inv n cap s'.
Proof.
  intros Hp. pose proof (pi_flags _ _ _ Hp) as Hf. unfold checkout_step.
  destruct (agent s t) as [|i|i| | | |] eqn:Ht; destruct a; try done.
  - intros <-%(inj Some). apply pool_inv_goto; rewrite ?Ht; try done. by intros i [= <-].
  - pose proof (fi_scan _ _ _ Hf _ _ Ht) as Hi.
    destruct (Z.ltb_spec i (pool_size s)).
    + destruct (occupancy_flags s !! Z.to_nat i) as [[]|] eqn:Hfl; [..|done]; intros <-%(inj Some).
      * apply pool_inv_goto; rewrite ?Ht; try done. intros j [= <-]. lia.
      * split; [apply Hp|apply flags_take; by rewrite ?Ht|].
        apply (slots_goto n cap s); [apply Hp|by rewrite Ht..].
    + intros <-%(inj Some). by apply pool_inv_goto; rewrite ?Ht.
  - destruct (fi_own _ _ _ Hf t i) as [Hi _]; [by rewrite Ht|].
    destruct (memory s !! Z.to_nat i) as [m|] eqn:Hm; [|done].
    destruct (holder m) eqn:Hh; [done|]. destruct (poisoned m); intros <-%(inj Some).
    + by apply pool_inv_goto; rewrite ?Ht.
    + eapply pool_inv_slot; rewrite ?Ht; try done; simpl; auto. by eapply mi_length; [apply Hp|].
Qed.

Lemma pool_inv_guard n cap s t a s' : pool_inv n cap s -> guard_step s t a = Some s' ->
  pool_inv n cap s'.
Proof.
  intros Hp Hst. pose proof (pi_slots _ _ _ Hp) as Hs.
  assert (Hlock : forall i, locked (agent s t) = Some i -> 0 <= i < n /\ exists m,
    memory s !! Z.to_nat i = Some m /\ holder m = Some t /\ length (bytes m) = Z.to_nat cap).
  { intros i Hi. split; [exact (mi_range _ _ _ _ _ _ Hs t i Hi)|].
    destruct (mi_locked _ _ _ _ _ _ Hs t i Hi) as (m & Hm & Hh). exists m.
    split; [done|]. split; [done|]. exact (mi_length _ _ _ _ _ _ Hs _ _ Hm). }
  unfold guard_step in Hst.
  destruct (agent s t) as [| | |i|i p|i p|] eqn:Ht; destruct a; try done.
  all: destruct (Hlock i eq_refl) as (Hi & m & Hm & Hh & Hlen); rewrite ?Hm in Hst.
  - destruct (Z.eqb_spec (zlen data) (zlen (bytes m))); [|done]. simplify_eq.
    eapply pool_inv_slot; rewrite ?Ht; try done; simpl; auto. unfold zlen in *. lia.
  - simplify_eq. eapply pool_inv_slot; rewrite ?Ht; try done; simpl; auto.
    + by rewrite length_replicate.
    + rewrite Hlen. auto.
  - simplify_eq. split; [apply Hp|apply flags_release; [apply Hp|done]|].
    apply (slots_goto n cap s); [apply Hp|by rewrite Ht..].
  - simplify_eq. eapply pool_inv_slot; rewrite ?Ht; try done; simpl; auto.
    destruct (mi_zero _ _ _ _ _ _ Hs _ _ I Hm) as [|(t' & Ht' & Hh')]; [by left|].
    simplify_eq. by rewrite Ht in Hh'.
Qed.

Lemma reachable_pool_inv n cap s : reachable n cap s -> pool_inv n cap s.
Proof.
  induction 1 as [|s t a s' _ IH Hs]; [apply pool_inv_new|]. unfold step in Hs.
  destruct (checkout_step s t a) eqn:Hc; [|by eapply pool_inv_guard].
  simplify_eq. by eapply pool_inv_checkout.
Qed.

(** In every interleaving, a slot's occupancy flag is set exactly when one agent has
    claimed the slot, no two claim it at the same time, and its bytes are zero unless a
    guard to it exists. *)
Theorem memory_pool_exclusive n cap s : reachable n cap s ->
  (forall i, 0 <= i < n ->
    (occupancy_flags s !! Z.to_nat i = Some false /\ (forall t, owns (agent s t) <> Some i)) \/
    (occupancy_flags s !! Z.to_nat i = Some true /\
      exists t, forall t', owns (agent s t') = Some i <-> t' = t)) /\
  (forall i m, memory s !! i = Some m ->
    bytes m = replicate (Z.to_nat cap) 0 \/ exists t, agent s t = Held (Z.of_nat i)).
Proof.
  intros [_ Hf Hs]%reachable_pool_inv. split.
  - intros i Hi. destruct (lookup_lt_is_Some_2 (occupancy_flags s) (Z.to_nat i)) as [[] Hb].
    { rewrite (fi_length _ _ _ Hf). lia. }
    + right. split; [done|]. destruct (fi_all _ _ _ Hf _ Hb) as [t Ht]. rewrite Z2Nat.id in Ht by lia.
      exists t. intros t'. split; [intros; by eapply fi_excl|by intros ->].
    + left. split; [done|]. intros t Ht. destruct (fi_own _ _ _ Hf _ _ Ht). congruence.
  - intros i m Hm. destruct (mi_zero _ _ _ _ _ _ Hs _ _ I Hm) as [|(t & _ & Hh)]; [by left|right].
    exists t. destruct (agent s t); simpl in Hh; by simplify_eq.
Qed.

Lemma memory_pool_exclusive_witness :
  exists s, reachable 2 4 s /\ agent s 0 = Held 0 /\
    exists t, forall t', owns (agent s t') = Some 0 <-> t' = t.
Proof.
  set (s1 := default (new 2 4) (step (new 2 4) 0 Checkout)).
  set (s2 := default s1 (step s1 0 Go)).
  set (s3 := default s2 (step s2 0 Go)).
  assert (Hr : reachable 2 4 s3).
  { apply (reachable_step 2 4 s2 0 Go); [|vm_compute; reflexivity].
    apply (reachable_step 2 4 s1 0 Go); [|vm_compute; reflexivity].
    apply (reachable_step 2 4 (new 2 4) 0 Checkout); [apply reachable_new|vm_compute; reflexivity]. }
  exists s3. split; [exact Hr|]. split; [vm_compute; reflexivity|].
  destruct (proj1 (memory_pool_exclusive 2 4 s3 Hr) 0) as [[Hf _]|[_ H]]; [lia| |exact H].
  vm_compute in Hf. discriminate.
Defined.
