(* ===== verification/Admission.v ===== *)
(** * Admission to the server (bw-server, [main.rs])

    The per-address rate limiter, the handshake permits, the timeout around a session's task,
    and the sender and pipelines a session detaches from it.  Instants are nanoseconds; a call reads the clock while it
    holds the limiter's lock, so the instants of successive calls do not decrease. *)

From S2P Require Import Prelude Forwarding.

(** ** Constants *)

Definition NANOS : Z := 1000000000.
Definition DEFAULT_LISTEN : string := "0.0.0.0:9000".
Definition MAX_CONCURRENT_HANDSHAKES : Z := 4.
Definition MAX_AUTH_ATTEMPTS_PER_IP : Z := 10.
Definition IP_RATE_WINDOW : Z := 60 * NANOS.
Definition HANDSHAKE_TIMEOUT : Z := 15 * NANOS.

(** ** The rate limiter *)

(** [PerIpRateLimiter]: attempts counted, and since when. *)
Abbreviation PerIpRateLimiter := (gmap IpAddr (Z * Z)).

(** [PerIpRateLimiter::check_and_record] *)
Definition check_and_record (map : PerIpRateLimiter) (now : Z) (ip : IpAddr) :
    PerIpRateLimiter * bool :=
  let map :=
    if 1024 <? Z.of_nat (size map)
    then filter (fun kv => sat_sub now kv.2.2 < IP_RATE_WINDOW) map
    else map in
  let entry := default (0, now) (map !! ip) in
  if IP_RATE_WINDOW <=? sat_sub now entry.2 then (<[ip := (1, now)]> map, true)
  else if MAX_AUTH_ATTEMPTS_PER_IP <=? entry.1 then (<[ip := entry]> map, false)
  else (<[ip := (entry.1 + 1, entry.2)]> map, true).

(** The calls made, each with its answer. *)
Fixpoint answers (map : PerIpRateLimiter) (calls : list (Z * IpAddr)) : list (Z * IpAddr * bool) :=
  match calls with
  | [] => []
  | (now, ip) :: calls =>
      let '(map', b) := check_and_record map now ip in (now, ip, b) :: answers map' calls
  end.

Fixpoint ordered {A} (now : Z) (calls : list (Z * A)) : Prop :=
  match calls with
  | [] => True
  | (t, _) :: calls => now <= t /\ ordered t calls
  end.

(** *** Reference: one fixed-window counter for one address *)

Definition window_check (st : option (Z * Z)) (now : Z) : option (Z * Z) * bool :=
  match st with
  | Some (n, since) =>
      if now <? since + IP_RATE_WINDOW
      then if n <? MAX_AUTH_ATTEMPTS_PER_IP then (Some (n + 1, since), true) else (st, false)
      else (Some (1, now), true)
  | None => (Some (1, now), true)
  end.

Fixpoint window_answers (st : option (Z * Z)) (times : list Z) : list (Z * bool) :=
  match times with
  | [] => []
  | now :: times =>
      let '(st', b) := window_check st now in (now, b) :: window_answers st' times
  end.

(** What the calls of one address are told. *)
Definition told (ip : IpAddr) (l : list (Z * IpAddr * bool)) : list (Z * bool) :=
  (fun c => (c.1.1, c.2)) <$> filter (fun c => c.1.2 = ip) l.

Definition times_of (ip : IpAddr) (calls : list (Z * IpAddr)) : list Z :=
  fst <$> filter (fun c => c.2 = ip) calls.

(** [matches now m st]: the limiter's entry [m] stands for the counter [st]; an entry
    that was evicted is one whose window is over. *)
Definition matches (now : Z) (m st : option (Z * Z)) : Prop :=
  match st with
  | None => m = None
  | Some (n, since) =>
      since <= now /\ (m = st \/ m = None /\ since + IP_RATE_WINDOW <= now)
  end.

Lemma matches_later now now' m st : now <= now' -> matches now m st -> matches now' m st.
Proof. destruct st as [[n s]|]; simpl; [|done]. intros ? [? [?|[? ?]]]; split; try lia; auto with lia. Qed.

(** Evicting stale entries does not change what the map stands for. *)
Lemma matches_evict now (map : PerIpRateLimiter) ip st : matches now (map !! ip) st ->
  matches now ((if 1024 <? Z.of_nat (size map)
    then filter (fun kv => sat_sub now kv.2.2 < IP_RATE_WINDOW) map else map) !! ip) st.
Proof.
  destruct (1024 <? _); [|done]. rewrite map_lookup_filter.
  destruct st as [[n s]|]; simpl.
  - intros (Hs & [->|[-> Hw]]); simpl; [|auto]. split; [done|].
    destruct (decide (sat_sub now s < IP_RATE_WINDOW)) as [Hlt|Hge].
    + left. by rewrite option_guard_True.
    + right. rewrite option_guard_False by done. split; [done|]. unfold sat_sub in Hge. lia.
  - by intros ->.
Qed.

(** One call of the address. *)
Lemma check_and_record_window map now ip st : matches now (map !! ip) st ->
  let '(map', b) := check_and_record map now ip in
  let '(st', b') := window_check st now in b = b' /\ matches now (map' !! ip) st'.
Proof.
  intros Hm%matches_evict. unfold check_and_record. revert Hm.
  generalize (if 1024 <? Z.of_nat (size map)
    then filter (fun kv : IpAddr * (Z * Z) => sat_sub now kv.2.2 < IP_RATE_WINDOW) map else map).
  clear map. intros map Hm. unfold window_check, sat_sub, MAX_AUTH_ATTEMPTS_PER_IP in *.
  destruct st as [[n s]|]; simpl in Hm.
  - destruct Hm as (Hs & [Hm|[Hm Hw]]); rewrite Hm; cbn [default from_option fst snd]; unfold id.
    + case_bool; cbn [fst snd] in *; rewrite lookup_insert_eq; unfold matches; auto with lia.
    + case_bool; cbn [fst snd] in *; rewrite ?lookup_insert_eq; unfold matches, IP_RATE_WINDOW, NANOS in *;
        auto with lia.
  - rewrite Hm. cbn [default from_option]. unfold id. cbn [fst snd].
    case_bool; cbn [fst snd] in *; rewrite ?lookup_insert_eq; unfold matches, IP_RATE_WINDOW, NANOS in *;
        auto with lia.
Qed.

(** A call of another address. *)
Lemma check_and_record_other map now ip ip' st : ip' <> ip -> matches now (map !! ip) st ->
  matches now ((check_and_record map now ip').1 !! ip) st.
Proof.
  intros Hne Hm%matches_evict. unfold check_and_record. revert Hm.
  generalize (if 1024 <? Z.of_nat (size map)
    then filter (fun kv : IpAddr * (Z * Z) => sat_sub now kv.2.2 < IP_RATE_WINDOW) map else map).
  clear map. intros map Hm.
  repeat case_bool_step; cbn [fst]; by rewrite lookup_insert_ne.
Qed.

Lemma answers_window ip calls map now st : ordered now calls -> matches now (map !! ip) st ->
  told ip (answers map calls) = window_answers st (times_of ip calls).
Proof.
  revert map now st. induction calls as [|[t ip'] calls IH]; [done|].
  intros map now st [Hnow Hord] Hm%(matches_later _ t); [|done]. unfold told, times_of in *. simpl.
  destruct (decide (ip' = ip)) as [->|Hne].
  - pose proof (check_and_record_window map t ip st Hm) as Hc.
    destruct (check_and_record map t ip) as [map' b] eqn:Hcr.
    rewrite !filter_cons_True by done. simpl.
    destruct (window_check st t) as [st' b']. destruct Hc as [-> Hm'].
    f_equal. by apply (IH map' t).
  - pose proof (check_and_record_other map t ip ip' st Hne Hm) as Hc.
    destruct (check_and_record map t ip') as [map' b] eqn:Hcr. simpl in Hc.
    rewrite !filter_cons_False by done. by apply (IH map' t).
Qed.

(** C32.  The limiter with its shared map, its eviction of stale entries and its reset is
    equivalent, for each address, to a single fixed-window counter run on that address's
    attempts alone: no other address and no eviction changes an answer. *)
Theorem limiter_is_fixed_window ip calls : ordered 0 calls ->
  told ip (answers ∅ calls) = window_answers None (times_of ip calls).
Proof. intros Hord. by eapply answers_window. Qed.

(** ** How many attempts pass *)

(** The attempts that passed in [a, a + IP_RATE_WINDOW). *)
Definition passed (a : Z) (l : list (Z * bool)) : Z :=
  zlen (filter (fun c => c.2 = true /\ a <= c.1 < a + IP_RATE_WINDOW) l).

Lemma passed_cons a t b l :
  passed a ((t, b) :: l) = passed a l + (if b && (a <=? t) && (t <? a + IP_RATE_WINDOW) then 1 else 0).
Proof.
  unfold passed. rewrite filter_cons. destruct (decide _) as [[Hb Ht]|Hn]; simpl in *.
  - rewrite zlen_cons. subst b. destruct (Z.leb_spec a t), (Z.ltb_spec t (a + IP_RATE_WINDOW)); simpl; lia.
  - destruct b; simpl; [|lia].
    destruct (Z.leb_spec a t), (Z.ltb_spec t (a + IP_RATE_WINDOW)); simpl; lia || (destruct Hn; lia).
Qed.

Fixpoint ascending (now : Z) (times : list Z) : Prop :=
  match times with [] => True | t :: times => now <= t /\ ascending t times end.

Lemma ordered_times_of now ip calls : ordered now calls -> ascending now (times_of ip calls).
Proof.
  assert (Hw : forall l a b, a <= b -> ascending b l -> ascending a l)
    by (intros [|x l] a b ?; simpl; [done|]; intros [? ?]; split; [lia|done]).
  revert now. induction calls as [|[t i] calls IH]; [done|]. intros now [Hle Ho]. unfold times_of in *.
  rewrite filter_cons. destruct (decide _); simpl; [split; [done|by apply IH]|].
  eapply Hw; [exact Hle|by apply IH].
Qed.

(** An interval that begins with, or before, the current window does not outlast it. *)
Lemma passed_inside a times n since now : since <= now -> a <= since -> 0 <= n <= 10 ->
  ascending now times -> passed a (window_answers (Some (n, since)) times) <= 10 - n.
Proof.
  revert n now. induction times as [|t times IH]; intros n now Hnow Ha Hn Hasc; [unfold passed, zlen; simpl; lia|].
  destruct Hasc as [Ht Hasc]. simpl. destruct (Z.ltb_spec t (since + IP_RATE_WINDOW)).
  - destruct (Z.ltb_spec n MAX_AUTH_ATTEMPTS_PER_IP) as [Hlt|_]; rewrite passed_cons; simpl.
    + unfold MAX_AUTH_ATTEMPTS_PER_IP in Hlt. specialize (IH (n + 1) t ltac:(lia) ltac:(lia) ltac:(lia) Hasc). destruct (_ && _); lia.
    + specialize (IH n t ltac:(lia) ltac:(lia) ltac:(lia) Hasc). lia.
  - rewrite passed_cons. simpl. destruct (Z.ltb_spec t (a + IP_RATE_WINDOW)); [lia|].
    rewrite andb_false_r.
    assert (Hz : forall st l now, a + IP_RATE_WINDOW <= now -> ascending now l ->
      passed a (window_answers st l) = 0).
    { clear. intros st l. revert st. induction l as [|t l IH]; intros st now Hn Ha; [done|].
      destruct Ha as [Ht Ha]. simpl. destruct (window_check st t) as [st' b]. rewrite passed_cons.
      rewrite (IH st' t) by (lia || done). destruct (Z.ltb_spec t (a + IP_RATE_WINDOW)); [lia|].
      by rewrite andb_false_r. }
    rewrite (Hz _ _ t) by (lia || done). lia.
Qed.

(** An interval already under way can see the rest of the window and one more. *)
Lemma passed_begun a times n since now : since <= now -> a <= now -> 0 <= n <= 10 ->
  ascending now times -> passed a (window_answers (Some (n, since)) times) <= 20 - n.
Proof.
  revert n now. induction times as [|t times IH]; intros n now Hnow Ha Hn Hasc;
    [unfold passed, zlen; simpl; lia|].
  destruct Hasc as [Ht Hasc]. simpl. destruct (Z.ltb_spec t (since + IP_RATE_WINDOW)).
  - destruct (Z.ltb_spec n MAX_AUTH_ATTEMPTS_PER_IP) as [Hlt|_]; rewrite passed_cons; simpl.
    + unfold MAX_AUTH_ATTEMPTS_PER_IP in Hlt. specialize (IH (n + 1) t ltac:(lia) ltac:(lia) ltac:(lia) Hasc). destruct (_ && _); lia.
    + specialize (IH n t ltac:(lia) ltac:(lia) ltac:(lia) Hasc). lia.
  - rewrite passed_cons. pose proof (passed_inside a times 1 t t ltac:(lia) ltac:(lia) ltac:(lia) Hasc). destruct (_ && _); lia.
Qed.

Lemma passed_window a times n since now : since <= now -> 1 <= n <= 10 -> ascending now times ->
  passed a (window_answers (Some (n, since)) times) <= 19.
Proof.
  revert n since now. induction times as [|t times IH]; intros n since now Hnow Hn Hasc;
    [unfold passed, zlen; simpl; lia|].
  destruct (Z.le_gt_cases a t) as [Hat|Hat].
  { destruct Hasc as [Ht Hasc]. pose proof (passed_begun a (t :: times) n since t ltac:(lia) ltac:(lia) ltac:(lia) (conj (Z.le_refl t) Hasc)).
    lia. }
  destruct Hasc as [Ht Hasc]. cbn [window_answers].
  assert (exists n' s', (window_check (Some (n, since)) t).1 = Some (n', s') /\ s' <= t /\ 1 <= n' <= 10)
    as (n' & s' & Hw & Hs' & Hn').
  { unfold window_check, MAX_AUTH_ATTEMPTS_PER_IP. repeat case_bool_step; eexists _, _; split; eauto; lia. }
  destruct (window_check (Some (n, since)) t) as [st b]. simpl in Hw. subst st.
  rewrite passed_cons. destruct (Z.leb_spec a t); [lia|]. rewrite andb_false_r. simpl.
  specialize (IH n' s' t Hs' Hn' Hasc). lia.
Qed.

Lemma passed_all a times : ascending 0 times -> passed a (window_answers None times) <= 19.
Proof.
  destruct times as [|t times]; [unfold passed, zlen; simpl; lia|]. intros [_ Hasc]. simpl.
  rewrite passed_cons. destruct (Z.leb_spec a t); simpl.
  - pose proof (passed_inside a times 1 t t ltac:(lia) ltac:(lia) ltac:(lia) Hasc). case_bool; lia.
  - pose proof (passed_window a times 1 t t ltac:(lia) ltac:(lia) Hasc). lia.
Qed.

(** Attempts of one address: one, a pause of just under a minute, nine, and ten more a
    moment later, when the window has just ended. *)
Definition burst (ip : IpAddr) : list (Z * IpAddr) :=
  (0, ip) :: replicate 9 (59 * NANOS, ip) ++ replicate 10 (60 * NANOS, ip).

(** In no interval of a minute do more than 19 attempts of one address pass, whatever
    the attempts of all addresses; and 19 can pass within one second, although the limit is
    documented as 10 per window. *)
Theorem limiter_bound :
  (forall ip calls a, ordered 0 calls -> passed a (told ip (answers ∅ calls)) <= 19) /\
  (forall ip, exists a, zlen (filter (fun c => c.2 = true /\ a <= c.1 <= a + NANOS)
    (told ip (answers ∅ (burst ip)))) = 19).
Proof.
  split.
  - intros ip calls a Hord. rewrite (answers_window ip calls ∅ 0 None) by done.
    by apply passed_all, ordered_times_of.
  - intros ip. exists (59 * NANOS). rewrite (answers_window ip (burst ip) ∅ 0 None).
    + assert (times_of ip (burst ip) = 0 :: replicate 9 (59 * NANOS) ++ replicate 10 (60 * NANOS)) as ->.
      { unfold times_of, burst. simpl app. repeat (rewrite filter_cons_True by done). done. }
      vm_compute. reflexivity.
    + unfold burst, NANOS. simpl. lia.
    + done.
Qed.

Lemma limiter_is_fixed_window_witness :
  told (IpV4 [10; 0; 0; 1]) (answers ∅ [(0, IpV4 [10; 0; 0; 1]); (5, IpV4 [10; 0; 0; 2]); (7, IpV4 [10; 0; 0; 1])]) =
  [(0, true); (7, true)].
Proof.
  refine (eq_trans (limiter_is_fixed_window (IpV4 [10; 0; 0; 1]) _ _) _);
    [simpl; lia|vm_compute; reflexivity].
Defined.

(** ** Sessions

    [run_server] keeps the limiter and the semaphore; each admitted connection runs
    [handle_session] in a task of its own, inside the timeout, with its permit: the login and
    the receiver loop.  Once a client is authenticated [handle_session] also spawns the task that
    sends and the video and audio pipelines; these are detached: they hold no permit, no timeout
    reaches them, and they end when sending to the client fails. *)

Record Task := { task_id : nat; remote_ip : IpAddr; started : Z; authenticated : bool }.

Record Server := {
  clock : Z;
  rate_limiter : PerIpRateLimiter;
  handshake_semaphore : Z;       (** permits left *)
  tasks : list Task;
  next_task : nat;
  detached : list nat;           (** sessions whose sender and pipelines run *)
}.

Definition server_new : Server := {|
  clock := 0; rate_limiter := ∅; handshake_semaphore := MAX_CONCURRENT_HANDSHAKES;
  tasks := []; next_task := 0; detached := [] |}.

(** The reason [spawn_session_task] closes a connection with. *)
Inductive Rejection : Type := RateLimitExceeded | TooManyConcurrentHandshakes.

Definition spawn_session_task (s : Server) (ip : IpAddr) : Server * result Rejection nat :=
  let '(limiter, allowed) := check_and_record (rate_limiter s) (clock s) ip in
  let s := {| clock := clock s; rate_limiter := limiter;
              handshake_semaphore := handshake_semaphore s; tasks := tasks s;
              next_task := next_task s; detached := detached s |} in
  if negb allowed then (s, Err RateLimitExceeded)
  else if handshake_semaphore s =? 0 then (s, Err TooManyConcurrentHandshakes)
  else
    let task := {| task_id := next_task s; remote_ip := ip; started := clock s; authenticated := false |} in
    ({| clock := clock s; rate_limiter := rate_limiter s;
        handshake_semaphore := handshake_semaphore s - 1; tasks := task :: tasks s;
        next_task := S (next_task s); detached := detached s |}, Ok (next_task s)).

(** The tasks that [keep] selects go on; the others end and drop their permits.  What they
    have detached goes on. *)
Definition end_tasks (keep : Task -> bool) (now : Z) (s : Server) : Server :=
  let rest := filter (fun t => keep t = true) (tasks s) in
  {| clock := now; rate_limiter := rate_limiter s;
     handshake_semaphore := handshake_semaphore s + (zlen (tasks s) - zlen rest);
     tasks := rest; next_task := next_task s; detached := detached s |}.

(** [handle_session] of a task gets past [server_establish] and spawns the sender and the
    pipelines; the timeout goes on. *)
Definition waits_for_login (i : nat) (t : Task) : bool := Nat.eqb (task_id t) i && negb (authenticated t).

Definition set_authenticated (i : nat) (s : Server) : Server :=
  {| clock := clock s; rate_limiter := rate_limiter s; handshake_semaphore := handshake_semaphore s;
     tasks := (fun t => if Nat.eqb (task_id t) i
       then {| task_id := task_id t; remote_ip := remote_ip t; started := started t; authenticated := true |}
       else t) <$> tasks s;
     next_task := next_task s;
     detached := if existsb (waits_for_login i) (tasks s) then i :: detached s else detached s |}.

(** Sending to the client of session [i] fails: its sender ends, and the pipelines with it. *)
Definition detached_ends (i : nat) (s : Server) : Server :=
  {| clock := clock s; rate_limiter := rate_limiter s; handshake_semaphore := handshake_semaphore s;
     tasks := tasks s; next_task := next_task s; detached := filter (fun j => j <> i) (detached s) |}.

Inductive Event : Type :=
| Connection (ip : IpAddr)       (** [quic_server.accept] returns a connection *)
| Established (i : nat)          (** the login of task [i] succeeds *)
| Returned (i : nat)             (** [handle_session] of task [i] returns *)
| Timers (now : Z)               (** time passes to [now]; elapsed timeouts fire *)
| SendFails (i : nat).           (** the client of session [i] is gone *)

Definition server_step (s : Server) (e : Event) : Server :=
  match e with
  | Connection ip => (spawn_session_task s ip).1
  | Established i => set_authenticated i s
  | Returned i => end_tasks (fun t => negb (Nat.eqb (task_id t) i)) (clock s) s
  | Timers now =>
      if now <? clock s then s
      else end_tasks (fun t => now - started t <? HANDSHAKE_TIMEOUT) now s
  | SendFails i => detached_ends i s
  end.

Record server_inv (s : Server) : Prop := {
  inv_permits : handshake_semaphore s + zlen (tasks s) = MAX_CONCURRENT_HANDSHAKES;
  inv_nonneg : 0 <= handshake_semaphore s;
  inv_age : Forall (fun t => started t <= clock s < started t + HANDSHAKE_TIMEOUT) (tasks s);
}.

Lemma end_tasks_inv keep now s : server_inv s ->
  (forall t, t ∈ tasks s -> keep t = true -> started t <= now < started t + HANDSHAKE_TIMEOUT) ->
  server_inv (end_tasks keep now s).
Proof.
  intros [Hp Hn Ha] Hk. unfold end_tasks. split; simpl; [lia| |].
  - pose proof (length_filter (fun t => keep t = true) (tasks s)). unfold zlen. lia.
  - rewrite Stdlib.Lists.List.Forall_forall. intros t Ht%list_elem_of_In.
    apply list_elem_of_filter in Ht as [? ?]. by apply Hk.
Qed.

Lemma server_step_inv s e : server_inv s -> server_inv (server_step s e).
Proof.
  intros Hs. pose proof Hs as [Hp Hn Ha]. destruct e as [ip|i|i|now|i]; simpl; [| | | |by split].
  - unfold spawn_session_task. destruct (check_and_record _ _ _) as [limiter []]; simpl; [|by split].
    destruct (Z.eqb_spec (handshake_semaphore s) 0); [by split|]. split; simpl; [rewrite zlen_cons; lia|lia|].
    constructor; [|done]. simpl. unfold HANDSHAKE_TIMEOUT, NANOS. lia.
  - split; simpl; [unfold zlen; by rewrite length_fmap|done|].
    apply Forall_fmap. eapply Forall_impl; [|exact Ha]. intros t Ht. simpl. by destruct (Nat.eqb _ _).
  - apply end_tasks_inv; [done|]. intros t Ht _. rewrite Stdlib.Lists.List.Forall_forall in Ha.
    by apply Ha, list_elem_of_In.
  - destruct (Z.ltb_spec now (clock s)); [done|]. apply end_tasks_inv; [done|].
    intros t Ht Hk%Z.ltb_lt. rewrite Stdlib.Lists.List.Forall_forall in Ha.
    specialize (Ha t (proj1 (list_elem_of_In _ _) Ht)). simpl in Ha. lia.
Qed.

Lemma server_reachable events : server_inv (foldl server_step server_new events).
Proof.
  assert (Hg : forall s, server_inv s -> server_inv (foldl server_step s events)).
  { induction events as [|e events IH]; simpl; [done|]. intros s Hs. by apply IH, server_step_inv. }
  apply Hg. by split.
Qed.

(** A client that logs in, is cut by the timeout, and comes back a minute later. *)
Definition returning (ip : IpAddr) (k : nat) : list Event :=
  [Connection ip; Established k; Timers (Z.of_nat (S k) * IP_RATE_WINDOW)].

Lemma returning_step ip k s :
  clock s = Z.of_nat k * IP_RATE_WINDOW -> handshake_semaphore s = MAX_CONCURRENT_HANDSHAKES -> tasks s = [] ->
  next_task s = k -> (rate_limiter s = ∅ \/ exists c, rate_limiter s = {[ip := (1, c)]} /\ 0 <= c <= clock s - IP_RATE_WINDOW) ->
  let s' := foldl server_step s (returning ip k) in
  clock s' = Z.of_nat (S k) * IP_RATE_WINDOW /\ handshake_semaphore s' = MAX_CONCURRENT_HANDSHAKES /\ tasks s' = [] /\
  next_task s' = S k /\ rate_limiter s' = {[ip := (1, clock s)]} /\ detached s' = k :: detached s.
Proof.
  intros Hc Hsem Ht Hn Hl.
  assert (Hcr : check_and_record (rate_limiter s) (clock s) ip = ({[ip := (1, clock s)]}, true)).
  { unfold check_and_record. destruct Hl as [->|(c & -> & Hc0 & Hc1)].
    - rewrite map_size_empty. cbv beta iota zeta delta [Z.of_nat Z.ltb Z.compare]. rewrite lookup_empty.
      cbn [default from_option fst snd]. unfold sat_sub, id. cbn [fst snd]. rewrite Z.sub_diag. by rewrite insert_empty.
    - rewrite map_size_singleton. cbv beta iota zeta delta [Z.of_nat Z.ltb Z.compare Pos.of_succ_nat Pos.compare Pos.compare_cont].
      rewrite lookup_singleton_eq. cbn [default from_option fst snd]. unfold id. cbn [fst snd].
      unfold sat_sub. rewrite (proj2 (Z.leb_le _ _)) by lia. by rewrite insert_singleton_eq. }
  unfold returning. cbn [foldl server_step]. unfold spawn_session_task. rewrite Hcr. cbn [fst snd negb handshake_semaphore].
  rewrite Hsem. cbn [MAX_CONCURRENT_HANDSHAKES Z.eqb]. unfold set_authenticated, end_tasks.
  cbn [fst clock tasks next_task detached rate_limiter handshake_semaphore]. rewrite Ht, Hn, Hc.
  cbn [fmap list_fmap existsb waits_for_login task_id authenticated]. rewrite Nat.eqb_refl. cbn [andb negb orb started].
  destruct (Z.ltb_spec (Z.of_nat (S k) * IP_RATE_WINDOW) (Z.of_nat k * IP_RATE_WINDOW)); [unfold IP_RATE_WINDOW, NANOS in *; lia|].
  cbn [clock tasks next_task detached rate_limiter handshake_semaphore].
  rewrite filter_cons_False; [|cbn [started]; unfold HANDSHAKE_TIMEOUT, IP_RATE_WINDOW, NANOS; rewrite Z.ltb_lt; lia].
  rewrite filter_nil. split_and!; try done. unfold waits_for_login. cbn. by rewrite Nat.eqb_refl.
Qed.

Lemma returning_run ip n : exists events, let s := foldl server_step server_new events in
  clock s = Z.of_nat n * IP_RATE_WINDOW /\ handshake_semaphore s = MAX_CONCURRENT_HANDSHAKES /\ tasks s = [] /\ next_task s = n /\
  (rate_limiter s = ∅ \/ exists c, rate_limiter s = {[ip := (1, c)]} /\ 0 <= c <= clock s - IP_RATE_WINDOW) /\
  length (detached s) = n.
Proof.
  induction n as [|n (events & Hc & Hs & Ht & Hn & Hl & Hd)].
  { exists []. split_and!; try done. by left. }
  exists (events ++ returning ip n). rewrite foldl_app.
  destruct (returning_step ip n _ Hc Hs Ht Hn Hl) as (Hc' & Hs' & Ht' & Hn' & Hl' & Hd'). cbv zeta.
  split_and!; try done.
  - right. eexists. split; [exact Hl'|]. rewrite Hc, Hc'. unfold IP_RATE_WINDOW, NANOS. lia.
  - rewrite Hd'. cbn. by rewrite Hd.
Qed.

(** C33.  In every state the server can reach, at most four session tasks run, each with the login
    and the receiver loop of a connection, the permits left are four minus their number, and
    every task, authenticated or not, was admitted less than 15 seconds ago: the timeout
    documented as the handshake's ends the receiver loop of every established session too.  The
    bound is on these tasks: the senders and pipelines they detach hold no permit, and states with
    any number of them are reached, even with no session task left. *)
Theorem sessions_bounded :
  (forall events, let s := foldl server_step server_new events in
     zlen (tasks s) <= 4 /\ handshake_semaphore s = 4 - zlen (tasks s) /\
     (forall t, t ∈ tasks s -> clock s - started t < 15 * NANOS)) /\
  (forall n, exists events, let s := foldl server_step server_new events in
     tasks s = [] /\ handshake_semaphore s = 4 /\ length (detached s) = n).
Proof.
  split.
  - intros events. destruct (server_reachable events) as [Hp Hn Ha]. unfold MAX_CONCURRENT_HANDSHAKES in Hp. simpl.
    split; [lia|]. split; [lia|]. intros t Ht. rewrite Stdlib.Lists.List.Forall_forall in Ha.
    specialize (Ha t (proj1 (list_elem_of_In _ _) Ht)). unfold HANDSHAKE_TIMEOUT in Ha. simpl in Ha. lia.
  - intros n. destruct (returning_run (IpV4 [10; 0; 0; 1]) n) as (events & _ & Hs & Ht & _ & _ & Hd). by exists events.
Qed.
