(* ===== verification/Input.v ===== *)
(** * Remote input and clipboard (bw-input, bw-clipboard, bw-server [lib.rs])

    Input events are injected through a backend; the server's handlers translate the
    messages of a session into injected events and clipboard writes.  The operating
    system's entry points ([SendInput], the clipboard crate) are parameters. *)

From S2P Require Import Prelude Codec Cbor Message Routing.

(** ** Events and backends *)

Inductive MouseButton : Type := Left | Right | Middle.

#[global] Instance MouseButton_eq_dec : EqDecision MouseButton.
Proof. solve_decision. Defined.

Inductive InjectedInput : Type :=
| MouseMove (dx dy : Z)
| MouseMoveAbsolute (norm_x norm_y : Z)
| MouseClick (button : MouseButton) (down : bool)
| Keyboard (keycode : Z) (down : bool).

#[global] Instance InjectedInput_eq_dec : EqDecision InjectedInput.
Proof. solve_decision. Defined.

Inductive InputError : Type :=
| UnsupportedPlatform
| InjectionFailed (inserted requested : Z).

(** The error's [Display] text. *)
Definition input_error_text (e : InputError) : string :=
  match e with
  | UnsupportedPlatform => "input injection is not supported on this platform"
  | InjectionFailed inserted requested =>
      "SendInput inserted " +:+ pretty inserted +:+ " of " +:+ pretty requested +:+ " input events"
  end.

(** The trait [InputBackend], on a backend's state. *)
Class InputBackend (B : Type) := backend_send : B -> InjectedInput -> B * result InputError unit.

(** [RecordingBackend]: every event is kept. *)
Record RecordingBackend := { events : list InjectedInput }.

Definition recording_send (b : RecordingBackend) (input : InjectedInput) :
    RecordingBackend * result InputError unit := ({| events := events b ++ [input] |}, Ok tt).

#[global] Instance recording_backend : InputBackend RecordingBackend := recording_send.

(** [UnsupportedBackend], the backend of every platform but Windows. *)
Record UnsupportedBackend := unsupported { }.

Definition unsupported_send (b : UnsupportedBackend) (_ : InjectedInput) :
    UnsupportedBackend * result InputError unit := (b, Err UnsupportedPlatform).

#[global] Instance unsupported_backend : InputBackend UnsupportedBackend := unsupported_send.

(** *** The Win32 backend *)

Inductive MOUSE_EVENT_FLAGS : Type :=
| MOUSEEVENTF_MOVE | MOUSEEVENTF_ABSOLUTE
| MOUSEEVENTF_LEFTDOWN | MOUSEEVENTF_LEFTUP
| MOUSEEVENTF_RIGHTDOWN | MOUSEEVENTF_RIGHTUP
| MOUSEEVENTF_MIDDLEDOWN | MOUSEEVENTF_MIDDLEUP.

Inductive KEYBD_EVENT_FLAGS : Type := KEYEVENTF_KEYUP.

(** An [INPUT] structure: the variants used of its union, a flag word as the list of the
    flags set in it. *)
Inductive INPUT : Type :=
| INPUT_MOUSE (dx dy mouseData : Z) (dwFlags : list MOUSE_EVENT_FLAGS) (time dwExtraInfo : Z)
| INPUT_KEYBOARD (wVk wScan : Z) (dwFlags : list KEYBD_EVENT_FLAGS) (time dwExtraInfo : Z).

Definition mouse_move_input (dx dy : Z) : INPUT := INPUT_MOUSE dx dy 0 [MOUSEEVENTF_MOVE] 0 0.

Definition mouse_move_absolute_input (norm_x norm_y : Z) : INPUT :=
  INPUT_MOUSE norm_x norm_y 0 [MOUSEEVENTF_MOVE; MOUSEEVENTF_ABSOLUTE] 0 0.

Definition mouse_click_input (button : MouseButton) (down : bool) : INPUT :=
  let flags :=
    match button, down with
    | Left, true => MOUSEEVENTF_LEFTDOWN
    | Left, false => MOUSEEVENTF_LEFTUP
    | Right, true => MOUSEEVENTF_RIGHTDOWN
    | Right, false => MOUSEEVENTF_RIGHTUP
    | Middle, true => MOUSEEVENTF_MIDDLEDOWN
    | Middle, false => MOUSEEVENTF_MIDDLEUP
    end in
  INPUT_MOUSE 0 0 0 [flags] 0 0.

Definition keyboard_input (keycode : Z) (down : bool) : INPUT :=
  INPUT_KEYBOARD keycode 0 (if down then [] else [KEYEVENTF_KEYUP]) 0 0.

Definition build_inputs (input : InjectedInput) : list INPUT :=
  match input with
  | MouseMove dx dy => [mouse_move_input dx dy]
  | MouseMoveAbsolute norm_x norm_y => [mouse_move_absolute_input norm_x norm_y]
  | MouseClick button down => [mouse_click_input button down]
  | Keyboard keycode down => [keyboard_input keycode down]
  end.

(** The operating system's [SendInput]: how many of the events it inserted. *)
Class SendInput (Os : Type) := send_input : Os -> list INPUT -> Os * Z.

Definition send_inputs {Os} `{SendInput Os} (os : Os) (inputs : list INPUT) :
    Os * result InputError unit :=
  let '(os', inserted) := send_input os inputs in
  let requested := zlen inputs in
  (os', if inserted =? requested then Ok tt else Err (InjectionFailed inserted requested)).

Definition win32_send {Os} `{SendInput Os} (os : Os) (input : InjectedInput) :
    Os * result InputError unit := send_inputs os (build_inputs input).

#[global] Instance win32_backend {Os} `{SendInput Os} : InputBackend Os := win32_send.

(** *** A backend that injects

    What a backend has injected, when no injection fails: nothing but the events it was sent, in
    their order. *)
Class InjectingBackend (B : Type) `{InputBackend B} := {
  injections : B -> list InjectedInput;
  send_injects : forall b e, exists b', backend_send b e = (b', Ok tt) /\ injections b' = injections b ++ [e];
}.

#[global] Instance recording_injects : InjectingBackend RecordingBackend.
Proof. refine {| injections := events |}. intros b e. by eexists. Defined.

(** An operating system that inserts the inputs it is given after those it has. *)
Class InsertsInput (Os : Type) `{SendInput Os} := {
  input_queue : Os -> list INPUT;
  input_inserted : forall os inputs, exists os', send_input os inputs = (os', zlen inputs) /\ input_queue os' = input_queue os ++ inputs;
}.

(** What an input does on the desktop, by the meaning of its flags. *)
Definition input_meaning (i : INPUT) : option InjectedInput :=
  match i with
  | INPUT_MOUSE dx dy _ [MOUSEEVENTF_MOVE] _ _ => Some (MouseMove dx dy)
  | INPUT_MOUSE x y _ [MOUSEEVENTF_MOVE; MOUSEEVENTF_ABSOLUTE] _ _ => Some (MouseMoveAbsolute x y)
  | INPUT_MOUSE _ _ _ [MOUSEEVENTF_LEFTDOWN] _ _ => Some (MouseClick Left true)
  | INPUT_MOUSE _ _ _ [MOUSEEVENTF_LEFTUP] _ _ => Some (MouseClick Left false)
  | INPUT_MOUSE _ _ _ [MOUSEEVENTF_RIGHTDOWN] _ _ => Some (MouseClick Right true)
  | INPUT_MOUSE _ _ _ [MOUSEEVENTF_RIGHTUP] _ _ => Some (MouseClick Right false)
  | INPUT_MOUSE _ _ _ [MOUSEEVENTF_MIDDLEDOWN] _ _ => Some (MouseClick Middle true)
  | INPUT_MOUSE _ _ _ [MOUSEEVENTF_MIDDLEUP] _ _ => Some (MouseClick Middle false)
  | INPUT_KEYBOARD vk _ [] _ _ => Some (Keyboard vk true)
  | INPUT_KEYBOARD vk _ [KEYEVENTF_KEYUP] _ _ => Some (Keyboard vk false)
  | _ => None
  end.

Lemma build_inputs_meaning e : omap input_meaning (build_inputs e) = [e].
Proof. destruct e as [| |[] []|? []]; done. Qed.

#[global] Instance win32_injects {Os} `{InsertsInput Os} : InjectingBackend Os.
Proof.
  refine {| injections os := omap input_meaning (input_queue os) |}. intros os e.
  destruct (input_inserted os (build_inputs e)) as (os' & Hs & Hq). exists os'.
  unfold backend_send, win32_backend, win32_send, send_inputs. rewrite Hs, Z.eqb_refl. split; [done|].
  by rewrite Hq, omap_app, build_inputs_meaning.
Defined.

(** *** The injector *)

Section Injector.
Context {B : Type} `{InputBackend B}.

Definition inject_mouse_move (b : B) (dx dy : Z) : B * result InputError unit :=
  backend_send b (MouseMove dx dy).

Definition inject_mouse_move_absolute (b : B) (norm_x norm_y : Z) : B * result InputError unit :=
  backend_send b (MouseMoveAbsolute norm_x norm_y).

Definition inject_mouse_click (b : B) (button : MouseButton) (down : bool) :
    B * result InputError unit := backend_send b (MouseClick button down).

Definition inject_keyboard (b : B) (keycode : Z) (down : bool) : B * result InputError unit :=
  backend_send b (Keyboard keycode down).
End Injector.

(** ** The clipboard *)

Record ClipboardImage := { width : Z; height : Z; image_bytes : list Z }.

Inductive ClipboardError : Type :=
| Unavailable (e : string)
| Read (e : string)
| Write (e : string)
| InvalidImage (width height len : Z).

Definition clipboard_error_text (e : ClipboardError) : string :=
  match e with
  | Unavailable e => "clipboard is not available on this platform or environment: " +:+ e
  | Read e => "failed to read clipboard: " +:+ e
  | Write e => "failed to write clipboard: " +:+ e
  | InvalidImage w h len =>
      "image dimensions (" +:+ pretty w +:+ "x" +:+ pretty h +:+
      ") do not match pixel data length " +:+ pretty len
  end.

(** [ClipboardImage::new] *)
Definition clipboard_image_new (w h : Z) (bytes : list Z) : result ClipboardError ClipboardImage :=
  match checked_mul w h ≫= (fun area => checked_mul area 4) with
  | None => Err (InvalidImage w h (zlen bytes))
  | Some expected =>
      if negb (zlen bytes =? expected) then Err (InvalidImage w h (zlen bytes))
      else Ok {| width := w; height := h; image_bytes := bytes |}
  end.

(** The clipboard crate: [set_text] and [set_image] on the clipboard's state; [Err] is the
    text of the crate's error. *)
Class Arboard (C : Type) := {
  arboard_set_text : C -> list Z -> C * result string unit;
  arboard_set_image : C -> ClipboardImage -> C * result string unit;
}.

(** [ClipboardManager::set_text] and [ClipboardManager::set_image] *)
Definition set_text {C} `{Arboard C} (c : C) (text : list Z) : C * result ClipboardError unit :=
  let '(c', r) := arboard_set_text c text in (c', map_err Write r).

Definition set_image {C} `{Arboard C} (c : C) (image : ClipboardImage) :
    C * result ClipboardError unit :=
  let '(c', r) := arboard_set_image c image in (c', map_err Write r).

(** *** UTF-8: [std::str::from_utf8] accepts exactly the well-formed sequences. *)

Definition in_range (lo hi b : Z) : bool := (lo <=? b) && (b <=? hi).

Fixpoint from_utf8 (l : list Z) : bool :=
  match l with
  | [] => true
  | a :: l1 =>
      if a <? 128 then from_utf8 l1
      else
        match l1 with
        | [] => false
        | b :: l2 =>
            if in_range 194 223 a then in_range 128 191 b && from_utf8 l2
            else
              match l2 with
              | [] => false
              | c :: l3 =>
                  if a =? 224 then in_range 160 191 b && in_range 128 191 c && from_utf8 l3
                  else if in_range 225 236 a || in_range 238 239 a
                  then in_range 128 191 b && in_range 128 191 c && from_utf8 l3
                  else if a =? 237 then in_range 128 159 b && in_range 128 191 c && from_utf8 l3
                  else
                    match l3 with
                    | [] => false
                    | d :: l4 =>
                        let tail := in_range 128 191 c && in_range 128 191 d && from_utf8 l4 in
                        if a =? 240 then in_range 144 191 b && tail
                        else if in_range 241 243 a then in_range 128 191 b && tail
                        else if a =? 244 then in_range 128 143 b && tail
                        else false
                    end
              end
        end
  end.

(** ** The handlers *)

Section Handlers.
Context {B C : Type} `{InputBackend B} `{Arboard C}.
Context `{Cbor KeyboardEvent, Cbor MouseEvent, Cbor ClipboardEvent}.
(** The text of a [Utf8Error] for the bytes that were refused. *)
Context (utf8_error_text : list Z -> string).

(** What the handlers share: the injector's backend, the masks of the sessions, and the
    clipboard with whether its lock is poisoned. *)
Record Desktop := {
  backend : B;
  button_states : gmap SessionId Z;
  clipboard : C;
  clipboard_poisoned : bool;
}.

Definition set_backend (d : Desktop) (b : B) : Desktop :=
  {| backend := b; button_states := button_states d; clipboard := clipboard d;
     clipboard_poisoned := clipboard_poisoned d |}.

Definition set_states (d : Desktop) (m : gmap SessionId Z) : Desktop :=
  {| backend := backend d; button_states := m; clipboard := clipboard d;
     clipboard_poisoned := clipboard_poisoned d |}.

Definition set_clipboard (d : Desktop) (c : C) : Desktop :=
  {| backend := backend d; button_states := button_states d; clipboard := c;
     clipboard_poisoned := clipboard_poisoned d |}.

Definition BUTTON_BITS : list (Z * MouseButton) := [(1, Left); (2, Right); (4, Middle)].

(** An injection inside a handler. *)
Definition injected (d : Desktop) (r : B * result InputError unit) :
    Desktop * result DispatchError unit :=
  (set_backend d r.1, map_err (fun e => Handler (input_error_text e)) r.2).

Definition parse_keyboard (e : MessageEnvelope) : result DispatchError KeyboardEvent :=
  ok_or (Handler "undecodable keyboard event payload") (as_keyboard_event (message e)).

Definition parse_mouse (e : MessageEnvelope) : result DispatchError MouseEvent :=
  ok_or (Handler "undecodable mouse event payload") (as_mouse_event (message e)).

(** The keyboard handler of [register_input_handlers]. *)
Definition on_keyboard (d : Desktop) (e : MessageEnvelope) : Desktop * result DispatchError unit :=
  match parse_keyboard e with
  | Err err => (d, Err err)
  | Ok event => injected d (inject_keyboard (backend d) (keycode event) (is_down event))
  end.

(** The loop over the buttons. *)
Fixpoint inject_clicks (d : Desktop) (prev_mask mask : Z) (bits : list (Z * MouseButton)) :
    Desktop * result DispatchError unit :=
  match bits with
  | [] => (d, Ok tt)
  | (bit, button) :: bits =>
      let was_down := negb (Z.land prev_mask bit =? 0) in
      let is_down := negb (Z.land mask bit =? 0) in
      let '(d', r) :=
        if is_down && negb was_down then injected d (inject_mouse_click (backend d) button true)
        else if negb is_down && was_down then injected d (inject_mouse_click (backend d) button false)
        else (d, Ok tt) in
      match r with
      | Err err => (d', Err err)
      | Ok _ => inject_clicks d' prev_mask mask bits
      end
  end.

(** The mouse handler of [register_input_handlers], on the decoded event. *)
Definition mouse_move (d : Desktop) (event : MouseEvent) : Desktop * result DispatchError unit :=
  if negb (dx event =? 0) || negb (dy event =? 0) then
    if is_absolute event
    then injected d (inject_mouse_move_absolute (backend d) (dx event) (dy event))
    else injected d (inject_mouse_move (backend d) (dx event) (dy event))
  else (d, Ok tt).

Definition mouse_buttons (d : Desktop) (sid : SessionId) (mask : Z) :
    Desktop * result DispatchError unit :=
  let states :=
    if (64 <=? Z.of_nat (size (button_states d))) && negb (bool_decide (is_Some (button_states d !! sid)))
    then ∅ else button_states d in
  let prev_mask := default 0 (states !! sid) in
  let '(d', r) := inject_clicks (set_states d states) prev_mask mask BUTTON_BITS in
  match r with
  | Err err => (d', Err err)
  | Ok _ => (set_states d' (<[sid := mask]> (button_states d')), Ok tt)
  end.

Definition on_mouse (d : Desktop) (e : MessageEnvelope) : Desktop * result DispatchError unit :=
  match parse_mouse e with
  | Err err => (d, Err err)
  | Ok event =>
      let '(d', r) := mouse_move d event in
      match r with
      | Err err => (d', Err err)
      | Ok _ => mouse_buttons d' (session_id e) (buttons_mask event)
      end
  end.

Definition apply_clipboard_event (c : C) (event : ClipboardEvent) : C * result DispatchError unit :=
  match format event with
  | Text =>
      if from_utf8 (clip_data event) then
        let '(c', r) := set_text c (clip_data event) in
        (c', map_err (fun e => Handler ("clipboard write failed: " +:+ clipboard_error_text e)) r)
      else (c, Err (Handler ("invalid clipboard UTF-8: " +:+ utf8_error_text (clip_data event))))
  | ImageRgba8 w h =>
      match clipboard_image_new w h (clip_data event) with
      | Err e => (c, Err (Handler ("invalid clipboard image: " +:+ clipboard_error_text e)))
      | Ok image =>
          let '(c', r) := set_image c image in
          (c', map_err (fun e => Handler ("clipboard write failed: " +:+ clipboard_error_text e)) r)
      end
  end.

(** The handler of [register_clipboard_handler]. *)
Definition on_clipboard (d : Desktop) (e : MessageEnvelope) : Desktop * result DispatchError unit :=
  match as_clipboard_event (message e) with
  | None => (d, Err (Handler "undecodable clipboard event payload"))
  | Some event =>
      if clipboard_poisoned d then
        (d, Err (Handler "clipboard lock poisoned: poisoned lock: another task failed inside"))
      else
        let '(c, r) := apply_clipboard_event (clipboard d) event in (set_clipboard d c, r)
  end.

Definition register_input_handlers (m : MessageDispatcher Desktop) : MessageDispatcher Desktop :=
  register_handler (register_handler m InputKeyboard on_keyboard) InputMouse on_mouse.

Definition register_clipboard_handler (m : MessageDispatcher Desktop) : MessageDispatcher Desktop :=
  register_handler m ClipboardData on_clipboard.

(** The dispatcher [run_server] sets up. *)
Definition server_dispatcher : MessageDispatcher Desktop :=
  register_clipboard_handler (register_input_handlers new_dispatcher).

(** *** One message of a session (the receiver loop of [handle_session]) *)

(** The source of the envelopes of a client: its identifier in 32 bytes. *)
Definition client_id (identifier : list Z) : outcome NodeId :=
  let n := Z.min (zlen identifier) 32 in
  if n =? zlen identifier then Ret (identifier ++ replicate (Z.to_nat (32 - n)) 0) else Panic.

Definition handle_message (d : Desktop) (identifier : list Z) (server : NodeId) (sid : SessionId)
    (m : ProtocolMessage) : outcome Desktop :=
  match client_id identifier with
  | Panic => Panic
  | Ret id =>
      Ret (dispatch server_dispatcher d
        {| source := id; destination := server; session_id := sid; route := Direct;
           message := m; routing_flags := 0 |}).1
  end.
End Handlers.

Arguments Desktop : clear implicits.

(** ** What a session's buttons do

    [pressed evs b]: button [b] is down after the events [evs].  [alternating evs]: no
    button is pressed while down or released while up. *)
Definition click_effect (b : MouseButton) (down : bool) (e : InjectedInput) : bool :=
  match e with
  | MouseClick b' d => if decide (b' = b) then d else down
  | _ => down
  end.

Definition pressed (evs : list InjectedInput) (b : MouseButton) : bool :=
  foldl (click_effect b) false evs.

Fixpoint alternating_from (st : MouseButton -> bool) (evs : list InjectedInput) : Prop :=
  match evs with
  | [] => True
  | e :: evs =>
      match e with MouseClick b d => st b = negb d | _ => True end /\
      alternating_from (fun b => click_effect b (st b) e) evs
  end.

Definition alternating (evs : list InjectedInput) : Prop := alternating_from (fun _ => false) evs.

(** The bit of a button. *)
Definition button_bit (b : MouseButton) : Z :=
  match b with Left => 1 | Right => 2 | Middle => 4 end.

Definition mask_has (mask : Z) (b : MouseButton) : bool := negb (Z.land mask (button_bit b) =? 0).

Lemma pressed_snoc evs e b : pressed (evs ++ [e]) b = click_effect b (pressed evs b) e.
Proof. unfold pressed. by rewrite foldl_app. Qed.

Lemma alternating_from_snoc st evs e :
  alternating_from st (evs ++ [e]) <->
  alternating_from st evs /\
  match e with MouseClick b d => foldl (click_effect b) (st b) evs = negb d | _ => True end.
Proof.
  revert st. induction evs as [|x evs IH]; intros st; simpl; [destruct e; tauto|].
  rewrite (IH (fun b => click_effect b (st b) x)). tauto.
Qed.

Lemma alternating_snoc evs e :
  alternating (evs ++ [e]) <->
  alternating evs /\ match e with MouseClick b d => pressed evs b = negb d | _ => True end.
Proof. apply alternating_from_snoc. Qed.

Section Sessions.
Context {B C : Type} `{InjectingBackend B} `{Arboard C} `{Cbor KeyboardEvent, Cbor MouseEvent, Cbor ClipboardEvent}.
Context (utf8_error_text : list Z -> string).

Abbreviation desktop := (Desktop B C).

(** The buttons held are those of [mask]. *)
Definition in_step (mask : Z) (d : desktop) : Prop :=
  alternating (injections (backend d)) /\ forall b, pressed (injections (backend d)) b = mask_has mask b.

(** The loop over the buttons still to be treated. *)
Lemma inject_clicks_steps prev mask bits (d : desktop) :
  NoDup (snd <$> bits) -> Forall (fun p => p.1 = button_bit p.2) bits ->
  alternating (injections (backend d)) ->
  (forall b, pressed (injections (backend d)) b =
    if decide (b ∈ snd <$> bits) then mask_has prev b else mask_has mask b) ->
  exists d', inject_clicks d prev mask bits = (d', Ok tt) /\ button_states d' = button_states d /\
    in_step mask d'.
Proof.
  revert d. induction bits as [|[bit b] bits IH]; intros d Hnd Hbits Halt Hp.
  { exists d. split; [done|]. split; [done|]. split; [done|]. intros b. rewrite Hp.
    destruct (decide _) as [Hin|]; [by apply not_elem_of_nil in Hin|done]. }
  apply list.NoDup_cons in Hnd as [Hni Hnd]. apply Forall_cons_1 in Hbits as [Hbit Hbits].
  simpl in Hbit, Hni, Hnd. subst bit. simpl. fold (mask_has prev b) (mask_has mask b).
  pose proof (Hp b) as Hb. rewrite decide_True in Hb by (by left).
  assert (Hrest : forall b', b' <> b -> pressed (injections (backend d)) b' =
    if decide (b' ∈ snd <$> bits) then mask_has prev b' else mask_has mask b').
  { intros b' Hne. rewrite Hp. simpl. destruct (decide (b' ∈ _)) as [[?|?]%elem_of_cons|Hn].
    - done.
    - by rewrite decide_True.
    - rewrite decide_False; [done|]. intros ?. apply Hn. by right. }
  assert (Hsend : forall down, mask_has prev b = negb down -> mask_has mask b = down ->
    exists d', (let '(d', r) := injected d (inject_mouse_click (backend d) b down) in
                match r with Err err => (d', Err err) | Ok _ => inject_clicks d' prev mask bits end) = (d', Ok tt) /\
      button_states d' = button_states d /\ in_step mask d').
  { intros down Hpr Hma. unfold injected, inject_mouse_click.
    destruct (send_injects (backend d) (MouseClick b down)) as (b1 & -> & Hb1). cbn.
    apply (IH (set_backend d b1)); [done|done|..]; cbn [backend set_backend]; rewrite Hb1.
    - apply alternating_snoc. split; [done|]. congruence.
    - intros b'. rewrite pressed_snoc. simpl. destruct (decide (b = b')) as [<-|Hne].
      + by rewrite decide_False.
      + by apply Hrest. }
  destruct (mask_has mask b) eqn:Hm, (mask_has prev b) eqn:Hpr; simpl.
  - apply IH; [done..|]. intros b'. destruct (decide (b' = b)) as [->|]; [|by apply Hrest].
    by rewrite decide_False, Hb, Hm.
  - by apply (Hsend true).
  - by apply (Hsend false).
  - apply IH; [done..|]. intros b'. destruct (decide (b' = b)) as [->|]; [|by apply Hrest].
    by rewrite decide_False, Hb, Hm.
Qed.

Lemma in_step_other mask (d : desktop) e : in_step mask d ->
  match e with MouseClick _ _ => False | _ => True end ->
  exists b, backend_send (backend d) e = (b, Ok tt) /\ in_step mask (set_backend d b).
Proof.
  intros [Ha Hp] He. destruct (send_injects (backend d) e) as (b1 & Hs & Hb1). exists b1. split; [done|].
  split; cbn [backend set_backend]; rewrite Hb1.
  - apply alternating_snoc. split; [done|]. by destruct e.
  - intros b. rewrite pressed_snoc. destruct e; simpl; try done.
Qed.

(** There is room for the mask of the session [sid], and the buttons held are those it last
    reported. *)
Definition session_ok (sid : SessionId) (mask : Z) (d : desktop) : Prop :=
  (is_Some (button_states d !! sid) \/ Z.of_nat (size (button_states d)) < 64) /\
  default 0 (button_states d !! sid) = mask /\ in_step mask d.

Lemma mouse_move_ok sid mask (d : desktop) e : session_ok sid mask d ->
  exists d', mouse_move d e = (d', Ok tt) /\ session_ok sid mask d'.
Proof.
  intros (Hk & Hm & Hs). unfold mouse_move. destruct (negb _ || negb _).
  - destruct (is_absolute e); unfold inject_mouse_move_absolute, inject_mouse_move, injected;
      match goal with |- context [backend_send _ ?ev] => destruct (in_step_other mask d ev Hs I) as (b & -> & Hb) end;
      by eexists.
  - by exists d.
Qed.

Lemma mouse_buttons_ok sid mask mask' (d : desktop) : session_ok sid mask d ->
  exists d', mouse_buttons d sid mask' = (d', Ok tt) /\ session_ok sid mask' d'.
Proof.
  intros (Hk & Hm & Hs). unfold mouse_buttons.
  assert (Hst : (if (64 <=? Z.of_nat (size (button_states d))) &&
    negb (bool_decide (is_Some (button_states d !! sid))) then ∅ else button_states d) = button_states d).
  { destruct Hk as [Hk|Hk]; [rewrite (bool_decide_eq_true_2 _ Hk), andb_false_r; done|].
    by rewrite (proj2 (Z.leb_gt _ _) Hk). }
  rewrite Hst. destruct Hs as [Ha Hp].
  destruct (inject_clicks_steps (default 0 (button_states d !! sid)) mask' BUTTON_BITS
    (set_states d (button_states d))) as (d' & Hd' & Hbs & Hin).
  - by_decide.
  - by_decide.
  - done.
  - intros b. rewrite decide_True by (destruct b; by_decide). rewrite Hm. apply Hp.
  - rewrite Hd'. eexists. split; [reflexivity|]. split; simpl; rewrite lookup_insert_eq; [by left|done].
Qed.

(** The mask a message reports, if it is dispatched to the mouse handler and decodes. *)
Definition mask_of (e : MessageEnvelope) : option Z :=
  match validate e with
  | Err _ => None
  | Ok _ => buttons_mask <$> as_mouse_event (message e)
  end.

Lemma dispatch_ok sid mask (d : desktop) e : session_id e = sid -> session_ok sid mask d ->
  session_ok sid (default mask (mask_of e)) (dispatch (server_dispatcher utf8_error_text) d e).1.
Proof.
  intros <- Hd. unfold dispatch, mask_of. destruct (validate e); [|done].
  destruct (message_type (message e)) eqn:Ht; simplify_map_eq; unfold as_mouse_event; rewrite ?Ht;
    rewrite ?decide_False by done; try done.
  - unfold on_keyboard. destruct (parse_keyboard e) as [ev|]; [|done].
    destruct Hd as (Hk & Hm & Hs). unfold injected, inject_keyboard.
    destruct (in_step_other mask d (Keyboard (keycode ev) (is_down ev)) Hs I) as (b & -> & Hb). done.
  - rewrite decide_True by done. unfold on_mouse, parse_mouse, as_mouse_event. rewrite Ht, decide_True by done.
    destruct (from_reader _) as [ev|]; simpl; [|done].
    destruct (mouse_move_ok (session_id e) mask d ev Hd) as (d1 & -> & Hd1).
    by destruct (mouse_buttons_ok _ _ (buttons_mask ev) d1 Hd1) as (d2 & -> & Hd2).
  - unfold on_clipboard. destruct (as_clipboard_event _); [|done].
    destruct (clipboard_poisoned d); [done|]. by destruct (apply_clipboard_event _ _ _).
Qed.

(** A session's messages, one after the other. *)
Fixpoint handle_messages (d : desktop) (identifier : list Z) (server : NodeId) (sid : SessionId)
    (ms : list ProtocolMessage) : outcome desktop :=
  match ms with
  | [] => Ret d
  | m :: ms =>
      match handle_message utf8_error_text d identifier server sid m with
      | Panic => Panic
      | Ret d => handle_messages d identifier server sid ms
      end
  end.

(** The mask the session reported last. *)
Fixpoint last_mask (mask : Z) (identifier : list Z) (server : NodeId) (sid : SessionId)
    (ms : list ProtocolMessage) : Z :=
  match ms with
  | [] => mask
  | m :: ms =>
      let e := {| source := identifier ++ replicate (Z.to_nat (32 - zlen identifier)) 0;
                  destination := server; session_id := sid; route := Direct; message := m;
                  routing_flags := 0 |} in
      last_mask (default mask (mask_of e)) identifier server sid ms
  end.

Lemma client_id_short identifier : zlen identifier <= 32 ->
  client_id identifier = Ret (identifier ++ replicate (Z.to_nat (32 - zlen identifier)) 0).
Proof. intros Hl. unfold client_id. rewrite Z.min_l by lia. by rewrite Z.eqb_refl. Qed.

(** One message keeps the session in step. *)
Lemma handle_message_ok sid mask (d : desktop) identifier server m :
  zlen identifier <= 32 -> session_ok sid mask d ->
  exists d', handle_message utf8_error_text d identifier server sid m = Ret d' /\
    session_ok sid (last_mask mask identifier server sid [m]) d'.
Proof.
  intros Hl Hd. unfold handle_message. rewrite client_id_short by done.
  eexists. split; [reflexivity|]. by apply dispatch_ok.
Qed.

(** A desktop on which a new session [sid] starts: no button is down, fewer than 64 sessions are
    remembered, and not this one. *)
Definition idle_for (sid : SessionId) (d : desktop) : Prop :=
  button_states d !! sid = None /\ Z.of_nat (size (button_states d)) < 64 /\
  alternating (injections (backend d)) /\ forall b, pressed (injections (backend d)) b = false.

Lemma session_ok_idle sid (d : desktop) : idle_for sid d -> session_ok sid 0 d.
Proof.
  intros (Hs & Hsz & Ha & Hp). split; [by right|]. split; [by rewrite Hs|]. split; [done|]. intros b. rewrite Hp. by destruct b.
Qed.

(** Whatever messages the one session of a server sends, of any type and with any
    payload, every message is handled, and afterwards the buttons that the injected events
    leave down are exactly those of the mask the session reported last; no button was
    pressed while down or released while up. *)
Theorem buttons_follow_mask (d : desktop) identifier server sid ms :
  zlen identifier <= 32 -> idle_for sid d ->
  exists d', handle_messages d identifier server sid ms = Ret d' /\
    alternating (injections (backend d')) /\
    forall b, pressed (injections (backend d')) b = mask_has (last_mask 0 identifier server sid ms) b.
Proof.
  intros Hlen Hd%session_ok_idle. revert d Hd. generalize 0 as mask. induction ms as [|m ms IH]; intros mask d Hd.
  - exists d. split; [done|]. apply Hd.
  - destruct (handle_message_ok sid mask d identifier server m Hlen Hd) as (d1 & Hm & Hd1).
    simpl. rewrite Hm. by apply IH.
Qed.

(** A client whose identifier has more than 32 bytes logs in but is never served: the
    first message it sends aborts its session. *)
Theorem long_identifier_aborts (d : desktop) identifier server sid m ms :
  32 < zlen identifier -> handle_messages d identifier server sid (m :: ms) = Panic.
Proof.
  intros Hl. simpl. unfold handle_message, client_id. rewrite Z.min_r by lia.
  by destruct (Z.eqb_spec 32 (zlen identifier)); [lia|].
Qed.

(** The event of a message to the top left corner is not injected. *)
Lemma corner_not_injected (d : desktop) mask :
  mouse_move d {| dx := 0; dy := 0; buttons_mask := mask; is_absolute := true |} = (d, Ok tt).
Proof. done. Qed.

(** The masks of all sessions are dropped when a 65th session reports its first one. *)
Lemma mouse_buttons_clears (d : desktop) sid :
  64 <= Z.of_nat (size (button_states d)) -> button_states d !! sid = None ->
  mouse_buttons d sid 0 = (set_states d {[sid := 0]}, Ok tt).
Proof.
  intros Hs Hn. unfold mouse_buttons. rewrite Hn. destruct (Z.leb_spec 64 (Z.of_nat (size (button_states d)))); [|lia].
  by rewrite bool_decide_false by (by intros [? ?]).
Qed.

(** With 64 masks remembered (they are never removed when sessions end), the first
    mouse event of a further session makes the server forget which buttons the others
    hold: when one of them then reports that it has released everything, nothing is
    injected, and its buttons stay down. *)
Theorem releases_are_lost (d : desktop) held other m :
  64 <= Z.of_nat (size (button_states d)) -> button_states d !! other = None ->
  button_states d !! held = Some m ->
  exists d1 d2, mouse_buttons d other 0 = (d1, Ok tt) /\ mouse_buttons d1 held 0 = (d2, Ok tt) /\
    backend d2 = backend d.
Proof.
  intros Hs Hn Hh. rewrite mouse_buttons_clears by done. eexists _, _. split; [reflexivity|].
  assert (Hne : (({[other := 0]} : gmap SessionId Z) !! held) = None)
    by (apply lookup_singleton_ne; congruence).
  unfold mouse_buttons. cbn [button_states set_states].
  rewrite map_size_singleton, Hne. simpl. rewrite Hne. simpl. by split.
Qed.
End Sessions.

(** ** Concrete sessions *)

#[local] Instance keyboard_cbor : Cbor KeyboardEvent := countable_cbor KeyboardEvent.
#[local] Instance mouse_cbor : Cbor MouseEvent := countable_cbor MouseEvent.
#[local] Instance clipboard_cbor : Cbor ClipboardEvent := countable_cbor ClipboardEvent.

(** A clipboard that stores nothing. *)
#[local] Instance unit_arboard : Arboard unit :=
  {| arboard_set_text c _ := (c, Ok tt); arboard_set_image c _ := (c, Ok tt) |}.

Definition idle_desktop (masks : gmap SessionId Z) : Desktop RecordingBackend unit :=
  {| backend := {| events := [] |}; button_states := masks; clipboard := tt; clipboard_poisoned := false |}.

Lemma idle_desktop_idle sid : idle_for sid (idle_desktop ∅).
Proof. by repeat split. Qed.

Definition sample_mouse (mask : Z) : ProtocolMessage :=
  match mouse_event 3 0 mask with
  | Ok m => m
  | Err _ => {| message_type := Ping; message_id := 0; msg_flags := 0; msg_payload := [] |}
  end.

Definition no_text (_ : list Z) : string := "".

Lemma buttons_follow_mask_witness :
  exists d', handle_messages no_text (idle_desktop ∅) [1] [2] [3] [sample_mouse 1; sample_mouse 2] = Ret d' /\
    pressed (events (backend d')) Right = true /\ pressed (events (backend d')) Left = false.
Proof.
  refine (match buttons_follow_mask no_text (idle_desktop ∅) [1] [2] [3] [sample_mouse 1; sample_mouse 2] _ _
    with ex_intro _ d' (conj H (conj _ Hp)) => _ end); [vm_compute; congruence|apply idle_desktop_idle|].
  exists d'. split; [exact H|]. split; rewrite Hp; vm_compute; reflexivity.
Defined.

Lemma long_identifier_aborts_witness :
  handle_messages no_text (idle_desktop ∅) (replicate 33 97) [2] [3] [sample_mouse 1] = Panic.
Proof. refine (long_identifier_aborts no_text (idle_desktop ∅) _ _ _ _ _ _). vm_compute. reflexivity. Defined.

(** 64 sessions that each hold the left button. *)
Definition many_masks : gmap SessionId Z := list_to_map ((fun i => ([i], 1)) <$> seqZ 0 64).

Lemma releases_are_lost_witness :
  exists d1 d2, mouse_buttons (idle_desktop many_masks) [64] 0 = (d1, Ok tt) /\
    mouse_buttons d1 [5] 0 = (d2, Ok tt) /\ backend d2 = {| events := [] |}.
Proof.
  refine (releases_are_lost (idle_desktop many_masks) [5] [64] 1 _ _ _);
    [vm_compute; congruence|vm_compute; reflexivity|vm_compute; reflexivity].
Defined.
