(* ===== verification/Cursor.v ===== *)
(** * The cursor overlay (bw-server, [composite_cursor] in [lib.rs])

    The server draws an inverted crosshair into each captured BGRA frame.  Offsets are
    32-bit, as in the source; the model keeps where its arithmetic would wrap and where
    [clamp] would abort. *)

From S2P Require Import Prelude.

(** [as i32] *)
Definition as_i32 (z : Z) : Z := let u := wrap 32 z in if u <? 2 ^ 31 then u else u - 2 ^ 32.

(** [Ord::clamp], which asserts that the bounds are ordered. *)
Definition clamp (v lo hi : Z) : outcome Z :=
  if lo <=? hi then Ret (Z.max lo (Z.min v hi)) else Panic.

Definition invert (l : list Z) (i : Z) : list Z := alter (fun b => Z.lxor b 255) (Z.to_nat i) l.

Definition xor_bgra_pixel (buffer : list Z) (stride width height x y : Z) : list Z :=
  if (width <=? x) || (height <=? y) then buffer
  else
    let offset := wrap 32 (wrap 32 (y * stride) + wrap 32 (x * 4)) in
    if offset + 3 <? zlen buffer then
      invert (invert (invert buffer offset) (offset + 1)) (offset + 2)
    else buffer.

Definition arm : Z := 6.

(** The two loops of [composite_cursor]. *)
Definition horizontal_line (stride width height cx cy : Z) (buffer : list Z) : list Z :=
  foldl (fun buffer i =>
    let buffer := if i <=? cx then xor_bgra_pixel buffer stride width height (cx - i) cy else buffer in
    if wrap 32 (cx + i) <? width
    then xor_bgra_pixel buffer stride width height (wrap 32 (cx + i)) cy else buffer)
    buffer (seqZ 1 arm).

Definition vertical_line (stride width height cx cy : Z) (buffer : list Z) : list Z :=
  foldl (fun buffer i =>
    let buffer := if i <=? cy then xor_bgra_pixel buffer stride width height cx (cy - i) else buffer in
    if wrap 32 (cy + i) <? height
    then xor_bgra_pixel buffer stride width height cx (wrap 32 (cy + i)) else buffer)
    buffer (seqZ 1 arm).

Definition composite_cursor (buffer : list Z) (stride width height cursor_x cursor_y : Z)
    (cursor_visible : bool) : outcome (list Z) :=
  if negb cursor_visible || (zlen buffer =? 0) then Ret buffer
  else
    match clamp cursor_x 0 (as_i32 (as_i32 width - 1)), clamp cursor_y 0 (as_i32 (as_i32 height - 1)) with
    | Ret cx, Ret cy =>
        let buffer := horizontal_line stride width height cx cy buffer in
        let buffer := vertical_line stride width height cx cy buffer in
        Ret (xor_bgra_pixel buffer stride width height cx cy)
    | _, _ => Panic
    end.

(** ** As one pass over a list of pixels *)

Section cursor.
Context (stride width height : Z).

(** A frame: rows of [stride] bytes, of which [width * 4] are pixels, addressable with
    32 bits. *)
Record frame_ok (buffer : list Z) : Prop := {
  fo_width : 0 < width < 2 ^ 31;
  fo_height : 0 < height < 2 ^ 31;
  fo_stride : width * 4 <= stride;
  fo_length : zlen buffer = stride * height;
  fo_addressable : stride * height < 2 ^ 32;
}.

Definition xor_all (buffer : list Z) (ps : list (Z * Z)) : list Z :=
  foldl (fun b p => xor_bgra_pixel b stride width height p.1 p.2) buffer ps.

Definition line_at (c bound i : Z) : list Z :=
  (if i <=? c then [c - i] else []) ++ (if wrap 32 (c + i) <? bound then [wrap 32 (c + i)] else []).

Definition crosshair (cx cy : Z) : list (Z * Z) :=
  (seqZ 1 arm ≫= fun i => (fun x => (x, cy)) <$> line_at cx width i) ++
  (seqZ 1 arm ≫= fun i => (fun y => (cx, y)) <$> line_at cy height i) ++ [(cx, cy)].

Lemma xor_all_app buffer ps qs : xor_all buffer (ps ++ qs) = xor_all (xor_all buffer ps) qs.
Proof. unfold xor_all. by rewrite foldl_app. Qed.

Lemma horizontal_line_pixels cx cy buffer :
  horizontal_line stride width height cx cy buffer =
  xor_all buffer ((seqZ 1 arm ≫= fun i => (fun x => (x, cy)) <$> line_at cx width i)).
Proof.
  unfold horizontal_line. generalize (seqZ 1 arm) as l. intros l. revert buffer.
  induction l as [|i l IH]; intros buffer; [done|]. cbn [foldl mbind list_bind].
  rewrite xor_all_app, IH. f_equal. unfold line_at.
  by destruct (i <=? cx), (wrap 32 (cx + i) <? width).
Qed.

Lemma vertical_line_pixels cx cy buffer :
  vertical_line stride width height cx cy buffer =
  xor_all buffer ((seqZ 1 arm ≫= fun i => (fun y => (cx, y)) <$> line_at cy height i)).
Proof.
  unfold vertical_line. generalize (seqZ 1 arm) as l. intros l. revert buffer.
  induction l as [|i l IH]; intros buffer; [done|]. cbn [foldl mbind list_bind].
  rewrite xor_all_app, IH. f_equal. unfold line_at.
  by destruct (i <=? cy), (wrap 32 (cy + i) <? height).
Qed.

(** ** Which bytes a pass inverts *)

(** Pixel [p] has a colour byte at [k]. *)
Definition colours (p : Z * Z) (k : Z) : bool :=
  let o := p.2 * stride + p.1 * 4 in (o <=? k) && (k <? o + 3).

Definition inside (p : Z * Z) : Prop := 0 <= p.1 < width /\ 0 <= p.2 < height.

Lemma invert_lookup l i k : 0 <= i ->
  invert l i !! k = (if i =? Z.of_nat k then fun b => Z.lxor b 255 else id) <$> l !! k.
Proof.
  intros Hi. unfold invert. destruct (Z.eqb_spec i (Z.of_nat k)) as [->|Hne].
  - by rewrite Nat2Z.id, list_lookup_alter_eq.
  - rewrite list_lookup_alter_ne by lia. by destruct (l !! k).
Qed.

Lemma length_xor_pixel buffer x y :
  length (xor_bgra_pixel buffer stride width height x y) = length buffer.
Proof. unfold xor_bgra_pixel, invert. repeat case_match; by rewrite ?length_alter. Qed.

Lemma length_xor_all buffer ps : length (xor_all buffer ps) = length buffer.
Proof.
  revert buffer. induction ps as [|p ps IH]; intros buffer; [done|]. unfold xor_all in *. simpl.
  by rewrite IH, length_xor_pixel.
Qed.

Lemma xor_pixel_lookup buffer p k : frame_ok buffer -> inside p ->
  xor_bgra_pixel buffer stride width height p.1 p.2 !! k =
  (if colours p (Z.of_nat k) then fun b => Z.lxor b 255 else id) <$> buffer !! k.
Proof.
  intros [Hw Hh Hs Hl Ha] [Hx Hy]. destruct p as [x y]. simpl in *. unfold xor_bgra_pixel.
  assert (Hoff : 0 <= y * stride /\ y * stride + x * 4 + 3 < stride * height) by nia.
  destruct (Z.leb_spec width x); [lia|]. destruct (Z.leb_spec height y); [lia|]. simpl.
  assert (wrap 32 (wrap 32 (y * stride) + wrap 32 (x * 4)) = y * stride + x * 4) as ->.
  { rewrite (wrap_small 32 (y * stride)), (wrap_small 32 (x * 4)), wrap_small; unfold uint; lia. }
  destruct (Z.ltb_spec (y * stride + x * 4 + 3) (zlen buffer)); [|lia].
  rewrite !invert_lookup by lia. unfold colours. simpl. destruct (buffer !! k) as [b|]; [|done].
  simpl. f_equal.
  repeat match goal with |- context [?a =? ?b] => destruct (Z.eqb_spec a b) end; try lia;
    destruct (Z.leb_spec (y * stride + x * 4) (Z.of_nat k));
    destruct (Z.ltb_spec (Z.of_nat k) (y * stride + x * 4 + 3)); try lia; done.
Qed.

Lemma frame_ok_length buffer buffer' : length buffer' = length buffer -> frame_ok buffer -> frame_ok buffer'.
Proof. intros Hl []. split; try done. unfold zlen in *. lia. Qed.

(** A byte is inverted once for each pixel that has it. *)
Lemma xor_all_lookup buffer ps k : frame_ok buffer -> Forall inside ps ->
  xor_all buffer ps !! k =
  Nat.iter (length (filter (fun p => colours p (Z.of_nat k) = true) ps)) (fun b => Z.lxor b 255) <$>
    buffer !! k.
Proof.
  revert buffer. induction ps as [|p ps IH]; intros buffer Hok Hin.
  - simpl. by destruct (buffer !! k).
  - apply Forall_cons_1 in Hin as [Hp Hin]. unfold xor_all in *. cbn [foldl].
    rewrite IH; [|eapply frame_ok_length; [apply length_xor_pixel|done]|done].
    rewrite xor_pixel_lookup by done. rewrite filter_cons.
    destruct (buffer !! k) as [b|]; [|done]. simpl. destruct (colours p (Z.of_nat k)); simpl.
    + f_equal. exact (Nat.iter_swap _ _ (fun b0 => Z.lxor b0 255) b).
    + done.
Qed.

(** ** The crosshair *)

Lemma line_at_elem c bound i z : 0 <= c < bound -> bound < 2 ^ 31 -> 1 <= i <= 6 ->
  z ∈ line_at c bound i <-> 0 <= z < bound /\ Z.abs (z - c) = i.
Proof.
  intros Hc Hb Hi. unfold line_at. rewrite wrap_small by (unfold uint; lia). rewrite elem_of_app.
  destruct (Z.leb_spec i c), (Z.ltb_spec (c + i) bound);
    rewrite ?list_elem_of_singleton, ?elem_of_nil; lia.
Qed.

Lemma line_at_nodup c bound i : 0 <= c < bound -> bound < 2 ^ 31 -> 1 <= i <= 6 -> NoDup (line_at c bound i).
Proof.
  intros Hc Hb Hi. unfold line_at. rewrite wrap_small by (unfold uint; lia).
  destruct (i <=? c), (c + i <? bound); simpl; repeat constructor; try apply not_elem_of_nil.
  rewrite list_elem_of_singleton. lia.
Qed.

(** Within an arm's length of the cursor, in its row or its column. *)
Definition in_cross (cx cy : Z) (p : Z * Z) : bool :=
  (p.2 =? cy) && (Z.abs (p.1 - cx) <=? arm) || (p.1 =? cx) && (Z.abs (p.2 - cy) <=? arm).

(** One of the two lines of the crosshair, in the coordinates [f] gives its points. *)
Lemma line_spec (f : Z -> Z * Z) `{!Inj (=) (=) f} c bound : 0 <= c < bound -> bound < 2 ^ 31 ->
  NoDup (seqZ 1 arm ≫= fun i => f <$> line_at c bound i) /\
  forall p, p ∈ (seqZ 1 arm ≫= fun i => f <$> line_at c bound i) <->
    exists z, p = f z /\ 0 <= z < bound /\ 1 <= Z.abs (z - c) <= 6.
Proof.
  intros Hc Hb. unfold arm. split.
  - apply NoDup_bind; [| |apply NoDup_seqZ].
    + intros i j p Hi%elem_of_seqZ Hj%elem_of_seqZ (x & -> & Hxi)%list_elem_of_fmap
        (x' & Heq%(inj f) & Hxj)%list_elem_of_fmap. subst x'. apply line_at_elem in Hxi, Hxj; lia.
    + intros i Hi%elem_of_seqZ. apply NoDup_fmap_2; [done|]. apply line_at_nodup; lia.
  - intros p. rewrite list_elem_of_bind. split.
    + intros (i & (z & -> & Hz)%list_elem_of_fmap & Hi%elem_of_seqZ). exists z. split; [done|].
      apply line_at_elem in Hz; lia.
    + intros (z & -> & Hz & Hd). exists (Z.abs (z - c)). rewrite elem_of_seqZ. split; [|lia].
      apply list_elem_of_fmap_2, line_at_elem; lia.
Qed.

Lemma crosshair_spec cx cy : 0 <= cx < width -> 0 <= cy < height -> width < 2 ^ 31 -> height < 2 ^ 31 ->
  NoDup (crosshair cx cy) /\ forall p, p ∈ crosshair cx cy <-> inside p /\ in_cross cx cy p = true.
Proof.
  intros Hx Hy Hw Hh. unfold crosshair.
  destruct (line_spec (fun x => (x, cy)) (Inj0 := ltac:(intros ? ?; congruence)) cx width Hx Hw) as [Hnr Hrow].
  destruct (line_spec (fun y => (cx, y)) (Inj0 := ltac:(intros ? ?; congruence)) cy height Hy Hh) as [Hnc Hcol].
  split.
  - apply list.NoDup_app. split; [done|]. split.
    + intros p (x & -> & ?)%Hrow Hq. apply elem_of_app in Hq as [(y & [= -> ->] & ?)%Hcol|Hq%list_elem_of_singleton];
        [lia|]. simplify_eq. lia.
    + apply list.NoDup_app. split; [done|]. split; [|repeat constructor; apply not_elem_of_nil].
      intros p (y & -> & ?)%Hcol Hq%list_elem_of_singleton. simplify_eq. lia.
  - intros [x y]. rewrite !elem_of_app, Hrow, Hcol, list_elem_of_singleton. unfold inside, in_cross, arm.
    cbn [fst snd]. rewrite orb_true_iff, !andb_true_iff, !Z.eqb_eq, !Z.leb_le. split.
    + intros [(? & [= -> ->] & ?)|[(? & [= -> ->] & ?)|[= -> ->]]]; lia.
    + intros [Hin Hc]. destruct (decide (x = cx)) as [->|], (decide (y = cy)) as [->|]; try lia; auto.
      * right. left. exists y. repeat split; lia.
      * left. exists x. repeat split; lia.
Qed.

(** Two pixels share no colour byte. *)
Lemma colours_inj buffer p q k : frame_ok buffer -> inside p -> inside q ->
  colours p k = true -> colours q k = true -> p = q.
Proof.
  intros [Hw Hh Hs Hl Ha] [Hpx Hpy] [Hqx Hqy]. unfold colours. destruct p as [x y], q as [x' y']. simpl in *.
  rewrite !andb_true_iff, !Z.leb_le, !Z.ltb_lt. intros Hp Hq. assert (y = y') as <- by nia.
  f_equal. nia.
Qed.

Lemma crosshair_colours buffer cx cy k : frame_ok buffer -> 0 <= cx < width -> 0 <= cy < height ->
  length (filter (fun p => colours p k = true) (crosshair cx cy)) =
  if existsb (fun p => colours p k) (crosshair cx cy) then 1%nat else 0%nat.
Proof.
  intros Hok Hx Hy. pose proof Hok as [Hw Hh _ _ _].
  destruct (crosshair_spec cx cy) as [Hnd Hel]; [lia..|].
  assert (Hin : forall p, p ∈ crosshair cx cy -> inside p) by (by intros p [? _]%Hel).
  revert Hnd Hin. generalize (crosshair cx cy) as ps. clear Hel.
  induction ps as [|p ps IH]; intros Hnd Hin; [done|]. apply list.NoDup_cons in Hnd as [Hni Hnd].
  rewrite filter_cons. simpl. destruct (colours p k) eqn:Hp; simpl.
  - f_equal. destruct (filter _ ps) as [|q qs] eqn:Hf; [done|].
    assert (Hqf : q ∈ filter (fun p => colours p k = true) ps) by (rewrite Hf; by left).
    apply list_elem_of_filter in Hqf as [Hcq Hq].
    destruct Hni. enough (p = q) as -> by done. eapply colours_inj; try done; apply Hin; [by left|by right].
  - apply IH; [done|]. intros q Hq. apply Hin. by right.
Qed.

(** The byte at [k] is a colour byte of a pixel of the crosshair. *)
Definition in_overlay (cx cy k : Z) : bool :=
  let x := (k mod stride) / 4 in
  in_cross cx cy (x, k / stride) && (x <? width) && ((k mod stride) mod 4 <? 3).

Lemma in_overlay_spec buffer cx cy k : frame_ok buffer -> 0 <= cx < width -> 0 <= cy < height ->
  0 <= k < stride * height -> existsb (fun p => colours p k) (crosshair cx cy) = in_overlay cx cy k.
Proof.
  intros Hok Hx Hy Hk. pose proof Hok as [Hw Hh Hs Hl Ha].
  destruct (crosshair_spec cx cy) as [_ Hel]; [lia..|].
  assert (Hm : 0 <= k mod stride < stride) by (apply Z.mod_pos_bound; lia).
  assert (Hd : k = stride * (k / stride) + k mod stride) by (apply Z.div_mod; lia).
  assert (Hq : 0 <= k / stride < height) by (split; [apply Z.div_pos; lia|apply Z.div_lt_upper_bound; lia]).
  unfold in_overlay. generalize dependent (k / stride). generalize dependent (k mod stride).
  intros r Hr y -> Hy'. apply eq_true_iff_eq. rewrite existsb_exists, !andb_true_iff, !Z.ltb_lt. split.
  - intros ([x' y'] & Hp%list_elem_of_In%Hel & Hc). destruct Hp as [[Hpx Hpy] Hp]. unfold colours in Hc.
    simpl in *. apply andb_true_iff in Hc as [Hc1%Z.leb_le Hc2%Z.ltb_lt].
    assert (y' = y) as -> by nia.
    assert (x' = r / 4) as -> by (apply (Z.div_unique r 4 _ (r - 4 * x')); nia).
    split; [split; [done|lia]|]. Z.div_mod_to_equations. nia.
  - intros [[Hp Hxw] Hc]. exists (r / 4, y). split.
    + apply list_elem_of_In, Hel. split; [|done]. split; simpl; [|lia]. split; [Z.div_mod_to_equations; lia|lia].
    + unfold colours. simpl. apply andb_true_iff. rewrite Z.leb_le, Z.ltb_lt. Z.div_mod_to_equations. nia.
Qed.

(** Drawing a visible cursor into a well-formed frame inverts the three colour bytes of
    exactly the pixels within six of the (clamped) cursor position in its row or column, and
    changes nothing else: no alpha byte, no padding, no other pixel; and no pixel is
    inverted twice. *)
Theorem composite_cursor_spec buffer cursor_x cursor_y : frame_ok buffer ->
  let cx := Z.max 0 (Z.min cursor_x (width - 1)) in
  let cy := Z.max 0 (Z.min cursor_y (height - 1)) in
  exists buffer', composite_cursor buffer stride width height cursor_x cursor_y true = Ret buffer' /\
    forall k, buffer' !! k =
      (if in_overlay cx cy (Z.of_nat k) then fun b => Z.lxor b 255 else id) <$> buffer !! k.
Proof.
  intros Hok cx cy. pose proof Hok as [Hw Hh Hs Hl Ha].
  assert (Hx : 0 <= cx < width) by (unfold cx; lia). assert (Hy : 0 <= cy < height) by (unfold cy; lia).
  assert (Hpos : 0 < stride * height) by nia.
  assert (Hi : forall w, 0 < w < 2 ^ 31 -> as_i32 (as_i32 w - 1) = w - 1).
  { intros w Hw'. unfold as_i32. rewrite (wrap_small 32 w) by (unfold uint; lia).
    destruct (Z.ltb_spec w (2 ^ 31)); [|lia]. rewrite wrap_small by (unfold uint; lia).
    destruct (Z.ltb_spec (w - 1) (2 ^ 31)); lia. }
  unfold composite_cursor. destruct (Z.eqb_spec (zlen buffer) 0); [lia|]. cbn [negb orb].
  unfold clamp. rewrite !Hi by done. destruct (Z.leb_spec 0 (width - 1)); [|lia].
  destruct (Z.leb_spec 0 (height - 1)); [|lia]. fold cx cy. eexists. split; [reflexivity|].
  intros k. rewrite horizontal_line_pixels, vertical_line_pixels.
  change (xor_bgra_pixel ?b stride width height cx cy) with (xor_all b [(cx, cy)]).
  rewrite <- !xor_all_app. fold (crosshair cx cy).
  destruct (crosshair_spec cx cy) as [_ Hel]; [lia..|].
  rewrite xor_all_lookup; [|done|apply Forall_forall; by intros p [? _]%list_elem_of_In%Hel].
  rewrite (crosshair_colours buffer) by done. destruct (buffer !! k) as [b|] eqn:Hb; [|done].
  apply lookup_lt_Some in Hb. unfold zlen in Hl. rewrite (in_overlay_spec buffer) by (done || lia).
  by destruct (in_overlay _ _ _).
Qed.
End cursor.

Lemma composite_cursor_spec_witness :
  exists buffer', composite_cursor (replicate 48 0) 16 3 3 1 5 true = Ret buffer' /\
    buffer' !! 36%nat = Some 255 /\ buffer' !! 39%nat = Some 0.
Proof.
  refine (match composite_cursor_spec 16 3 3 (replicate 48 0) 1 5 _ with
    | ex_intro _ buffer' (conj H Hk) => _ end).
  - split; vm_compute; try split; congruence.
  - exists buffer'. split; [exact H|]. split; rewrite Hk; vm_compute; reflexivity.
Defined.

(** A visible cursor on a frame of width zero that still has bytes aborts. *)
Lemma composite_cursor_no_width buffer stride height x y :
  buffer <> [] -> composite_cursor buffer stride 0 height x y true = Panic.
Proof.
  intros Hb. unfold composite_cursor. destruct (Z.eqb_spec (zlen buffer) 0) as [Hz|]; [|done].
  by apply zlen_nil_inv in Hz.
Qed.
