(* ===== verification/Capture.v ===== *)
(** * Screen capture (bw-capture, [frame.rs] and [thread.rs])

    Frames, dirty rectangles and their merging, and the loop of the capture thread.  The
    capture backend is the operating system's: what it returns, how long it takes and how
    long sleeps overrun are the inputs of a turn of the loop. *)

From S2P Require Import Prelude.

(** ** Frames *)

Inductive PixelFormat : Type := Bgra8 | Rgba8.

Record DirtyRect := { rx : Z; ry : Z; rwidth : Z; rheight : Z }.

#[global] Instance DirtyRect_eq_dec : EqDecision DirtyRect.
Proof. solve_decision. Defined.

Record MoveRect := { source_point_x : Z; source_point_y : Z; dest_rect : DirtyRect }.

Inductive CursorShape : Type :=
| Arrow | IBeam | Crosshair | SizeAll | Hand | Hidden | UnknownShape.

Record CursorInfo := {
  cursor_x : Z;
  cursor_y : Z;
  cursor_visible : bool;
  cursor_shape : CursorShape;
  bitmap : option (list Z);
  bitmap_width : Z;
  bitmap_height : Z;
}.

Record Frame := {
  fwidth : Z;
  fheight : Z;
  stride : Z;
  timestamp_us : Z;
  pixel_format : PixelFormat;
  buffer : list Z;
  dirty_rects : list DirtyRect;
  move_rects : list MoveRect;
  cursor : option CursorInfo;
  is_refresh : bool;
}.

(** [Frame::has_updates] and [Frame::expected_buffer_size] *)
Definition has_updates (f : Frame) : bool :=
  is_refresh f || negb (zlen (dirty_rects f) =? 0) || negb (zlen (move_rects f) =? 0).

Definition expected_buffer_size (f : Frame) : Z := wrap 64 (stride f * fheight f).

(** ** Dirty rectangles

    Coordinates are 32-bit; sums wrap. *)

Definition right (r : DirtyRect) : Z := wrap 32 (rx r + rwidth r).
Definition bottom (r : DirtyRect) : Z := wrap 32 (ry r + rheight r).

Definition is_non_empty (r : DirtyRect) : bool := (0 <? rwidth r) && (0 <? rheight r).

(** [self.contains(other)] *)
Definition contains (self other : DirtyRect) : bool :=
  (rx self <=? rx other) && (ry self <=? ry other) &&
  (right other <=? right self) && (bottom other <=? bottom self).

Definition union (a b : DirtyRect) : DirtyRect :=
  let x := Z.min (rx a) (rx b) in
  let y := Z.min (ry a) (ry b) in
  {| rx := x; ry := y;
     rwidth := wrap 32 (Z.max (right a) (right b) - x);
     rheight := wrap 32 (Z.max (bottom a) (bottom b) - y) |}.

Definition rects_overlap (a b : DirtyRect) : bool :=
  (rx a <? right b) && (rx b <? right a) && (ry a <? bottom b) && (ry b <? bottom a).

(** The inner loop: the first rectangle that overlaps absorbs [rect]. *)
Fixpoint absorb (merged : list DirtyRect) (rect : DirtyRect) : list DirtyRect :=
  match merged with
  | [] => [rect]
  | existing :: merged =>
      if rects_overlap existing rect then union existing rect :: merged
      else existing :: absorb merged rect
  end.

Definition merge_dirty_rects (rects : list DirtyRect) : list DirtyRect := foldl absorb [] rects.

(** *** Merging covers *)

(** On the screen: the sums do not wrap. *)
Definition rect_ok (r : DirtyRect) : Prop :=
  0 <= rx r /\ 0 <= ry r /\ 0 <= rwidth r /\ 0 <= rheight r /\
  rx r + rwidth r < 2 ^ 32 /\ ry r + rheight r < 2 ^ 32.

(** The pixel [(x, y)] is in the rectangle. *)
Definition covers (r : DirtyRect) (x y : Z) : Prop :=
  rx r <= x < rx r + rwidth r /\ ry r <= y < ry r + rheight r.

Lemma right_ok r : rect_ok r -> right r = rx r + rwidth r.
Proof. unfold rect_ok. intros. apply wrap_small. unfold uint. lia. Qed.

Lemma bottom_ok r : rect_ok r -> bottom r = ry r + rheight r.
Proof. unfold rect_ok. intros. apply wrap_small. unfold uint. lia. Qed.

(** The union is the least rectangle around both. *)
Lemma union_spec a b : rect_ok a -> rect_ok b ->
  rect_ok (union a b) /\ contains (union a b) a = true /\ contains (union a b) b = true /\
  (forall c, rect_ok c -> contains c a = true -> contains c b = true -> contains c (union a b) = true).
Proof.
  intros Ha Hb.
  assert (Hu : union a b = {| rx := Z.min (rx a) (rx b); ry := Z.min (ry a) (ry b);
    rwidth := Z.max (rx a + rwidth a) (rx b + rwidth b) - Z.min (rx a) (rx b);
    rheight := Z.max (ry a + rheight a) (ry b + rheight b) - Z.min (ry a) (ry b) |}).
  { unfold union. rewrite !right_ok, !bottom_ok by done. unfold rect_ok in *.
    f_equal; apply wrap_small; unfold uint; lia. }
  assert (Hok : rect_ok (union a b)) by (rewrite Hu; unfold rect_ok in *; simpl; lia).
  split; [done|]. unfold contains. rewrite !right_ok, !bottom_ok by done. rewrite Hu. cbn [rx ry rwidth rheight].
  unfold rect_ok in *. split; [|split].
  - rewrite !andb_true_iff, !Z.leb_le. lia.
  - rewrite !andb_true_iff, !Z.leb_le. lia.
  - intros c Hc. rewrite !right_ok, !bottom_ok by done. cbn [rx ry rwidth rheight].
    rewrite !andb_true_iff, !Z.leb_le. lia.
Qed.

Lemma contains_covers a b x y : rect_ok a -> rect_ok b -> contains a b = true -> covers b x y -> covers a x y.
Proof.
  intros Ha Hb. unfold contains, covers. rewrite !right_ok, !bottom_ok by done.
  rewrite !andb_true_iff, !Z.leb_le. lia.
Qed.

Lemma contains_refl a : contains a a = true.
Proof. unfold contains. rewrite !andb_true_iff, !Z.leb_le. lia. Qed.

Lemma contains_trans a b c : contains a b = true -> contains b c = true -> contains a c = true.
Proof. unfold contains. rewrite !andb_true_iff, !Z.leb_le. lia. Qed.

(** Every rectangle of [l] lies within one of [l']. *)
Definition refines (l l' : list DirtyRect) : Prop :=
  forall r, r ∈ l -> exists r', r' ∈ l' /\ contains r' r = true.

Lemma absorb_ok merged rect : Forall rect_ok merged -> rect_ok rect ->
  Forall rect_ok (absorb merged rect) /\ refines (rect :: merged) (absorb merged rect) /\
  (length (absorb merged rect) <= S (length merged))%nat.
Proof.
  intros Hm Hr. induction Hm as [|e merged He Hm IH]; simpl.
  - split; [constructor; [done|constructor]|]. split; [|lia]. intros r Hin. exists r. split; [done|apply contains_refl].
  - destruct (union_spec e rect He Hr) as (Hu & Hue & Hur & _).
    destruct (rects_overlap e rect).
    + split; [by constructor|]. split; [|simpl; lia].
      intros r [->|[->|Hin]%elem_of_cons]%elem_of_cons.
      * exists (union e rect). split; [by left|done].
      * exists (union e rect). split; [by left|done].
      * exists r. split; [by right|apply contains_refl].
    + destruct IH as (IH1 & IH2 & IH3). split; [by constructor|]. split; [|simpl; lia].
      intros r [->|[->|Hin]%elem_of_cons]%elem_of_cons.
      * destruct (IH2 rect) as (r' & ? & ?); [by left|]. exists r'. split; [by right|done].
      * exists e. split; [by left|apply contains_refl].
      * destruct (IH2 r) as (r' & ? & ?); [by right|]. exists r'. split; [by right|done].
Qed.

Lemma merge_from merged rects : Forall rect_ok merged -> Forall rect_ok rects ->
  Forall rect_ok (foldl absorb merged rects) /\
  refines (merged ++ rects) (foldl absorb merged rects) /\
  (length (foldl absorb merged rects) <= length merged + length rects)%nat.
Proof.
  intros Hm Hr. revert merged Hm. induction Hr as [|r rects Hr Hrs IH]; intros merged Hm; simpl.
  - rewrite app_nil_r. split; [done|]. split; [|lia]. intros r Hin. exists r. split; [done|apply contains_refl].
  - destruct (absorb_ok merged r Hm Hr) as (H1 & H2 & H3). destruct (IH _ H1) as (H4 & H5 & H6).
    split; [done|]. split; [|lia]. intros q Hq.
    assert (q ∈ r :: merged \/ q ∈ rects) as [Hq'|Hq'].
    { apply elem_of_app in Hq as [?|[->|?]%elem_of_cons]; [left; by right|left; by left|by right]. }
    + destruct (H2 q Hq') as (q' & Hin & Hc). destruct (H5 q') as (q'' & ? & ?); [apply elem_of_app; by left|].
      exists q''. split; [done|]. by eapply contains_trans.
    + apply H5, elem_of_app. by right.
Qed.

(** Merging loses no changed pixel and never grows the list: every pixel of a dirty
    rectangle is in a rectangle of the result, for rectangles on the screen. *)
Theorem merge_covers rects x y r : Forall rect_ok rects -> r ∈ rects -> covers r x y ->
  (length (merge_dirty_rects rects) <= length rects)%nat /\
  exists r', r' ∈ merge_dirty_rects rects /\ covers r' x y.
Proof.
  intros Hok Hin Hc. destruct (merge_from [] rects) as (H1 & H2 & H3); [constructor|done|].
  split; [done|]. destruct (H2 r Hin) as (r' & Hin' & Hcon). exists r'. split; [done|].
  unfold merge_dirty_rects. eapply contains_covers; [..|done|done].
  - rewrite Stdlib.Lists.List.Forall_forall in H1. apply H1. by apply list_elem_of_In.
  - rewrite Stdlib.Lists.List.Forall_forall in Hok. apply Hok. by apply list_elem_of_In.
Qed.

Lemma merge_covers_witness : exists r',
  r' ∈ merge_dirty_rects [Build_DirtyRect 0 0 4 4; Build_DirtyRect 2 2 4 4] /\ covers r' 3 3.
Proof.
  refine (proj2 (merge_covers [Build_DirtyRect 0 0 4 4; Build_DirtyRect 2 2 4 4] 3 3 (Build_DirtyRect 0 0 4 4) _ _ _));
    [repeat constructor; simpl; lia|by left|unfold covers; simpl; lia].
Defined.

(** The merge is a single pass: two rectangles of the result can still overlap, here the
    first, which grew when the third was merged into it, and the second. *)
Lemma merge_not_minimal :
  merge_dirty_rects [Build_DirtyRect 0 0 4 4; Build_DirtyRect 10 0 4 4; Build_DirtyRect 3 0 9 4] =
    [Build_DirtyRect 0 0 12 4; Build_DirtyRect 10 0 4 4] /\
  rects_overlap (Build_DirtyRect 0 0 12 4) (Build_DirtyRect 10 0 4 4) = true.
Proof. vm_compute. done. Qed.

(** ** The capture thread *)

Inductive CaptureError : Type :=
| InitFailed (e : string)
| DisplayEnumerationFailed (e : string)
| InvalidDisplay
| FrameAcquisitionFailed (e : string)
| Stopped
| AccessDenied
| UnsupportedFormat
| PlatformNotSupported.

Record FrameTimerConfig := {
  idle_sleep_ms : Z;
  refresh_interval_ms : Z;
  min_frame_interval_ms : Z;
}.

Definition default_config : FrameTimerConfig :=
  {| idle_sleep_ms := 16; refresh_interval_ms := 1000; min_frame_interval_ms := 33 |}.

(** Nanoseconds in a millisecond. *)
Definition MILLI : Z := 1000000.

(** The state of the loop: the clock, what it caches, and the frames offered to the channel
    with the instants they were offered at (the thread ignores whether [try_send] took
    them). *)
Record Capture := {
  clock : Z;
  last_frame : option Frame;
  last_real_frame_time : Z;
  offered : list (Z * Frame);
  running : bool;
}.

(** What happens around one turn: whether a stop was requested, what the backend returns
    and after how long, by how much a sleep overruns, and what the backend says when it is
    asked for the cursor or restarted. *)
Record Turn := {
  stop_requested : bool;
  response : result CaptureError Frame;
  took : Z;
  overrun : Z;
  cursor_info : result CaptureError CursorInfo;
  restarted : bool;
}.

Definition capture_start (now : Z) : Capture :=
  {| clock := now; last_frame := None; last_real_frame_time := now; offered := []; running := true |}.

Definition halt (now : Z) (s : Capture) : Capture :=
  {| clock := now; last_frame := last_frame s; last_real_frame_time := last_real_frame_time s;
     offered := offered s; running := false |}.

(** The frame a refresh re-sends. *)
Definition refresh_of (cached : Frame) (info : result CaptureError CursorInfo) : Frame :=
  {| fwidth := fwidth cached; fheight := fheight cached; stride := stride cached;
     timestamp_us := 0; pixel_format := pixel_format cached; buffer := buffer cached;
     dirty_rects := dirty_rects cached; move_rects := move_rects cached;
     cursor := match info with Ok c => Some c | Err _ => cursor cached end;
     is_refresh := true |}.

(** An empty frame: the screen is idle. *)
Definition idle_turn (cfg : FrameTimerConfig) (s : Capture) (now : Z) (i : Turn) : Capture :=
  let now := now + idle_sleep_ms cfg * MILLI + overrun i in
  let idle := {| clock := now; last_frame := last_frame s;
                 last_real_frame_time := last_real_frame_time s; offered := offered s;
                 running := true |} in
  if 0 <? refresh_interval_ms cfg then
    match last_frame s with
    | Some cached =>
        if refresh_interval_ms cfg * MILLI <=? now - last_real_frame_time s then
          {| clock := now; last_frame := last_frame s; last_real_frame_time := now;
             offered := offered s ++ [(now, refresh_of cached (cursor_info i))]; running := true |}
        else idle
    | None => idle
    end
  else idle.

(** A frame with pixels. *)
Definition real_turn (cfg : FrameTimerConfig) (s : Capture) (now : Z) (i : Turn) (frame : Frame) : Capture :=
  let elapsed := now - last_real_frame_time s in
  let min_frame_interval := min_frame_interval_ms cfg * MILLI in
  let now :=
    if elapsed <? min_frame_interval then now + (min_frame_interval - elapsed) + overrun i else now in
  {| clock := now; last_frame := Some frame; last_real_frame_time := now;
     offered := offered s ++ [(now, frame)]; running := true |}.

(** One turn of the loop of [spawn_with_config]. *)
Definition turn (cfg : FrameTimerConfig) (s : Capture) (i : Turn) : Capture :=
  if negb (running s) then s
  else if stop_requested i then halt (clock s) s
  else
    let now := clock s + took i in
    match response i with
    | Ok frame =>
        if zlen (buffer frame) =? 0 then idle_turn cfg s now i else real_turn cfg s now i frame
    | Err Stopped => halt now s
    | Err _ =>
        let now := now + 200 * MILLI + overrun i in
        if restarted i then
          {| clock := now; last_frame := None; last_real_frame_time := now; offered := offered s;
             running := true |}
        else halt now s
    end.

(** *** Pacing *)

(** Times are not negative. *)
Definition turn_ok (i : Turn) : Prop := 0 <= took i /\ 0 <= overrun i.

Definition config_ok (cfg : FrameTimerConfig) : Prop :=
  0 <= idle_sleep_ms cfg /\ 0 <= refresh_interval_ms cfg /\ 0 <= min_frame_interval_ms cfg.

(** The least time between two frames offered. *)
Definition pace (cfg : FrameTimerConfig) : Z :=
  (if 0 <? refresh_interval_ms cfg
   then Z.min (min_frame_interval_ms cfg) (refresh_interval_ms cfg)
   else min_frame_interval_ms cfg) * MILLI.

(** Each frame of [l] comes at least [d] after the one before it, the first after [from]. *)
Fixpoint spaced (d from : Z) (l : list (Z * Frame)) : Prop :=
  match l with
  | [] => True
  | (t, _) :: l => from + d <= t /\ spaced d t l
  end.

Definition last_offer (from : Z) (l : list (Z * Frame)) : Z := foldl (fun _ p => p.1) from l.

Lemma spaced_snoc d from l t f :
  spaced d from (l ++ [(t, f)]) <-> spaced d from l /\ last_offer from l + d <= t.
Proof.
  revert from. induction l as [|[u g] l IH]; intros from; simpl; [tauto|]. rewrite IH.
  unfold last_offer. simpl. tauto.
Qed.

Lemma last_offer_snoc from l t f : last_offer from (l ++ [(t, f)]) = t.
Proof. unfold last_offer. by rewrite foldl_app. Qed.

Record paced (cfg : FrameTimerConfig) (from : Z) (s : Capture) : Prop := {
  pd_spaced : spaced (pace cfg) from (offered s);
  pd_last : last_offer from (offered s) <= last_real_frame_time s <= clock s;
}.

Lemma paced_offer cfg from s t f c : paced cfg from s -> last_real_frame_time s + pace cfg <= t ->
  paced cfg from {| clock := t; last_frame := c; last_real_frame_time := t;
                    offered := offered s ++ [(t, f)]; running := true |}.
Proof.
  intros [H1 H2] Ht. split; simpl; [|rewrite last_offer_snoc; lia]. apply spaced_snoc. split; [done|lia].
Qed.

Lemma turn_paced cfg from s i : config_ok cfg -> turn_ok i -> paced cfg from s -> paced cfg from (turn cfg s i).
Proof.
  intros (Hc1 & Hc2 & Hc3) [Ht Ho] Hs. pose proof Hs as [H1 H2]. unfold turn.
  destruct (running s); [|done]. cbn [negb]. destruct (stop_requested i); [by split; simpl; [|lia]|].
  assert (Hpace : pace cfg <= min_frame_interval_ms cfg * MILLI /\
    (0 < refresh_interval_ms cfg -> pace cfg <= refresh_interval_ms cfg * MILLI)).
  { unfold pace, MILLI. destruct (Z.ltb_spec 0 (refresh_interval_ms cfg)); lia. }
  destruct (response i) as [frame|e].
  - destruct (zlen (buffer frame) =? 0).
    + unfold idle_turn. destruct (Z.ltb_spec 0 (refresh_interval_ms cfg));
        [|split; simpl; unfold MILLI in *; [done|lia]].
      destruct (last_frame s); [|split; simpl; unfold MILLI in *; [done|lia]].
      destruct (Z.leb_spec (refresh_interval_ms cfg * MILLI)
        (clock s + took i + idle_sleep_ms cfg * MILLI + overrun i - last_real_frame_time s)).
      * apply paced_offer; [done|lia].
      * split; simpl; unfold MILLI in *; [done|lia].
    + unfold real_turn. apply paced_offer; [done|].
      destruct (Z.ltb_spec (clock s + took i - last_real_frame_time s) (min_frame_interval_ms cfg * MILLI)); lia.
  - assert (Hrest : paced cfg from (if restarted i then
      {| clock := clock s + took i + 200 * MILLI + overrun i; last_frame := None;
         last_real_frame_time := clock s + took i + 200 * MILLI + overrun i; offered := offered s;
         running := true |} else halt (clock s + took i + 200 * MILLI + overrun i) s)).
    { destruct (restarted i); split; simpl; unfold MILLI; (done || lia). }
    destruct e; try done. split; simpl; [done|lia].
Qed.

(** However long the backend takes and however long sleeps overrun, the capture thread
    never offers two frames, captured or re-sent, within less than the configured interval
    (the smaller of the minimal frame interval and the refresh interval), the first one
    included: the encoder is never given more than 30 frames a second by default. *)
Theorem capture_rate_capped cfg now turns : config_ok cfg -> Forall turn_ok turns ->
  spaced (pace cfg) now (offered (foldl (turn cfg) (capture_start now) turns)).
Proof.
  intros Hc Ht. apply (pd_spaced cfg).
  assert (paced cfg now (capture_start now)) as Hs by (split; simpl; [done|unfold last_offer; simpl; lia]).
  revert Hs. generalize (capture_start now) as s. induction Ht as [|i turns Hi _ IH]; intros s Hs; simpl; [done|].
  by apply IH, turn_paced.
Qed.

(** *** Refreshes *)

(** A turn in which the screen is idle and nothing interrupts. *)
Definition is_idle (i : Turn) : Prop :=
  stop_requested i = false /\ turn_ok i /\ exists f, response i = Ok f /\ buffer f = [].

Lemma idle_turns cfg s cached turns : config_ok cfg -> 0 < refresh_interval_ms cfg -> Forall is_idle turns ->
  running s = true -> last_frame s = Some cached ->
  let s' := foldl (turn cfg) s turns in
  running s' = true /\ last_frame s' = Some cached /\
  ((exists t info l, offered s' = offered s ++ (t, refresh_of cached info) :: l) \/
   offered s' = offered s /\ last_real_frame_time s' = last_real_frame_time s /\
   clock s + zlen turns * (idle_sleep_ms cfg * MILLI) <= clock s' /\
   (turns = [] \/ clock s' - last_real_frame_time s < refresh_interval_ms cfg * MILLI)).
Proof.
  intros Hc Hrf Ht. revert s. induction Ht as [|i turns Hi _ IH]; intros s Hr Hl.
  { simpl. split; [done|]. split; [done|]. right. unfold zlen. simpl. repeat split; (lia || auto). }
  destruct Hi as (Hstop & [Htk Hov] & f & Hf & Hbuf). cbn [foldl].
  assert (Hturn : turn cfg s i = idle_turn cfg s (clock s + took i) i).
  { unfold turn. by rewrite Hr, Hstop, Hf, Hbuf. }
  rewrite Hturn. unfold idle_turn. destruct (Z.ltb_spec 0 (refresh_interval_ms cfg)); [|lia]. rewrite Hl.
  destruct (Z.leb_spec (refresh_interval_ms cfg * MILLI)
    (clock s + took i + idle_sleep_ms cfg * MILLI + overrun i - last_real_frame_time s)) as [Hge|Hlt].
  - match goal with |- context [foldl (turn cfg) ?s1 turns] =>
      destruct (IH s1 eq_refl eq_refl) as (H1 & H2 & H3) end.
    split; [exact H1|]. split; [exact H2|]. left.
    destruct H3 as [(t & info & l & H3)|(H3 & _)]; cbn [offered] in H3; rewrite H3, <- ?app_assoc; eauto.
  - match goal with |- context [foldl (turn cfg) ?s1 turns] =>
      destruct (IH s1 eq_refl eq_refl) as (H1 & H2 & H3) end.
    split; [exact H1|]. split; [exact H2|].
    destruct H3 as [(t & info & l & H3)|(H3 & H4 & H5 & H6)]; [left; by exists t, info, l|].
    right. cbn [offered last_real_frame_time clock] in *. split; [exact H3|]. split; [exact H4|].
    rewrite zlen_cons. split; [unfold MILLI in *; nia|]. right. destruct H6 as [->|H6]; [exact Hlt|exact H6].
Qed.

(** While the screen stays idle, a client is not left without a picture: once a frame
    was captured, any run of idle turns long enough to span the refresh interval offers
    that frame again, marked as a refresh. *)
Theorem idle_screen_refreshed cfg s cached turns : config_ok cfg -> 0 < refresh_interval_ms cfg ->
  running s = true -> last_frame s = Some cached -> last_real_frame_time s <= clock s ->
  Forall is_idle turns -> turns <> [] -> refresh_interval_ms cfg <= zlen turns * idle_sleep_ms cfg ->
  exists t info l, offered (foldl (turn cfg) s turns) = offered s ++ (t, refresh_of cached info) :: l.
Proof.
  intros Hc Hrf Hr Hl Hclk Ht Hne Hlen.
  destruct (idle_turns cfg s cached turns Hc Hrf Ht Hr Hl) as (_ & _ & [?|(_ & _ & H5 & [?|H6])]); [done|done|].
  exfalso. unfold MILLI in *. nia.
Qed.

(** A captured picture, a screen that then stays idle for two turns, and a refresh interval
    of 30 ms. *)
Definition sample_frame (data : list Z) : Frame :=
  {| fwidth := 1; fheight := 1; stride := 4; timestamp_us := 7; pixel_format := Bgra8; buffer := data;
     dirty_rects := []; move_rects := []; cursor := None; is_refresh := false |}.

Definition sample_turn (data : list Z) : Turn :=
  {| stop_requested := false; response := Ok (sample_frame data); took := 5; overrun := 1;
     cursor_info := Err AccessDenied; restarted := false |}.

Definition quick_config : FrameTimerConfig :=
  {| idle_sleep_ms := 16; refresh_interval_ms := 30; min_frame_interval_ms := 33 |}.

Lemma capture_rate_capped_witness :
  spaced (pace default_config) 0
    (offered (foldl (turn default_config) (capture_start 0) [sample_turn [1; 2; 3; 4]; sample_turn [4; 3; 2; 1]])).
Proof.
  refine (capture_rate_capped default_config 0 _ _ _); [unfold config_ok; simpl; lia|].
  repeat constructor; simpl; lia.
Defined.

Lemma idle_screen_refreshed_witness :
  exists t info l,
    offered (foldl (turn quick_config) (turn quick_config (capture_start 0) (sample_turn [1; 2; 3; 4]))
      [sample_turn []; sample_turn []]) =
    [(33 * MILLI + 1, sample_frame [1; 2; 3; 4])] ++ (t, refresh_of (sample_frame [1; 2; 3; 4]) info) :: l.
Proof.
  refine (idle_screen_refreshed quick_config
    (turn quick_config (capture_start 0) (sample_turn [1; 2; 3; 4])) (sample_frame [1; 2; 3; 4])
    [sample_turn []; sample_turn []] _ _ _ _ _ _ _ _).
  - unfold config_ok. simpl. lia.
  - reflexivity.
  - reflexivity.
  - reflexivity.
  - vm_compute. congruence.
  - repeat constructor; simpl; try lia; by exists (sample_frame []).
  - discriminate.
  - vm_compute. congruence.
Defined.
