(* ===== verification/Float.v ===== *)
(** * Floating-point arithmetic of the source

    [f32] and [f64] as the binary formats of IEEE 754, over the executable operations of
    the Standard Library: conversions from and to integers, [clamp] and [round] as Rust
    defines them, and the bounds the viewer relies on. *)

From Stdlib Require Export SpecFloat.
From S2P Require Import Prelude.

Section Format.
Context (prec emax : Z).

(** [as f32], [as f64] *)
Definition of_Z (z : Z) : spec_float := binary_normalize prec emax z 0 false.

(** [clamp]: a value that is not a number stays. *)
Definition clamp (x lo hi : spec_float) : spec_float :=
  let x := if SFltb x lo then lo else x in
  if SFltb hi x then hi else x.

(** The magnitude towards zero. *)
Definition truncate (m : positive) (e : Z) : Z := Z.shiftl (Zpos m) e.

(** [as usize], [as u8]: towards zero, saturating; zero for what is not a number. *)
Definition to_uint (max : Z) (x : spec_float) : Z :=
  match x with
  | S754_finite false m e => Z.min max (truncate m e)
  | S754_infinity false => max
  | _ => 0
  end.

(** [as i32] *)
Definition to_i32 (x : spec_float) : Z :=
  match x with
  | S754_finite false m e => Z.min (2 ^ 31 - 1) (truncate m e)
  | S754_finite true m e => Z.max (- 2 ^ 31) (- truncate m e)
  | S754_infinity s => if s then - 2 ^ 31 else 2 ^ 31 - 1
  | _ => 0
  end.

(** [round]: halves away from zero. *)
Definition round (x : spec_float) : spec_float :=
  match x with
  | S754_finite s m e =>
      if 0 <=? e then x
      else
        let q := (Zpos m + 2 ^ (- e - 1)) / 2 ^ (- e) in
        binary_normalize prec emax (if s then - q else q) 0 s
  | _ => x
  end.

(** ** Bounds *)

(** The mantissa has at most [prec] bits. *)
Definition fits (x : spec_float) : Prop :=
  match x with S754_finite _ m _ => Zpos m < 2 ^ prec | _ => True end.

Lemma digits2_pos_spec p : 2 ^ (Zpos (digits2_pos p) - 1) <= Zpos p < 2 ^ Zpos (digits2_pos p).
Proof.
  induction p as [p IH|p IH|]; cbn [digits2_pos]; [| |done].
  all: rewrite Pos2Z.inj_succ; replace (Z.succ (Zpos (digits2_pos p)) - 1)
         with (Z.succ (Zpos (digits2_pos p) - 1)) by lia.
  all: rewrite !Z.pow_succ_r by lia; lia.
Qed.

Lemma digits2_pos_unique p d : 0 < d -> 2 ^ (d - 1) <= Zpos p < 2 ^ d -> Zpos (digits2_pos p) = d.
Proof.
  intros Hd Hp. pose proof (digits2_pos_spec p) as Hs.
  destruct (Z.lt_trichotomy (Zpos (digits2_pos p)) d) as [?|[?|?]]; [|done|]; exfalso.
  - assert (2 ^ Zpos (digits2_pos p) <= 2 ^ (d - 1)) by (apply Z.pow_le_mono_r; lia). lia.
  - assert (2 ^ d <= 2 ^ (Zpos (digits2_pos p) - 1)) by (apply Z.pow_le_mono_r; lia). lia.
Qed.

Lemma Zdigits2_spec m : 0 <= m -> 0 <= Zdigits2 m /\ m < 2 ^ Zdigits2 m.
Proof.
  destruct m as [|p|p]; [done| |lia]. intros _. split; [done|]. apply digits2_pos_spec.
Qed.

Lemma shr_1_half r : 0 <= shr_m r -> shr_m (shr_1 r) = shr_m r / 2.
Proof.
  destruct r as [[|[p|p|]|p] r s]; simpl; intros Hm; try lia; try done.
  all: Z.div_mod_to_equations; lia.
Qed.

Lemma iter_shr_1 p : forall r, 0 <= shr_m r ->
  0 <= shr_m (SpecFloat.iter_pos shr_1 p r) /\ shr_m (SpecFloat.iter_pos shr_1 p r) = shr_m r / 2 ^ Zpos p.
Proof.
  assert (Hdd : forall m a b, 0 <= a -> 0 <= b -> m / 2 ^ a / 2 ^ b = m / 2 ^ (a + b)).
  { intros m a b Ha Hb. rewrite Z.pow_add_r by lia. apply Z.div_div; [|apply Z.pow_pos_nonneg; lia].
    assert (0 < 2 ^ a) by (apply Z.pow_pos_nonneg; lia). lia. }
  assert (Hpos : forall m n, 0 <= m -> 0 <= m / 2 ^ Zpos n)
    by (intros m n Hm; apply Z.div_pos; [done|apply Z.pow_pos_nonneg; lia]).
  induction p as [p IH|p IH|]; intros r Hr; cbn [SpecFloat.iter_pos].
  - pose proof (shr_1_half r Hr) as H1. assert (H0 : 0 <= shr_m (shr_1 r)).
    { rewrite H1. apply Z.div_pos; lia. }
    destruct (IH _ H0) as [H2 E2]. destruct (IH _ H2) as [H3 E3]. split; [done|].
    rewrite E3, E2, H1. replace (shr_m r / 2) with (shr_m r / 2 ^ 1) by done.
    rewrite !Hdd by lia. f_equal. f_equal. lia.
  - destruct (IH _ Hr) as [H2 E2]. destruct (IH _ H2) as [H3 E3]. split; [done|].
    rewrite E3, E2, !Hdd by lia. f_equal. f_equal. lia.
  - rewrite shr_1_half by done. split; [apply Z.div_pos; lia|done].
Qed.

Lemma shr_record_of_loc_m m l : shr_m (shr_record_of_loc m l) = m.
Proof. by destruct l as [|[]]. Qed.

(** Shifting to the exponent of the format leaves at most [prec] bits. *)
Lemma shr_fexp_fits m e l : 0 <= prec -> 0 <= m ->
  0 <= shr_m (shr_fexp prec emax m e l).1 < 2 ^ prec.
Proof.
  intros Hp Hm. unfold shr_fexp. destruct (Zdigits2_spec m Hm) as [Hd Hlt].
  set (d := Zdigits2 m) in *. set (n := fexp prec emax (d + e) - e).
  assert (Hn : d - prec <= n) by (unfold n, fexp; lia).
  assert (Hsmall : n <= 0 -> 0 <= m < 2 ^ prec).
  { intros Hn0. split; [done|]. eapply Z.lt_le_trans; [exact Hlt|]. apply Z.pow_le_mono_r; lia. }
  destruct n as [|p|p] eqn:En; cbn [shr fst].
  1, 3: rewrite shr_record_of_loc_m; apply Hsmall; lia.
  destruct (iter_shr_1 p (shr_record_of_loc m l)) as [H0 ->]; [by rewrite shr_record_of_loc_m|].
  rewrite shr_record_of_loc_m in *. split; [apply Z.div_pos; [done|apply Z.pow_pos_nonneg; lia]|].
  apply Z.div_lt_upper_bound; [apply Z.pow_pos_nonneg; lia|].
  rewrite <- Z.pow_add_r by lia. eapply Z.lt_le_trans; [exact Hlt|]. apply Z.pow_le_mono_r; lia.
Qed.

Lemma round_nearest_even_nonneg m l : 0 <= m -> 0 <= round_nearest_even m l.
Proof. intros Hm. destruct l as [|[]]; simpl; try lia. destruct (Z.even m); lia. Qed.

Lemma round_aux_fits s m e l : 0 <= prec -> 0 <= m -> fits (binary_round_aux prec emax s m e l).
Proof.
  intros Hp Hm. unfold binary_round_aux.
  pose proof (shr_fexp_fits m e l Hp Hm) as H1. destruct (shr_fexp prec emax m e l) as [r1 e1].
  set (m2 := round_nearest_even _ _).
  assert (Hm2 : 0 <= m2) by (apply round_nearest_even_nonneg, H1).
  pose proof (shr_fexp_fits m2 e1 loc_Exact Hp Hm2) as H2.
  destruct (shr_fexp prec emax m2 e1 loc_Exact) as [r2 e2]. simpl in H2.
  destruct (shr_m r2) as [|p|p]; try done. destruct (_ <=? _); [apply H2|done].
Qed.

Lemma normalize_fits m e z : 0 <= prec -> fits (binary_normalize prec emax m e z).
Proof.
  intros Hp. destruct m as [|m|m]; [done| |]; cbn [binary_normalize]; unfold binary_round;
    destruct (shl_align _ _ _); by apply round_aux_fits.
Qed.

Lemma sub_fits x y : 0 <= prec -> fits x -> fits y -> fits (SFsub prec emax x y).
Proof.
  intros Hp Hx Hy. destruct x as [[]|[]| |sx mx ex], y as [[]|[]| |sy my ey]; try done.
  apply (normalize_fits _ _ _ Hp).
Qed.

(** An integer of at most [prec] bits is represented exactly. *)
Lemma iter_xO m d : Zpos (Pos.iter xO m d) = Zpos m * 2 ^ Zpos d.
Proof.
  revert m. induction d as [|d IH] using Pos.peano_ind; intros m; [simpl; lia|].
  rewrite Pos.iter_succ, Pos2Z.inj_succ, Z.pow_succ_r by lia. rewrite Pos2Z.inj_xO, IH. lia.
Qed.

Lemma round_aux_exact m e :
  0 < prec -> Zpos (digits2_pos m) = prec -> emin prec emax <= e <= emax - prec ->
  binary_round_aux prec emax false (Zpos m) e loc_Exact = S754_finite false m e.
Proof.
  intros Hp Hd He.
  assert (Hn : fexp prec emax (Zdigits2 (Zpos m) + e) - e = 0).
  { unfold fexp. cbn [Zdigits2]. rewrite Hd. lia. }
  unfold binary_round_aux, shr_fexp. rewrite Hn. cbn [shr shr_record_of_loc shr_m loc_of_shr_record].
  cbn [round_nearest_even]. rewrite Hn. cbn [shr shr_record_of_loc shr_m].
  by rewrite (proj2 (Z.leb_le _ _) (proj2 He)).
Qed.

Lemma of_Z_exact m :
  0 < prec -> emin prec emax <= 1 - prec -> prec <= emax -> Zpos m < 2 ^ prec ->
  exists m' k, of_Z (Zpos m) = S754_finite false m' (- k) /\ 0 <= k /\
    Zpos m' = Zpos m * 2 ^ k /\ 2 ^ (prec - 1) <= Zpos m'.
Proof.
  intros Hp Hemin Hemax Hm. pose proof (digits2_pos_spec m) as Hd.
  set (d := Zpos (digits2_pos m)) in *.
  assert (Hdp : d <= prec).
  { destruct (Z.le_gt_cases d prec); [done|].
    assert (2 ^ prec <= 2 ^ (d - 1)) by (apply Z.pow_le_mono_r; lia). lia. }
  assert (Hd1 : 1 <= d) by (unfold d; lia).
  set (k := prec - d).
  assert (Hfe : fexp prec emax (d + 0) = - k) by (unfold fexp, k; lia).
  assert (Hexp : exists m', shl_align m 0 (- k) = (m', - k) /\ Zpos m' = Zpos m * 2 ^ k).
  { unfold shl_align. rewrite Z.sub_0_r. destruct k as [|q|q] eqn:Ek; [|cbn [Z.opp]|unfold k in Ek; lia].
    - exists m. split; [done|]. simpl. lia.
    - eexists. split; [reflexivity|]. apply iter_xO. }
  destruct Hexp as (m' & Hs & Hm'). exists m', k.
  assert (Hk0 : 0 <= k) by (unfold k; lia).
  assert (Hb : 2 ^ (prec - 1) <= Zpos m' < 2 ^ prec).
  { assert (0 < 2 ^ k) by (apply Z.pow_pos_nonneg; lia).
    assert (E1 : 2 ^ (prec - 1) = 2 ^ (d - 1) * 2 ^ k) by (rewrite <- Z.pow_add_r by lia; f_equal; unfold k; lia).
    assert (E2 : 2 ^ prec = 2 ^ d * 2 ^ k) by (rewrite <- Z.pow_add_r by lia; f_equal; unfold k; lia).
    rewrite Hm', E1, E2. split; [apply Z.mul_le_mono_nonneg_r; lia|apply Z.mul_lt_mono_pos_r; lia]. }
  split; [|split; [done|split; [done|apply Hb]]].
  unfold of_Z. cbn [binary_normalize]. unfold binary_round. fold d. rewrite Hfe, Hs.
  apply round_aux_exact; [done| |unfold k; lia]. apply digits2_pos_unique; [done|exact Hb].
Qed.

(** The order of the format is that of the truncated values. *)
Lemma truncate_mono m m' e e' :
  e' <= 0 -> Zpos m < 2 ^ prec -> 2 ^ (prec - 1) <= Zpos m' ->
  e < e' \/ e = e' /\ Zpos m <= Zpos m' -> truncate m e <= truncate m' e'.
Proof.
  intros He Hm Hm' [Hlt|[-> Hle]]; unfold truncate; rewrite !Z.shiftl_div_pow2 by lia.
  2: { apply Z.div_le_mono; [apply Z.pow_pos_nonneg; lia|done]. }
  assert (Hpos : 0 < 2 ^ (- e')) by (apply Z.pow_pos_nonneg; lia).
  replace (- e) with (((- e) - (- e')) + - e') by lia. rewrite Z.pow_add_r by lia.
  assert (Hq : 2 <= 2 ^ (- e - - e')).
  { change 2 with (2 ^ 1) at 1. apply Z.pow_le_mono_r; lia. }
  rewrite <- Z.div_div by lia. apply Z.div_le_mono; [done|].
  assert (Hp : 0 < prec).
  { destruct (Z.lt_ge_cases 0 prec) as [?|Hle]; [done|].
    assert (2 ^ prec <= 2 ^ 0) by (apply Z.pow_le_mono_r; lia). lia. }
  apply Z.div_le_upper_bound; [lia|].
  assert (2 ^ prec = 2 * 2 ^ (prec - 1)) by (rewrite <- Z.pow_succ_r by lia; f_equal; lia). nia.
Qed.

(** [clamp] to an integer, then truncation: at most that integer. *)
Lemma clamp_to_uint x n max :
  0 < prec -> emin prec emax <= 1 - prec -> prec <= emax -> 0 <= n < 2 ^ prec -> 0 <= max ->
  fits x -> 0 <= to_uint max (clamp x (S754_zero false) (of_Z n)) <= n.
Proof.
  intros Hp Hemin Hemax Hn Hmax Hx.
  set (y := if SFltb x (S754_zero false) then S754_zero false else x).
  assert (Hy : fits y) by (unfold y; by destruct (SFltb _ _)).
  unfold clamp. fold y. clearbody y.
  destruct n as [|n|n]; [| |lia].
  { change (of_Z 0) with (S754_zero false). destruct y as [[]|[]| |[] m e]; simpl; lia. }
  destruct (of_Z_exact n Hp Hemin Hemax (proj2 Hn)) as (m' & k & -> & Hk & Hm' & Hbig).
  assert (Htop : truncate m' (- k) = Zpos n).
  { unfold truncate. rewrite Z.shiftl_div_pow2, Z.opp_involutive, Hm' by lia.
    apply Z.div_mul. assert (0 < 2 ^ k) by (apply Z.pow_pos_nonneg; lia). lia. }
  destruct (SFltb (S754_finite false m' (- k)) y) eqn:Hlt; [simpl; rewrite Htop; lia|].
  destruct y as [[]|[]| |[] m e]; simpl; try lia; [done|].
  assert (Hle : truncate m e <= Zpos n /\ 0 <= truncate m e); [|lia].
  split; [|apply Z.shiftl_nonneg; lia]. rewrite <- Htop.
  apply (truncate_mono m m' e (- k)); [lia|exact Hy|exact Hbig|].
  unfold SFltb in Hlt. cbn [SFcompare] in Hlt.
  destruct (Z.compare_spec (- k) e) as [He|He|He]; [|done|by left].
  right. split; [done|]. change (Pos.compare_cont Eq m' m) with (m' ?= m)%positive in Hlt.
  destruct (Pos.compare_spec m' m); lia || done.
Qed.
End Format.

Module F32.
Definition of_Z : Z -> spec_float := Float.of_Z 24 128.
Definition add : spec_float -> spec_float -> spec_float := SFadd 24 128.
Definition sub : spec_float -> spec_float -> spec_float := SFsub 24 128.
Definition mul : spec_float -> spec_float -> spec_float := SFmul 24 128.
Definition div : spec_float -> spec_float -> spec_float := SFdiv 24 128.
Definition round : spec_float -> spec_float := Float.round 24 128.
End F32.

Module F64.
Definition of_Z : Z -> spec_float := Float.of_Z 53 1024.
Definition add : spec_float -> spec_float -> spec_float := SFadd 53 1024.
Definition sub : spec_float -> spec_float -> spec_float := SFsub 53 1024.
Definition mul : spec_float -> spec_float -> spec_float := SFmul 53 1024.
Definition div : spec_float -> spec_float -> spec_float := SFdiv 53 1024.
End F64.
