(* ===== verification/Rounding.v ===== *)
(** * Upper bounds on rounded results

    A correctly rounded operation does not step over a number of the format: if the exact
    result is at most such a number, so is the rounded one.  For multiplication and division
    of numbers that are not negative, over the Standard Library's executable definitions. *)

From S2P Require Import Prelude Float.

Section Rounding.
Context (prec emax : Z).
Context (Hprec : 0 < prec).

(** Zero, or a positive number of at most [mb * 2 ^ eb]. *)
Definition below (mb eb : Z) (x : spec_float) : Prop :=
  match x with
  | S754_zero _ => True
  | S754_finite false m e => e <= eb /\ Zpos m <= mb * 2 ^ (eb - e)
  | _ => False
  end.

Lemma shr_1_exact r : 0 <= shr_m r -> shr_m r mod 2 = 0 -> shr_r r = false -> shr_s r = false ->
  shr_r (shr_1 r) = false /\ shr_s (shr_1 r) = false.
Proof.
  destruct r as [[|[p|p|]|p] r s]; cbn; intros Hm He -> ->; try done; try lia.
  exfalso. rewrite Pos2Z.inj_xI, Z.add_comm, Z.mul_comm, Z.mod_add in He by lia. done.
Qed.

(** Shifting out zeros leaves nothing behind. *)
Lemma iter_shr_exact p : forall r, 0 <= shr_m r -> shr_m r mod 2 ^ Zpos p = 0 ->
  shr_r r = false -> shr_s r = false ->
  shr_r (SpecFloat.iter_pos shr_1 p r) = false /\ shr_s (SpecFloat.iter_pos shr_1 p r) = false.
Proof.
  assert (Hhalf : forall m a b, 0 <= m -> 0 <= a -> 0 <= b -> m mod 2 ^ (a + b) = 0 ->
    m mod 2 ^ a = 0 /\ (m / 2 ^ a) mod 2 ^ b = 0).
  { intros m a b Hm Ha Hb Hmod. assert (0 < 2 ^ a) by (apply Z.pow_pos_nonneg; lia).
    assert (0 < 2 ^ b) by (apply Z.pow_pos_nonneg; lia).
    apply Z.mod_divide in Hmod as [k Hk]; [|rewrite Z.pow_add_r by lia; nia].
    rewrite Z.pow_add_r in Hk by lia. rewrite Hk. replace (k * (2 ^ a * 2 ^ b)) with (k * 2 ^ b * 2 ^ a) by lia.
    rewrite Z.div_mul by lia. split; apply Z.mod_mul; lia. }
  induction p as [p IH|p IH|]; intros r Hr Hmod Hrr Hrs; cbn [SpecFloat.iter_pos].
  - replace (Zpos p~1) with (1 + (Zpos p + Zpos p)) in Hmod by lia.
    destruct (Hhalf _ 1 (Zpos p + Zpos p) Hr ltac:(lia) ltac:(lia) Hmod) as [H0 H1].
    destruct (Hhalf (shr_m r / 2 ^ 1) (Zpos p) (Zpos p) ltac:(by apply Z.div_pos) ltac:(lia) ltac:(lia) H1) as [H2 H3].
    change (2 ^ 1) with 2 in *. destruct (shr_1_exact r Hr H0 Hrr Hrs) as [E1 E2].
    pose proof (shr_1_half r Hr) as E3. assert (P3 : 0 <= shr_m (shr_1 r)) by (rewrite E3; by apply Z.div_pos).
    rewrite <- E3 in H2, H3. destruct (IH _ P3 H2 E1 E2) as [E4 E5].
    destruct (iter_shr_1 p _ P3) as [P6 E6]. rewrite <- E6 in H3. exact (IH _ P6 H3 E4 E5).
  - replace (Zpos p~0) with (Zpos p + Zpos p) in Hmod by lia.
    destruct (Hhalf _ (Zpos p) (Zpos p) Hr ltac:(lia) ltac:(lia) Hmod) as [H2 H3].
    destruct (IH _ Hr H2 Hrr Hrs) as [E4 E5].
    destruct (iter_shr_1 p _ Hr) as [P6 E6]. rewrite <- E6 in H3. exact (IH _ P6 H3 E4 E5).
  - by apply shr_1_exact.
Qed.

Lemma loc_of_record m l : loc_of_shr_record (shr_record_of_loc m l) = l.
Proof. by destruct l as [|[]]. Qed.

Section Bound.
Context (mb eb : Z).
Context (Hmb : 0 < mb < 2 ^ prec) (Hmin : emin prec emax <= eb).

Lemma digits_bound m e : 0 <= m -> e <= eb -> m <= mb * 2 ^ (eb - e) -> fexp prec emax (Zdigits2 m + e) <= eb.
Proof.
  intros Hm He Hle. unfold fexp. apply Z.max_lub; [|done]. destruct m as [|m|m]; [cbn; lia| |lia].
  cbn [Zdigits2]. pose proof (digits2_pos_spec m) as [Hd _]. set (d := Zpos (digits2_pos m)) in *.
  destruct (Z.le_gt_cases (d + e - prec) eb) as [?|Hgt]; [done|exfalso].
  assert (2 ^ prec * 2 ^ (eb - e) <= 2 ^ (d - 1)).
  { rewrite <- Z.pow_add_r by lia. apply Z.pow_le_mono_r; lia. }
  assert (0 < 2 ^ (eb - e)) by (apply Z.pow_pos_nonneg; lia). nia.
Qed.

(** What a mantissa and its location are worth, against the bound. *)
Definition under (m e : Z) (l : location) : Prop :=
  0 <= m /\ e <= eb /\ m <= mb * 2 ^ (eb - e) /\ (l <> loc_Exact -> m < mb * 2 ^ (eb - e)).

Lemma shr_fexp_under m e l : under m e l ->
  let '(r, e1) := shr_fexp prec emax m e l in under (shr_m r) e1 (loc_of_shr_record r).
Proof.
  intros (Hm & He & Hle & Hlt). unfold shr_fexp. pose proof (digits_bound m e Hm He Hle) as Hf.
  destruct (fexp prec emax (Zdigits2 m + e) - e) as [|p|p] eqn:En; cbn [shr].
  1, 3: rewrite shr_record_of_loc_m, loc_of_record; done.
  assert (E1 : e + Zpos p = fexp prec emax (Zdigits2 m + e)) by lia. rewrite E1. set (e1 := fexp _ _ _) in *.
  assert (Hp : 0 < 2 ^ Zpos p) by (apply Z.pow_pos_nonneg; lia).
  assert (EK : mb * 2 ^ (eb - e) = mb * 2 ^ (eb - e1) * 2 ^ Zpos p).
  { rewrite <- Z.mul_assoc, <- Z.pow_add_r by lia. do 2 f_equal. lia. }
  destruct (iter_shr_1 p (shr_record_of_loc m l)) as [H0 Hs]; [by rewrite shr_record_of_loc_m|].
  rewrite shr_record_of_loc_m in Hs. split; [done|]. split; [done|]. rewrite Hs. split.
  - apply Z.div_le_upper_bound; lia.
  - intros Hloc. apply Z.div_lt_upper_bound; [done|]. rewrite Z.mul_comm, <- EK.
    destruct (Z.eq_dec (m mod 2 ^ Zpos p) 0) as [Hz|Hz].
    + apply Hlt. intros ->. apply Hloc.
      destruct (iter_shr_exact p (shr_record_of_loc m loc_Exact)) as [E3 E4]; [done|done|done|done|].
      destruct (SpecFloat.iter_pos shr_1 p _) as [m' r' s']. cbn in *. by rewrite E3, E4.
    + destruct (Z.eq_dec m (mb * 2 ^ (eb - e))) as [Heq|]; [|lia]. exfalso. apply Hz. rewrite Heq, EK.
      apply Z.mod_mul. lia.
Qed.

Lemma round_nearest_under m e l : under m e l -> under (round_nearest_even m l) e loc_Exact.
Proof.
  intros (Hm & He & Hle & Hlt). split; [by apply round_nearest_even_nonneg|]. split; [done|]. split; [|done].
  destruct l as [|c]; [done|]. specialize (Hlt ltac:(done)). destruct c; cbn; try lia. destruct (Z.even m); lia.
Qed.

(** Rounding does not step over the bound. *)
Lemma round_below m e l : eb <= emax - prec -> under m e l -> below mb eb (binary_round_aux prec emax false m e l).
Proof.
  intros Hmax Hu. unfold binary_round_aux. pose proof (shr_fexp_under m e l Hu) as H1.
  destruct (shr_fexp prec emax m e l) as [r1 e1]. apply round_nearest_under in H1.
  pose proof (shr_fexp_under _ _ _ H1) as H2. destruct (shr_fexp prec emax _ e1 loc_Exact) as [r2 e2].
  destruct H2 as (Hm & He & Hle & _). destruct (shr_m r2) as [|q|q]; [done| |lia].
  rewrite (proj2 (Z.leb_le _ _)) by lia. done.
Qed.
End Bound.

(** ** The operations *)

(** A sum of two numbers, the first finite, is a number. *)
Lemma round_is_number s m e l : 0 <= m -> binary_round_aux prec emax s m e l <> S754_nan.
Proof.
  intros Hm. unfold binary_round_aux.
  pose proof (shr_fexp_fits prec emax m e l ltac:(lia) Hm) as H1. destruct (shr_fexp prec emax m e l) as [r1 e1].
  pose proof (round_nearest_even_nonneg (shr_m r1) (loc_of_shr_record r1) (proj1 H1)) as Hr.
  pose proof (shr_fexp_fits prec emax _ e1 loc_Exact ltac:(lia) Hr) as H2.
  destruct (shr_fexp prec emax _ e1 loc_Exact) as [r2 e2]. cbn in H2.
  destruct (shr_m r2); [done| |lia]. by destruct (_ <=? _).
Qed.

Lemma normalize_is_number m e z : binary_normalize prec emax m e z <> S754_nan.
Proof.
  destruct m as [|m|m]; [done| |]; cbn [binary_normalize]; unfold binary_round;
    destruct (shl_align _ _ _); by apply round_is_number.
Qed.

Lemma add_is_number mb eb x y : below mb eb x -> y <> S754_nan -> SFadd prec emax x y <> S754_nan.
Proof.
  destruct x as [[]|[]| |[] mx ex]; cbn [below]; try done; intros _;
    destruct y as [[]|[]| |sy my ey]; intros Hy; try done. cbn [SFadd]. apply normalize_is_number.
Qed.

Lemma add_fits x y : fits prec x -> fits prec y -> fits prec (SFadd prec emax x y).
Proof.
  intros Hx Hy. destruct x as [[]|[]| |sx mx ex], y as [[]|[]| |sy my ey]; try done.
  apply normalize_fits. lia.
Qed.

(** A number that is clamped between zero and a number of the format. *)
Lemma clamp_below x mb eb : 2 ^ (prec - 1) <= Zpos mb -> Zpos mb < 2 ^ prec -> fits prec x -> x <> S754_nan ->
  below (Zpos mb) eb (clamp x (S754_zero false) (S754_finite false mb eb)) /\
  fits prec (clamp x (S754_zero false) (S754_finite false mb eb)).
Proof.
  intros Hb Hb' Hx Hn.
  assert (Htop : below (Zpos mb) eb (S754_finite false mb eb)).
  { split; [lia|]. rewrite Z.sub_diag. simpl. lia. }
  destruct x as [[]|[]| |[] m e]; try done. unfold clamp, SFltb. cbn [SFcompare].
  destruct (Z.compare_spec eb e) as [He|He|He].
  - change (Pos.compare_cont Eq mb m) with (mb ?= m)%positive. subst e.
    destruct (Pos.compare_spec mb m); try done; (split; [|exact Hx]); split; try lia;
      rewrite Z.sub_diag; simpl; lia.
  - done.
  - split; [|exact Hx]. split; [lia|]. cbn in Hx.
    assert (2 <= 2 ^ (eb - e)) by (change 2 with (2 ^ 1) at 1; apply Z.pow_le_mono_r; lia).
    assert (2 ^ prec = 2 * 2 ^ (prec - 1)) by (rewrite <- Z.pow_succ_r by lia; f_equal; lia). nia.
Qed.

(** [as i32] of a bounded number. *)
Lemma to_i32_below mb eb x : eb <= 0 -> below mb eb x -> 0 <= to_i32 x <= Z.max 0 (mb / 2 ^ (- eb)).
Proof.
  intros He. destruct x as [[]|[]| |[] m e]; cbn [below]; try done; try (intros _; simpl; lia). intros [Hee Hm].
  cbn [to_i32]. unfold truncate. rewrite Z.shiftl_div_pow2 by lia.
  assert (Hp : 0 < 2 ^ (- e)) by (apply Z.pow_pos_nonneg; lia).
  assert (Hpb : 0 < 2 ^ (- eb)) by (apply Z.pow_pos_nonneg; lia).
  assert (0 <= Zpos m / 2 ^ (- e)) by (by apply Z.div_pos).
  assert (Zpos m / 2 ^ (- e) <= mb / 2 ^ (- eb)); [|lia].
  etrans; [apply Z.div_le_mono; [done|exact Hm]|].
  replace (- e) with ((eb - e) + - eb) by lia. rewrite Z.pow_add_r by lia.
  assert (0 < 2 ^ (eb - e)) by (apply Z.pow_pos_nonneg; lia).
  rewrite Z.mul_comm, Z.div_mul_cancel_l by lia. done.
Qed.

(** A product. *)
Lemma mul_below ma ea my ey mb eb x :
  0 < mb < 2 ^ prec -> emin prec emax <= eb <= emax - prec -> 0 < ma -> ea + ey <= eb ->
  ma * Zpos my <= mb * 2 ^ (eb - (ea + ey)) ->
  below ma ea x -> below mb eb (SFmul prec emax x (S754_finite false my ey)).
Proof.
  intros Hmb Heb Hma Hee Hprod. destruct x as [s|s| |[] mx ex]; cbn [below SFmul]; try done. intros [He Hx].
  cbn [xorb]. apply round_below; [done|lia|lia|]. rewrite Pos2Z.inj_mul.
  assert (0 < 2 ^ (ea - ex)) by (apply Z.pow_pos_nonneg; lia).
  assert (EK : mb * 2 ^ (eb - (ex + ey)) = mb * 2 ^ (eb - (ea + ey)) * 2 ^ (ea - ex)).
  { rewrite <- Z.mul_assoc, <- Z.pow_add_r by lia. do 2 f_equal. lia. }
  split; [lia|]. split; [lia|]. split; [|done]. rewrite EK. nia.
Qed.

(** A quotient. *)
Lemma div_below ma ea my ey mb eb x :
  0 < mb < 2 ^ prec -> emin prec emax <= eb <= emax - prec -> 0 < ma < 2 ^ prec ->
  ea - (Zpos (digits2_pos my) + ey) <= eb -> eb + ey <= ea -> ma * 2 ^ (ea - (eb + ey)) <= mb * Zpos my ->
  below ma ea x -> below mb eb (SFdiv prec emax x (S754_finite false my ey)).
Proof.
  intros Hmb Heb Hma Hd Hee Hquot. destruct x as [s|s| |[] mx ex]; cbn [below SFdiv]; try done. intros [He Hx].
  unfold SFdiv_core_binary. cbn [Zdigits2 xorb].
  set (e' := Z.min _ (ex - ey)). assert (He' : e' <= ex - ey) by (unfold e'; lia).
  assert (Heb' : e' <= eb).
  { unfold e', fexp. pose proof (digits2_pos_spec mx) as [Hm1 _]. set (d1 := Zpos (digits2_pos mx)) in *.
    assert (d1 + ex <= prec + ea); [|lia].
    destruct (Z.le_gt_cases (d1 + ex) (prec + ea)) as [?|Hgt]; [done|exfalso].
    assert (2 ^ prec * 2 ^ (ea - ex) <= 2 ^ (d1 - 1)).
    { rewrite <- Z.pow_add_r by lia. apply Z.pow_le_mono_r; lia. }
    assert (0 < 2 ^ (ea - ex)) by (apply Z.pow_pos_nonneg; lia). nia. }
  set (s := ex - ey - e'). assert (Hs : 0 <= s) by (unfold s; lia).
  assert (Em : (match s with Zpos _ => Z.shiftl (Zpos mx) s | Z0 => Zpos mx | Zneg _ => 0 end) = Zpos mx * 2 ^ s).
  { destruct s as [|q|q]; [simpl; lia|by rewrite Z.shiftl_mul_pow2|lia]. }
  rewrite Em. pose proof (Z_div_mod (Zpos mx * 2 ^ s) (Zpos my) ltac:(lia)) as Hdm.
  destruct (Z.div_eucl (Zpos mx * 2 ^ s) (Zpos my)) as [q r]. destruct Hdm as [Hqr Hr].
  apply round_below; [done|lia|lia|].
  assert (Hps : 0 < 2 ^ s) by (apply Z.pow_pos_nonneg; lia).
  assert (Hbound : q * Zpos my + r <= mb * 2 ^ (eb - e') * Zpos my).
  { rewrite (Z.mul_comm q), <- Hqr.
    assert (E1 : 2 ^ (ea - ex) * 2 ^ s = 2 ^ (ea - (eb + ey)) * 2 ^ (eb - e')).
    { rewrite <- !Z.pow_add_r by lia. f_equal. unfold s. lia. }
    assert (0 < 2 ^ (eb - e')) by (apply Z.pow_pos_nonneg; lia).
    assert (0 < 2 ^ (ea - ex)) by (apply Z.pow_pos_nonneg; lia).
    transitivity (ma * 2 ^ (ea - ex) * 2 ^ s); [nia|].
    rewrite <- Z.mul_assoc, E1. nia. }
  assert (Hq0 : 0 <= q) by nia.
  split; [done|]. split; [done|]. split; [nia|].
  intros Hl. assert (r <> 0); [|nia]. intros ->. apply Hl. unfold new_location, new_location_even, new_location_odd.
  by destruct (Z.even _).
Qed.
End Rounding.
