(* ===== verification/Pixels.v ===== *)
(** * Loops over pixel buffers

    Indexing that aborts out of range, loops whose body may abort, and loops that write
    each index of a buffer with a sample of its own: what the conversion of frames to YUV
    and the viewer's blit share. *)

From S2P Require Import Prelude.

(** The [?] of a computation that may abort. *)
Notation "'let!' x := c 'in' k" :=
  (match c with Ret x => k | Panic => Panic end)
  (at level 10, x pattern, c at level 200, k at level 200,
   format "'let!'  x  :=  c  'in' '//' k") : rust_scope.

(** [l[i]] and [l[i] = v]: an index out of range aborts. *)
Definition get (l : list Z) (i : Z) : outcome Z :=
  match l !! Z.to_nat i with Some b => Ret b | None => Panic end.

Definition put (l : list Z) (i v : Z) : outcome (list Z) :=
  if Z.of_nat (Z.to_nat i) <? zlen l then Ret (<[Z.to_nat i := v]> l) else Panic.

Lemma get_lookup l i : 0 <= i < zlen l -> get l i = Ret (default 0 (l !! Z.to_nat i)).
Proof.
  intros Hi. unfold get, zlen in *. destruct (lookup_lt_is_Some_2 l (Z.to_nat i)) as [b ->]; [lia|done].
Qed.

Lemma put_insert l i v : 0 <= i < zlen l -> put l i v = Ret (<[Z.to_nat i := v]> l).
Proof. intros Hi. unfold put. by destruct (Z.ltb_spec (Z.of_nat (Z.to_nat i)) (zlen l)); [|lia]. Qed.

Lemma zlen_insert (l : list Z) (i : nat) v : zlen (<[i := v]> l) = zlen l.
Proof. unfold zlen. by rewrite length_insert. Qed.

(** A [for] loop whose body may abort. *)
Fixpoint for_each {A S} (l : list A) (f : A -> S -> outcome S) (s : S) : outcome S :=
  match l with
  | [] => Ret s
  | x :: l => let! s' := f x s in for_each l f s'
  end.

(** A loop aborts when one of its rounds always does. *)
Lemma for_each_panic {A S} (l : list A) (f : A -> S -> outcome S) x s :
  x ∈ l -> (forall s, f x s = Panic) -> for_each l f s = Panic.
Proof.
  intros Hin Hf. revert s. induction l as [|y l IH]; intros s; [by apply not_elem_of_nil in Hin|]. simpl.
  apply elem_of_cons in Hin as [<-|Hin]; [by rewrite Hf|]. destruct (f y s); [by apply IH|done].
Qed.

Section Fill.
Context (sample : Z -> Z).

(** Writing samples at the indices [ks]. *)
Definition fill (ks : list Z) (buf : list Z) : list Z :=
  foldl (fun l k => <[Z.to_nat k := sample k]> l) buf ks.

Lemma length_fill ks buf : length (fill ks buf) = length buf.
Proof.
  revert buf. unfold fill. induction ks as [|k ks IH]; intros buf; simpl; [done|]. by rewrite IH, length_insert.
Qed.

Lemma fill_app ks ks' buf : fill (ks ++ ks') buf = fill ks' (fill ks buf).
Proof. unfold fill. by rewrite foldl_app. Qed.

Lemma fill_lookup ks buf i : (i < length buf)%nat -> Forall (fun k => 0 <= k) ks ->
  Z.of_nat i ∈ ks -> fill ks buf !! i = Some (sample (Z.of_nat i)).
Proof.
  intros Hi Hks Hin. rewrite <- (reverse_involutive ks) in *. generalize dependent (reverse ks). clear ks.
  intros ks. induction ks as [|k ks IH]; intros Hks Hin; [by apply not_elem_of_nil in Hin|].
  rewrite reverse_cons in *. rewrite fill_app. simpl.
  apply Forall_app in Hks as [Hks [Hk _]%Forall_cons_1].
  destruct (decide (k = Z.of_nat i)) as [->|Hne].
  - rewrite Nat2Z.id. apply list_lookup_insert_eq. by rewrite length_fill.
  - rewrite list_lookup_insert_ne by lia. apply IH; [done|].
    apply elem_of_app in Hin as [?|?%list_elem_of_singleton]; [done|congruence].
Qed.

(** A loop whose body writes samples writes them all. *)
Lemma for_each_fill {A} (l : list A) (f : A -> list Z -> outcome (list Z)) (ks : A -> list Z) n buf :
  length buf = n -> (forall x buf, x ∈ l -> length buf = n -> f x buf = Ret (fill (ks x) buf)) ->
  for_each l f buf = Ret (fill (l ≫= ks) buf).
Proof.
  revert buf. induction l as [|x l IH]; intros buf Hn Hf; [done|]. cbn [for_each mbind list_bind].
  rewrite (Hf x buf) by (done || by left). rewrite fill_app. apply IH; [by rewrite length_fill|].
  intros y buf' Hy. apply Hf. by right.
Qed.

End Fill.
