(* ===== verification/Blit.v ===== *)
(** * The viewer's blit (bw-client, [main.rs])

    Decoded frames are scaled into the window's pixel buffer, by the nearest pixel or by
    bilinear interpolation in single precision. *)

From S2P Require Import Prelude Float Pixels.

(** ** The blit *)

Record DecodedImage := { width : Z; height : Z; rgb : list Z }.

Inductive ScaleMode : Type := NearestNeighbor | Bilinear.

Record BlitContext := {
  src : list Z;
  src_w : Z; src_h : Z; src_stride : Z;
  dst_w : Z; dst_h : Z; dst_stride : Z;
  x_scale : spec_float; y_scale : spec_float;
  src_max_x : spec_float; src_max_y : spec_float }.

Definition new_context (pixels : list Z) (sw sh dw dh : Z) : BlitContext :=
  {| src := pixels; src_w := sw; src_h := sh; src_stride := sw * 3;
     dst_w := dw; dst_h := dh; dst_stride := dw * 4;
     x_scale := F32.div (F32.of_Z sw) (F32.of_Z dw);
     y_scale := F32.div (F32.of_Z sh) (F32.of_Z dh);
     src_max_x := F32.of_Z (sw - 1); src_max_y := F32.of_Z (sh - 1) |}.

Definition nearest_pixel (c : BlitContext) (src_row dst_row dst_x : Z) (frame : list Z) :
    outcome (list Z) :=
  let src_x := dst_x * src_w c / dst_w c in
  let si := src_row + src_x * 3 in
  let di := dst_row + dst_x * 4 in
  if (si + 3 <=? zlen (src c)) && (di + 4 <=? zlen frame) then
    let! r := get (src c) si in
    let! frame := put frame di r in
    let! g := get (src c) (si + 1) in
    let! frame := put frame (di + 1) g in
    let! b := get (src c) (si + 2) in
    let! frame := put frame (di + 2) b in
    put frame (di + 3) 255
  else Ret frame.

Definition blit_nearest (c : BlitContext) (frame : list Z) : outcome (list Z) :=
  for_each (seqZ 0 (dst_h c)) (fun dst_y =>
    let src_y := dst_y * src_h c / dst_h c in
    let src_row := src_y * src_stride c in
    let dst_row := dst_y * dst_stride c in
    for_each (seqZ 0 (dst_w c)) (nearest_pixel c src_row dst_row)) frame.

(** A loop that a round can [break] out of. *)
Fixpoint for_each_while {A S} (l : list A) (f : A -> S -> outcome (S * bool)) (s : S) : outcome S :=
  match l with
  | [] => Ret s
  | x :: l =>
      let! (s', go_on) := f x s in
      if go_on then for_each_while l f s' else Ret s'
  end.

(** 0.5 *)
Definition half : spec_float := F32.div (F32.of_Z 1) (F32.of_Z 2).

(** The position in the source along one axis: the two neighbours and the weight of the
    second. *)
Definition neighbours (dst : Z) (scale src_max : spec_float) (len : Z) : Z * Z * spec_float :=
  let s_f := F32.sub (F32.mul (F32.add (F32.of_Z dst) half) scale) half in
  let clamped := clamp s_f (S754_zero false) src_max in
  let s0 := to_uint U64_MAX clamped in
  let s1 := Z.min (s0 + 1) (len - 1) in
  (s0, s1, F32.sub clamped (F32.of_Z s0)).

Definition blend (c : BlitContext) (p00 p10 p01 p11 : Z) (w00 w10 w01 w11 : spec_float) : outcome Z :=
  let! b00 := get (src c) p00 in
  let! b10 := get (src c) p10 in
  let! b01 := get (src c) p01 in
  let! b11 := get (src c) p11 in
  let v :=
    F32.add (F32.add (F32.add (F32.mul w00 (F32.of_Z b00)) (F32.mul w10 (F32.of_Z b10)))
               (F32.mul w01 (F32.of_Z b01))) (F32.mul w11 (F32.of_Z b11)) in
  Ret (to_uint 255 (clamp (F32.round v) (S754_zero false) (F32.of_Z 255))).

Definition bilinear_pixel (c : BlitContext) (dst_row row0 row1 : Z) (fy one_minus_fy : spec_float)
    (dst_x : Z) (frame : list Z) : outcome (list Z * bool) :=
  let di := dst_row + dst_x * 4 in
  if zlen frame <? di + 4 then Ret (frame, false)
  else
    let '(sx0, sx1, fx) := neighbours dst_x (x_scale c) (src_max_x c) (src_w c) in
    let one_minus_fx := F32.sub (F32.of_Z 1) fx in
    let p00 := row0 + sx0 * 3 in
    let p10 := row0 + sx1 * 3 in
    let p01 := row1 + sx0 * 3 in
    let p11 := row1 + sx1 * 3 in
    if zlen (src c) <? p11 + 3 then Ret (frame, false)
    else
      let w00 := F32.mul one_minus_fx one_minus_fy in
      let w10 := F32.mul fx one_minus_fy in
      let w01 := F32.mul one_minus_fx fy in
      let w11 := F32.mul fx fy in
      let! frame := for_each [0; 1; 2] (fun k frame =>
        let! v := blend c (p00 + k) (p10 + k) (p01 + k) (p11 + k) w00 w10 w01 w11 in
        put frame (di + k) v) frame in
      let! frame := put frame (di + 3) 255 in
      Ret (frame, true).

Definition blit_bilinear (c : BlitContext) (frame : list Z) : outcome (list Z) :=
  if (src_w c =? dst_w c) && (src_h c =? dst_h c) then blit_nearest c frame
  else
    for_each (seqZ 0 (dst_h c)) (fun dst_y =>
      let dst_row := dst_y * dst_stride c in
      let '(sy0, sy1, fy) := neighbours dst_y (y_scale c) (src_max_y c) (src_h c) in
      let one_minus_fy := F32.sub (F32.of_Z 1) fy in
      let row0 := sy0 * src_stride c in
      let row1 := sy1 * src_stride c in
      for_each_while (seqZ 0 (dst_w c)) (bilinear_pixel c dst_row row0 row1 fy one_minus_fy)) frame.

Definition blit_rgb_to_frame (frame : list Z) (image : DecodedImage) (win_w win_h : Z)
    (mode : ScaleMode) : outcome (list Z) :=
  let frame := replicate (length frame) 0 in
  if bool_decide (rgb image = []) || (width image =? 0) || (height image =? 0) then Ret frame
  else
    let ctx := new_context (rgb image) (width image) (height image) win_w win_h in
    match mode with
    | NearestNeighbor => blit_nearest ctx frame
    | Bilinear => blit_bilinear ctx frame
    end.

(** ** Reference: each byte of the buffer by itself *)

Section Shown.
Context (image : DecodedImage) (dw dh : Z).

(** Byte [k] of the buffer: the channel of the source pixel at the same relative position,
    or the opaque alpha. *)
Definition shown (k : Z) : Z :=
  let x := (k / 4) mod dw in
  let y := k / 4 / dw in
  if k mod 4 =? 3 then 255
  else
    let sx := x * width image / dw in
    let sy := y * height image / dh in
    default 0 (rgb image !! Z.to_nat ((sy * width image + sx) * 3 + k mod 4)).

Definition picture : list Z := shown <$> seqZ 0 (dw * dh * 4).

Context (Hdw : 0 < dw) (Hdh : 0 < dh) (Hw : 0 < width image) (Hh : 0 < height image).
Context (Hrgb : zlen (rgb image) = width image * height image * 3).

Lemma scaled_range x n m : 0 <= x < n -> 0 < m -> 0 <= x * m / n < m.
Proof. intros Hx Hm. split; [apply Z.div_pos; nia|apply Z.div_lt_upper_bound; nia]. Qed.

(** The four bytes of a pixel of the buffer. *)
Lemma shown_pixel x y c : 0 <= x < dw -> 0 <= y < dh -> 0 <= c < 4 ->
  shown ((y * dw + x) * 4 + c) =
    if c =? 3 then 255
    else default 0 (rgb image !!
           Z.to_nat (y * height image / dh * (width image * 3) + x * width image / dw * 3 + c)).
Proof.
  intros Hx Hy Hc. unfold shown.
  assert (((y * dw + x) * 4 + c) / 4 = y * dw + x) as ->.
  { rewrite Z.add_comm, Z.div_add, Z.div_small by lia. lia. }
  assert (((y * dw + x) * 4 + c) mod 4 = c) as ->.
  { rewrite Z.add_comm, Z.mod_add, Z.mod_small by lia. lia. }
  assert ((y * dw + x) mod dw = x) as ->.
  { rewrite Z.add_comm, Z.mod_add, Z.mod_small by lia. lia. }
  assert ((y * dw + x) / dw = y) as ->.
  { rewrite Z.add_comm, Z.div_add, Z.div_small by lia. lia. }
  destruct (c =? 3); [done|]. do 2 f_equal. f_equal. lia.
Qed.

Definition pixel_keys (y x : Z) : list Z := (fun c => (y * dw + x) * 4 + c) <$> [0; 1; 2; 3].

Lemma nearest_pixel_fill y x frame :
  0 <= x < dw -> 0 <= y < dh -> zlen frame = dw * dh * 4 ->
  nearest_pixel (new_context (rgb image) (width image) (height image) dw dh)
    (y * height image / dh * (width image * 3)) (y * (dw * 4)) x frame =
  Ret (fill shown (pixel_keys y x) frame).
Proof.
  intros Hx Hy Hf. unfold nearest_pixel. cbn [new_context src src_w dst_w].
  pose proof (scaled_range y dh (height image) Hy Hh). pose proof (scaled_range x dw (width image) Hx Hw).
  set (sy := y * height image / dh) in *. set (sx := x * width image / dw) in *.
  assert (Hsi : 0 <= sy * (width image * 3) + sx * 3 /\
            sy * (width image * 3) + sx * 3 + 3 <= zlen (rgb image)) by (rewrite Hrgb; nia).
  assert (Hdi : 0 <= y * (dw * 4) + x * 4 /\ y * (dw * 4) + x * 4 + 4 <= zlen frame) by (rewrite Hf; nia).
  rewrite (proj2 (Z.leb_le _ _) (proj2 Hsi)), (proj2 (Z.leb_le _ _) (proj2 Hdi)). cbn [andb].
  rewrite !get_lookup by lia.
  rewrite !put_insert by (rewrite ?zlen_insert; lia).
  unfold fill, pixel_keys. cbn [fmap list_fmap foldl]. rewrite !shown_pixel by lia.
  cbn [Z.eqb Pos.eqb]. fold sy sx. rewrite !Z.add_0_r.
  replace ((y * dw + x) * 4) with (y * (dw * 4) + x * 4) by lia. done.
Qed.

Lemma fill_picture frame :
  zlen frame = dw * dh * 4 ->
  fill shown (seqZ 0 dh ≫= (fun y => seqZ 0 dw ≫= pixel_keys y)) frame = picture.
Proof.
  intros Hf. unfold zlen in Hf.
  apply list_eq_same_length with (n := Z.to_nat (dw * dh * 4)).
  - unfold picture. by rewrite length_fmap, length_seqZ.
  - rewrite length_fill. lia.
  - intros i x y Hi Hx Hy. unfold picture in Hy.
    rewrite list_lookup_fmap, lookup_seqZ_lt in Hy by lia. simpl in Hy.
    rewrite fill_lookup in Hx; [simplify_eq; f_equal; lia|lia|..].
    + apply Forall_forall. intros k (r & Hk & Hr)%list_elem_of_In%list_elem_of_bind.
      apply list_elem_of_bind in Hk as (q & Hk & Hq). apply elem_of_seqZ in Hr, Hq.
      apply list_elem_of_fmap in Hk as (c & -> & Hc). rewrite !elem_of_cons in Hc.
      assert (0 <= c) by (destruct Hc as [->|[->|[->|[->|Hc]]]]; try lia; by apply not_elem_of_nil in Hc).
      nia.
    + set (k := Z.of_nat i). assert (0 <= k < dw * dh * 4) by lia.
      apply list_elem_of_bind. exists (k / 4 / dw). split; [|apply elem_of_seqZ].
      * apply list_elem_of_bind. exists ((k / 4) mod dw). split; [|apply elem_of_seqZ].
        -- apply list_elem_of_fmap. exists (k mod 4). split.
           ++ rewrite (Z.mul_comm (k / 4 / dw)), <- Z.div_mod by lia.
              rewrite (Z.mul_comm (k / 4)). apply Z.div_mod. lia.
           ++ pose proof (Z.mod_pos_bound k 4). rewrite !elem_of_cons. lia.
        -- pose proof (Z.mod_pos_bound (k / 4) dw). lia.
      * split; [apply Z.div_pos; [apply Z.div_pos; lia|lia]|].
        apply Z.div_lt_upper_bound; [lia|]. apply Z.div_lt_upper_bound; lia.
Qed.

Lemma blit_nearest_picture frame :
  zlen frame = dw * dh * 4 ->
  blit_nearest (new_context (rgb image) (width image) (height image) dw dh) frame = Ret picture.
Proof.
  intros Hf. unfold blit_nearest. cbn [new_context dst_h dst_w src_h src_stride dst_stride].
  rewrite <- (fill_picture frame Hf).
  apply (for_each_fill shown _ _ _ (length frame)); [done|].
  intros y fr Hy%elem_of_seqZ Hl.
  apply (for_each_fill shown _ _ _ (length frame)); [done|].
  intros x fr' Hx%elem_of_seqZ Hl'. apply nearest_pixel_fill; [lia|lia|].
  unfold zlen in *. by rewrite Hl'.
Qed.
End Shown.

(** ** No index is out of range *)

Section Bounds.
Context (c : BlitContext).
Context (Hsw : 0 < src_w c <= 2 ^ 24) (Hsh : 0 < src_h c <= 2 ^ 24).
Context (Hst : 0 <= src_stride c) (Hdst : 0 <= dst_stride c).
Context (Hmx : src_max_x c = F32.of_Z (src_w c - 1)) (Hmy : src_max_y c = F32.of_Z (src_h c - 1)).

(** Loops whose rounds do not abort and keep the buffer's length. *)
Lemma for_each_keeps {A} (l : list A) f n (buf : list Z) : zlen buf = n ->
  (forall x buf, x ∈ l -> zlen buf = n -> exists buf', f x buf = Ret buf' /\ zlen buf' = n) ->
  exists buf', for_each l f buf = Ret buf' /\ zlen buf' = n.
Proof.
  revert buf. induction l as [|x l IH]; intros buf Hn Hf; [by exists buf|]. cbn [for_each].
  destruct (Hf x buf) as (b1 & -> & H1); [by left|done|].
  apply IH; [done|]. intros y b Hy. apply Hf. by right.
Qed.

Lemma for_each_while_keeps {A} (l : list A) f n (buf : list Z) : zlen buf = n ->
  (forall x buf, x ∈ l -> zlen buf = n -> exists buf' g, f x buf = Ret (buf', g) /\ zlen buf' = n) ->
  exists buf', for_each_while l f buf = Ret buf' /\ zlen buf' = n.
Proof.
  revert buf. induction l as [|x l IH]; intros buf Hn Hf; [by exists buf|]. cbn [for_each_while].
  destruct (Hf x buf) as (b1 & g & -> & H1); [by left|done|]. destruct g; [|by exists b1].
  apply IH; [done|]. intros y b Hy. apply Hf. by right.
Qed.

(** The neighbours lie in the source, the first not after the second. *)
Lemma neighbours_range dst scale n : 0 < n <= 2 ^ 24 ->
  let '(s0, s1, _) := neighbours dst scale (F32.of_Z (n - 1)) n in 0 <= s0 <= s1 /\ s1 < n.
Proof.
  intros Hn. unfold neighbours.
  set (x := F32.sub _ _).
  assert (Hx : fits 24 x).
  { apply sub_fits; [done| |done]. unfold F32.mul. generalize (F32.add (F32.of_Z dst) half). intros y.
    destruct y as [[]|[]| |sy my ey], scale as [[]|[]| |ss ms es]; try done. by apply round_aux_fits. }
  pose proof (clamp_to_uint 24 128 x (n - 1) U64_MAX eq_refl ltac:(done) ltac:(done) ltac:(lia)
                ltac:(done) Hx) as Hc.
  unfold F32.of_Z. lia.
Qed.

Lemma nearest_pixel_keeps src_row dst_row x buf : 0 <= src_row -> 0 <= dst_row -> 0 <= x < dst_w c ->
  exists buf', nearest_pixel c src_row dst_row x buf = Ret buf' /\ zlen buf' = zlen buf.
Proof.
  intros Hsr Hdr Hx. unfold nearest_pixel.
  destruct (_ && _) eqn:E; [|by exists buf]. apply andb_true_iff in E. rewrite !Z.leb_le in E.
  assert (Hq : 0 <= x * src_w c / dst_w c) by (apply Z.div_pos; nia).
  set (q := x * src_w c / dst_w c) in *. clearbody q.
  rewrite !get_lookup by lia. rewrite !put_insert by (rewrite ?zlen_insert; lia).
  eexists. split; [reflexivity|]. by rewrite !zlen_insert.
Qed.

Lemma blit_nearest_keeps buf : 0 <= dst_w c -> 0 <= dst_h c ->
  exists buf', blit_nearest c buf = Ret buf' /\ zlen buf' = zlen buf.
Proof.
  intros Hdw Hdh. apply for_each_keeps; [done|]. intros y b Hy%elem_of_seqZ <-.
  apply for_each_keeps; [done|]. intros x b' Hx%elem_of_seqZ <-.
  apply nearest_pixel_keeps; [|nia|lia].
  apply Z.mul_nonneg_nonneg; [|done]. apply Z.div_pos; nia.
Qed.

Lemma blend_in_range p00 p10 p01 p11 w00 w10 w01 w11 :
  0 <= p00 < zlen (src c) -> 0 <= p10 < zlen (src c) -> 0 <= p01 < zlen (src c) ->
  0 <= p11 < zlen (src c) -> exists v, blend c p00 p10 p01 p11 w00 w10 w01 w11 = Ret v.
Proof. intros. unfold blend. rewrite !get_lookup by done. by eexists. Qed.

Lemma bilinear_pixel_keeps dst_row row0 row1 fy gy x buf :
  0 <= dst_row -> 0 <= row0 <= row1 -> 0 <= x ->
  exists buf' g, bilinear_pixel c dst_row row0 row1 fy gy x buf = Ret (buf', g) /\ zlen buf' = zlen buf.
Proof.
  intros Hdr Hr Hx. unfold bilinear_pixel.
  destruct (Z.ltb_spec (zlen buf) (dst_row + x * 4 + 4)); [by exists buf, false|].
  pose proof (neighbours_range x (x_scale c) (src_w c) Hsw) as Hn. rewrite Hmx.
  destruct (neighbours x (x_scale c) _ (src_w c)) as [[s0 s1] fx].
  destruct (Z.ltb_spec (zlen (src c)) (row1 + s1 * 3 + 3)); [by exists buf, false|].
  edestruct (for_each_keeps [0; 1; 2]) as (b1 & -> & H1); [reflexivity| |].
  - intros k b Hk Hb. assert (0 <= k < 3).
    { rewrite !elem_of_cons in Hk. destruct Hk as [->|[->|[->|Hk]]]; try lia. by apply not_elem_of_nil in Hk. }
    edestruct (blend_in_range (row0 + s0 * 3 + k) (row0 + s1 * 3 + k) (row1 + s0 * 3 + k)
                 (row1 + s1 * 3 + k)) as [v ->]; [lia..|].
    rewrite put_insert by lia. eexists. split; [reflexivity|]. by rewrite zlen_insert.
  - rewrite put_insert by lia. eexists _, _. split; [reflexivity|]. by rewrite zlen_insert.
Qed.

Lemma blit_bilinear_keeps buf : 0 <= dst_w c -> 0 <= dst_h c ->
  exists buf', blit_bilinear c buf = Ret buf' /\ zlen buf' = zlen buf.
Proof.
  intros Hdw Hdh. unfold blit_bilinear. destruct (_ && _); [by apply blit_nearest_keeps|].
  apply for_each_keeps; [done|]. intros y b Hy%elem_of_seqZ <-.
  pose proof (neighbours_range y (y_scale c) (src_h c) Hsh) as Hn. rewrite Hmy.
  destruct (neighbours y (y_scale c) _ (src_h c)) as [[s0 s1] fy].
  apply for_each_while_keeps; [done|]. intros x b' Hx%elem_of_seqZ <-.
  apply bilinear_pixel_keeps; nia.
Qed.
End Bounds.

(** ** Properties *)

Definition image_ok (image : DecodedImage) : Prop :=
  0 < width image /\ 0 < height image /\ zlen (rgb image) = width image * height image * 3.

(** The mode scales by the nearest pixel. *)
Definition scales_nearest (image : DecodedImage) (dw dh : Z) (mode : ScaleMode) : Prop :=
  mode = NearestNeighbor \/ width image = dw /\ height image = dh.

(** An image of the size of the window is copied exactly in both modes. *)
Lemma blit_exact (image : DecodedImage) (frame : list Z) (dw dh : Z) (mode : ScaleMode) :
  image_ok image -> 0 < dw -> 0 < dh -> zlen frame = dw * dh * 4 -> scales_nearest image dw dh mode ->
  blit_rgb_to_frame frame image dw dh mode = Ret (picture image dw dh).
Proof.
  unfold blit_rgb_to_frame. intros (Hw & Hh & Hl) Hdw Hdh Hf Hm. rewrite bool_decide_false.
  2: { intros He. rewrite He in Hl. change (zlen (@nil Z)) with 0 in Hl. nia. }
  rewrite (proj2 (Z.eqb_neq _ _)), (proj2 (Z.eqb_neq (height image) 0)) by lia. cbn [orb].
  assert (Hn : blit_nearest (new_context (rgb image) (width image) (height image) dw dh)
            (replicate (length frame) 0) = Ret (picture image dw dh)).
  { apply blit_nearest_picture; try done. unfold zlen. by rewrite length_replicate. }
  destruct mode; [exact Hn|]. unfold blit_bilinear. cbn [new_context src_w dst_w src_h dst_h].
  destruct Hm as [[=]|[E1 E2]]. by rewrite (proj2 (Z.eqb_eq _ _) E1), (proj2 (Z.eqb_eq _ _) E2).
Qed.

(** C39.  Whatever the buffer held before, the nearest blit makes every byte of it the
    channel of the source pixel at the same relative position of the image, or opaque
    alpha; an image of the size of the window is copied exactly in both modes; and an
    empty image leaves the buffer black. *)
Theorem blit_shows_picture (image : DecodedImage) (frame : list Z) (dw dh : Z) (mode : ScaleMode) :
  (image_ok image -> 0 < dw -> 0 < dh -> zlen frame = dw * dh * 4 ->
   scales_nearest image dw dh mode ->
   blit_rgb_to_frame frame image dw dh mode = Ret (picture image dw dh)) /\
  (rgb image = [] \/ width image = 0 \/ height image = 0 ->
   blit_rgb_to_frame frame image dw dh mode = Ret (replicate (length frame) 0)).
Proof.
  split; [apply blit_exact|]. unfold blit_rgb_to_frame.
  intros [->|[->| ->]].
  - done.
  - by rewrite orb_true_r.
  - by rewrite orb_true_r.
Qed.

(** A picture of the image's own size is the image, pixel by pixel. *)
Lemma picture_same_size image k :
  image_ok image -> 0 <= k < width image * height image * 4 -> k mod 4 <> 3 ->
  shown image (width image) (height image) k =
    default 0 (rgb image !! Z.to_nat (k / 4 * 3 + k mod 4)).
Proof.
  intros (Hw & Hh & _) Hk Hc. unfold shown. rewrite (proj2 (Z.eqb_neq _ _) Hc), !Z.div_mul by lia.
  do 2 f_equal. f_equal. rewrite (Z.mul_comm (k / 4 / _)), <- Z.div_mod by lia. done.
Qed.

Lemma blit_shows_picture_witness :
  blit_rgb_to_frame (replicate 32 170) {| width := 2; height := 1; rgb := [1; 2; 3; 4; 5; 6] |} 4 2
    NearestNeighbor =
  Ret (picture {| width := 2; height := 1; rgb := [1; 2; 3; 4; 5; 6] |} 4 2).
Proof.
  apply (proj1 (blit_shows_picture _ _ _ _ _)); [by_decide|lia|lia|reflexivity|by left].
Defined.

(** The blit never aborts and never changes the size of the buffer: for every image
    of at most 2^24 pixels in each direction, however many bytes it really has, every
    window size and every buffer, in both modes, each index the scaling computes in single
    precision is in range. *)
Lemma blit_never_aborts (image : DecodedImage) (frame : list Z) (dw dh : Z) (mode : ScaleMode) :
  0 <= width image <= 2 ^ 24 -> 0 <= height image <= 2 ^ 24 -> 0 <= dw -> 0 <= dh ->
  exists frame', blit_rgb_to_frame frame image dw dh mode = Ret frame' /\ zlen frame' = zlen frame.
Proof.
  intros Hw Hh Hdw Hdh. unfold blit_rgb_to_frame.
  assert (Hz : zlen (replicate (length frame) 0) = zlen frame) by (unfold zlen; by rewrite length_replicate).
  destruct (bool_decide _); [by eexists|].
  destruct (Z.eqb_spec (width image) 0), (Z.eqb_spec (height image) 0); [by eexists..|].
  cbn [orb]. rewrite <- Hz.
  destruct mode; [apply blit_nearest_keeps|apply blit_bilinear_keeps]; simpl; done || lia.
Qed.
