(* ===== verification/Video.v ===== *)
(** * Video encoding (bw-encoder)

    The wire format of an encoded frame ([lib.rs]) and the conversion from BGRA to planar
    YUV ([h264.rs]); the backend and the thread around them are in [Encoder]. *)

From S2P Require Import Prelude Pixels Capture.

(** ** Encoded frames *)

Inductive FrameType : Type := IFrame | PFrame | UnknownFrame.

Inductive Codec : Type := H264 | UnknownCodec.

#[global] Instance Codec_eq_dec : EqDecision Codec.
Proof. solve_decision. Defined.

Record EncodedFrame := {
  ef_session_id : Z;
  ef_sequence : Z;
  ef_timestamp_us : Z;
  ef_frame_type : FrameType;
  ef_width : Z;
  ef_height : Z;
  ef_codec : Codec;
  ef_payload : list Z;
}.

Definition frame_type_code (t : FrameType) : Z :=
  match t with IFrame => 1 | PFrame => 2 | UnknownFrame => 0 end.

Definition codec_code (c : Codec) : Z := match c with H264 => 1 | UnknownCodec => 0 end.

(** [EncodedFrame::to_bytes] *)
Definition to_bytes (f : EncodedFrame) : list Z :=
  be_bytes 8 (ef_session_id f) ++ be_bytes 8 (ef_sequence f) ++ be_bytes 8 (ef_timestamp_us f) ++
  [frame_type_code (ef_frame_type f)] ++ be_bytes 4 (ef_width f) ++ be_bytes 4 (ef_height f) ++
  [codec_code (ef_codec f)] ++ be_bytes 4 (wrap 32 (zlen (ef_payload f))) ++ ef_payload f.

(** The byte at an index known to be in range. *)
Definition byte_at (l : list Z) (i : nat) : Z := default 0 (l !! i).

(** The start code test. *)
Definition start_code (p : list Z) : bool :=
  (byte_at p 0 =? 0) && (byte_at p 1 =? 0) &&
  ((byte_at p 2 =? 0) && (byte_at p 3 =? 1) || (byte_at p 2 =? 1)).

(** [EncodedFrame::from_bytes] *)
Definition from_bytes (data : list Z) : result string EncodedFrame :=
  if zlen data <? 42 then Err "Payload too short to contain header"
  else
    let session_id := be_num (slice data 0 8) in
    let sequence := be_num (slice data 8 16) in
    let timestamp_us := be_num (slice data 16 24) in
    let frame_type :=
      match byte_at data 24 with 1 => IFrame | 2 => PFrame | _ => UnknownFrame end in
    let width := be_num (slice data 25 29) in
    let height := be_num (slice data 29 33) in
    let codec := match byte_at data 33 with 1 => H264 | _ => UnknownCodec end in
    if decide (codec = UnknownCodec) then Err "Unknown codec rejected"
    else
      let payload_len := be_num (slice data 34 38) in
      if zlen data <? 38 + payload_len then Err "Truncated payload"
      else if 38 + payload_len <? zlen data then Err "Trailing garbage in payload"
      else if (4 <? payload_len) && negb (start_code (drop 38 data)) then Err "Malformed H.264 NAL unit"
      else Ok {| ef_session_id := session_id; ef_sequence := sequence; ef_timestamp_us := timestamp_us;
                 ef_frame_type := frame_type; ef_width := width; ef_height := height; ef_codec := codec;
                 ef_payload := slice data 38 (38 + Z.to_nat payload_len) |}.

(** The fields have their types. *)
Definition encoded_ok (f : EncodedFrame) : Prop :=
  uint 64 (ef_session_id f) /\ uint 64 (ef_sequence f) /\ uint 64 (ef_timestamp_us f) /\
  uint 32 (ef_width f) /\ uint 32 (ef_height f) /\ is_bytes (ef_payload f).

(** The fields of the header, read back. *)
Lemma to_bytes_header f :
  slice (to_bytes f) 0 8 = be_bytes 8 (ef_session_id f) /\
  slice (to_bytes f) 8 16 = be_bytes 8 (ef_sequence f) /\
  slice (to_bytes f) 16 24 = be_bytes 8 (ef_timestamp_us f) /\
  byte_at (to_bytes f) 24 = frame_type_code (ef_frame_type f) /\
  slice (to_bytes f) 25 29 = be_bytes 4 (ef_width f) /\
  slice (to_bytes f) 29 33 = be_bytes 4 (ef_height f) /\
  byte_at (to_bytes f) 33 = codec_code (ef_codec f) /\
  slice (to_bytes f) 34 38 = be_bytes 4 (wrap 32 (zlen (ef_payload f))) /\
  drop 38 (to_bytes f) = ef_payload f /\ length (to_bytes f) = (38 + length (ef_payload f))%nat.
Proof. repeat split; reflexivity. Qed.

Lemma from_to_bytes f : encoded_ok f -> zlen (ef_payload f) < 2 ^ 32 ->
  from_bytes (to_bytes f) =
    if zlen (ef_payload f) <? 4 then Err "Payload too short to contain header"
    else if decide (ef_codec f = UnknownCodec) then Err "Unknown codec rejected"
    else if (4 <? zlen (ef_payload f)) && negb (start_code (ef_payload f))
    then Err "Malformed H.264 NAL unit"
    else Ok f.
Proof.
  intros (Hs & Hq & Ht & Hw & Hh & Hp) Hlen.
  destruct (to_bytes_header f) as (H1 & H2 & H3 & H4 & H5 & H6 & H7 & H8 & H9 & H10).
  pose proof (zlen_nonneg (ef_payload f)) as Hnn.
  assert (Hl : zlen (to_bytes f) = 38 + zlen (ef_payload f)) by (unfold zlen; rewrite H10; lia).
  unfold from_bytes. rewrite Hl, H1, H2, H3, H4, H5, H6, H7, H8, H9.
  rewrite wrap_small by (unfold uint; lia). rewrite !be_num_be_bytes by (done || (unfold uint; simpl; lia)).
  destruct (Z.ltb_spec (38 + zlen (ef_payload f)) 42), (Z.ltb_spec (zlen (ef_payload f)) 4); try lia; [done|].
  destruct (Z.ltb_spec (38 + zlen (ef_payload f)) (38 + zlen (ef_payload f))); [lia|].
  replace (slice (to_bytes f) 38 _) with (ef_payload f).
  2: { unfold slice. rewrite H9. rewrite take_ge; [done|]. unfold zlen. lia. }
  destruct f as [? ? ? ft ? ? [] ?]; simpl in *; [|done].
  destruct (_ && _); [done|]. by destruct ft.
Qed.

(** What the decoder makes of the encoder's bytes, for every frame with a payload under
    4 GiB: it returns the frame itself, except that it refuses an unknown codec, a payload of
    more than four bytes without a start code, and (although the header has 38 bytes, not 42)
    every payload of fewer than four bytes. *)
Theorem encoded_frame_roundtrip f : encoded_ok f -> zlen (ef_payload f) < 2 ^ 32 ->
  from_bytes (to_bytes f) =
    if zlen (ef_payload f) <? 4 then Err "Payload too short to contain header"
    else if decide (ef_codec f = UnknownCodec) then Err "Unknown codec rejected"
    else if (4 <? zlen (ef_payload f)) && negb (start_code (ef_payload f))
    then Err "Malformed H.264 NAL unit"
    else Ok f.
Proof. apply from_to_bytes. Qed.

Lemma encoded_frame_roundtrip_witness :
  from_bytes (to_bytes {| ef_session_id := 0; ef_sequence := 9; ef_timestamp_us := 1; ef_frame_type := PFrame;
    ef_width := 2; ef_height := 2; ef_codec := H264; ef_payload := [0; 0; 1; 65; 7] |}) =
  Ok {| ef_session_id := 0; ef_sequence := 9; ef_timestamp_us := 1; ef_frame_type := PFrame;
    ef_width := 2; ef_height := 2; ef_codec := H264; ef_payload := [0; 0; 1; 65; 7] |}.
Proof.
  refine (encoded_frame_roundtrip _ _ _); [|vm_compute; reflexivity].
  unfold encoded_ok, uint, is_bytes, is_byte. simpl. repeat split; try lia. repeat constructor; unfold uint; lia.
Defined.

(** ** BGRA to planar YUV *)

(** [(0..n).step_by(2)] *)
Definition step_by_2 (n : Z) : list Z := (fun i => 2 * i) <$> seqZ 0 ((n + 1) / 2).

Definition luma (r g b : Z) : Z := wrap 8 (Z.shiftr (77 * r + 150 * g + 29 * b + 128) 8).

Definition chroma_u (r g b : Z) : Z := wrap 8 (Z.shiftr (-43 * r - 85 * g + 128 * b + 32768) 8).

Definition chroma_v (r g b : Z) : Z := wrap 8 (Z.shiftr (128 * r - 107 * g - 21 * b + 32768) 8).

(** The pixel at byte [i]: red, green, blue. *)
Definition pixel (bgra : list Z) (i : Z) : outcome (Z * Z * Z) :=
  let! b := get bgra i in
  let! g := get bgra (i + 1) in
  let! r := get bgra (i + 2) in
  Ret (r, g, b).

(** The body of the inner loop: one block of two by two pixels. *)
Definition yuv_block (bgra : list Z) (w u_offset v_offset row col : Z) (yuv : list Z) : outcome (list Z) :=
  let y_row0 := row * w in
  let y_row1 := (row + 1) * w in
  let uv_row := (row / 2) * (w / 2) in
  let i00 := (y_row0 + col) * 4 in
  let i10 := (y_row1 + col) * 4 in
  let! (r00, g00, b00) := pixel bgra i00 in
  let! (r01, g01, b01) := pixel bgra (i00 + 4) in
  let! (r10, g10, b10) := pixel bgra i10 in
  let! (r11, g11, b11) := pixel bgra (i10 + 4) in
  let! yuv := put yuv (y_row0 + col) (luma r00 g00 b00) in
  let! yuv := put yuv (y_row0 + col + 1) (luma r01 g01 b01) in
  let! yuv := put yuv (y_row1 + col) (luma r10 g10 b10) in
  let! yuv := put yuv (y_row1 + col + 1) (luma r11 g11 b11) in
  let r_avg := (r00 + r01 + r10 + r11 + 2) / 4 in
  let g_avg := (g00 + g01 + g10 + g11 + 2) / 4 in
  let b_avg := (b00 + b01 + b10 + b11 + 2) / 4 in
  let uv_idx := uv_row + col / 2 in
  let! yuv := put yuv (u_offset + uv_idx) (chroma_u r_avg g_avg b_avg) in
  put yuv (v_offset + uv_idx) (chroma_v r_avg g_avg b_avg).

Definition bgra_to_yuv420p (bgra : list Z) (width height : Z) : outcome (list Z) :=
  let y_size := wrap 32 (width * height) in
  let uv_size := y_size / 4 in
  let yuv := replicate (Z.to_nat (y_size + uv_size * 2)) 0 in
  for_each (step_by_2 height) (fun row =>
    for_each (step_by_2 width) (fun col =>
      yuv_block bgra width y_size (y_size + uv_size) row col)) yuv.

(** *** Reference: each sample by itself *)

Section reference.
Context (bgra : list Z) (w h : Z).

Definition byte (i : Z) : Z := default 0 (bgra !! Z.to_nat i).

Definition red (x y : Z) : Z := byte ((y * w + x) * 4 + 2).
Definition green (x y : Z) : Z := byte ((y * w + x) * 4 + 1).
Definition blue (x y : Z) : Z := byte ((y * w + x) * 4).

(** The rounded mean of a channel over the block at column [bx], row [by]. *)
Definition mean (c : Z -> Z -> Z) (bx by_ : Z) : Z :=
  (c (2 * bx) (2 * by_) + c (2 * bx + 1) (2 * by_) + c (2 * bx) (2 * by_ + 1) +
   c (2 * bx + 1) (2 * by_ + 1) + 2) / 4.

(** The sample at index [k] of the three planes, one after the other. *)
Definition sample (k : Z) : Z :=
  let n := w * h in
  if k <? n then
    let x := k mod w in let y := k / w in luma (red x y) (green x y) (blue x y)
  else if k <? n + n / 4 then
    let bx := (k - n) mod (w / 2) in let b := (k - n) / (w / 2) in
    chroma_u (mean red bx b) (mean green bx b) (mean blue bx b)
  else
    let bx := (k - n - n / 4) mod (w / 2) in let b := (k - n - n / 4) / (w / 2) in
    chroma_v (mean red bx b) (mean green bx b) (mean blue bx b).

Definition planes : list Z := sample <$> seqZ 0 (w * h + w * h / 4 * 2).

#[local] Abbreviation fill := (fill sample).

(** The indices one block writes. *)
Definition block_keys (row col : Z) : list Z :=
  let n := w * h in let j := row / 2 * (w / 2) + col / 2 in
  [row * w + col; row * w + col + 1; (row + 1) * w + col; (row + 1) * w + col + 1; n + j; n + n / 4 + j].

Context (W H : Z) (HW : w = 2 * W) (HH : h = 2 * H) (HW0 : 0 < W) (HH0 : 0 < H).
Context (Hlen : w * h * 4 <= zlen bgra).

Lemma pixel_ok x y : 0 <= x < w -> 0 <= y < h ->
  pixel bgra ((y * w + x) * 4) = Ret (red x y, green x y, blue x y).
Proof.
  intros Hx Hy. assert (Hb : 0 <= y * w + x < w * h) by nia.
  assert (Hget : forall i, 0 <= i < zlen bgra -> get bgra i = Ret (byte i)).
  { intros i Hi. unfold get, byte, zlen in *. by destruct (lookup_lt_is_Some_2 bgra (Z.to_nat i)) as [b ->]; [lia|]. }
  unfold pixel. rewrite !Hget by lia. done.
Qed.

Lemma put_ok yuv k : 0 <= k < zlen yuv -> put yuv k (sample k) = Ret (<[Z.to_nat k := sample k]> yuv).
Proof. intros Hk. unfold put. destruct (Z.ltb_spec (Z.of_nat (Z.to_nat k)) (zlen yuv)); [done|lia]. Qed.

(** The samples of a block are what the loop computes. *)
Lemma sample_luma x y : 0 <= x < w -> 0 <= y < h ->
  sample (y * w + x) = luma (red x y) (green x y) (blue x y).
Proof.
  intros Hx Hy. unfold sample. destruct (Z.ltb_spec (y * w + x) (w * h)); [|nia].
  rewrite Z.div_add_l, (Z.div_small x), Z.add_0_r by lia.
  by rewrite Z.add_comm, Z_mod_plus_full, Z.mod_small by lia.
Qed.

Lemma quarter : w * h / 4 = W * H.
Proof. subst w h. replace (2 * W * (2 * H)) with (W * H * 4) by lia. by rewrite Z.div_mul. Qed.

Lemma half : w / 2 = W.
Proof. subst w. rewrite Z.mul_comm. by rewrite Z.div_mul. Qed.

Lemma block_coords bx b : 0 <= bx < W -> (b * W + bx) mod W = bx /\ (b * W + bx) / W = b.
Proof.
  intros Hx. rewrite Z.div_add_l, (Z.div_small bx), Z.add_0_r by lia. split; [|done].
  by rewrite Z.add_comm, Z_mod_plus_full, Z.mod_small by lia.
Qed.

Lemma sample_u bx b : 0 <= bx < W -> 0 <= b < H ->
  sample (w * h + (b * W + bx)) = chroma_u (mean red bx b) (mean green bx b) (mean blue bx b).
Proof.
  intros Hx Hy. unfold sample. rewrite quarter, half. destruct (block_coords bx b Hx) as [E1 E2].
  destruct (Z.ltb_spec (w * h + (b * W + bx)) (w * h)); [nia|].
  destruct (Z.ltb_spec (w * h + (b * W + bx)) (w * h + W * H)); [|nia].
  replace (w * h + (b * W + bx) - w * h) with (b * W + bx) by lia. by rewrite E1, E2.
Qed.

Lemma sample_v bx b : 0 <= bx < W -> 0 <= b < H ->
  sample (w * h + w * h / 4 + (b * W + bx)) = chroma_v (mean red bx b) (mean green bx b) (mean blue bx b).
Proof.
  intros Hx Hy. unfold sample. rewrite quarter, half. destruct (block_coords bx b Hx) as [E1 E2].
  destruct (Z.ltb_spec (w * h + W * H + (b * W + bx)) (w * h)); [nia|].
  destruct (Z.ltb_spec (w * h + W * H + (b * W + bx)) (w * h + W * H)); [nia|].
  replace (w * h + W * H + (b * W + bx) - w * h - W * H) with (b * W + bx) by lia. by rewrite E1, E2.
Qed.

Lemma yuv_block_fill bx b yuv : 0 <= bx < W -> 0 <= b < H ->
  zlen yuv = w * h + w * h / 4 * 2 ->
  yuv_block bgra w (w * h) (w * h + w * h / 4) (2 * b) (2 * bx) yuv =
    Ret (fill (block_keys (2 * b) (2 * bx)) yuv).
Proof.
  intros Hx Hy Hn. rewrite quarter in Hn. unfold yuv_block, block_keys.
  assert (E1 : 2 * b / 2 = b) by (rewrite Z.mul_comm; by rewrite Z.div_mul).
  assert (E2 : 2 * bx / 2 = bx) by (rewrite Z.mul_comm; by rewrite Z.div_mul).
  rewrite E1, E2, half.
  replace ((2 * b * w + 2 * bx) * 4 + 4) with ((2 * b * w + (2 * bx + 1)) * 4) by lia.
  replace (((2 * b + 1) * w + 2 * bx) * 4 + 4) with (((2 * b + 1) * w + (2 * bx + 1)) * 4) by lia.
  rewrite !pixel_ok by lia.
  replace (2 * b * w + 2 * bx + 1) with (2 * b * w + (2 * bx + 1)) by lia.
  replace ((2 * b + 1) * w + 2 * bx + 1) with ((2 * b + 1) * w + (2 * bx + 1)) by lia.
  rewrite <- !sample_luma by lia.
  fold (mean red bx b) (mean green bx b) (mean blue bx b).
  rewrite <- sample_u, <- sample_v by lia. rewrite quarter.
  assert (Hput : forall l k, length l = length yuv -> 0 <= k < w * h + W * H * 2 ->
    put l k (sample k) = Ret (<[Z.to_nat k := sample k]> l)).
  { intros l k Hl Hk. apply put_ok. unfold zlen in *. rewrite Hl, Hn. lia. }
  rewrite !Hput by (rewrite ?length_insert; (done || nia)). done.
Qed.

Lemma step_by_2_even m : step_by_2 (2 * m) = (fun i => 2 * i) <$> seqZ 0 m.
Proof. unfold step_by_2. by replace ((2 * m + 1) / 2) with m by (Z.div_mod_to_equations; lia). Qed.

Lemma step_by_2_elem m x : x ∈ step_by_2 (2 * m) <-> exists i, x = 2 * i /\ 0 <= i < m.
Proof.
  rewrite step_by_2_even, list_elem_of_fmap. setoid_rewrite elem_of_seqZ.
  split; intros (i & -> & ?); exists i; split; (done || lia).
Qed.

(** Every index of the three planes belongs to a block. *)
Lemma keys_complete k : 0 <= k < w * h + w * h / 4 * 2 ->
  exists b bx, 0 <= b < H /\ 0 <= bx < W /\ k ∈ block_keys (2 * b) (2 * bx).
Proof.
  rewrite quarter. intros Hk. unfold block_keys. rewrite quarter, half.
  assert (Hdm : forall j m, 0 < m -> j = m * (j / m) + j mod m /\ 0 <= j mod m < m)
    by (intros j m Hm; split; [by apply Z.div_mod; lia|by apply Z.mod_pos_bound]).
  destruct (Z.lt_ge_cases k (w * h)) as [Hlt|Hge].
  - destruct (Hdm k w) as [E1 B1]; [lia|]. destruct (Hdm (k / w) 2) as [E2 B2]; [lia|].
    destruct (Hdm (k mod w) 2) as [E3 B3]; [lia|].
    generalize dependent (k mod w). generalize dependent (k / w). intros y E2 B2 x E1 B1 E3 B3.
    generalize dependent (y / 2). generalize dependent (y mod 2). generalize dependent (x / 2).
    generalize dependent (x mod 2). intros c Hc bx Ex d Hd b Ey. exists b, bx.
    assert (0 <= y < h) by nia. split; [lia|]. split; [lia|]. subst y x.
    rewrite !elem_of_cons. assert (c = 0 \/ c = 1) as [-> | ->] by lia; assert (d = 0 \/ d = 1) as [-> | ->] by lia; lia.
  - set (j := k - w * h). destruct (Z.lt_ge_cases j (W * H)) as [Hu|Hv].
    + exists (j / W), (j mod W). destruct (Hdm j W) as [E B]; [lia|].
      split; [split; [apply Z.div_pos; lia|apply Z.div_lt_upper_bound; lia]|]. split; [lia|].
      assert (2 * (j / W) / 2 = j / W) as -> by (rewrite Z.mul_comm; by rewrite Z.div_mul).
      assert (2 * (j mod W) / 2 = j mod W) as -> by (rewrite Z.mul_comm; by rewrite Z.div_mul).
      rewrite !elem_of_cons. lia.
    + exists ((j - W * H) / W), ((j - W * H) mod W). destruct (Hdm (j - W * H) W) as [E B]; [lia|].
      split; [split; [apply Z.div_pos; lia|apply Z.div_lt_upper_bound; lia]|]. split; [lia|].
      assert (2 * ((j - W * H) / W) / 2 = (j - W * H) / W) as -> by (rewrite Z.mul_comm; by rewrite Z.div_mul).
      assert (2 * ((j - W * H) mod W) / 2 = (j - W * H) mod W) as -> by (rewrite Z.mul_comm; by rewrite Z.div_mul).
      rewrite !elem_of_cons. lia.
Qed.

Lemma bgra_to_yuv420p_planes : w * h < 2 ^ 32 -> bgra_to_yuv420p bgra w h = Ret planes.
Proof.
  intros Hsz. unfold bgra_to_yuv420p. rewrite wrap_small by (unfold uint; nia).
  set (n := w * h + w * h / 4 * 2). pose proof quarter as Hq.
  assert (Hn0 : 0 <= n) by (unfold n; rewrite Hq; nia).
  set (row_keys row := step_by_2 w ≫= block_keys row).
  rewrite (for_each_fill sample _ _ row_keys (Z.to_nat n)); [|apply length_replicate|].
  2: { intros row yuv Hrow Hl. rewrite HH in Hrow. apply step_by_2_elem in Hrow as (b & -> & Hb).
    apply (for_each_fill sample _ _ (block_keys (2 * b)) (Z.to_nat n)); [done|].
    intros col yuv' Hcol Hl'. rewrite HW in Hcol. apply step_by_2_elem in Hcol as (bx & -> & Hbx).
    apply yuv_block_fill; [done|done|]. unfold zlen. rewrite Hl'. fold n. lia. }
  f_equal. apply list_eq_same_length with (n := Z.to_nat n).
  - unfold planes. by rewrite length_fmap, length_seqZ.
  - by rewrite length_fill, length_replicate.
  - intros i x y Hi Hx Hy. unfold planes in Hy.
    rewrite list_lookup_fmap, lookup_seqZ_lt in Hy by lia. simpl in Hy.
    rewrite fill_lookup in Hx; [simplify_eq; f_equal; lia|by rewrite length_replicate|..].
    + apply Forall_forall. intros k (row & Hk & Hrow)%list_elem_of_In%list_elem_of_bind.
      apply list_elem_of_bind in Hk as (col & Hk & Hcol).
      rewrite HH in Hrow. apply step_by_2_elem in Hrow as (b & -> & Hb).
      rewrite HW in Hcol. apply step_by_2_elem in Hcol as (bx & -> & Hbx).
      unfold block_keys in Hk. rewrite Hq, half in Hk.
      assert (2 * b / 2 = b) as E1 by (rewrite Z.mul_comm; by rewrite Z.div_mul).
      assert (2 * bx / 2 = bx) as E2 by (rewrite Z.mul_comm; by rewrite Z.div_mul).
      rewrite E1, E2 in Hk. rewrite !elem_of_cons in Hk. destruct_or!; try nia. by apply not_elem_of_nil in Hk.
    + destruct (keys_complete (Z.of_nat i)) as (b & bx & Hb & Hbx & Hk); [fold n; lia|].
      apply list_elem_of_bind. exists (2 * b). split; [|rewrite HH; apply step_by_2_elem; eauto].
      apply list_elem_of_bind. exists (2 * bx). split; [done|rewrite HW; apply step_by_2_elem; eauto].
Qed.
End reference.

(** C34.  For frames of even size the blockwise conversion is equivalent to computing every
    sample of the three planes by itself from the pixels it stands for: full-resolution luma,
    and for each block of two by two pixels the chroma of the rounded mean colour; no index
    leaves its buffer. *)
Theorem yuv_conversion_equiv bgra W H : 0 < W -> 0 < H -> 2 * W * (2 * H) < 2 ^ 32 ->
  2 * W * (2 * H) * 4 <= zlen bgra ->
  bgra_to_yuv420p bgra (2 * W) (2 * H) = Ret (planes bgra (2 * W) (2 * H)).
Proof. intros. by apply (bgra_to_yuv420p_planes bgra (2 * W) (2 * H) W H). Qed.

Lemma yuv_conversion_equiv_witness :
  bgra_to_yuv420p (replicate 16 255) 2 2 = Ret [255; 255; 255; 255; 128; 128].
Proof.
  refine (eq_trans (yuv_conversion_equiv (replicate 16 255) 1 1 _ _ _ _) _);
    [lia|lia|lia|vm_compute; congruence|vm_compute; reflexivity].
Defined.

(** C35.  The fixed-point arithmetic never leaves a byte: for every colour the three shifted
    sums lie between 0 and 255, so that the final truncation changes nothing, and the luma
    is within a half of the weighted mean. *)
Theorem yuv_samples_exact r g b : is_byte r -> is_byte g -> is_byte b ->
  luma r g b = (77 * r + 150 * g + 29 * b + 128) / 256 /\
  chroma_u r g b = (-43 * r - 85 * g + 128 * b + 32768) / 256 /\
  chroma_v r g b = (128 * r - 107 * g - 21 * b + 32768) / 256 /\
  is_byte (luma r g b) /\ is_byte (chroma_u r g b) /\ is_byte (chroma_v r g b) /\
  Z.abs (256 * luma r g b - (77 * r + 150 * g + 29 * b)) <= 128.
Proof.
  unfold is_byte, uint. intros Hr Hg Hb. unfold luma, chroma_u, chroma_v. rewrite !Z.shiftr_div_pow2 by lia.
  change (2 ^ 8) with 256 in *. unfold wrap. change (2 ^ 8) with 256.
  rewrite !(Z.mod_small (_ / 256)) by (Z.div_mod_to_equations; lia).
  Z.div_mod_to_equations. lia.
Qed.

Lemma yuv_samples_exact_witness : luma 255 0 0 = (77 * 255 + 128) / 256.
Proof. refine (proj1 (yuv_samples_exact 255 0 0 _ _ _)); unfold is_byte, uint; lia. Defined.

Lemma step_by_2_last n i : 0 <= i -> 2 * i < n -> 2 * i ∈ step_by_2 n.
Proof.
  intros Hi Hn. apply list_elem_of_fmap. exists i. split; [done|]. apply elem_of_seqZ.
  Z.div_mod_to_equations. lia.
Qed.

Lemma pixel_out bgra i : zlen bgra <= i -> pixel bgra i = Panic.
Proof.
  intros Hi. unfold pixel, get, zlen in *. rewrite lookup_ge_None_2 by lia. done.
Qed.

Lemma yuv_block_out bgra w u v row col yuv :
  zlen bgra <= ((row + 1) * w + col) * 4 + 4 -> yuv_block bgra w u v row col yuv = Panic.
Proof.
  intros Hi. unfold yuv_block.
  destruct (pixel bgra ((row * w + col) * 4)) as [[[? ?] ?]|]; [|done].
  destruct (pixel bgra ((row * w + col) * 4 + 4)) as [[[? ?] ?]|]; [|done].
  destruct (pixel bgra (((row + 1) * w + col) * 4)) as [[[? ?] ?]|]; [|done].
  by rewrite pixel_out.
Qed.

(** A frame of odd width or height, tightly packed, aborts the encoder thread: the last
    block reaches past the end of the pixels. *)
Theorem odd_frame_aborts bgra w h : 0 < w -> 0 < h -> Z.odd w = true \/ Z.odd h = true ->
  zlen bgra = w * h * 4 -> bgra_to_yuv420p bgra w h = Panic.
Proof.
  intros Hw Hh Hodd Hl. unfold bgra_to_yuv420p.
  assert (Hhalf : forall m, Z.odd m = true -> m = 2 * (m / 2) + 1).
  { intros m Hm. rewrite (Z.div_mod m 2) at 1 by lia. by rewrite Zmod_odd, Hm. }
  set (r := (h - 1) / 2). set (c := (w - 1) / 2).
  apply for_each_panic with (x := 2 * r).
  { apply step_by_2_last; unfold r; Z.div_mod_to_equations; lia. }
  intros s. apply for_each_panic with (x := 2 * c).
  { apply step_by_2_last; unfold c; Z.div_mod_to_equations; lia. }
  intros yuv. apply yuv_block_out. rewrite Hl.
  assert (Hr : h - 2 <= 2 * r <= h - 1) by (unfold r; Z.div_mod_to_equations; lia).
  assert (Hc : w - 2 <= 2 * c <= w - 1) by (unfold c; Z.div_mod_to_equations; lia).
  destruct Hodd as [Ho|Ho]; apply Hhalf in Ho.
  - assert (2 * c = w - 1) by (unfold c; Z.div_mod_to_equations; lia). nia.
  - assert (2 * r = h - 1) by (unfold r; Z.div_mod_to_equations; lia). nia.
Qed.

Lemma odd_frame_aborts_witness : bgra_to_yuv420p (replicate 24 0) 3 2 = Panic.
Proof.
  refine (odd_frame_aborts (replicate 24 0) 3 2 _ _ _ _); [lia|lia|left; reflexivity|vm_compute; reflexivity].
Defined.
