(* ===== verification/Encoder.v ===== *)
(** * The encoder backend and its thread (bw-encoder, [h264.rs] and [pipeline.rs])

    [OpenH264Backend] around an encoder that is an interface, and the loop of the encoder
    thread, which encodes only the newest frame it finds and drops what the channel does
    not take. *)

From S2P Require Import Prelude Pixels Capture Video.

Record EncoderConfig := { target_bitrate : Z; framerate : Z; keyframe_interval : Z }.

Definition encoder_config_default : EncoderConfig :=
  {| target_bitrate := 5000000; framerate := 60; keyframe_interval := 120 |}.

Inductive EncoderError : Type :=
| InitFailed (e : string)
| EncodeFailed (e : string)
| EncoderStopped.

(** What the encoder is given: [BasicYuvSource]. *)
Record BasicYuvSource := { yw : Z; yh : Z; y_plane : list Z; u_plane : list Z; v_plane : list Z }.

(** [YUVSource::dimensions] and [YUVSource::strides] *)
Definition dimensions (s : BasicYuvSource) : Z * Z := (yw s, yh s).
Definition strides (s : BasicYuvSource) : Z * Z * Z := (yw s, yw s / 2, yw s / 2).

(** The OpenH264 library; [Err] is the text of its error. *)
Class OpenH264 (E : Type) := {
  encoder_new : result string E;
  force_intra_frame : E -> E;
  encode : E -> BasicYuvSource -> E * result string (list Z);
}.

(** ** The scan for an IDR picture *)

Fixpoint has_idr (payload : list Z) : bool :=
  match payload with
  | [] => false
  | a :: rest =>
      match rest with
      | b :: c :: d :: e :: _ =>
          if (a =? 0) && (b =? 0) && (c =? 0) && (d =? 1) then
            if Z.land e 31 =? 5 then true else has_idr rest
          else if (a =? 0) && (b =? 0) && (c =? 1) then
            if Z.land d 31 =? 5 then true else has_idr rest
          else has_idr rest
      | _ => false
      end
  end.

(** What the backend relies on: an encoder can owe an intra picture ([pending]); a new one
    and one that was asked to force one do; the next picture it encodes is then an IDR
    picture, and an attempt that fails leaves it owing. *)
Class OpenH264Laws (E : Type) `{OpenH264 E} := {
  pending : E -> bool;
  pending_new e : encoder_new = Ok e -> pending e = true;
  pending_force e : pending (force_intra_frame e) = true;
  pending_idr e s e' payload :
    pending e = true -> encode e s = (e', Ok payload) -> has_idr payload = true;
  pending_err e s e' err : pending e = true -> encode e s = (e', Err err) -> pending e' = true;
}.

(** [&l[i..j]] *)
Definition subslice (l : list Z) (i j : Z) : outcome (list Z) :=
  if (i <=? j) && (j <=? zlen l) then Ret (slice l (Z.to_nat i) (Z.to_nat j)) else Panic.

Section backend.
Context {E : Type} `{OpenH264 E}.

Record OpenH264Backend := {
  encoder : option E;
  bwidth : Z;
  bheight : Z;
  config : EncoderConfig;
  frames_since_idr : Z;
}.

Definition backend_new : OpenH264Backend :=
  {| encoder := None; bwidth := 0; bheight := 0; config := encoder_config_default; frames_since_idr := 0 |}.

Definition set_encoder (b : OpenH264Backend) (e : option E) : OpenH264Backend :=
  {| encoder := e; bwidth := bwidth b; bheight := bheight b; config := config b;
     frames_since_idr := frames_since_idr b |}.

Definition set_frames (b : OpenH264Backend) (n : Z) : OpenH264Backend :=
  {| encoder := encoder b; bwidth := bwidth b; bheight := bheight b; config := config b;
     frames_since_idr := n |}.

(** [OpenH264Backend::start] *)
Definition start (b : OpenH264Backend) (w h : Z) (cfg : EncoderConfig) :
    OpenH264Backend * result EncoderError unit :=
  match encoder_new with
  | Err e => (b, Err (InitFailed e))
  | Ok e =>
      ({| encoder := Some e; bwidth := w; bheight := h; config := cfg; frames_since_idr := 0 |}, Ok tt)
  end.

(** The buffer holds at least the pixels of the frame. *)
Definition has_pixels (f : Frame) : bool :=
  let expected := fwidth f * fheight f in
  if (expected <? 2 ^ 64) && (expected * 4 <? 2 ^ 64) then expected * 4 <=? zlen (buffer f) else false.

(** The encoder of the right size, started when there is none. *)
Definition ensure_started (b : OpenH264Backend) (f : Frame) : OpenH264Backend * result EncoderError unit :=
  match encoder b with
  | Some _ =>
      if negb (fwidth f =? bwidth b) || negb (fheight f =? bheight b)
      then start b (fwidth f) (fheight f) (config b) else (b, Ok tt)
  | None => start b (fwidth f) (fheight f) (config b)
  end.

(** The encoder that is due a keyframe is asked for one. *)
Definition enforce_interval (b : OpenH264Backend) (e : E) : E :=
  if (0 <? keyframe_interval (config b)) && (keyframe_interval (config b) <=? frames_since_idr b)
  then force_intra_frame e else e.

(** The three planes of the converted frame. *)
Definition yuv_source (b : OpenH264Backend) (f : Frame) : outcome BasicYuvSource :=
  let! yuv := bgra_to_yuv420p (buffer f) (fwidth f) (fheight f) in
  let n := wrap 32 (bwidth b * bheight b) in
  let m := wrap 32 (n + n / 4) in
  let! y := subslice yuv 0 n in
  let! u := subslice yuv n m in
  let! v := subslice yuv m (zlen yuv) in
  Ret {| yw := bwidth b; yh := bheight b; y_plane := y; u_plane := u; v_plane := v |}.

(** [OpenH264Backend::encode_frame] *)
Definition encode_frame (b : OpenH264Backend) (f : Frame) (sequence : Z) :
    outcome (OpenH264Backend * result EncoderError EncodedFrame) :=
  if negb (has_pixels f) then
    Ret (b, Err (EncodeFailed "frame has no pixel data (empty capture frame)"))
  else
    match ensure_started b f with
    | (b, Err e) => Ret (b, Err e)
    | (b, Ok _) =>
        match encoder b with
        | None => Ret (b, Err EncoderStopped)
        | Some e =>
            let e := enforce_interval b e in
            let! source := yuv_source b f in
            match encode e source with
            | (e, Err err) => Ret (set_encoder b (Some e), Err (EncodeFailed err))
            | (e, Ok payload) =>
                let is_idr := has_idr payload in
                let n := if is_idr then 0 else wrap 32 (frames_since_idr b + 1) in
                Ret (set_frames (set_encoder b (Some e)) n,
                     Ok {| ef_session_id := 0; ef_sequence := sequence;
                           ef_timestamp_us := timestamp_us f;
                           ef_frame_type := if is_idr then IFrame else PFrame;
                           ef_width := bwidth b; ef_height := bheight b; ef_codec := H264;
                           ef_payload := payload |})
            end
        end
    end.

Definition force_keyframe (b : OpenH264Backend) : OpenH264Backend :=
  set_frames (set_encoder b (force_intra_frame <$> encoder b)) 0.

(** [OpenH264Backend::stop] *)
Definition stop (b : OpenH264Backend) : OpenH264Backend := set_encoder b None.

(** ** The encoder thread *)

(** What [try_send] says. *)
Inductive SendResult : Type := Sent | Full | Closed.

(** The state of the loop.  [dropped] is auxiliary: a frame was dropped since the last one
    that was sent; [log] pairs each frame sent with it. *)
Record Pipeline := {
  backend : OpenH264Backend;
  sequence : Z;
  log : list (bool * EncodedFrame);
  dropped : bool;
  open : bool;
}.

Definition pipeline_new (b : OpenH264Backend) : Pipeline :=
  {| backend := b; sequence := 0; log := []; dropped := false; open := true |}.

(** The frame that is encoded: the newest of those that were waiting. *)
Definition drain (first : Frame) (newer : list Frame) : Frame := foldl (fun _ f => f) first newer.

(** One turn of [EncoderPipeline::spawn]'s loop: a frame arrives, with [newer] ones queued
    behind it, and the channel answers [r]. *)
Definition pipeline_turn (p : Pipeline) (first : Frame) (newer : list Frame) (r : SendResult) :
    outcome Pipeline :=
  let frame := drain first newer in
  let b := if is_refresh frame then force_keyframe (backend p) else backend p in
  let! (b, res) := encode_frame b frame (sequence p) in
  match res with
  | Err _ =>
      Ret {| backend := b; sequence := sequence p; log := log p; dropped := dropped p; open := true |}
  | Ok ef =>
      match r with
      | Sent =>
          Ret {| backend := b; sequence := wrap 64 (sequence p + 1); log := log p ++ [(dropped p, ef)];
                 dropped := false; open := true |}
      | Full =>
          Ret {| backend := force_keyframe b; sequence := sequence p; log := log p;
                 dropped := true; open := true |}
      | Closed =>
          Ret {| backend := stop b; sequence := sequence p; log := log p;
                 dropped := dropped p; open := false |}
      end
  end.

(** The turns of the thread, as long as the channel is open. *)
Fixpoint pipeline_run (p : Pipeline) (turns : list (Frame * list Frame * SendResult)) : outcome Pipeline :=
  match turns with
  | [] => Ret p
  | (first, newer, r) :: turns =>
      if negb (open p) then Ret p
      else let! p := pipeline_turn p first newer r in pipeline_run p turns
  end.
End backend.

Arguments OpenH264Backend : clear implicits.
Arguments Pipeline : clear implicits.

(** ** Keyframes *)

Section keyframes.
Context {E : Type} `{OpenH264Laws E}.

(** The next picture will be an IDR picture. *)
Definition owes (b : OpenH264Backend E) : Prop :=
  match encoder b with None => True | Some e => pending e = true end.

(** [r] pictures were encoded since the last IDR picture. *)
Definition key_inv (K r : Z) (b : OpenH264Backend E) : Prop :=
  keyframe_interval (config b) = K /\ (owes b \/ frames_since_idr b = r).

(** Frames the conversion can handle. *)
Definition even_frame (f : Frame) : Prop :=
  exists W H, 0 < W /\ 0 < H /\ fwidth f = 2 * W /\ fheight f = 2 * H /\ 5 * (W * H) < 2 ^ 32.

Lemma force_keyframe_owes (b : OpenH264Backend E) : owes (force_keyframe b).
Proof. unfold owes, force_keyframe. simpl. destruct (encoder b); simpl; [apply pending_force|done]. Qed.

Lemma force_keyframe_inv K r r' b : key_inv K r b -> key_inv K r' (force_keyframe b).
Proof. intros [Hk _]. split; [done|]. left. apply force_keyframe_owes. Qed.

Lemma ensure_started_ok K r b f b' res : key_inv K r b -> ensure_started b f = (b', res) ->
  key_inv K r b' /\ (owes b -> owes b') /\
  (res = Ok tt -> bwidth b' = fwidth f /\ bheight b' = fheight f /\ exists e, encoder b' = Some e).
Proof.
  intros [Hk Ho] Hs.
  assert (Hst : forall res', start b (fwidth f) (fheight f) (config b) = (b', res') ->
    key_inv K r b' /\ (owes b -> owes b') /\
    (res' = Ok tt -> bwidth b' = fwidth f /\ bheight b' = fheight f /\ exists e, encoder b' = Some e)).
  { intros res'. unfold start. destruct encoder_new as [e|e] eqn:He; intros [= <- <-].
    - assert (pending e = true) by (by apply pending_new). repeat split; eauto.
    - by repeat split. }
  unfold ensure_started in Hs. destruct (encoder b) as [e|] eqn:Hb; [|by apply Hst].
  destruct (Z.eqb_spec (fwidth f) (bwidth b)), (Z.eqb_spec (fheight f) (bheight b)); simpl in Hs;
    try by apply Hst. injection Hs as <- <-. repeat split; eauto.
Qed.

Lemma subslice_ok l i j : 0 <= i <= j -> j <= zlen l -> exists k, subslice l i j = Ret k.
Proof.
  intros Hij Hj. unfold subslice. destruct (Z.leb_spec i j), (Z.leb_spec j (zlen l)); try lia. simpl. eauto.
Qed.

Lemma yuv_source_ok (b : OpenH264Backend E) f : even_frame f -> has_pixels f = true ->
  bwidth b = fwidth f -> bheight b = fheight f -> exists s, yuv_source b f = Ret s.
Proof.
  intros (W & Ht & HW & HH & Hw & Hh & Hsz) Hpx Hbw Hbh. unfold yuv_source.
  assert (Hlen : 2 * W * (2 * Ht) * 4 <= zlen (buffer f)).
  { unfold has_pixels in Hpx. rewrite Hw, Hh in Hpx. destruct (_ && _); [|done]. lia. }
  rewrite Hbw, Hbh, Hw, Hh.
  rewrite (bgra_to_yuv420p_planes (buffer f) (2 * W) (2 * Ht) W Ht) by (done || lia).
  assert (Hq : 2 * W * (2 * Ht) / 4 = W * Ht) by (replace (2 * W * (2 * Ht)) with (W * Ht * 4) by lia; by rewrite Z.div_mul).
  rewrite (wrap_small 32 (2 * W * (2 * Ht))) by (unfold uint; nia). rewrite Hq.
  rewrite wrap_small by (unfold uint; nia).
  assert (Hl : zlen (planes (buffer f) (2 * W) (2 * Ht)) = 2 * W * (2 * Ht) + W * Ht * 2).
  { unfold planes, zlen. rewrite length_fmap, length_seqZ, Hq. nia. }
  destruct (subslice_ok (planes (buffer f) (2 * W) (2 * Ht)) 0 (2 * W * (2 * Ht))) as [y ->]; [nia..|].
  destruct (subslice_ok (planes (buffer f) (2 * W) (2 * Ht)) (2 * W * (2 * Ht)) (2 * W * (2 * Ht) + W * Ht))
    as [u ->]; [nia..|].
  destruct (subslice_ok (planes (buffer f) (2 * W) (2 * Ht)) (2 * W * (2 * Ht) + W * Ht)
    (zlen (planes (buffer f) (2 * W) (2 * Ht)))) as [v ->]; [nia..|]. eauto.
Qed.

(** One picture: what it is, and what the backend knows afterwards. *)
Definition encoded_as (K r : Z) (b b' : OpenH264Backend E) (ef : EncodedFrame) : Prop :=
  (ef_frame_type ef = IFrame /\ key_inv K 0 b') \/
  (ef_frame_type ef = PFrame /\ ~ owes b /\ r + 1 <= K /\ key_inv K (r + 1) b').

Lemma encode_frame_ok K r b f seq : 0 < K < 2 ^ 32 -> 0 <= r <= K -> key_inv K r b -> even_frame f ->
  exists b' res, encode_frame b f seq = Ret (b', res) /\
    match res with
    | Err _ => key_inv K r b' /\ (owes b -> owes b')
    | Ok ef => ef_sequence ef = seq /\ encoded_as K r b b' ef
    end.
Proof.
  intros HK Hr Hb Hev. unfold encode_frame. destruct (has_pixels f) eqn:Hpx;
    [|eexists _, _; split; [reflexivity|done]].
  cbn [negb]. destruct (ensure_started b f) as [b1 res1] eqn:Hs.
  destruct (ensure_started_ok K r b f b1 res1 Hb Hs) as (Hb1 & Ho1 & Hok).
  destruct res1 as [[]|e1]; [|eexists _, _; split; [reflexivity|done]]. destruct (Hok eq_refl) as (Hw & Hh & e & He). rewrite He.
  destruct (yuv_source_ok b1 f Hev Hpx Hw Hh) as [s ->]. destruct Hb1 as [Hk Ho].
  assert (Hpend : owes b1 -> pending (enforce_interval b1 e) = true).
  { unfold owes. rewrite He. intros Hp. unfold enforce_interval. destruct (_ && _); [apply pending_force|done]. }
  assert (Hint : pending (enforce_interval b1 e) = true \/ frames_since_idr b1 = r /\ r + 1 <= K).
  { destruct Ho as [Ho|Ho]; [left; by apply Hpend|]. unfold enforce_interval. rewrite Hk, Ho.
    destruct (Z.ltb_spec 0 K); [|lia]. destruct (Z.leb_spec K r); simpl; [left; apply pending_force|right; lia]. }
  destruct (encode (enforce_interval b1 e) s) as [e' [payload|err]] eqn:Henc.
  - eexists _, _. split; [reflexivity|]. split; [done|]. unfold encoded_as. cbn [ef_frame_type].
    destruct (has_idr payload) eqn:Hidr; [left; split; [done|]; split; [done|by right]|]. right.
    destruct Hint as [Hp|[Hf Hlt]].
    { by rewrite (pending_idr _ _ _ _ Hp Henc) in Hidr. }
    split; [done|]. split; [|split; [done|]].
    + intros Hob. by rewrite (pending_idr _ _ _ _ (Hpend (Ho1 Hob)) Henc) in Hidr.
    + split; [done|]. right. simpl. rewrite Hf. apply wrap_small. unfold uint. lia.
  - eexists _, _. split; [reflexivity|]. split.
    + split; [done|]. destruct Hint as [Hp|[Hf _]]; [left; by eapply pending_err|by right].
    + intros Hob. exact (pending_err _ _ _ _ (Hpend (Ho1 Hob)) Henc).
Qed.

(** *** The stream the client gets *)

(** No more than [K] predicted pictures in a row, [cur] of them so far. *)
Fixpoint runs_ok (K cur : Z) (l : list FrameType) : Prop :=
  match l with
  | [] => True
  | PFrame :: l => cur + 1 <= K /\ runs_ok K (cur + 1) l
  | _ :: l => runs_ok K 0 l
  end.

Definition run_after (cur : Z) (l : list FrameType) : Z :=
  foldl (fun c t => match t with PFrame => c + 1 | _ => 0 end) cur l.

Lemma runs_ok_snoc K cur l t : runs_ok K cur (l ++ [t]) <->
  runs_ok K cur l /\ match t with PFrame => run_after cur l + 1 <= K | _ => True end.
Proof.
  revert cur. induction l as [|u l IH]; intros cur; [destruct t; simpl; tauto|].
  destruct u; simpl; rewrite IH; unfold run_after; simpl; tauto.
Qed.

Lemma run_after_snoc cur l t :
  run_after cur (l ++ [t]) = match t with PFrame => run_after cur l + 1 | _ => 0 end.
Proof. unfold run_after. by rewrite foldl_app. Qed.

Definition types (l : list (bool * EncodedFrame)) : list FrameType := (fun p => ef_frame_type p.2) <$> l.

Record stream_inv (K : Z) (p : Pipeline E) : Prop := {
  st_interval : keyframe_interval (config (backend p)) = K;
  st_key : exists r, 0 <= run_after 0 (types (log p)) <= r /\ r <= K /\ key_inv K r (backend p);
  st_owes : log p = [] \/ dropped p = true -> owes (backend p);
  st_seq : sequence p = wrap 64 (zlen (log p));
  st_log : forall i d ef, log p !! i = Some (d, ef) ->
    ef_sequence ef = wrap 64 (Z.of_nat i) /\ (d = true \/ i = 0%nat -> ef_frame_type ef = IFrame);
  st_runs : runs_ok K 0 (types (log p));
}.

Lemma stream_inv_new b K : keyframe_interval (config b) = K -> 0 < K -> encoder b = None ->
  stream_inv K (pipeline_new b).
Proof.
  intros HK H0' He. assert (owes b) by (unfold owes; by rewrite He).
  split; simpl; try done.
  - exists 0. unfold run_after. simpl. repeat split; try lia; try done. by left.
Qed.

Lemma stream_inv_sent K p b ef r : stream_inv K p -> 0 <= run_after 0 (types (log p)) <= r -> r <= K ->
  ef_sequence ef = sequence p ->
  (ef_frame_type ef = IFrame /\ key_inv K 0 b \/
   ef_frame_type ef = PFrame /\ dropped p = false /\ log p <> [] /\ r + 1 <= K /\ key_inv K (r + 1) b) ->
  stream_inv K {| backend := b; sequence := wrap 64 (sequence p + 1); log := log p ++ [(dropped p, ef)];
                  dropped := false; open := true |}.
Proof.
  intros [HK _ _ Hseq Hlog Hruns] Hrun Hr Hes Hcase.
  assert (Ht : types (log p ++ [(dropped p, ef)]) = types (log p) ++ [ef_frame_type ef])
    by (unfold types; by rewrite fmap_app).
  split; simpl.
  - by destruct Hcase as [[_ [? _]]|(_ & _ & _ & _ & [? _])].
  - rewrite Ht, run_after_snoc. destruct Hcase as [[-> ?]|(-> & _ & _ & ? & ?)].
    + exists 0. split; [lia|]. split; [lia|done].
    + exists (r + 1). split; [lia|]. split; [lia|done].
  - intros [Hn|Hn]; [by destruct (log p)|done].
  - rewrite zlen_snoc, Hseq. unfold wrap. by rewrite Zplus_mod_idemp_l.
  - intros i d ef' Hi. apply lookup_app_Some in Hi as [Hi|[Hge Hi]]; [by apply Hlog|].
    apply list_lookup_singleton_Some in Hi as [Hi Heq]. simplify_eq.
    assert (i = length (log p)) as -> by lia. split; [by rewrite Hes, Hseq|].
    destruct Hcase as [[? _]|(_ & Hd & Hne & _)]; [done|].
    intros [?|Hz]; [congruence|]. by destruct (log p).
  - rewrite Ht. apply runs_ok_snoc. split; [done|].
    destruct Hcase as [[-> _]|(-> & _ & _ & ? & _)]; [done|lia].
Qed.

Lemma pipeline_turn_ok K p first newer r : 0 < K < 2 ^ 32 -> stream_inv K p ->
  even_frame (drain first newer) ->
  exists p', pipeline_turn p first newer r = Ret p' /\ stream_inv K p'.
Proof.
  intros HK Hp Hev. pose proof Hp as [Hk (r0 & Hrun & Hr0 & Hkey) Howes Hseq Hlog Hruns].
  unfold pipeline_turn.
  set (b0 := if is_refresh (drain first newer) then force_keyframe (backend p) else backend p).
  assert (Hb0 : key_inv K r0 b0 /\ (owes (backend p) -> owes b0)).
  { unfold b0. destruct (is_refresh _); [|done].
    split; [by eapply force_keyframe_inv|intros _; apply force_keyframe_owes]. }
  destruct Hb0 as [Hk0 Ho0].
  destruct (encode_frame_ok K r0 b0 (drain first newer) (sequence p)) as (b1 & res & -> & Hres);
    [done|lia|done|done|].
  destruct res as [ef|err].
  - destruct Hres as [Hes Has].
    assert (Hkey1 : key_inv K r0 (force_keyframe b1)).
    { destruct Has as [[_ ?]|(_ & _ & _ & ?)]; by eapply force_keyframe_inv. }
    destruct r; eexists; (split; [reflexivity|]).
    + eapply stream_inv_sent; try done. destruct Has as [?|(? & Hno & ? & ?)]; [by left|]. right.
      split; [done|]. split; [|split; [|done]].
      * destruct (dropped p) eqn:Hd; [|done]. destruct Hno. auto.
      * intros Hl. apply Hno. auto.
    + split; simpl; try done; [apply Hkey1|by exists r0|]. intros _. apply force_keyframe_owes.
    + assert (keyframe_interval (config b1) = K) by (destruct Has as [[_ [? ?]]|(_ & _ & _ & [? ?])]; done).
      split; simpl; try done. exists r0. split; [done|]. split; [done|]. split; [done|by left].
  - destruct Hres as [Hk1 Ho1]. eexists. split; [reflexivity|]. split; simpl; try done.
    + apply Hk1.
    + by exists r0.
    + auto.
Qed.

(** C37.  The stream a client gets can always be decoded from some point on: whatever frames
    of even size are captured, however many queue up and whichever the channel refuses, the
    thread goes on, the frames it sends are numbered without gaps, the first one and every
    one that follows a dropped frame is a keyframe, and no more than the configured interval
    of predicted frames follow each other. *)
Theorem stream_resyncs b turns : 0 < keyframe_interval (config b) < 2 ^ 32 -> encoder b = None ->
  Forall (fun t => even_frame (drain t.1.1 t.1.2)) turns ->
  exists p, pipeline_run (pipeline_new b) turns = Ret p /\
    (forall i d ef, log p !! i = Some (d, ef) ->
      ef_sequence ef = wrap 64 (Z.of_nat i) /\ (d = true \/ i = 0%nat -> ef_frame_type ef = IFrame)) /\
    runs_ok (keyframe_interval (config b)) 0 (types (log p)).
Proof.
  intros HK He Hev. assert (Hp : stream_inv (keyframe_interval (config b)) (pipeline_new b)).
  { apply stream_inv_new; [done|lia|done]. }
  revert HK Hp. generalize (keyframe_interval (config b)) as K. intros K HK. generalize (pipeline_new b) as p.
  induction Hev as [|[[first newer] r] turns Hf _ IH]; intros p Hp.
  - exists p. split; [done|]. split; [apply Hp|apply Hp].
  - simpl. destruct (open p); simpl; [|exists p; split; [done|]; split; [apply Hp|apply Hp]].
    destruct (pipeline_turn_ok K p first newer r HK Hp Hf) as (p' & -> & Hp'). by apply IH.
Qed.
End keyframes.

(** A refresh frame that is overtaken before it is encoded does not force a keyframe. *)
Lemma overtaken_refresh {E} `{OpenH264 E} (p : Pipeline E) refresh newer r :
  is_refresh refresh = true -> is_refresh newer = false ->
  pipeline_turn p refresh [newer] r = pipeline_turn p newer [] r.
Proof. done. Qed.

(** ** An encoder that satisfies the laws *)

(** It writes an IDR picture when it owes one and a predicted picture otherwise. *)
#[local] Instance toy_h264 : OpenH264 bool := {|
  encoder_new := Ok true;
  force_intra_frame _ := true;
  encode e s := (false, Ok (if e then [0; 0; 0; 1; 101; 1] else [0; 0; 0; 1; 65; 1]));
|}.

#[local] Instance toy_h264_laws : OpenH264Laws bool.
Proof.
  refine {| pending := id |}; simpl; intros; unfold id in *; simplify_eq; done.
Defined.

Definition black_frame (w h : Z) : Frame :=
  {| fwidth := w; fheight := h; stride := 4 * w; timestamp_us := 0; pixel_format := Bgra8;
     buffer := replicate (Z.to_nat (4 * w * h)) 0; dirty_rects := []; move_rects := []; cursor := None;
     is_refresh := false |}.

(** The channel refuses the second frame. *)
Definition sample_turns : list (Frame * list Frame * SendResult) :=
  [(black_frame 2 2, [], Sent); (black_frame 2 2, [black_frame 2 2], Full); (black_frame 2 2, [], Sent)].

Lemma stream_resyncs_witness :
  exists p, pipeline_run (pipeline_new backend_new) sample_turns = Ret p /\
    types (log p) = [IFrame; IFrame] /\ runs_ok 120 0 (types (log p)).
Proof.
  refine (match stream_resyncs backend_new sample_turns _ _ _ with
    | ex_intro _ p (conj H (conj _ Hr)) => _ end).
  - simpl. lia.
  - reflexivity.
  - repeat constructor; exists 1, 1; simpl; lia.
  - exists p. split; [exact H|]. split; [|exact Hr].
    vm_compute in H. injection H as <-. reflexivity.
Defined.
