(* ===== verification/Net.v ===== *)
(** * The UDP network layer (bw-net)

    [error.rs], [transport.rs] (the [Transport] interface), [udp.rs] ([UdpTransport] and
    [run_receive_loop], which takes datagrams to the dispatcher) and [connection.rs] (the
    [ConnectionManager], whose connections are a receive task, a task that bridges the
    cancellation token to the watch channel of the loop, and a handle whose drop cancels
    the token). *)

From S2P Require Import Prelude Codec Cbor Message Routing Forwarding.

(** What the operating system reports, [std::io::Error]. *)
Definition IoError : Type := string.

Inductive NetError : Type :=
| Io (e : IoError)
| DatagramTooSmall
| DatagramTooLarge (actual max : Z)
| Protocol (e : ProtocolError)
| ConnectionClosed
| Shutdown.

Definition MAX_DATAGRAM_SIZE : Z := 65536.

(** ** The transport interface and its UDP implementation *)

(** [None] is a call that is still waiting. *)
Class NetTransport (T : Type) := {
  net_send : T -> list Z -> T * result NetError unit;
  net_receive : T -> option (T * result NetError (list Z * SocketAddr));
  disconnect : T -> T * result NetError unit;
  local_addr : T -> result NetError SocketAddr }.

(** A bound socket: what [recv_from] returns next, in order, what was sent, and the
    error, if any, that sending meets. *)
Record UdpTransport := {
  sock_addr : SocketAddr;
  sock_in : list (result IoError (list Z * SocketAddr));
  sock_out : list (list Z);
  sock_error : option IoError }.

Definition udp_send (t : UdpTransport) (frame_bytes : list Z) : UdpTransport * result NetError unit :=
  match sock_error t with
  | Some e => (t, Err (Io e))
  | None =>
      ({| sock_addr := sock_addr t; sock_in := sock_in t;
          sock_out := sock_out t ++ [frame_bytes]; sock_error := None |}, Ok tt)
  end.

(** [recv_from] fills a buffer of [MAX_DATAGRAM_SIZE] bytes: a longer datagram is cut. *)
Definition udp_receive (t : UdpTransport) :
    option (UdpTransport * result NetError (list Z * SocketAddr)) :=
  match sock_in t with
  | [] => None
  | r :: rest =>
      let t := {| sock_addr := sock_addr t; sock_in := rest; sock_out := sock_out t;
                  sock_error := sock_error t |} in
      Some (t,
        match r with
        | Err e => Err (Io e)
        | Ok (bytes, peer) =>
            let buf := take (Z.to_nat MAX_DATAGRAM_SIZE) bytes in
            if zlen buf =? 0 then Err DatagramTooSmall else Ok (buf, peer)
        end)
  end.

Definition udp_disconnect (t : UdpTransport) : UdpTransport * result NetError unit := (t, Ok tt).

Definition udp_local_addr (t : UdpTransport) : result NetError SocketAddr := Ok (sock_addr t).

#[global] Instance udp_transport : NetTransport UdpTransport := {|
  net_send := udp_send; net_receive := udp_receive; disconnect := udp_disconnect;
  local_addr := udp_local_addr |}.

(** ** The watch channel of the shutdown signal, as its receiver sees it *)

(** The value, whether it was sent after the receiver last looked, and whether the
    sender is gone. *)
Record Watch := { value : bool; unseen : bool; closed : bool }.

Definition channel (v : bool) : Watch := {| value := v; unseen := false; closed := false |}.

Definition watch_send (w : Watch) (v : bool) : Watch :=
  {| value := v; unseen := true; closed := closed w |}.

Definition drop_sender (w : Watch) : Watch :=
  {| value := value w; unseen := unseen w; closed := true |}.

(** [changed]: an unseen value is marked seen; otherwise a closed channel is an error,
    and an open one is waited on ([None]). *)
Definition changed (w : Watch) : option (Watch * bool) :=
  if unseen w then Some ({| value := value w; unseen := false; closed := closed w |}, true)
  else if closed w then Some (w, false)
  else None.

(** ** The receive loop *)

(** One turn waits, goes round again, or returns. *)
Inductive turn_result (T St : Type) : Type :=
| Waits
| Again (w : Watch) (t : T) (st : St)
| Returns (t : T) (st : St) (r : result NetError unit).
Arguments Waits {T St}.
Arguments Again {T St} _ _ _.
Arguments Returns {T St} _ _ _.

Inductive loop_state (T St : Type) : Type :=
| Waiting (w : Watch) (t : T) (st : St)
| Spinning (w : Watch) (t : T) (st : St)
| Exited (t : T) (st : St) (r : result NetError unit).
Arguments Waiting {T St} _ _ _.
Arguments Spinning {T St} _ _ _.
Arguments Exited {T St} _ _ _.

Section Loop.
Context {T St : Type} `{NetTransport T, Cbor MessageEnvelope}.

(** What is done with a datagram: decode, deserialize, dispatch; every error is logged
    and dropped. *)
Definition handle_datagram (d : MessageDispatcher St) (st : St) (bytes : list Z) : St :=
  if MAX_DATAGRAM_SIZE <? zlen bytes then st
  else
    match decode_vec bytes with
    | Err _ => st
    | Ok frame =>
        match deserialize_envelope (payload frame) with
        | Err _ => st
        | Ok envelope => fst (dispatch d st envelope)
        end
    end.

(** The biased [select!]: the shutdown signal is polled first. *)
Definition receive_turn (d : MessageDispatcher St) (w : Watch) (t : T) (st : St) :
    turn_result T St :=
  match changed w with
  | Some (w, is_ok) =>
      if is_ok && value w then Returns t st (Err Shutdown) else Again w t st
  | None =>
      match net_receive t with
      | None => Waits
      | Some (t, Err (Io e)) => Returns t st (Err (Io e))
      | Some (t, Err _) => Again w t st
      | Some (t, Ok (bytes, _)) => Again w t (handle_datagram d st bytes)
      end
  end.

Fixpoint run_receive_loop (fuel : nat) (d : MessageDispatcher St) (w : Watch) (t : T) (st : St) :
    loop_state T St :=
  match fuel with
  | O => Spinning w t st
  | S fuel =>
      match receive_turn d w t st with
      | Waits => Waiting w t st
      | Again w t st => run_receive_loop fuel d w t st
      | Returns t st r => Exited t st r
      end
  end.
End Loop.

(** ** The connection manager *)

Inductive Task : Type :=
| TaskRunning
| TaskReturned (r : result NetError unit)
| TaskPanicked
| TaskAborted.

(** A connection as the runtime has it: the token and whether the bridging task has
    run, the watch channel, the transport, and the receive task. *)
Record Conn := {
  peer_addr : SocketAddr;
  cancelled : bool;
  bridged : bool;
  watch : Watch;
  conn_transport : UdpTransport;
  task : Task }.

(** The counter of identifiers, the connections, and the registry. *)
Record Net (St : Type) := {
  next_conn_id : Z;
  conns : gmap Z Conn;
  active_connections : gset Z;
  app : St }.
Arguments next_conn_id {St} _.
Arguments conns {St} _.
Arguments active_connections {St} _.
Arguments app {St} _.
Arguments Build_Net {St} _ _ _ _.

Definition set_watch (c : Conn) (w : Watch) : Conn :=
  {| peer_addr := peer_addr c; cancelled := cancelled c; bridged := bridged c; watch := w;
     conn_transport := conn_transport c; task := task c |}.

Definition set_transport (c : Conn) (t : UdpTransport) : Conn :=
  {| peer_addr := peer_addr c; cancelled := cancelled c; bridged := bridged c; watch := watch c;
     conn_transport := t; task := task c |}.

Definition set_task (c : Conn) (k : Task) : Conn :=
  {| peer_addr := peer_addr c; cancelled := cancelled c; bridged := bridged c; watch := watch c;
     conn_transport := conn_transport c; task := k |}.

Definition cancel (c : Conn) : Conn :=
  {| peer_addr := peer_addr c; cancelled := true; bridged := bridged c; watch := watch c;
     conn_transport := conn_transport c; task := task c |}.

(** The bridging task: woken by the token, it sends [true] (which fails, and changes
    nothing, once the receiver is gone) and drops the sender. *)
Definition bridge (c : Conn) : Conn :=
  if cancelled c && negb (bridged c) then
    let w := match task c with TaskRunning => watch_send (watch c) true | _ => watch c end in
    {| peer_addr := peer_addr c; cancelled := true; bridged := true; watch := drop_sender w;
       conn_transport := conn_transport c; task := task c |}
  else c.

Definition is_closed (c : Conn) : bool := cancelled c.

Definition arrive (c : Conn) (r : result IoError (list Z * SocketAddr)) : Conn :=
  let t := conn_transport c in
  set_transport c {| sock_addr := sock_addr t; sock_in := sock_in t ++ [r];
                     sock_out := sock_out t; sock_error := sock_error t |}.

Section Manager.
Context {St : Type} `{Cbor MessageEnvelope}.

Definition new_manager (st : St) : Net St := Build_Net 1 ∅ ∅ st.

(** [connect] is the result of binding and connecting the socket. *)
Definition connect_udp (n : Net St) (connect : result IoError UdpTransport) (peer : SocketAddr) :
    Net St * result NetError Z :=
  match connect with
  | Err e => (n, Err (Io e))
  | Ok transport =>
      let id := next_conn_id n in
      let c := {| peer_addr := peer; cancelled := false; bridged := false;
                  watch := channel false; conn_transport := transport; task := TaskRunning |} in
      (Build_Net (wrap 64 (id + 1)) (<[id := c]> (conns n)) ({[id]} ∪ active_connections n) (app n),
       Ok id)
  end.

Definition on_conn (n : Net St) (id : Z) (f : Conn -> Conn) : Net St :=
  Build_Net (next_conn_id n) (alter f id (conns n)) (active_connections n) (app n).

(** One turn of the receive task of a connection. *)
Definition conn_turn (d : MessageDispatcher St) (n : Net St) (id : Z) : Net St :=
  match conns n !! id with
  | None => n
  | Some c =>
      match task c with
      | TaskRunning =>
          match receive_turn d (watch c) (conn_transport c) (app n) with
          | Waits => n
          | Again w t st =>
              Build_Net (next_conn_id n) (<[id := set_transport (set_watch c w) t]> (conns n))
                (active_connections n) st
          | Returns t st r =>
              Build_Net (next_conn_id n)
                (<[id := set_task (set_transport c t) (TaskReturned r)]> (conns n))
                (active_connections n) st
          end
      | _ => n
      end
  end.

(** [wait_for_shutdown] removes the connection from the registry and awaits its task;
    [None] is a wait that does not end yet. *)
Definition await_task (k : Task) : option (result NetError unit) :=
  match k with
  | TaskRunning => None
  | TaskReturned r => Some r
  | TaskAborted => Some (Ok tt)
  | TaskPanicked => Some (Err Shutdown)
  end.

Definition wait_for_shutdown (n : Net St) (id : Z) : Net St * option (result NetError unit) :=
  if decide (id ∈ active_connections n) then
    (Build_Net (next_conn_id n) (conns n) (active_connections n ∖ {[id]}) (app n),
     match conns n !! id with Some c => await_task (task c) | None => Some (Ok tt) end)
  else (n, Some (Ok tt)).

(** Everything that happens to a manager: its own operations, the handles dropped, the
    datagrams and errors the network brings, and the turns of the tasks in any order. *)
Inductive net_step (d : MessageDispatcher St) : Net St -> Net St -> Prop :=
| StepConnect n connect peer :
    next_conn_id n < U64_MAX ->
    net_step d n (fst (connect_udp n connect peer))
| StepDrop n id : net_step d n (on_conn n id cancel)
| StepBridge n id : net_step d n (on_conn n id bridge)
| StepArrive n id r : net_step d n (on_conn n id (fun c => arrive c r))
| StepTurn n id : net_step d n (conn_turn d n id)
| StepWait n id : net_step d n (fst (wait_for_shutdown n id)).
End Manager.

(** ** Specification of the receive loop *)

(** The envelope a datagram carries, if it is a frame whose payload is one. *)
Definition datagram_envelope `{Cbor MessageEnvelope} (bytes : list Z) : option MessageEnvelope :=
  match decode_vec bytes with
  | Ok frame =>
      match deserialize_envelope (payload frame) with Ok e => Some e | Err _ => None end
  | Err _ => None
  end.

(** The envelopes are dispatched one after another, whatever each dispatch reports. *)
Definition dispatch_each {St} (d : MessageDispatcher St) (st : St) (es : list MessageEnvelope) : St :=
  foldl (fun st e => fst (dispatch d st e)) st es.

Definition with_in (t : UdpTransport) (q : list (result IoError (list Z * SocketAddr))) :
    UdpTransport :=
  {| sock_addr := sock_addr t; sock_in := q; sock_out := sock_out t; sock_error := sock_error t |}.

(** Datagrams as the network delivers them. *)
Definition delivered (ds : list (list Z * SocketAddr)) :
    list (result IoError (list Z * SocketAddr)) := Ok <$> ds.

Definition datagram_fits (dg : list Z * SocketAddr) : Prop := zlen dg.1 <= MAX_DATAGRAM_SIZE.

(** ** Lemmas *)

Section LoopLemmas.
Context {St : Type} `{Cbor MessageEnvelope}.
Implicit Types (d : MessageDispatcher St) (t : UdpTransport) (st : St).

Lemma handle_datagram_spec d st bytes :
  zlen bytes <= MAX_DATAGRAM_SIZE ->
  handle_datagram d st bytes = dispatch_each d st (option_list (datagram_envelope bytes)).
Proof.
  intros Hl. unfold handle_datagram, datagram_envelope.
  destruct (Z.ltb_spec MAX_DATAGRAM_SIZE (zlen bytes)); [lia|].
  destruct (decode_vec bytes) as [f|]; [|done].
  by destruct (deserialize_envelope (payload f)).
Qed.

Lemma no_envelope_in_nothing : datagram_envelope [] = None.
Proof. reflexivity. Qed.

Lemma quiet_changed w : unseen w = false -> closed w = false -> changed w = None.
Proof. unfold changed. by intros -> ->. Qed.

(** A datagram costs one turn and its envelope is dispatched. *)
Lemma receive_turn_datagram d w t st dg q :
  changed w = None -> datagram_fits dg ->
  receive_turn d w (with_in t (Ok dg :: q)) st =
    Again w (with_in t q) (dispatch_each d st (option_list (datagram_envelope dg.1))).
Proof.
  intros Hw Hfit. destruct dg as [bytes peer]. unfold receive_turn. rewrite Hw.
  cbn [net_receive udp_transport udp_receive with_in sock_in sock_addr sock_out sock_error fst].
  rewrite take_ge by (unfold datagram_fits, zlen in Hfit; simpl in Hfit; lia).
  destruct (Z.eqb_spec (zlen bytes) 0) as [->%zlen_nil_inv|_].
  - by rewrite no_envelope_in_nothing.
  - by rewrite handle_datagram_spec.
Qed.

Lemma run_delivered d w t q ds : forall fuel st,
  changed w = None -> Forall datagram_fits ds -> (length ds <= fuel)%nat ->
  run_receive_loop fuel d w (with_in t (delivered ds ++ q)) st =
  run_receive_loop (fuel - length ds) d w (with_in t q)
    (dispatch_each d st (omap datagram_envelope ds.*1)).
Proof.
  induction ds as [|dg ds IH]; intros fuel st Hw Hfit Hf.
  { simpl. by rewrite Nat.sub_0_r. }
  apply Forall_cons_1 in Hfit as [Hdg Hfit]. destruct fuel as [|fuel]; [simpl in Hf; lia|].
  change (delivered (dg :: ds) ++ q) with (Ok dg :: (delivered ds ++ q)).
  cbn [run_receive_loop]. rewrite receive_turn_datagram by done.
  rewrite IH by (try done; simpl in Hf; lia). cbn [length Nat.sub fmap list_fmap]. f_equal.
  simpl. by destruct (datagram_envelope dg.1).
Qed.

(** A sender dropped without a signal makes every turn go round again without reading
    the socket: the loop neither waits nor serves datagrams. *)
Lemma dropped_sender_spins d w t st fuel :
  unseen w = false -> closed w = true -> run_receive_loop fuel d w t st = Spinning w t st.
Proof.
  intros Hu Hc. induction fuel as [|fuel IH]; [done|]. cbn [run_receive_loop].
  unfold receive_turn, changed. rewrite Hu, Hc. exact IH.
Qed.

(** [disconnect] leaves the socket open: what is queued is still received. *)
Lemma disconnect_keeps_receiving t : net_receive (fst (disconnect t)) = net_receive t.
Proof. reflexivity. Qed.
End LoopLemmas.

(** ** The life of a connection *)

(** The watch channel is silent until the bridging task runs and then holds the signal
    that ends the loop; the task ends with [Shutdown] only after a cancellation. *)
Definition conn_ok (c : Conn) : Prop :=
  (task c = TaskRunning ->
     watch c = if bridged c then {| value := true; unseen := true; closed := true |}
               else channel false) /\
  (bridged c = true -> cancelled c = true) /\
  (task c = TaskReturned (Err Shutdown) -> cancelled c = true).

Definition net_ok {St} (n : Net St) : Prop :=
  1 <= next_conn_id n <= U64_MAX /\
  (forall id c, conns n !! id = Some c -> 1 <= id < next_conn_id n /\ conn_ok c) /\
  (forall id, id ∈ active_connections n -> is_Some (conns n !! id)).

Section ManagerLemmas.
Context {St : Type} `{Cbor MessageEnvelope}.
Implicit Types (d : MessageDispatcher St) (n : Net St) (c : Conn).

Lemma net_ok_new (st : St) : net_ok (new_manager st).
Proof.
  split; [|split].
  - split; [reflexivity|by_decide].
  - intros id c Hc. change (conns (new_manager st)) with (∅ : gmap Z Conn) in Hc.
    by rewrite lookup_empty in Hc.
  - intros id Hid. by apply not_elem_of_empty in Hid.
Qed.

Lemma net_ok_insert n id c c' (st : St) :
  net_ok n -> conns n !! id = Some c -> conn_ok c' ->
  net_ok (Build_Net (next_conn_id n) (<[id := c']> (conns n)) (active_connections n) st).
Proof.
  intros (Hn & Hc & Ha) Hid Hok. split; [done|]. split; simpl.
  - intros i x [[<- <-]|[_ Hx]]%lookup_insert_Some; [|by apply Hc].
    split; [by apply (Hc id c)|done].
  - intros i Hi. destruct (decide (id = i)) as [<-|Hne].
    + rewrite lookup_insert. by rewrite decide_True.
    + rewrite lookup_insert_ne by done. by apply Ha.
Qed.

Lemma net_ok_on_conn n id f :
  (forall c, conn_ok c -> conn_ok (f c)) -> net_ok n -> net_ok (on_conn n id f).
Proof.
  intros Hf (Hn & Hc & Ha). split; [done|]. split; simpl.
  - intros i x Hx. apply lookup_alter_Some in Hx as [(<- & y & Hy & ->)|[_ Hx]]; [|by apply Hc].
    destruct (Hc _ _ Hy). auto.
  - intros i Hi. apply Ha in Hi. by rewrite lookup_alter_is_Some.
Qed.

Lemma conn_ok_cancel c : conn_ok c -> conn_ok (cancel c).
Proof. intros (Hw & _ & _). split; [exact Hw|]. by split. Qed.

Lemma conn_ok_arrive c r : conn_ok c -> conn_ok (arrive c r).
Proof. exact id. Qed.

Lemma conn_ok_bridge c : conn_ok c -> conn_ok (bridge c).
Proof.
  intros Hok. unfold bridge. destruct (cancelled c && negb (bridged c)) eqn:E; [|exact Hok].
  destruct Hok as (Hw & _ & _). apply andb_prop in E as [_ Hb]. split; [|by split].
  simpl. intros Ht. rewrite Ht, (Hw Ht). by destruct (bridged c).
Qed.

(** The loop leaves the watch as it is while it goes round, and ends with [Shutdown]
    only when the signal is there. *)
Lemma receive_turn_inv d (w : Watch) (t : UdpTransport) (st : St) :
  match receive_turn d w t st with
  | Waits => changed w = None /\ sock_in t = []
  | Again w' t' _ =>
      changed w = None /\ w' = w /\ sock_in t = take 1 (sock_in t) ++ sock_in t' /\ sock_in t <> []
      \/ changed w <> None /\ (unseen w = false \/ value w = false)
  | Returns t' st' r =>
      (r = Err Shutdown -> unseen w = true /\ value w = true /\ t' = t /\ st' = st)
  end.
Proof.
  unfold receive_turn. destruct (changed w) as [[w' ok]|] eqn:Hc.
  - unfold changed in Hc. destruct (unseen w) eqn:Hu.
    + injection Hc as <- <-. simpl. destruct (value w) eqn:Hv; [done|]. right. auto.
    + destruct (closed w); [|done]. injection Hc as <- <-. simpl. right. auto.
  - simpl. unfold udp_receive.
    destruct (sock_in t) as [|[[bytes peer]|e] q]; [done| |done].
    cbn [zlen]. destruct (_ =? 0); left; auto.
Qed.

Lemma net_ok_turn d n id : net_ok n -> net_ok (conn_turn d n id).
Proof.
  intros Hn. unfold conn_turn. destruct (conns n !! id) as [c|] eqn:Hc; [|done].
  destruct (task c) eqn:Ht; try done.
  destruct Hn as (Hid & Hcs & Ha). destruct (Hcs _ _ Hc) as (Hlt & Hw & Hb & Hs).
  specialize (Hw Ht).
  pose proof (receive_turn_inv d (watch c) (conn_transport c) (app n)) as Hr.
  destruct (receive_turn d (watch c) (conn_transport c) (app n)) as [|w t st|t st r]; [done| |].
  - apply (net_ok_insert _ _ c); [by split|done|].
    destruct Hr as [(_ & -> & _)|[Hne [Hu|Hv]]].
    + split; [by intros _|by split].
    + rewrite Hw in Hne, Hu. by destruct (bridged c).
    + rewrite Hw in Hne, Hv. by destruct (bridged c).
  - apply (net_ok_insert _ _ c); [by split|done|].
    split; [by intros ?|]. split; [exact Hb|]. simpl. intros [= ->].
    destruct (Hr eq_refl) as (Hu & _). rewrite Hw in Hu. by destruct (bridged c); [apply Hb|].
Qed.

Lemma net_ok_step d n n' : net_step d n n' -> net_ok n -> net_ok n'.
Proof.
  intros Hstep Hn. destruct Hstep as [n [t|e] peer Hlt|n id|n id|n id r|n id|n id]; simpl.
  - destruct Hn as (Hid & Hc & Ha). unfold net_ok. simpl. rewrite wrap_small by
      (unfold uint, U64_MAX in *; lia).
    split; [lia|]. split.
    + intros i c [[<- <-]|[_ Hx]]%lookup_insert_Some.
      * split; [lia|]. split; [done|]. by split.
      * destruct (Hc _ _ Hx) as [Hr Hok]. split; [lia|exact Hok].
    + intros i [->%elem_of_singleton|Hi]%elem_of_union.
      * rewrite lookup_insert. by rewrite decide_True.
      * destruct (decide (next_conn_id n = i)) as [<-|Hne].
        { rewrite lookup_insert. by rewrite decide_True. }
        rewrite lookup_insert_ne by done. by apply Ha.
  - done.
  - apply net_ok_on_conn; [apply conn_ok_cancel|done].
  - apply net_ok_on_conn; [apply conn_ok_bridge|done].
  - apply net_ok_on_conn; [intros c; apply conn_ok_arrive|done].
  - by apply net_ok_turn.
  - unfold wait_for_shutdown. destruct (decide _); [|done].
    destruct Hn as (Hid & Hc & Ha). split; [done|]. split; [done|].
    simpl. intros i [Hi _]%elem_of_difference. by apply Ha.
Qed.

Lemma net_ok_reachable d (st : St) n : rtc (net_step d) (new_manager st) n -> net_ok n.
Proof.
  intros Hr. cut (net_ok (new_manager st)); [|apply net_ok_new].
  induction Hr as [|x y z Hstep _ IH]; [done|].
  intros Hx. exact (IH (net_ok_step d _ _ Hstep Hx)).
Qed.
End ManagerLemmas.

(** ** Properties *)

Section Properties.
Context {St : Type} `{Cbor MessageEnvelope}.

(** C31.  The receive loop over a UDP socket implements [dispatch_each]: while no shutdown
    is signalled it hands the envelopes of the datagrams that decode to the dispatcher in
    the order they arrive, skips the others, goes on whatever a dispatch reports, and then
    waits; the first socket error ends it with that error, after everything before it and
    nothing behind it; and a signalled shutdown ends it at once, whatever is queued. *)
Theorem receive_loop_refines (d : MessageDispatcher St) (t : UdpTransport) (st : St) (w : Watch)
    (ds : list (list Z * SocketAddr)) (fuel : nat) :
  unseen w = false -> closed w = false ->
  Forall datagram_fits ds -> (length ds < fuel)%nat ->
  run_receive_loop fuel d w (with_in t (delivered ds)) st =
    Waiting w (with_in t []) (dispatch_each d st (omap datagram_envelope ds.*1)) /\
  (forall e q, run_receive_loop fuel d w (with_in t (delivered ds ++ Err e :: q)) st =
    Exited (with_in t q) (dispatch_each d st (omap datagram_envelope ds.*1)) (Err (Io e))) /\
  (forall q, run_receive_loop fuel d (watch_send w true) (with_in t q) st =
    Exited (with_in t q) st (Err Shutdown)).
Proof.
  intros Hu Hc Hfit Hf. pose proof (quiet_changed w Hu Hc) as Hw. split; [|split].
  - rewrite <- (app_nil_r (delivered ds)), run_delivered by (done || lia).
    destruct (fuel - length ds)%nat eqn:E; [lia|].
    cbn [run_receive_loop]. unfold receive_turn. by rewrite Hw.
  - intros e q. rewrite run_delivered by (done || lia).
    destruct (fuel - length ds)%nat eqn:E; [lia|].
    cbn [run_receive_loop]. unfold receive_turn. by rewrite Hw.
  - intros q. by destruct fuel; [lia|].
Qed.

(** In every state a connection manager can reach, whatever the order in which
    connections are made, handles dropped, datagrams received, errors met and tasks run:
    identifiers in use were handed out once; a receive task that still runs on a
    connection whose handle is alive reads a datagram on each turn or waits for one, and
    never spins; once the handle is dropped and the bridging task has run, its next turn
    ends it with [Shutdown], with nothing more read or dispatched, and waiting for it
    returns that; and a task ends with [Shutdown] only if the handle was dropped. *)
Theorem connection_lifecycle (d : MessageDispatcher St) (st0 : St) (n : Net St) (id : Z) (c : Conn) :
  rtc (net_step d) (new_manager st0) n -> conns n !! id = Some c ->
  1 <= id < next_conn_id n /\
  (task c = TaskReturned (Err Shutdown) -> is_closed c = true) /\
  (task c = TaskRunning -> is_closed c = true ->
     let n' := conn_turn d (on_conn n id bridge) id in
     app n' = app n /\
     (exists c', conns n' !! id = Some c' /\ conn_transport c' = conn_transport c /\
                 task c' = TaskReturned (Err Shutdown)) /\
     (id ∈ active_connections n -> snd (wait_for_shutdown n' id) = Some (Err Shutdown))) /\
  (task c = TaskRunning -> is_closed c = false ->
     match sock_in (conn_transport c) with
     | [] => conn_turn d n id = n
     | _ :: q =>
         exists c', conns (conn_turn d n id) !! id = Some c' /\ sock_in (conn_transport c') = q
     end).
Proof.
  intros Hn%net_ok_reachable Hid. destruct Hn as (_ & Hc & _).
  destruct (Hc _ _ Hid) as (Hlt & Hw & Hb & Hs). split; [done|]. split; [exact Hs|]. split.
  - intros Hrun Hcl. specialize (Hw Hrun). unfold is_closed in Hcl.
    set (c1 := bridge c).
    assert (Hc1 : watch c1 = {| value := true; unseen := true; closed := true |} /\
              task c1 = TaskRunning /\ conn_transport c1 = conn_transport c).
    { unfold c1, bridge. rewrite Hcl, Hrun, Hw. by destruct (bridged c) eqn:E; rewrite ?Hw, ?E. }
    destruct Hc1 as (Hw1 & Ht1 & Hx1).
    assert (Hl : conns (on_conn n id bridge) !! id = Some c1).
    { simpl. by rewrite lookup_alter_eq, Hid. }
    unfold conn_turn. rewrite Hl, Ht1, Hw1. cbn -[wait_for_shutdown]. split; [done|].
    unfold wait_for_shutdown. simpl. rewrite lookup_insert_eq.
    split; [by eexists|]. intros Ha. by rewrite decide_True.
  - intros Hrun Hcl. specialize (Hw Hrun). unfold is_closed in Hcl.
    assert (Hbr : bridged c = false) by (destruct (bridged c); [by rewrite Hb in Hcl|done]).
    rewrite Hbr in Hw. unfold conn_turn. rewrite Hid, Hrun, Hw. unfold receive_turn.
    cbn [changed channel unseen closed net_receive udp_transport]. unfold udp_receive.
    destruct (sock_in (conn_transport c)) as [|[[bytes peer]|e] q]; [done| |].
    + destruct (_ =? 0); simpl; rewrite lookup_insert_eq; by eexists.
    + simpl. rewrite lookup_insert_eq. by eexists.
Qed.
End Properties.

(** ** Instances on concrete inputs *)

Section Witnesses.
#[local] Existing Instance countable_cbor.
#[local] Existing Instance countable_cbor_laws.

Definition sample_peer : SocketAddr := AddrV4 [127; 0; 0; 1] 9000.

Definition sample_socket : UdpTransport :=
  {| sock_addr := sample_peer; sock_in := []; sock_out := []; sock_error := None |}.

(** A ping, garbage and a ping: two pings are counted. *)
Definition sample_datagrams : list (list Z * SocketAddr) :=
  [(encode_frame sample_carrier, sample_peer); ([1; 2; 3], sample_peer);
   (encode_frame sample_carrier, sample_peer)].

Lemma receive_loop_refines_witness :
  run_receive_loop 4 count_pings (channel false)
    (with_in sample_socket (delivered sample_datagrams)) O
  = Waiting (channel false) (with_in sample_socket []) 2%nat.
Proof.
  rewrite (proj1 (receive_loop_refines count_pings sample_socket O (channel false)
                    sample_datagrams 4 eq_refl eq_refl ltac:(by_decide) ltac:(simpl; lia))).
  vm_compute. reflexivity.
Defined.

(** A connection is made and its handle dropped: the task ends with [Shutdown]. *)
Lemma connection_lifecycle_witness :
  let n := on_conn (fst (connect_udp (new_manager O) (Ok sample_socket) sample_peer)) 1 cancel in
  snd (wait_for_shutdown (conn_turn count_pings (on_conn n 1 bridge) 1) 1) = Some (Err Shutdown).
Proof.
  intros n.
  assert (Hr : rtc (net_step count_pings) (new_manager O) n).
  { eapply rtc_l; [by apply (StepConnect _ _ (Ok sample_socket) sample_peer)|].
    eapply rtc_l; [apply (StepDrop _ _ 1)|]. apply rtc_refl. }
  destruct (connection_lifecycle count_pings O n 1
              (cancel {| peer_addr := sample_peer; cancelled := false; bridged := false;
                         watch := channel false; conn_transport := sample_socket;
                         task := TaskRunning |}) Hr eq_refl) as (_ & _ & Hend & _).
  apply (Hend eq_refl eq_refl). by_decide.
Defined.
End Witnesses.
