(* ===== verification/Cert.v ===== *)
(** * TLS certificates and their pinning (bw-transport, [cert.rs])

    The key file, the server's self-signed certificate, the scan that finds the Ed25519
    key in a certificate, and the verifiers a client configures.  The certificate
    generator and the TLS stack are interfaces. *)

From S2P Require Import Prelude Symmetric Identity.

Inductive CertError : Type :=
| RcgenError (e : string)
| KeyParseError
| InvalidPublicKey
| IdentityMismatch (expected actual : list Z).

(** ** The generator of keys and certificates (rcgen) *)

Class Rcgen := {
  KeyPair : Type;
  (** [KeyPair::generate_for], from the randomness it draws. *)
  generate_for : list Z -> result string KeyPair;
  public_key_raw : KeyPair -> list Z;
  serialize_der : KeyPair -> list Z;
  from_pkcs8_der : list Z -> result string KeyPair;
  (** [CertificateParams::new] and [self_signed]: the DER of a certificate. *)
  self_signed : KeyPair -> list (list Z) -> result string (list Z);
  (** [generate_simple_self_signed]: the DER of a certificate and its key pair, from the
      randomness it draws; the algorithm of the key is the generator's choice. *)
  generate_simple_self_signed : list Z -> list (list Z) -> result string (list Z * KeyPair);
  (** Whether rustls can load the private key ([with_single_cert]). *)
  key_loads : list Z -> bool }.

(** ** The scan for the key *)

(** The object identifier of Ed25519, and the tag and length of a bit string of 33 bytes. *)
Definition oid_pattern : list Z := [6; 3; 43; 101; 112].
Definition spki_marker : list Z := oid_pattern ++ [3; 33].

(** [windows(n).position(|w| w == pat)]. *)
Fixpoint position (pat l : list Z) : option nat :=
  match l with
  | [] => None
  | _ :: l' => if decide (take (length pat) l = pat) then Some O else S <$> position pat l'
  end.

Definition byte_at (l : list Z) (i : nat) : Z := nth i l 0.

(** The [while] loop from [oid_pos]; each round moves at least five bytes on, so the
    length of the certificate is fuel enough. *)
Fixpoint scan (fuel : nat) (cert_der : list Z) (oid_pos : nat) : result CertError (list Z) :=
  match fuel with
  | O => Err InvalidPublicKey
  | S fuel =>
      if (oid_pos + length oid_pattern <? length cert_der)%nat then
        match position oid_pattern (drop oid_pos cert_der) with
        | None => Err InvalidPublicKey
        | Some offset =>
            let abs_pos := (oid_pos + offset)%nat in
            let after_oid := (abs_pos + length oid_pattern)%nat in
            if (length cert_der <? after_oid + 3)%nat then Err InvalidPublicKey
            else if (byte_at cert_der after_oid =? 3) && (byte_at cert_der (after_oid + 1) =? 33) then
              let unused_bits := (after_oid + 2)%nat in
              if negb (byte_at cert_der unused_bits =? 0) then Err InvalidPublicKey
              else
                let key_start := (unused_bits + 1)%nat in
                if (length cert_der <? key_start + 32)%nat then Err InvalidPublicKey
                else Ok (slice cert_der key_start (key_start + 32))
            else scan fuel cert_der (abs_pos + length oid_pattern)
        end
      else Err InvalidPublicKey
  end.

Definition extract_ed25519_spki_raw (cert_der : list Z) : result CertError (list Z) :=
  scan (S (length cert_der)) cert_der 0.

(** ** Keys, server configuration and client verifiers *)

(** The file of the key: its contents if it exists, and what the file system permits. *)
Record KeyFile := { contents : option (list Z); can_read : bool; can_mkdir : bool; can_write : bool }.

(** [rustls::Error::General], with its text. *)
Inductive TlsError : Type := General (e : list Z).

Definition ALPN : list Z := string_bytes "blackwing-v1".

Record ServerConfig := { cert_chain : list (list Z); server_key : list Z; server_alpn : list (list Z) }.

(** The two verifiers of the file. *)
Inductive ServerCertVerifier : Type :=
| DeviceIdPinningVerifier (expected_id : DeviceId)
| SkipServerVerification.

Record ClientConfig := { verifier : ServerCertVerifier; client_alpn : list (list Z) }.

Section Cert.
Context `{Rcgen, Signatures}.

Definition load_or_generate_tls_keypair (file : KeyFile) (random : list Z) :
    KeyFile * result CertError KeyPair :=
  match contents file with
  | Some data =>
      (file,
       if can_read file then map_err RcgenError (from_pkcs8_der data) else Err KeyParseError)
  | None =>
      match generate_for random with
      | Err e => (file, Err (RcgenError e))
      | Ok kp =>
          if negb (can_mkdir file) then (file, Err KeyParseError)
          else if negb (can_write file) then (file, Err KeyParseError)
          else
            ({| contents := Some (serialize_der kp); can_read := can_read file;
                can_mkdir := can_mkdir file; can_write := can_write file |}, Ok kp)
      end
  end.

Definition device_id_from_keypair (kp : KeyPair) : DeviceId :=
  from_digest (sha256 (public_key_raw kp)).

Definition generate_server_config_from_keypair (key_pair : KeyPair) (names : list (list Z)) :
    result CertError ServerConfig :=
  let? cert_der := map_err RcgenError (self_signed key_pair names) in
  let key_der := serialize_der key_pair in
  if key_loads key_der then
    Ok {| cert_chain := [cert_der]; server_key := key_der; server_alpn := [ALPN] |}
  else Err KeyParseError.

Record SelfSignedCert := { ss_cert : list Z; ss_key : list Z }.

(** [SelfSignedCert::generate] *)
Definition self_signed_generate (random : list Z) (names : list (list Z)) :
    result CertError SelfSignedCert :=
  let? generated := map_err RcgenError (generate_simple_self_signed random names) in
  Ok {| ss_cert := generated.1; ss_key := serialize_der generated.2 |}.

Definition generate_server_config (random : list Z) (names : list (list Z)) :
    result CertError ServerConfig :=
  let? self_signed := self_signed_generate random names in
  if key_loads (ss_key self_signed) then
    Ok {| cert_chain := [ss_cert self_signed]; server_key := ss_key self_signed; server_alpn := [ALPN] |}
  else Err KeyParseError.

Definition verify_server_cert (v : ServerCertVerifier) (end_entity : list Z) : result TlsError unit :=
  match v with
  | SkipServerVerification => Ok tt
  | DeviceIdPinningVerifier expected_id =>
      match extract_ed25519_spki_raw end_entity with
      | Err _ => Err (General (string_bytes "invalid certificate public key"))
      | Ok public_key_bytes =>
          let actual_id := from_digest (sha256 public_key_bytes) in
          if decide (actual_id = expected_id) then Ok tt
          else
            Err (General (string_bytes "server identity mismatch: expected " ++ display expected_id ++
                          string_bytes ", got " ++ display actual_id))
      end
  end.

Definition verify_tls12_signature (v : ServerCertVerifier) (message cert dss : list Z) :
    result TlsError unit :=
  match v with DeviceIdPinningVerifier _ => Ok tt | SkipServerVerification => Ok tt end.

Definition verify_tls13_signature (v : ServerCertVerifier) (message cert dss : list Z) :
    result TlsError unit :=
  match v with DeviceIdPinningVerifier _ => Ok tt | SkipServerVerification => Ok tt end.

Definition generate_pinned_client_config (server_id : DeviceId) : ClientConfig :=
  {| verifier := DeviceIdPinningVerifier server_id; client_alpn := [ALPN] |}.

Definition generate_dev_client_config : ClientConfig :=
  {| verifier := SkipServerVerification; client_alpn := [ALPN] |}.

(** What a TLS 1.3 client asks of its verifier: the certificate the server presents, and
    the signature over the transcript by which the server shows it holds the key. *)
Definition client_accepts (cfg : ClientConfig) (cert transcript signature : list Z) :
    result TlsError unit :=
  let? _ := verify_server_cert (verifier cfg) cert in
  verify_tls13_signature (verifier cfg) transcript cert signature.
End Cert.

(** ** Specification of the scan *)

Definition occurs (pat l : list Z) (i : nat) : Prop := pat `prefix_of` drop i l.

(** The first marker in the certificate stands at [i], a zero byte and the key follow. *)
Definition key_at (cert key : list Z) (i : nat) : Prop :=
  occurs (spki_marker ++ 0 :: key) cert i /\ length key = 32%nat /\
  (forall j, (j < i)%nat -> ~ occurs spki_marker cert j).

(** ** Lemmas *)

Lemma occurs_lookup pat l i j x : occurs pat l i -> pat !! j = Some x -> l !! (i + j)%nat = Some x.
Proof. intros Hp Hj. rewrite <- lookup_drop. by apply (prefix_lookup_Some pat). Qed.

Lemma occurs_take pat l i : occurs pat l i <-> take (length pat) (drop i l) = pat.
Proof.
  split.
  - intros [k ->]. by rewrite take_app_length.
  - intros He. exists (drop (length pat) (drop i l)). rewrite <- He at 1. by rewrite take_drop.
Qed.

Lemma occurs_length pat l i : occurs pat l i -> pat <> [] -> (i + length pat <= length l)%nat.
Proof.
  intros Hp%prefix_length Hne. rewrite length_drop in Hp.
  destruct pat; [done|]. simpl in *. lia.
Qed.

Lemma occurs_drop pat l p i : occurs pat (drop p l) i <-> occurs pat l (p + i).
Proof. unfold occurs. by rewrite drop_drop. Qed.

Lemma occurs_app p q l i : occurs (p ++ q) l i <-> occurs p l i /\ occurs q l (i + length p).
Proof.
  unfold occurs. rewrite <- drop_drop. split.
  - intros [k ->]. rewrite <- (assoc_L (++)). split; [by eexists|]. rewrite drop_app_length. by eexists.
  - intros [[k Hk] [m Hm]]. rewrite Hk in *. rewrite drop_app_length in Hm. rewrite Hm.
    rewrite (assoc_L (++)). by eexists.
Qed.

Lemma position_spec pat l :
  pat <> [] ->
  match position pat l with
  | Some k => occurs pat l k /\ (k < length l)%nat /\ forall j, (j < k)%nat -> ~ occurs pat l j
  | None => forall j, ~ occurs pat l j
  end.
Proof.
  intros Hpat. induction l as [|x l IH]; cbn [position].
  { intros j [k Hk]. rewrite drop_nil in Hk. destruct pat; done. }
  destruct (decide _) as [He|He].
  - split; [by apply occurs_take|]. simpl. split; [lia|]. intros j Hj. lia.
  - destruct (position pat l) as [k|]; simpl.
    + destruct IH as (Ho & Hk & Hmin). split; [exact Ho|]. split; [lia|]. intros [|j] Hj Hoc.
      * apply occurs_take in Hoc. exact (He Hoc).
      * apply (Hmin j); [lia|exact Hoc].
    + intros [|j] Hoc; [apply occurs_take in Hoc; exact (He Hoc)|]. exact (IH j Hoc).
Qed.

(** Two occurrences of the object identifier never overlap. *)
Lemma oid_no_overlap l a j : occurs oid_pattern l a -> (0 < j < 5)%nat -> ~ occurs oid_pattern l (a + j).
Proof.
  intros Ha Hj Hb. pose proof (occurs_lookup _ _ _ 0 6 Hb eq_refl) as H6.
  rewrite Nat.add_0_r in H6.
  destruct (oid_pattern !! j) as [x|] eqn:Hx.
  - pose proof (occurs_lookup _ _ _ _ _ Ha Hx) as Hx'. rewrite H6 in Hx'. injection Hx' as <-.
    do 5 (destruct j as [|j]; [by try lia|]). done.
  - apply lookup_ge_None in Hx. simpl in Hx. lia.
Qed.

Lemma byte_at_lookup l i x : l !! i = Some x -> byte_at l i = x.
Proof. intros Hl. unfold byte_at. by apply nth_lookup_Some. Qed.

Lemma occurs_cons x pat l i :
  (i < length l)%nat -> occurs (x :: pat) l i <-> byte_at l i = x /\ occurs pat l (i + 1).
Proof.
  intros Hi. destruct (lookup_lt_is_Some_2 l i Hi) as [y Hy].
  rewrite (byte_at_lookup _ _ _ Hy). change (x :: pat) with ([x] ++ pat).
  rewrite occurs_app. simpl. split.
  - intros [Hx Hp]. split; [|done]. apply (occurs_lookup _ _ _ 0 x) in Hx; [|done].
    rewrite Nat.add_0_r in Hx. congruence.
  - intros [-> Hp]. split; [|done]. unfold occurs. rewrite (drop_S _ _ _ Hy). by eexists.
Qed.

Lemma key_at_length cert key i : key_at cert key i -> (i + 40 <= length cert)%nat.
Proof.
  intros (Hk & Hl & _). apply occurs_length in Hk; [|done].
  rewrite length_app in Hk. simpl in Hk. lia.
Qed.

Lemma key_at_marker cert key i : key_at cert key i -> occurs spki_marker cert i.
Proof. intros (Hk & _). by apply occurs_app in Hk as [Hk _]. Qed.

(** With the first marker known, the key is the 32 bytes behind it and a zero. *)
Lemma key_at_first cert key a :
  occurs spki_marker cert a -> (forall j, (j < a)%nat -> ~ occurs spki_marker cert j) ->
  (a + 8 <= length cert)%nat ->
  (exists i, key_at cert key i) <->
  byte_at cert (a + 7) = 0 /\ (a + 40 <= length cert)%nat /\ slice cert (a + 8) (a + 40) = key.
Proof.
  intros Hm Hmin Hl.
  assert (Hk : forall key, occurs (spki_marker ++ 0 :: key) cert a <->
                 byte_at cert (a + 7) = 0 /\ occurs key cert (a + 8)).
  { intros k. rewrite occurs_app. change (length spki_marker) with 7%nat.
    rewrite occurs_cons by lia. replace (a + 7 + 1)%nat with (a + 8)%nat by lia. tauto. }
  assert (Hs : forall k, length k = 32%nat -> occurs k cert (a + 8) <-> slice cert (a + 8) (a + 40) = k).
  { intros k Hlk. rewrite occurs_take, Hlk. unfold slice.
    by replace (a + 40 - (a + 8))%nat with 32%nat by lia. }
  split.
  - intros (i & Hi). pose proof (key_at_length _ _ _ Hi). pose proof (key_at_marker _ _ _ Hi) as Hmi.
    destruct Hi as (Ho & Hlk & Hmin').
    assert (i = a) as ->.
    { destruct (Nat.lt_trichotomy i a) as [?|[?|?]]; [|done|]; exfalso;
        [by apply (Hmin i)|by apply (Hmin' a)]. }
    apply Hk in Ho as [H0 Ho]. split; [done|]. split; [lia|]. by apply Hs.
  - intros (H0 & Hl' & <-). exists a.
    assert (Hlk : length (slice cert (a + 8) (a + 40)) = 32%nat).
    { rewrite length_slice by lia. lia. }
    split; [|by split]. apply Hk. split; [done|]. by apply Hs.
Qed.

(** What is read once the first marker is found. *)
Lemma read_key_spec cert key a :
  occurs spki_marker cert a -> (forall j, (j < a)%nat -> ~ occurs spki_marker cert j) ->
  (a + 8 <= length cert)%nat ->
  (if negb (byte_at cert (a + 7) =? 0) then Err InvalidPublicKey
   else if (length cert <? a + 40)%nat then Err InvalidPublicKey
   else Ok (slice cert (a + 8) (a + 40))) = Ok key <-> exists i, key_at cert key i.
Proof.
  intros Hm Hmin Hl. rewrite (key_at_first cert key a) by done.
  destruct (Z.eqb_spec (byte_at cert (a + 7)) 0) as [->|Hne]; simpl.
  - destruct (Nat.ltb_spec (length cert) (a + 40)).
    + split; [done|]. intros (_ & Hle & _). lia.
    + split; [intros [= <-]; auto|]. by intros (_ & _ & ->).
  - split; [done|]. by intros (? & _).
Qed.

Lemma key_not_before cert key pos i :
  (forall j, (j < pos)%nat -> ~ occurs spki_marker cert j) -> key_at cert key i -> (pos <= i)%nat.
Proof.
  intros Hb Hi%key_at_marker. destruct (Nat.le_gt_cases pos i); [done|]. by destruct (Hb i).
Qed.

Lemma marker_bytes cert a :
  occurs oid_pattern cert a -> (a + 8 <= length cert)%nat ->
  occurs spki_marker cert a <->
  (byte_at cert (a + 5) =? 3) && (byte_at cert (a + 5 + 1) =? 33) = true.
Proof.
  intros Ho Hl. unfold spki_marker. rewrite occurs_app, andb_true_iff, !Z.eqb_eq.
  cbn [length oid_pattern]. rewrite !occurs_cons by lia.
  assert (occurs [] cert (a + 5 + 1 + 1)) by apply prefix_nil. tauto.
Qed.

(** No marker before the next identifier, nor, if that is not one, inside it. *)
Lemma no_marker_until cert pos off :
  (forall j, (j < pos)%nat -> ~ occurs spki_marker cert j) ->
  (forall j, (j < off)%nat -> ~ occurs oid_pattern (drop pos cert) j) ->
  forall j, (j < pos + off)%nat -> ~ occurs spki_marker cert j.
Proof.
  intros Hb Hmin j Hj Hj'. destruct (Nat.lt_ge_cases j pos) as [?|?]; [by apply (Hb j)|].
  apply occurs_app in Hj' as [Hj' _]. apply (Hmin (j - pos)%nat); [lia|].
  apply occurs_drop. by replace (pos + (j - pos))%nat with j by lia.
Qed.

Lemma no_marker_past cert a :
  (forall j, (j < a)%nat -> ~ occurs spki_marker cert j) ->
  occurs oid_pattern cert a -> ~ occurs spki_marker cert a ->
  forall j, (j < a + 5)%nat -> ~ occurs spki_marker cert j.
Proof.
  intros Hb Ho Hno j Hj Hj'. destruct (Nat.lt_ge_cases j a) as [?|?]; [by apply (Hb j)|].
  destruct (decide (j = a)) as [->|Hne]; [done|].
  apply occurs_app in Hj' as [Hj' _]. apply (oid_no_overlap cert a (j - a) Ho); [lia|].
  by replace (a + (j - a))%nat with j by lia.
Qed.

(** What the loop finds from a position before which there is no marker. *)
Lemma scan_spec fuel cert key : forall pos,
  (length cert < pos + fuel)%nat ->
  (forall j, (j < pos)%nat -> ~ occurs spki_marker cert j) ->
  scan fuel cert pos = Ok key <-> exists i, key_at cert key i.
Proof.
  assert (Hout : forall pos, (forall j, (j < pos)%nat -> ~ occurs spki_marker cert j) ->
            (length cert < pos + 40)%nat -> @Err CertError (list Z) InvalidPublicKey = Ok key <->
            exists i, key_at cert key i).
  { intros pos Hb Hl. split; [done|]. intros (i & Hi). pose proof (key_not_before _ _ _ _ Hb Hi).
    apply key_at_length in Hi. lia. }
  induction fuel as [|fuel IH]; intros pos Hf Hb; cbn [scan]; [apply (Hout pos Hb); lia|].
  cbn [length oid_pattern]. destruct (Nat.ltb_spec (pos + 5) (length cert)) as [Hlt|Hlt].
  2: { apply (Hout pos Hb). lia. }
  pose proof (position_spec oid_pattern (drop pos cert) ltac:(done)) as Hpos.
  destruct (position oid_pattern (drop pos cert)) as [off|].
  2: { split; [done|]. intros (i & Hi). exfalso. pose proof (key_not_before _ _ _ _ Hb Hi).
       apply key_at_marker, occurs_app in Hi as [Hi _]. apply (Hpos (i - pos)%nat).
       apply occurs_drop. by replace (pos + (i - pos))%nat with i by lia. }
  destruct Hpos as (Ho & _ & Hmin). apply occurs_drop in Ho.
  pose proof (no_marker_until _ _ _ Hb Hmin) as Hb'. set (a := (pos + off)%nat) in *.
  destruct (Nat.ltb_spec (length cert) (a + 5 + 3)) as [Hs|Hs]; [apply (Hout a Hb'); lia|].
  pose proof (marker_bytes cert a Ho ltac:(lia)) as Hm.
  destruct (_ && _).
  - rewrite <- (read_key_spec cert key a) by (tauto || lia).
    replace (a + 5 + 2)%nat with (a + 7)%nat by lia. replace (a + 7 + 1)%nat with (a + 8)%nat by lia.
    by replace (a + 8 + 32)%nat with (a + 40)%nat by lia.
  - apply IH; [lia|]. apply no_marker_past; [done..|]. by rewrite Hm.
Qed.

(** The scan finds exactly the key the format puts there; identifiers without the tag of
    a key, such as the one of the signature algorithm, are passed over. *)
Lemma extract_spec (cert key : list Z) :
  extract_ed25519_spki_raw cert = Ok key <-> exists i, key_at cert key i.
Proof. apply scan_spec; [lia|]. intros j Hj. lia. Qed.

(** What the generator promises: a serialized key is read back, and in a self-signed
    certificate the key follows the first marker (the fields in front of the public key
    do not contain one). *)
Class RcgenLaws `{Rcgen} : Prop := {
  pkcs8_roundtrip : forall kp, from_pkcs8_der (serialize_der kp) = Ok kp;
  self_signed_layout : forall kp names der, self_signed kp names = Ok der ->
    exists i, key_at der (public_key_raw kp) i }.

(** A key file written on the first start gives the same key pair on every later one. *)
Lemma keypair_stable `{RcgenLaws} file file' random kp :
  can_read file = true ->
  contents file = None -> load_or_generate_tls_keypair file random = (file', Ok kp) ->
  forall random', load_or_generate_tls_keypair file' random' = (file', Ok kp).
Proof.
  intros Hread Hnew Hgen random'. unfold load_or_generate_tls_keypair in Hgen. rewrite Hnew in Hgen.
  destruct (generate_for random) as [k|]; [|done].
  destruct (can_mkdir file), (can_write file); try done. simpl in Hgen.
  injection Hgen as <- <-. unfold load_or_generate_tls_keypair. simpl.
  by rewrite Hread, pkcs8_roundtrip.
Qed.

(** A pinned client looks at the first key of the certificate and at nothing else. *)
Lemma pinned_accepts_iff `{Signatures} (id : DeviceId) (cert transcript signature : list Z) :
  client_accepts (generate_pinned_client_config id) cert transcript signature = Ok tt <->
  exists key i, key_at cert key i /\ from_digest (sha256 key) = id.
Proof.
  unfold client_accepts. simpl. destruct (extract_ed25519_spki_raw cert) as [key|e] eqn:He.
  - assert (Hk : exists i, key_at cert key i) by (by apply extract_spec).
    case_decide as Hid; simpl; split; try done.
    + intros _. destruct Hk as [i Hi]. by exists key, i.
    + intros (key' & i & Hi & Hid'). assert (He' : extract_ed25519_spki_raw cert = Ok key').
      { apply extract_spec. by exists i. }
      rewrite He in He'. injection He' as <-. done.
  - split; [done|]. intros (key & i & Hi & _).
    assert (He' : extract_ed25519_spki_raw cert = Ok key) by (apply extract_spec; by exists i).
    by rewrite He in He'.
Qed.

(** The one certificate of a server, and the key in it. *)
Lemma server_config_chain `{RcgenLaws, Signatures} kp names cfg :
  generate_server_config_from_keypair kp names = Ok cfg ->
  exists der i, cert_chain cfg = [der] /\ key_at der (public_key_raw kp) i.
Proof.
  unfold generate_server_config_from_keypair. destruct (self_signed kp names) as [der|] eqn:Hd; [|done].
  simpl. destruct (key_loads _); [|done]. intros [= <-].
  apply self_signed_layout in Hd as [i Hi]. by exists der, i.
Qed.

(** A certificate has one key. *)
Lemma key_at_unique cert key key' i j : key_at cert key i -> key_at cert key' j -> key = key'.
Proof.
  intros Hi Hj. assert (Hk : extract_ed25519_spki_raw cert = Ok key) by (apply extract_spec; by exists i).
  assert (Hk' : extract_ed25519_spki_raw cert = Ok key') by (apply extract_spec; by exists j).
  rewrite Hk in Hk'. by injection Hk' as <-.
Qed.

(** ** Properties *)

Section Properties.
Context `{RcgenLaws, Signatures}.

(** A client pinned to a device accepts a server exactly when the first Ed25519 key
    of the certificate it presents hashes to that device's identity, whatever the
    transcript and the signature over it; so the server of that device is accepted under
    any names, and so is every server that presents a copy of its certificate, which
    holds no secret. *)
Theorem pinned_client_accepts (id : DeviceId) (cert transcript signature : list Z) :
  (client_accepts (generate_pinned_client_config id) cert transcript signature = Ok tt <->
   exists key i, key_at cert key i /\ from_digest (sha256 key) = id) /\
  (forall kp names cfg, generate_server_config_from_keypair kp names = Ok cfg ->
     id = device_id_from_keypair kp -> cert ∈ cert_chain cfg ->
     client_accepts (generate_pinned_client_config id) cert transcript signature = Ok tt).
Proof.
  split; [apply pinned_accepts_iff|]. intros kp names cfg Hcfg -> Hc. apply pinned_accepts_iff.
  destruct (server_config_chain _ _ _ Hcfg) as (der & i & Hchain & Hi).
  rewrite Hchain in Hc. apply list_elem_of_singleton in Hc as ->. by exists (public_key_raw kp), i.
Qed.
End Properties.

(** ** Instances on concrete inputs *)

(** A generator whose keys are their 32 bytes and whose certificates are a header, the
    key and an identifier with the tag of a signature. *)
Definition toy_rcgen : Rcgen := {|
  KeyPair := { k : list Z | length k = 32%nat };
  generate_for r := match decide (length r = 32%nat) with
                    | left Hr => Ok (exist _ r Hr) | right _ => Err "entropy" end;
  public_key_raw kp := proj1_sig kp;
  serialize_der kp := proj1_sig kp;
  from_pkcs8_der b := match decide (length b = 32%nat) with
                      | left Hb => Ok (exist _ b Hb) | right _ => Err "parse" end;
  self_signed kp _ := Ok (48 :: spki_marker ++ 0 :: proj1_sig kp ++ oid_pattern ++ [3; 65; 0]);
  generate_simple_self_signed r _ := Err "unavailable";
  key_loads _ := true |}.

Lemma toy_rcgen_laws : @RcgenLaws toy_rcgen.
Proof.
  split.
  - intros [k Hk]. cbn. destruct (decide (length k = 32%nat)) as [Hk'|]; [|done].
    do 2 f_equal. apply (proof_irrel).
  - intros [k Hk] names der [= <-]. exists 1%nat. split; [|split; [exact Hk|]].
    + by exists (oid_pattern ++ [3; 65; 0]).
    + intros j Hj Ho. assert (j = 0)%nat as -> by lia. by apply (occurs_lookup _ _ _ 0 6) in Ho.
Qed.

(** The certificate of a device, presented with a forged signature. *)
Lemma pinned_client_accepts_witness :
  let kp : @KeyPair toy_rcgen := exist _ (replicate 32 7) eq_refl in
  @client_accepts toy_signatures
    (generate_pinned_client_config (@device_id_from_keypair toy_rcgen toy_signatures kp))
    (48 :: spki_marker ++ 0 :: replicate 32 7 ++ oid_pattern ++ [3; 65; 0]) [1] [2] = Ok tt.
Proof.
  intros kp.
  apply (proj2 (@pinned_client_accepts toy_rcgen toy_rcgen_laws toy_signatures
                  (@device_id_from_keypair toy_rcgen toy_signatures kp) _ [1] [2])
           kp [] _ eq_refl eq_refl).
  left.
Defined.
