(* ===== verification/Keys.v ===== *)
(** * Keys of the viewer (bw-client, [main.rs])

    The translation of winit's physical keys to Win32 virtual-key codes. *)

From S2P Require Import Prelude.

(** ** winit's key codes *)

Module Key.
(** The keys the source names; the type is open, [Unlisted] stands for any other. *)
Inductive KeyCode : Type :=
| KeyA | KeyB | KeyC | KeyD | KeyE | KeyF | KeyG | KeyH | KeyI | KeyJ | KeyK | KeyL | KeyM
| KeyN | KeyO | KeyP | KeyQ | KeyR | KeyS | KeyT | KeyU | KeyV | KeyW | KeyX | KeyY | KeyZ
| Digit0 | Digit1 | Digit2 | Digit3 | Digit4 | Digit5 | Digit6 | Digit7 | Digit8 | Digit9
| Numpad0 | Numpad1 | Numpad2 | Numpad3 | Numpad4 | Numpad5 | Numpad6 | Numpad7 | Numpad8
| Numpad9 | NumpadAdd | NumpadSubtract | NumpadMultiply | NumpadDivide | NumpadDecimal
| NumpadEnter | F1 | F2 | F3 | F4 | F5 | F6 | F7 | F8 | F9 | F10 | F11 | F12 | F13 | F14 | F15
| F16 | F17 | F18 | F19 | F20 | F21 | F22 | F23 | F24 | Backspace | Tab | Enter | Escape
| Space | Insert | Delete | Home | End | PageUp | PageDown | ArrowUp | ArrowDown | ArrowLeft
| ArrowRight | CapsLock | PrintScreen | ScrollLock | Pause | NumLock | ShiftLeft | ShiftRight
| ControlLeft | ControlRight | AltLeft | AltRight | SuperLeft | SuperRight | ContextMenu
| Backquote | Minus | Equal | BracketLeft | BracketRight | Backslash | Semicolon | Quote
| Comma | Period | Slash | IntlBackslash | IntlRo | IntlYen | Convert | NonConvert | KanaMode
| Lang1 | Lang2 | Hiragana | Katakana | BrowserBack | BrowserForward | BrowserRefresh
| BrowserStop | BrowserSearch | BrowserFavorites | BrowserHome | AudioVolumeMute
| AudioVolumeDown | AudioVolumeUp | MediaTrackNext | MediaTrackPrevious | MediaStop
| MediaPlayPause | LaunchMail | MediaSelect | LaunchApp1 | LaunchApp2 | Sleep | Fn | FnLock
| Eject | Power | WakeUp | Meta | Hyper | Turbo | Abort | Resume | Suspend | Again | Copy | Cut
| Find | Open | Paste | Props | Select | Undo | NumpadBackspace | NumpadClear
| NumpadClearEntry | NumpadComma | NumpadEqual | NumpadHash | NumpadMemoryAdd
| NumpadMemoryClear | NumpadMemoryRecall | NumpadMemoryStore | NumpadMemorySubtract
| NumpadParenLeft | NumpadParenRight | NumpadStar | Lang3 | Lang4 | Lang5 | F25 | F26 | F27
| F28 | F29 | F30 | F31 | F32 | F33 | F34 | F35
| Unlisted (n : Z).

Definition winit_keycode_to_vk (code : KeyCode) : option Z :=
  match code with
  | KeyA => Some 65 | KeyB => Some 66 | KeyC => Some 67 | KeyD => Some 68 | KeyE => Some 69
  | KeyF => Some 70 | KeyG => Some 71 | KeyH => Some 72 | KeyI => Some 73 | KeyJ => Some 74
  | KeyK => Some 75 | KeyL => Some 76 | KeyM => Some 77 | KeyN => Some 78 | KeyO => Some 79
  | KeyP => Some 80 | KeyQ => Some 81 | KeyR => Some 82 | KeyS => Some 83 | KeyT => Some 84
  | KeyU => Some 85 | KeyV => Some 86 | KeyW => Some 87 | KeyX => Some 88 | KeyY => Some 89
  | KeyZ => Some 90 | Digit0 => Some 48 | Digit1 => Some 49 | Digit2 => Some 50
  | Digit3 => Some 51 | Digit4 => Some 52 | Digit5 => Some 53 | Digit6 => Some 54
  | Digit7 => Some 55 | Digit8 => Some 56 | Digit9 => Some 57 | Numpad0 => Some 96
  | Numpad1 => Some 97 | Numpad2 => Some 98 | Numpad3 => Some 99 | Numpad4 => Some 100
  | Numpad5 => Some 101 | Numpad6 => Some 102 | Numpad7 => Some 103 | Numpad8 => Some 104
  | Numpad9 => Some 105 | NumpadAdd => Some 107 | NumpadSubtract => Some 109
  | NumpadMultiply => Some 106 | NumpadDivide => Some 111 | NumpadDecimal => Some 110
  | NumpadEnter => Some 13 | F1 => Some 112 | F2 => Some 113 | F3 => Some 114 | F4 => Some 115
  | F5 => Some 116 | F6 => Some 117 | F7 => Some 118 | F8 => Some 119 | F9 => Some 120
  | F10 => Some 121 | F11 => Some 122 | F12 => Some 123 | F13 => Some 124 | F14 => Some 125
  | F15 => Some 126 | F16 => Some 127 | F17 => Some 128 | F18 => Some 129 | F19 => Some 130
  | F20 => Some 131 | F21 => Some 132 | F22 => Some 133 | F23 => Some 134 | F24 => Some 135
  | Backspace => Some 8 | Tab => Some 9 | Enter => Some 13 | Escape => Some 27
  | Space => Some 32 | Insert => Some 45 | Delete => Some 46 | Home => Some 36 | End => Some 35
  | PageUp => Some 33 | PageDown => Some 34 | ArrowUp => Some 38 | ArrowDown => Some 40
  | ArrowLeft => Some 37 | ArrowRight => Some 39 | CapsLock => Some 20 | PrintScreen => Some 44
  | ScrollLock => Some 145 | Pause => Some 19 | NumLock => Some 144 | ShiftLeft => Some 160
  | ShiftRight => Some 161 | ControlLeft => Some 162 | ControlRight => Some 163
  | AltLeft => Some 164 | AltRight => Some 165 | SuperLeft => Some 91 | SuperRight => Some 92
  | ContextMenu => Some 93 | Backquote => Some 192 | Minus => Some 189 | Equal => Some 187
  | BracketLeft => Some 219 | BracketRight => Some 221 | Backslash => Some 220
  | Semicolon => Some 186 | Quote => Some 222 | Comma => Some 188 | Period => Some 190
  | Slash => Some 191 | IntlBackslash => Some 226 | IntlRo => Some 226 | IntlYen => Some 220
  | Convert => Some 28 | NonConvert => Some 29 | KanaMode => Some 21 | Lang1 => Some 21
  | Lang2 => Some 25 | Hiragana => Some 242 | Katakana => Some 242 | BrowserBack => Some 166
  | BrowserForward => Some 167 | BrowserRefresh => Some 168 | BrowserStop => Some 169
  | BrowserSearch => Some 170 | BrowserFavorites => Some 171 | BrowserHome => Some 172
  | AudioVolumeMute => Some 173 | AudioVolumeDown => Some 174 | AudioVolumeUp => Some 175
  | MediaTrackNext => Some 176 | MediaTrackPrevious => Some 177 | MediaStop => Some 178
  | MediaPlayPause => Some 179 | LaunchMail => Some 180 | MediaSelect => Some 181
  | LaunchApp1 => Some 182 | LaunchApp2 => Some 183 | Sleep => Some 95
  | Fn | FnLock | Eject | Power | WakeUp | Meta | Hyper | Turbo | Abort | Resume | Suspend
  | Again | Copy | Cut | Find | Open | Paste | Props | Select | Undo | NumpadBackspace
  | NumpadClear | NumpadClearEntry | NumpadComma | NumpadEqual | NumpadHash | NumpadMemoryAdd
  | NumpadMemoryClear | NumpadMemoryRecall | NumpadMemoryStore | NumpadMemorySubtract
  | NumpadParenLeft | NumpadParenRight | NumpadStar | Lang3 | Lang4 | Lang5 | F25 | F26 | F27
  | F28 | F29 | F30 | F31 | F32 | F33 | F34 | F35 => None
  | Unlisted _ => None
  end.

(** The keys with a code or known to have none. *)
Definition named_keys : list KeyCode :=
  [KeyA; KeyB; KeyC; KeyD; KeyE; KeyF; KeyG; KeyH; KeyI; KeyJ; KeyK; KeyL; KeyM; KeyN; KeyO;
   KeyP; KeyQ; KeyR; KeyS; KeyT; KeyU; KeyV; KeyW; KeyX; KeyY; KeyZ; Digit0; Digit1; Digit2;
   Digit3; Digit4; Digit5; Digit6; Digit7; Digit8; Digit9; Numpad0; Numpad1; Numpad2; Numpad3;
   Numpad4; Numpad5; Numpad6; Numpad7; Numpad8; Numpad9; NumpadAdd; NumpadSubtract;
   NumpadMultiply; NumpadDivide; NumpadDecimal; NumpadEnter; F1; F2; F3; F4; F5; F6; F7; F8;
   F9; F10; F11; F12; F13; F14; F15; F16; F17; F18; F19; F20; F21; F22; F23; F24; Backspace;
   Tab; Enter; Escape; Space; Insert; Delete; Home; End; PageUp; PageDown; ArrowUp; ArrowDown;
   ArrowLeft; ArrowRight; CapsLock; PrintScreen; ScrollLock; Pause; NumLock; ShiftLeft;
   ShiftRight; ControlLeft; ControlRight; AltLeft; AltRight; SuperLeft; SuperRight;
   ContextMenu; Backquote; Minus; Equal; BracketLeft; BracketRight; Backslash; Semicolon;
   Quote; Comma; Period; Slash; IntlBackslash; IntlRo; IntlYen; Convert; NonConvert; KanaMode;
   Lang1; Lang2; Hiragana; Katakana; BrowserBack; BrowserForward; BrowserRefresh; BrowserStop;
   BrowserSearch; BrowserFavorites; BrowserHome; AudioVolumeMute; AudioVolumeDown;
   AudioVolumeUp; MediaTrackNext; MediaTrackPrevious; MediaStop; MediaPlayPause; LaunchMail;
   MediaSelect; LaunchApp1; LaunchApp2; Sleep; Fn; FnLock; Eject; Power; WakeUp; Meta; Hyper;
   Turbo; Abort; Resume; Suspend; Again; Copy; Cut; Find; Open; Paste; Props; Select; Undo;
   NumpadBackspace; NumpadClear; NumpadClearEntry; NumpadComma; NumpadEqual; NumpadHash;
   NumpadMemoryAdd; NumpadMemoryClear; NumpadMemoryRecall; NumpadMemoryStore;
   NumpadMemorySubtract; NumpadParenLeft; NumpadParenRight; NumpadStar; Lang3; Lang4; Lang5;
   F25; F26; F27; F28; F29; F30; F31; F32; F33; F34; F35].
End Key.

(** ** Lemmas *)

Lemma named_or_unlisted (k : Key.KeyCode) : In k Key.named_keys \/ Key.winit_keycode_to_vk k = None.
Proof. destruct k; first [by right|left; unfold Key.named_keys; repeat first [by left|right]]. Qed.

(** The keys that give a code. *)
Definition keys_of (v : Z) : list Key.KeyCode :=
  filter (fun k => Key.winit_keycode_to_vk k = Some v) Key.named_keys.

Lemma in_keys_of k v : Key.winit_keycode_to_vk k = Some v -> k ∈ keys_of v.
Proof.
  intros Hk. apply list_elem_of_filter. split; [done|]. apply list_elem_of_In.
  by destruct (named_or_unlisted k) as [?|He]; [|rewrite Hk in He].
Qed.

(** The codes that two keys share: Enter, the backslashes (two), and the kana keys (two). *)
Definition shared_codes : list Z := [13; 226; 220; 21; 242].

(** ** Properties *)

(** Keys are told apart: every code a key gives is a virtual-key code (at least 8, at
    most 254), and two keys give the same one only if it is one of the five codes that the
    keyboard layouts share. *)
Theorem keys_told_apart (k k' : Key.KeyCode) (v : Z) :
  Key.winit_keycode_to_vk k = Some v -> Key.winit_keycode_to_vk k' = Some v ->
  8 <= v <= 254 /\ (k = k' \/ v ∈ shared_codes).
Proof.
  intros Hk%in_keys_of Hk'%in_keys_of.
  assert (Hr : 8 <= v <= 254).
  { apply list_elem_of_filter in Hk as [Hk Hin]. apply list_elem_of_In in Hin.
    assert (HF : Forall (fun k => match Key.winit_keycode_to_vk k with
              | Some v => 8 <= v <= 254 | None => True end) Key.named_keys).
    { unfold Key.named_keys. repeat (apply Forall_cons_2; [simpl; lia || done|]). apply Forall_nil_2. }
    rewrite Stdlib.Lists.List.Forall_forall in HF. apply HF in Hin. by rewrite Hk in Hin. }
  split; [done|].
  assert (HF : Forall (fun v => (length (keys_of v) <= 1)%nat \/ v ∈ shared_codes) (seqZ 8 247)) by by_decide.
  rewrite Stdlib.Lists.List.Forall_forall in HF.
  destruct (HF v) as [Hl|?]; [apply list_elem_of_In, elem_of_seqZ; lia| |by right].
  left. destruct (keys_of v) as [|x [|y l]]; [by apply not_elem_of_nil in Hk| |simpl in Hl; lia].
  apply list_elem_of_singleton in Hk, Hk'. congruence.
Qed.

(** The key A. *)
Lemma keys_told_apart_witness :
  8 <= 65 <= 254 /\ (Key.KeyA = Key.KeyA \/ 65 ∈ shared_codes).
Proof. exact (keys_told_apart Key.KeyA Key.KeyA 65 eq_refl eq_refl). Defined.
