(* ===== verification/Audio.v ===== *)
(** * Audio (bw-audio)

    The formats of the Opus codec and its encoder and decoder ([codec.rs]), the capture
    callback that cuts what the host plays into frames ([capture.rs]), and playback
    ([playback.rs]).  The Opus library is an interface; a sample is an [f32]. *)

From S2P Require Import Prelude Float.

Abbreviation sample := spec_float.

Inductive AudioError : Type :=
| NoOutputDevice
| UnsupportedSampleFormat
| InvalidParameters (e : string)
| Encode (e : string)
| Decode (e : string)
| StreamBuild (e : string)
| StreamPlay (e : string).

Definition MAX_OPUS_PACKET : Z := 4000.

Record AudioCodecConfig := { sample_rate : Z; channels : Z; frame_size : Z }.

#[global] Instance AudioCodecConfig_eq_dec : EqDecision AudioCodecConfig.
Proof. solve_decision. Defined.

Definition new_config (rate chans : Z) : result AudioError AudioCodecConfig :=
  if negb (bool_decide (rate ∈ [8000; 12000; 16000; 24000; 48000])) then
    Err (InvalidParameters ("unsupported sample rate " +:+ pretty rate +:+
                            "; Opus supports 8, 12, 16, 24 or 48 kHz"))
  else if negb ((1 <=? chans) && (chans <=? 2)) then
    Err (InvalidParameters "channel count must be 1 or 2")
  else Ok {| sample_rate := rate; channels := chans; frame_size := rate / 50 |}.

(** ** The Opus library *)

Class Opus := {
  RustyEncoder : Type;
  RustyDecoder : Type;
  rusty_encoder : Z -> Z -> result string RustyEncoder;
  rusty_decoder : Z -> Z -> result string RustyDecoder;
  (** Samples and frame size; the bytes written, at most [MAX_OPUS_PACKET]. *)
  rusty_encode : RustyEncoder -> list sample -> Z -> RustyEncoder * result string (list Z);
  (** Packet, frame size and the buffer; how many samples per channel were written and
      the buffer. *)
  rusty_decode : RustyDecoder -> list Z -> Z -> list sample ->
    RustyDecoder * result string (Z * list sample) }.

Section Codec.
Context `{Opus}.

Record AudioEncoder := { encoder : RustyEncoder; enc_config : AudioCodecConfig; enc_frame_len : Z }.

Definition new_encoder (config : AudioCodecConfig) : result AudioError AudioEncoder :=
  let? e := map_err Encode (rusty_encoder (sample_rate config) (channels config)) in
  Ok {| encoder := e; enc_config := config; enc_frame_len := frame_size config * channels config |}.

Definition encode_frame (e : AudioEncoder) (pcm : list sample) :
    AudioEncoder * result AudioError (list Z) :=
  if negb (zlen pcm =? enc_frame_len e) then
    (e, Err (InvalidParameters ("expected " +:+ pretty (enc_frame_len e) +:+
                                " samples per frame, got " +:+ pretty (zlen pcm))))
  else
    let '(r, out) := rusty_encode (encoder e) pcm (frame_size (enc_config e)) in
    ({| encoder := r; enc_config := enc_config e; enc_frame_len := enc_frame_len e |},
     map_err Encode out).

Record AudioDecoder := { decoder : RustyDecoder; dec_config : AudioCodecConfig; dec_frame_len : Z }.

Definition new_decoder (config : AudioCodecConfig) : result AudioError AudioDecoder :=
  let? d := map_err Decode (rusty_decoder (sample_rate config) (channels config)) in
  Ok {| decoder := d; dec_config := config; dec_frame_len := frame_size config * channels config |}.

Definition decode_frame (d : AudioDecoder) (opus : list Z) :
    AudioDecoder * result AudioError (list sample) :=
  let out := replicate (Z.to_nat (dec_frame_len d)) (S754_zero false) in
  let '(r, res) := rusty_decode (decoder d) opus (frame_size (dec_config d)) out in
  let d := {| decoder := r; dec_config := dec_config d; dec_frame_len := dec_frame_len d |} in
  match res with
  | Err e => (d, Err (Decode e))
  | Ok (written, out) =>
      let interleaved := Z.min (written * channels (dec_config d)) (dec_frame_len d) in
      (d, Ok (take (Z.to_nat interleaved) out))
  end.

(** ** Capture *)

Record CaptureState := {
  cap_encoder : AudioEncoder;
  pending : list sample;
  frame_len : Z;
  packets : list (list Z) }.

(** The state [AudioCapture::new] shares with the callback, for the device's format. *)
Definition new_capture (device_rate device_channels : Z) : result AudioError CaptureState :=
  let? config := new_config device_rate (Z.min device_channels 2) in
  let? e := new_encoder config in
  Ok {| cap_encoder := e; pending := []; frame_len := frame_size config * channels config;
        packets := [] |}.

(** One frame: encoded, and sent unless the encoder refuses it. *)
Definition emit (e : AudioEncoder) (packets : list (list Z)) (frame : list sample) :
    AudioEncoder * list (list Z) :=
  let '(e, r) := encode_frame e frame in
  match r with Ok packet => (e, packets ++ [packet]) | Err _ => (e, packets) end.

(** The [while] loop over the complete frames. *)
Fixpoint drain_frames (fuel : nat) (s : CaptureState) : CaptureState :=
  match fuel with
  | O => s
  | S fuel =>
      if frame_len s <=? zlen (pending s) then
        let frame := take (Z.to_nat (frame_len s)) (pending s) in
        let '(e, p) := emit (cap_encoder s) (packets s) frame in
        drain_frames fuel
          {| cap_encoder := e; pending := drop (Z.to_nat (frame_len s)) (pending s);
             frame_len := frame_len s; packets := p |}
      else s
  end.

(** The capture callback: at most one frame per pending sample. *)
Definition on_samples (s : CaptureState) (data : list sample) : CaptureState :=
  let s := {| cap_encoder := cap_encoder s; pending := pending s ++ data;
              frame_len := frame_len s; packets := packets s |} in
  drain_frames (S (length (pending s))) s.

(** ** Playback *)

Record AudioPlayback := { play_decoder : AudioDecoder; queue : list sample }.

Definition new_playback (config : AudioCodecConfig) : result AudioError AudioPlayback :=
  let? d := new_decoder config in Ok {| play_decoder := d; queue := [] |}.

Definition feed (p : AudioPlayback) (chans rate : Z) (opus_data : list Z) :
    AudioPlayback * result AudioError unit :=
  match new_config rate chans with
  | Err e => (p, Err e)
  | Ok config =>
      let fresh :=
        if decide (dec_config (play_decoder p) = config) then Ok (play_decoder p)
        else new_decoder config in
      match fresh with
      | Err e => (p, Err e)
      | Ok d =>
          let '(d, r) := decode_frame d opus_data in
          match r with
          | Err e => ({| play_decoder := d; queue := queue p |}, Err e)
          | Ok pcm => ({| play_decoder := d; queue := queue p ++ pcm |}, Ok tt)
          end
      end
  end.

(** The output callback fills a buffer of [n] samples, with silence when the queue is
    empty. *)
Fixpoint on_output (n : nat) (p : AudioPlayback) : AudioPlayback * list sample :=
  match n with
  | O => (p, [])
  | S n =>
      let '(out, rest) := match queue p with s :: q => (s, q) | [] => (S754_zero false, []) end in
      let '(p, outs) := on_output n {| play_decoder := play_decoder p; queue := rest |} in
      (p, out :: outs)
  end.

(** ** Opening the devices *)

Inductive SampleFormat : Type := F32 | I16 | U16 | OtherFormat.

(** What the default output device answers: its configuration (rate, channels, format), whether a
    stream of a rate and a number of channels can be built on it, and whether it starts. *)
Record OutputDevice := {
  default_output_config : result string (Z * Z * SampleFormat);
  build_stream : Z -> Z -> result string unit;
  stream_play : result string unit }.

(** The stream of [AudioCapture::new] and [AudioPlayback::new]: built for one of three formats and
    started. *)
Definition open_stream (dev : OutputDevice) (rate chans : Z) (f : SampleFormat) : result AudioError unit :=
  let? _ := match f with
            | OtherFormat => Err UnsupportedSampleFormat
            | _ => map_err StreamBuild (build_stream dev rate chans)
            end in
  map_err StreamPlay (stream_play dev).

(** [AudioCapture::new] on the default output device, if there is one: the format and the state
    shared with the callback. *)
Definition open_capture (device : option OutputDevice) : result AudioError (AudioCodecConfig * CaptureState) :=
  let? dev := ok_or NoOutputDevice device in
  let? supported := map_err (fun e => StreamBuild ("no default output config: " +:+ e)) (default_output_config dev) in
  let? s := new_capture supported.1.1 supported.1.2 in
  let config := enc_config (cap_encoder s) in
  let? _ := open_stream dev (sample_rate config) (channels config) supported.2 in
  Ok (config, s).

(** [AudioPlayback::new]: the stream has the format asked for, with the device's kind of samples. *)
Definition open_playback (device : option OutputDevice) (config : AudioCodecConfig) :
    result AudioError AudioPlayback :=
  let? dev := ok_or NoOutputDevice device in
  let? supported := map_err (fun e => StreamBuild ("no default output config: " +:+ e)) (default_output_config dev) in
  let? p := new_playback config in
  let? _ := open_stream dev (sample_rate config) (channels config) supported.2 in
  Ok p.

(** ** Specification of the capture: the stream cut into frames *)

(** The complete frames of [n] samples at the front of a stream, and what is left. *)
Fixpoint frames_of (fuel : nat) (n : nat) (l : list sample) : list (list sample) * list sample :=
  match fuel with
  | O => ([], l)
  | S fuel =>
      if (n <=? length l)%nat then
        let '(fs, rest) := frames_of fuel n (drop n l) in (take n l :: fs, rest)
      else ([], l)
  end.

Definition cut (n : nat) (l : list sample) : list (list sample) * list sample :=
  frames_of (S (length l)) n l.

Definition emit_all (e : AudioEncoder) (packets : list (list Z)) (frames : list (list sample)) :
    AudioEncoder * list (list Z) :=
  foldl (fun ep f => emit ep.1 ep.2 f) (e, packets) frames.

(** ** Lemmas *)

Lemma frames_of_fuel n : (0 < n)%nat -> forall f g l, (length l < f)%nat -> (length l < g)%nat ->
  frames_of f n l = frames_of g n l.
Proof.
  intros Hn f. induction f as [|f IH]; intros [|g] l Hf Hg; try lia. cbn [frames_of].
  destruct (Nat.leb_spec n (length l)); [|done].
  by rewrite (IH g) by (rewrite length_drop; lia).
Qed.

(** The frames and the rest are the stream, the frames are full and the rest is not one. *)
Lemma cut_spec n l : (0 < n)%nat ->
  concat (cut n l).1 ++ (cut n l).2 = l /\ Forall (fun f => length f = n) (cut n l).1 /\
  (length (cut n l).2 < n)%nat.
Proof.
  intros Hn. unfold cut. assert (Hl : (length l < S (length l))%nat) by lia. revert Hl.
  generalize (S (length l)) as fuel. intros fuel. revert l.
  induction fuel as [|fuel IH]; intros l Hl; [lia|]. cbn [frames_of].
  destruct (Nat.leb_spec n (length l)) as [Hle|Hgt]; [|by simpl].
  destruct (IH (drop n l)) as (H1 & H2 & H3); [rewrite length_drop; lia|].
  destruct (frames_of fuel n (drop n l)) as [fs rest]. simpl in *.
  rewrite <- (assoc_L (++)), H1, take_drop. split; [done|]. split; [|done].
  constructor; [|done]. rewrite length_take. lia.
Qed.

Lemma cut_unique n fs rest : (0 < n)%nat -> Forall (fun f => length f = n) fs -> (length rest < n)%nat ->
  cut n (concat fs ++ rest) = (fs, rest).
Proof.
  intros Hn Hfs Hr. induction Hfs as [|f fs Hf Hfs IH].
  - unfold cut. simpl. by destruct (Nat.leb_spec n (length rest)); [lia|].
  - unfold cut. cbn [frames_of concat]. rewrite <- (assoc_L (++)).
    destruct (Nat.leb_spec n (length (f ++ concat fs ++ rest))) as [_|Hgt].
    2: { rewrite length_app in Hgt. lia. }
    rewrite <- Hf, drop_app_length, take_app_length, Hf.
    unfold cut in IH. rewrite (frames_of_fuel n Hn _ (S (length (concat fs ++ rest)))), IH; [done| |lia].
    rewrite (length_app f). lia.
Qed.

Lemma cut_app n l k : (0 < n)%nat ->
  cut n (l ++ k) = ((cut n l).1 ++ (cut n ((cut n l).2 ++ k)).1, (cut n ((cut n l).2 ++ k)).2).
Proof.
  intros Hn. destruct (cut_spec n l Hn) as (H1 & H2 & _).
  destruct (cut_spec n ((cut n l).2 ++ k) Hn) as (H3 & H4 & H5).
  rewrite <- (cut_unique n _ _ Hn (Forall_app_2 _ _ _ H2 H4) H5) at 1.
  f_equal. rewrite concat_app, <- (assoc_L (++)), H3, (assoc_L (++)). by rewrite H1.
Qed.

Lemma drain_frames_cut fuel s : (0 < Z.to_nat (frame_len s))%nat -> (length (pending s) < fuel)%nat ->
  drain_frames fuel s =
    let '(frames, rest) := cut (Z.to_nat (frame_len s)) (pending s) in
    let '(e, p) := emit_all (cap_encoder s) (packets s) frames in
    {| cap_encoder := e; pending := rest; frame_len := frame_len s; packets := p |}.
Proof.
  intros Hn Hf. unfold cut. rewrite (frames_of_fuel _ Hn _ fuel) by lia. revert s Hn Hf.
  induction fuel as [|fuel IH]; intros s Hn Hf; [lia|]. cbn [drain_frames frames_of].
  assert (E : (frame_len s <=? zlen (pending s)) = (Z.to_nat (frame_len s) <=? length (pending s))%nat).
  { unfold zlen. destruct (Nat.leb_spec (Z.to_nat (frame_len s)) (length (pending s)));
      [apply Z.leb_le|apply Z.leb_gt]; lia. }
  rewrite E. destruct (Nat.leb_spec (Z.to_nat (frame_len s)) (length (pending s))) as [Hle|Hgt].
  2: { by destruct s. }
  destruct (emit (cap_encoder s) (packets s) _) as [e p] eqn:He.
  rewrite IH by (cbn [frame_len pending]; rewrite ?length_drop; lia). cbn [frame_len pending cap_encoder packets].
  destruct (frames_of fuel _ _) as [fs rest]. unfold emit_all. cbn [foldl fst snd]. by rewrite He.
Qed.

Lemma on_samples_cut s data : (0 < Z.to_nat (frame_len s))%nat ->
  on_samples s data =
    let '(frames, rest) := cut (Z.to_nat (frame_len s)) (pending s ++ data) in
    let '(e, p) := emit_all (cap_encoder s) (packets s) frames in
    {| cap_encoder := e; pending := rest; frame_len := frame_len s; packets := p |}.
Proof. intros Hn. unfold on_samples. rewrite drain_frames_cut by (simpl; lia). done. Qed.

(** What is played is what was queued, in order, and then silence. *)
Lemma on_output_fifo n p :
  on_output n p =
    ({| play_decoder := play_decoder p; queue := drop n (queue p) |},
     take n (queue p) ++ replicate (n - length (queue p)) (S754_zero false)).
Proof.
  revert p. induction n as [|n IH]; intros [d q]; [done|]. cbn [on_output queue play_decoder].
  destruct q as [|x q]; rewrite IH; cbn [queue play_decoder].
  - by rewrite !drop_nil, !take_nil, Nat.sub_0_r.
  - done.
Qed.

(** ** Properties *)

(** However the audio device slices what the host plays into callbacks, the capture
    cuts the same 20 ms frames: the packets sent and the encoder's state are those of the
    frames of the whole stream given to the encoder one after another, each exactly one
    frame long, in order and without loss; fewer samples than a frame stay pending. *)
Theorem capture_cuts_stream (s : CaptureState) (datas : list (list sample)) :
  0 < frame_len s -> zlen (pending s) < frame_len s ->
  foldl on_samples s datas =
    (let '(frames, rest) := cut (Z.to_nat (frame_len s)) (pending s ++ concat datas) in
     let '(e, p) := emit_all (cap_encoder s) (packets s) frames in
     {| cap_encoder := e; pending := rest; frame_len := frame_len s; packets := p |}) /\
  concat (cut (Z.to_nat (frame_len s)) (pending s ++ concat datas)).1 ++
    pending (foldl on_samples s datas) = pending s ++ concat datas /\
  Forall (fun f => zlen f = frame_len s) (cut (Z.to_nat (frame_len s)) (pending s ++ concat datas)).1 /\
  zlen (pending (foldl on_samples s datas)) < frame_len s.
Proof.
  intros Hn Hp. set (n := Z.to_nat (frame_len s)). assert (Hn' : (0 < n)%nat) by (unfold n; lia).
  assert (Hrun : foldl on_samples s datas =
    (let '(frames, rest) := cut n (pending s ++ concat datas) in
     let '(e, p) := emit_all (cap_encoder s) (packets s) frames in
     {| cap_encoder := e; pending := rest; frame_len := frame_len s; packets := p |})).
  { unfold n in *. clear n. revert s Hn Hp Hn'. induction datas as [|data datas IH]; intros s Hn Hp Hn'.
    - simpl. rewrite app_nil_r. pose proof (cut_unique _ [] (pending s) Hn' (Forall_nil_2 _)) as Hc.
      simpl in Hc. rewrite Hc by (unfold zlen in Hp; lia). by destruct s.
    - cbn [foldl concat]. rewrite on_samples_cut by done. rewrite (assoc_L (++)), (cut_app _ (pending s ++ data)) by done.
      pose proof (cut_spec _ (pending s ++ data) Hn') as (_ & _ & Hrest).
      destruct (cut (Z.to_nat (frame_len s)) (pending s ++ data)) as [fs rest].
      destruct (emit_all (cap_encoder s) (packets s) fs) as [e p] eqn:He. cbn [fst snd] in *.
      rewrite IH by (cbn [frame_len pending]; unfold zlen; lia || done).
      cbn [frame_len pending cap_encoder packets].
      destruct (cut (Z.to_nat (frame_len s)) (rest ++ concat datas)) as [fs2 rest2]. cbn [fst snd].
      unfold emit_all in *. rewrite foldl_app, He. done. }
  split; [exact Hrun|]. destruct (cut_spec n (pending s ++ concat datas) Hn') as (H1 & H2 & H3).
  assert (Hpend : pending (foldl on_samples s datas) = (cut n (pending s ++ concat datas)).2).
  { rewrite Hrun. destruct (cut n _) as [fs rest]. by destruct (emit_all _ _ _). }
  rewrite Hpend. split; [exact H1|]. split; [|unfold zlen, n in *; lia].
  eapply list.Forall_impl; [exact H2|]. intros f Hf. unfold zlen. simpl in Hf. rewrite Hf. unfold n. lia.
Qed.
End Codec.

(** ** Instances on concrete inputs *)

(** A codec that writes the number of samples. *)
#[local] Instance counting_opus : Opus := {|
  RustyEncoder := unit; RustyDecoder := unit;
  rusty_encoder _ _ := Ok tt; rusty_decoder _ _ := Ok tt;
  rusty_encode e pcm _ := (e, Ok [zlen pcm]);
  rusty_decode d _ n buf := (d, Ok (n, buf)) |}.

Definition sample_capture : CaptureState :=
  {| cap_encoder := {| encoder := tt; enc_config := {| sample_rate := 8000; channels := 1; frame_size := 160 |};
                       enc_frame_len := 160 |};
     pending := []; frame_len := 160; packets := [] |}.

(** Two callbacks of 100 samples: one packet, 40 samples pending. *)
Lemma capture_cuts_stream_witness :
  packets (foldl on_samples sample_capture [replicate 100 (S754_zero false); replicate 100 (S754_zero false)])
  = [[160]].
Proof.
  rewrite (proj1 (capture_cuts_stream sample_capture
    [replicate 100 (S754_zero false); replicate 100 (S754_zero false)] eq_refl eq_refl)).
  vm_compute. reflexivity.
Defined.
