(* ===== verification/Poller.v ===== *)
(** * The clipboard poller (bw-clipboard, [poller.rs])

    A thread that reads the clipboard at intervals and reports what changed, and the events
    the programs send for it.  The clipboard and the hash are parameters; times are in
    milliseconds. *)

From Stdlib Require Import Sorted.
From S2P Require Import Prelude Codec Cbor Message Input.

Record ClipboardChange := {
  is_text : bool;
  change_text : option (list Z);
  image_data : option (list Z);
  image_width : option Z;
  image_height : option Z }.

Record ClipboardPoller := { text_interval : Z; image_interval : Z }.

Definition default_intervals : ClipboardPoller :=
  {| text_interval := 500; image_interval := 2000 |}.

(** What the thread keeps between two rounds of its loop. *)
Record PollState := {
  last_text_hash : Z; last_image_hash : Z; text_next : Z; image_next : Z }.

(** The state at the start of the thread. *)
Definition poll_start (now : Z) : PollState :=
  {| last_text_hash := 0; last_image_hash := 0; text_next := now; image_next := now |}.

(** What a read of the clipboard finds, in each format. *)
Record Contents := { text_read : option (list Z); image_read : option ClipboardImage }.

Definition text_change (text : list Z) : ClipboardChange :=
  {| is_text := true; change_text := Some text; image_data := None; image_width := None;
     image_height := None |}.

Definition image_change (image : ClipboardImage) : ClipboardChange :=
  {| is_text := false; change_text := None; image_data := Some (image_bytes image);
     image_width := Some (width image); image_height := Some (height image) |}.

Section Poll.
Context (hash_bytes : list Z -> Z).
Context (poller : ClipboardPoller).

Definition check_text (now : Z) (c : Contents) (s : PollState) : PollState * list ClipboardChange :=
  if text_next s <=? now then
    let next := now + text_interval poller in
    match text_read c with
    | Some text =>
        let hash := hash_bytes text in
        if negb (hash =? last_text_hash s) then
          ({| last_text_hash := hash; last_image_hash := 0; text_next := next;
              image_next := image_next s |}, [text_change text])
        else
          ({| last_text_hash := last_text_hash s; last_image_hash := last_image_hash s;
              text_next := next; image_next := image_next s |}, [])
    | None =>
        ({| last_text_hash := 0; last_image_hash := last_image_hash s; text_next := next;
            image_next := image_next s |}, [])
    end
  else (s, []).

Definition check_image (now : Z) (c : Contents) (s : PollState) : PollState * list ClipboardChange :=
  if image_next s <=? now then
    let next := now + image_interval poller in
    match image_read c with
    | Some image =>
        let hash := hash_bytes (image_bytes image) in
        if negb (hash =? last_image_hash s) then
          ({| last_text_hash := 0; last_image_hash := hash; text_next := text_next s;
              image_next := next |}, [image_change image])
        else
          ({| last_text_hash := last_text_hash s; last_image_hash := last_image_hash s;
              text_next := text_next s; image_next := next |}, [])
    | None =>
        ({| last_text_hash := last_text_hash s; last_image_hash := 0; text_next := text_next s;
            image_next := next |}, [])
    end
  else (s, []).

(** One round of the loop, and how long it then sleeps. *)
Definition poll_round (now : Z) (c : Contents) (s : PollState) : PollState * list ClipboardChange :=
  let '(s, r1) := check_text now c s in
  let '(s, r2) := check_image now c s in
  (s, r1 ++ r2).

Definition sleep_time (now : Z) (s : PollState) : Z :=
  let sleep_until := Z.min (text_next s) (image_next s) in
  if now <? sleep_until then sleep_until - now else 50.

Fixpoint poll_rounds (s : PollState) (rounds : list (Z * Contents)) : PollState * list ClipboardChange :=
  match rounds with
  | [] => (s, [])
  | (now, c) :: rounds =>
      let '(s, r) := poll_round now c s in
      let '(s, rs) := poll_rounds s rounds in
      (s, r ++ rs)
  end.

(** The thread: a round is done while the handle is not dropped. *)
Fixpoint poll_thread (s : PollState) (rounds : list (bool * (Z * Contents))) : list ClipboardChange :=
  match rounds with
  | [] => []
  | (running, (now, c)) :: rounds =>
      if negb running then []
      else let '(s, r) := poll_round now c s in r ++ poll_thread s rounds
  end.

(** The event a program sends for a change. *)
Definition change_event (change : ClipboardChange) : ClipboardEvent :=
  {| format :=
       if is_text change then Text
       else ImageRgba8 (default 0 (image_width change)) (default 0 (image_height change));
     clip_data :=
       if is_text change then default [] (change_text change) else default [] (image_data change) |}.

(** ** Specification *)

(** The texts that differ, by their hash, from the one before. *)
Fixpoint changed_texts (last : Z) (texts : list (list Z)) : list (list Z) :=
  match texts with
  | [] => []
  | t :: texts =>
      if hash_bytes t =? last then changed_texts last texts else t :: changed_texts (hash_bytes t) texts
  end.

(** Rounds that find a text, the check of the text being due each time. *)
Fixpoint text_rounds (from : Z) (rounds : list (Z * list Z)) : Prop :=
  match rounds with
  | [] => True
  | (now, _) :: rounds => from <= now /\ text_rounds (now + text_interval poller) rounds
  end.

Definition text_only (t : list Z) : Contents := {| text_read := Some t; image_read := None |}.

(** ** Lemmas *)

Lemma check_image_none now t s :
  exists h n, check_image now (text_only t) s =
    ({| last_text_hash := last_text_hash s; last_image_hash := h; text_next := text_next s;
        image_next := n |}, []).
Proof. unfold check_image. destruct (_ <=? _); [by eexists _, _|]. destruct s. by eexists _, _. Qed.

Lemma poll_round_text now t s : text_next s <= now ->
  exists h n, poll_round now (text_only t) s =
    ({| last_text_hash := hash_bytes t; last_image_hash := h; text_next := now + text_interval poller;
        image_next := n |}, if hash_bytes t =? last_text_hash s then [] else [text_change t]).
Proof.
  intros Hn. unfold poll_round, check_text. rewrite (proj2 (Z.leb_le _ _) Hn). cbn [text_only text_read].
  destruct (Z.eqb_spec (hash_bytes t) (last_text_hash s)) as [He|He]; cbn [negb].
  all: edestruct (check_image_none now t) as (h & n & ->); cbn [last_text_hash text_next app].
  - rewrite He. by eexists _, _.
  - by eexists _, _.
Qed.

(** A handle dropped before a round ends the thread there: what the clipboard holds later
    is never reported. *)
Lemma dropped_handle_stops s before r after :
  poll_thread s ((pair true <$> before) ++ (false, r) :: after) = (poll_rounds s before).2.
Proof.
  revert s. induction before as [|[now c] before IH]; intros s; cbn [fmap list_fmap app poll_thread poll_rounds].
  { by destruct r. }
  cbn [negb]. destruct (poll_round now c s) as [s1 r1]. rewrite IH. by destruct (poll_rounds s1 before).
Qed.

(** ** Properties *)

(** While the clipboard holds text, the poller reports exactly the changes: over any
    sequence of checks, whatever their times and the texts they find, one report for each
    text that differs from the one found before, in order, and none for a text that stays. *)
Theorem poller_reports_changes (s : PollState) (rounds : list (Z * list Z)) :
  text_rounds (text_next s) rounds ->
  (poll_rounds s (prod_map id text_only <$> rounds)).2 =
    text_change <$> changed_texts (last_text_hash s) rounds.*2.
Proof.
  revert s. induction rounds as [|[now t] rounds IH]; intros s Hr; [done|].
  destruct Hr as [Hnow Hr]. cbn [fmap list_fmap prod_map poll_rounds fst snd id changed_texts].
  destruct (poll_round_text now t s Hnow) as (h & n & ->).
  match goal with |- context [poll_rounds ?s' _] => specialize (IH s' Hr) end.
  destruct (poll_rounds _ _) as [s' rs]. cbn [snd last_text_hash] in *. rewrite IH.
  by destruct (hash_bytes t =? last_text_hash s) eqn:E; [apply Z.eqb_eq in E as ->|].
Qed.

(** A clipboard that holds the same content in both formats, as applications that copy
    rich content leave it, is reported again and again: each round in which both checks are
    due reports the text and the image, although neither changed. *)
Theorem unchanged_clipboard_repeats (text : list Z) (image : ClipboardImage) (s : PollState)
    (nows : list Z) :
  hash_bytes text <> 0 -> hash_bytes (image_bytes image) <> 0 ->
  last_text_hash s = 0 -> (forall now, now ∈ nows -> text_next s <= now /\ image_next s <= now) ->
  StronglySorted (fun a b => a + text_interval poller <= b /\ a + image_interval poller <= b) nows ->
  (poll_rounds s ((fun now => (now, {| text_read := Some text; image_read := Some image |})) <$> nows)).2 =
    concat (replicate (length nows) [text_change text; image_change image]).
Proof.
  intros Ht Hi. revert s. induction nows as [|now nows IH]; intros s Hs Hdue Hsort; [done|].
  apply StronglySorted_inv in Hsort as [Hsort Hlater].
  destruct (Hdue now) as [H1 H2]; [left|].
  cbn [fmap list_fmap poll_rounds length replicate concat].
  unfold poll_round, check_text. rewrite (proj2 (Z.leb_le _ _) H1). cbn [text_read].
  rewrite Hs, (proj2 (Z.eqb_neq _ _) Ht). cbn [negb].
  unfold check_image. cbn [image_next image_read last_image_hash]. rewrite (proj2 (Z.leb_le _ _) H2).
  rewrite (proj2 (Z.eqb_neq _ _) Hi). cbn [negb text_next last_text_hash].
  match goal with |- context [poll_rounds ?s' _] => specialize (IH s') end.
  destruct (poll_rounds _ _) as [s' rs]. cbn [snd] in *. rewrite IH; [done|done| |done].
  intros n Hn. cbn [text_next image_next]. rewrite Stdlib.Lists.List.Forall_forall in Hlater.
  apply Hlater. by apply list_elem_of_In.
Qed.
End Poll.

(** ** Instances on concrete inputs *)

Definition sample_hash (l : list Z) : Z := 1 + le_num l.

Lemma poller_reports_changes_witness :
  (poll_rounds sample_hash default_intervals (poll_start 0)
     [(0, text_only [1]); (500, text_only [1]); (1000, text_only [2])]).2 =
  [text_change [1]; text_change [2]].
Proof.
  apply (poller_reports_changes sample_hash default_intervals (poll_start 0)
           [(0, [1]); (500, [1]); (1000, [2])]).
  simpl. lia.
Defined.

Definition sample_image : ClipboardImage := {| width := 1; height := 1; image_bytes := [1; 2; 3; 4] |}.

Lemma unchanged_clipboard_repeats_witness :
  (poll_rounds sample_hash default_intervals (poll_start 0)
     [(0, {| text_read := Some [7]; image_read := Some sample_image |});
      (2000, {| text_read := Some [7]; image_read := Some sample_image |})]).2 =
  [text_change [7]; image_change sample_image; text_change [7]; image_change sample_image].
Proof.
  apply (unchanged_clipboard_repeats sample_hash default_intervals [7] sample_image (poll_start 0) [0; 2000]).
  - done.
  - done.
  - done.
  - intros now Hn. rewrite !elem_of_cons in Hn. simpl. destruct Hn as [->|[->|Hn]]; [lia|lia|].
    by apply not_elem_of_nil in Hn.
  - repeat constructor; simpl; lia.
Defined.
