(* ===== verification/Client.v ===== *)
(** * The viewer (bw-client [main.rs], bw-decoder)

    The arguments, the window's event handlers with the state they keep, the decoder
    pipeline, the dispatcher of inbound messages, and the session thread with its
    forwarding loop and its retries.  The last part composes the viewer's mouse with the
    server's handlers. *)

From S2P Require Import Prelude Codec Cbor Message Routing Identity Float Pixels Blit Video Audio Input Poller Keys.

(** ** Arguments *)

Record Args := {
  server : string; id : string; password : string; relay : option string;
  target_id : option string; signing_key : option string; dev_insecure : bool }.

(** What becomes of the process: it goes on, exits with a code, or aborts with a message. *)
Inductive parsed : Type :=
| Parsed (a : Args)
| Exit (code : Z)
| Abort_ (msg : string).

(** The values collected so far. *)
Record Collected := {
  c_server : option string; c_id : option string; c_password : option string;
  c_relay : option string; c_target_id : option string; c_signing_key : option string;
  c_dev : bool }.

Definition nothing_collected : Collected :=
  {| c_server := None; c_id := None; c_password := None; c_relay := None; c_target_id := None;
     c_signing_key := None; c_dev := false |}.

Definition finish_args (c : Collected) : parsed :=
  match c_server c, c_id c, c_password c with
  | None, _, _ => Abort_ "--server is required"
  | _, None, _ => Abort_ "--id is required"
  | _, _, None => Abort_ "--password is required"
  | Some s, Some i, Some p =>
      Parsed {| server := s; id := i; password := p; relay := c_relay c; target_id := c_target_id c;
                signing_key := c_signing_key c; dev_insecure := c_dev c |}
  end.

Fixpoint parse_args (c : Collected) (args : list string) : parsed :=
  match args with
  | [] => finish_args c
  | arg :: rest =>
      if decide (arg = "--server") then
        match rest with
        | v :: rest => parse_args {| c_server := Some v; c_id := c_id c; c_password := c_password c;
            c_relay := c_relay c; c_target_id := c_target_id c; c_signing_key := c_signing_key c;
            c_dev := c_dev c |} rest
        | [] => Abort_ "--server requires an address"
        end
      else if decide (arg = "--id") then
        match rest with
        | v :: rest => parse_args {| c_server := c_server c; c_id := Some v; c_password := c_password c;
            c_relay := c_relay c; c_target_id := c_target_id c; c_signing_key := c_signing_key c;
            c_dev := c_dev c |} rest
        | [] => Abort_ "--id requires a device id"
        end
      else if decide (arg = "--password") then
        match rest with
        | v :: rest => parse_args {| c_server := c_server c; c_id := c_id c; c_password := Some v;
            c_relay := c_relay c; c_target_id := c_target_id c; c_signing_key := c_signing_key c;
            c_dev := c_dev c |} rest
        | [] => Abort_ "--password requires a value"
        end
      else if decide (arg = "--relay") then
        match rest with
        | v :: rest => parse_args {| c_server := c_server c; c_id := c_id c; c_password := c_password c;
            c_relay := Some v; c_target_id := c_target_id c; c_signing_key := c_signing_key c;
            c_dev := c_dev c |} rest
        | [] => Abort_ "--relay requires a relay address"
        end
      else if decide (arg = "--target-id") then
        match rest with
        | v :: rest => parse_args {| c_server := c_server c; c_id := c_id c; c_password := c_password c;
            c_relay := c_relay c; c_target_id := Some v; c_signing_key := c_signing_key c;
            c_dev := c_dev c |} rest
        | [] => Abort_ "--target-id requires a device id"
        end
      else if decide (arg = "--signing-key") then
        match rest with
        | v :: rest => parse_args {| c_server := c_server c; c_id := c_id c; c_password := c_password c;
            c_relay := c_relay c; c_target_id := c_target_id c; c_signing_key := Some v;
            c_dev := c_dev c |} rest
        | [] => Abort_ "--signing-key requires a path"
        end
      else if decide (arg = "--dev-insecure") then
        parse_args {| c_server := c_server c; c_id := c_id c; c_password := c_password c;
            c_relay := c_relay c; c_target_id := c_target_id c; c_signing_key := c_signing_key c;
            c_dev := true |} rest
      else if decide (arg = "--help" \/ arg = "-h") then Exit 0
      else Exit 2
  end.

(** How [run_session] connects without a relay: the target is parsed before the mode is
    looked at. *)
Inductive Endpoint : Type :=
| BindDev
| BindPinned (target : DeviceId).

(** [--target-id is required for production mode (or use --dev-insecure)], or an identifier
    that does not parse. *)
Inductive EndpointError : Type :=
| TargetIdRequired
| InvalidTargetId (e : DeviceIdParseError).

Definition direct_endpoint (a : Args) : outcome (result EndpointError Endpoint) :=
  match target_id a with
  | None => Ret (Err TargetIdRequired)
  | Some s =>
      match from_str (string_bytes s) with
      | Panic => Panic
      | Ret (Err e) => Ret (Err (InvalidTargetId e))
      | Ret (Ok target) => Ret (Ok (if dev_insecure a then BindDev else BindPinned target))
      end
  end.

(** ** The window *)

Definition WINDOW_WIDTH : Z := 1280.
Definition WINDOW_HEIGHT : Z := 720.
Definition INPUT_CAPACITY : nat := 256.

Module Winit.
Inductive MouseButton : Type := Left | Right | Middle | Back | Forward | Other (n : Z).
End Winit.

Inductive PhysicalKey : Type :=
| Code (code : Key.KeyCode)
| Unidentified.

Inductive WindowEvent : Type :=
| CloseRequested
| Resized (w h : Z)
| RedrawRequested
| MouseInput (pressed : bool) (button : Winit.MouseButton)
| KeyboardInput (repeat : bool) (physical_key : PhysicalKey) (pressed : bool)
| OtherEvent.

Definition button_bit (button : Winit.MouseButton) : option Z :=
  match button with
  | Winit.Left => Some 1
  | Winit.Right => Some 2
  | Winit.Middle => Some 4
  | _ => None
  end.

(** The state of the event loop: the pixel buffer, the frames received and the newest one
    shown, the input channel, the buttons, and the mouse in double precision. *)
Record App := {
  pixels : option (list Z);
  frame_rx : list DecodedImage;
  last_image : option DecodedImage;
  input_tx : list ProtocolMessage;
  app_mask : Z;
  mouse_acc_x : spec_float; mouse_acc_y : spec_float;
  mouse_abs_x : spec_float; mouse_abs_y : spec_float;
  mouse_last_flush : Z;
  exiting : bool }.

(** [App::new], at time [now] (milliseconds). *)
Definition new_app (now : Z) : App :=
  {| pixels := None; frame_rx := []; last_image := None; input_tx := []; app_mask := 0;
     mouse_acc_x := S754_zero false; mouse_acc_y := S754_zero false;
     mouse_abs_x := F64.div (F64.of_Z WINDOW_WIDTH) (F64.of_Z 2);
     mouse_abs_y := F64.div (F64.of_Z WINDOW_HEIGHT) (F64.of_Z 2);
     mouse_last_flush := now; exiting := false |}.

Definition set_view (a : App) (p : option (list Z)) (frames : list DecodedImage)
    (image : option DecodedImage) : App :=
  {| pixels := p; frame_rx := frames; last_image := image; input_tx := input_tx a;
     app_mask := app_mask a; mouse_acc_x := mouse_acc_x a; mouse_acc_y := mouse_acc_y a;
     mouse_abs_x := mouse_abs_x a; mouse_abs_y := mouse_abs_y a;
     mouse_last_flush := mouse_last_flush a; exiting := exiting a |}.

Definition set_input (a : App) (q : list ProtocolMessage) : App :=
  {| pixels := pixels a; frame_rx := frame_rx a; last_image := last_image a; input_tx := q;
     app_mask := app_mask a; mouse_acc_x := mouse_acc_x a; mouse_acc_y := mouse_acc_y a;
     mouse_abs_x := mouse_abs_x a; mouse_abs_y := mouse_abs_y a;
     mouse_last_flush := mouse_last_flush a; exiting := exiting a |}.

Definition set_mask (a : App) (m : Z) : App :=
  {| pixels := pixels a; frame_rx := frame_rx a; last_image := last_image a; input_tx := input_tx a;
     app_mask := m; mouse_acc_x := mouse_acc_x a; mouse_acc_y := mouse_acc_y a;
     mouse_abs_x := mouse_abs_x a; mouse_abs_y := mouse_abs_y a;
     mouse_last_flush := mouse_last_flush a; exiting := exiting a |}.

Definition set_mouse (a : App) (ax ay px py : spec_float) (flush : Z) : App :=
  {| pixels := pixels a; frame_rx := frame_rx a; last_image := last_image a; input_tx := input_tx a;
     app_mask := app_mask a; mouse_acc_x := ax; mouse_acc_y := ay; mouse_abs_x := px;
     mouse_abs_y := py; mouse_last_flush := flush; exiting := exiting a |}.

Definition set_exiting (a : App) : App :=
  {| pixels := pixels a; frame_rx := frame_rx a; last_image := last_image a; input_tx := input_tx a;
     app_mask := app_mask a; mouse_acc_x := mouse_acc_x a; mouse_acc_y := mouse_acc_y a;
     mouse_abs_x := mouse_abs_x a; mouse_abs_y := mouse_abs_y a;
     mouse_last_flush := mouse_last_flush a; exiting := true |}.

(** [try_send]: dropped when the channel is full. *)
Definition send_input (a : App) (m : ProtocolMessage) : App :=
  if (length (input_tx a) <? INPUT_CAPACITY)%nat then set_input a (input_tx a ++ [m]) else a.

Definition send_built (a : App) (m : result ProtocolError ProtocolMessage) : App :=
  match m with Ok m => send_input a m | Err _ => a end.

(** Drains the frames, keeps the newest and blits it. *)
Definition render (a : App) : outcome (App * bool) :=
  let got_new_frame := bool_decide (frame_rx a <> []) in
  let image := match list.last (frame_rx a) with Some i => Some i | None => last_image a end in
  match pixels a, image with
  | None, _ | _, None => Ret (set_view a (pixels a) [] image, false)
  | Some buf, Some i =>
      let! buf := blit_rgb_to_frame buf i WINDOW_WIDTH WINDOW_HEIGHT Bilinear in
      Ret (set_view a (Some buf) [] image, got_new_frame)
  end.

(** The window is created once, with a buffer of its initial size. *)
Definition resumed (a : App) : App :=
  match pixels a with
  | Some _ => a
  | None => set_view a (Some (replicate (Z.to_nat (WINDOW_WIDTH * WINDOW_HEIGHT * 4)) 0))
              (frame_rx a) (last_image a)
  end.

Section Events.
Context `{Cbor KeyboardEvent, Cbor MouseEvent}.

Definition window_event (a : App) (event : WindowEvent) : outcome App :=
  match event with
  | CloseRequested => Ret (set_exiting a)
  | Resized _ _ => Ret a
  | RedrawRequested => let! (a, _) := render a in Ret a
  | MouseInput pressed button =>
      let a :=
        match button_bit button with
        | Some bit =>
            set_mask a (if pressed then Z.lor (app_mask a) bit else Z.ldiff (app_mask a) bit)
        | None => a
        end in
      Ret (send_built a (mouse_event 0 0 (app_mask a)))
  | KeyboardInput repeat key pressed =>
      if repeat then Ret a
      else
        match key with
        | Unidentified => Ret a
        | Code code =>
            match Key.winit_keycode_to_vk code with
            | None => Ret a
            | Some keycode => Ret (send_built a (keyboard_event keycode pressed))
            end
        end
  | OtherEvent => Ret a
  end.

(** The mouse moved by a delta at time [now]. *)
Definition device_event (a : App) (dx dy : spec_float) (now : Z) : App :=
  let acc_x := F64.add (mouse_acc_x a) dx in
  let acc_y := F64.add (mouse_acc_y a) dy in
  let abs_x := clamp (F64.add (mouse_abs_x a) dx) (S754_zero false)
                 (F64.sub (F64.of_Z WINDOW_WIDTH) (F64.of_Z 1)) in
  let abs_y := clamp (F64.add (mouse_abs_y a) dy) (S754_zero false)
                 (F64.sub (F64.of_Z WINDOW_HEIGHT) (F64.of_Z 1)) in
  let elapsed := sat_sub now (mouse_last_flush a) in
  let threshold_reached := SFleb (F64.of_Z 4) (SFabs acc_x) || SFleb (F64.of_Z 4) (SFabs acc_y) in
  if threshold_reached || (16 <=? elapsed) then
    let acc_dx := to_i32 acc_x in
    let acc_dy := to_i32 acc_y in
    let a := set_mouse a (F64.sub acc_x (F64.of_Z acc_dx)) (F64.sub acc_y (F64.of_Z acc_dy))
               abs_x abs_y now in
    if negb (acc_dx =? 0) || negb (acc_dy =? 0) then
      let norm_x := to_i32 (F64.mul (F64.div abs_x (F64.of_Z WINDOW_WIDTH)) (F64.of_Z 65535)) in
      let norm_y := to_i32 (F64.mul (F64.div abs_y (F64.of_Z WINDOW_HEIGHT)) (F64.of_Z 65535)) in
      send_built a (mouse_event_abs norm_x norm_y (app_mask a) true)
    else a
  else set_mouse a acc_x acc_y abs_x abs_y (mouse_last_flush a).
End Events.

(** ** The decoder pipeline (bw-decoder) *)

Inductive DecoderError : Type :=
| InitFailed (e : string)
| DecodeFailed (e : string)
| UnsupportedCodec (c : Codec)
| EmptyPayload
| InvalidDimensions (w h : Z).

(** OpenH264: a payload gives a picture (its dimensions and its conversion to RGB into a
    buffer), needs more data, or is refused. *)
Class OpenH264Decoder (D : Type) := {
  h264_decode : D -> list Z -> D * result string (option (Z * Z * (list Z -> list Z))) }.

Definition pipeline_decode {D} `{OpenH264Decoder D} (d : D) (frame : EncodedFrame) :
    D * result DecoderError (option DecodedImage) :=
  if decide (ef_codec frame <> H264) then (d, Err (UnsupportedCodec (ef_codec frame)))
  else if is_empty (ef_payload frame) then (d, Err EmptyPayload)
  else
    let '(d, r) := h264_decode d (ef_payload frame) in
    match r with
    | Err e => (d, Err (DecodeFailed e))
    | Ok None => (d, Ok None)
    | Ok (Some (w, h, write_rgb8)) =>
        if (w =? 0) || (h =? 0) then (d, Err (InvalidDimensions w h))
        else
          let buf := replicate (Z.to_nat (w * h * 3)) 0 in
          (d, Ok (Some {| Blit.width := wrap 32 w; Blit.height := wrap 32 h; rgb := write_rgb8 buf |}))
    end.

(** ** Inbound messages *)

Section Inbound.
Context {C D : Type} `{Arboard C} `{OpenH264Decoder D} `{Opus}.
Context `{Cbor ClipboardEvent, Cbor AudioPayload, Cbor VideoPayload}.
Context (utf8_error_text : list Z -> string) (audio_error_text : AudioError -> string).

(** What the handlers share: the clipboard and the playback, each with whether its lock is
    poisoned. *)
Record Local := {
  local_clipboard : C; clip_poisoned : bool; playback : AudioPlayback; audio_poisoned : bool }.

Definition on_clipboard (l : Local) (e : MessageEnvelope) : Local * result DispatchError unit :=
  match as_clipboard_event (message e) with
  | None => (l, Err (Handler "undecodable clipboard event payload"))
  | Some event =>
      if clip_poisoned l then
        (l, Err (Handler "clipboard lock poisoned: poisoned lock: another task failed inside"))
      else
        let '(c, r) := apply_clipboard_event utf8_error_text (local_clipboard l) event in
        ({| local_clipboard := c; clip_poisoned := false; playback := playback l;
            audio_poisoned := audio_poisoned l |}, r)
  end.

Definition on_audio (l : Local) (e : MessageEnvelope) : Local * result DispatchError unit :=
  match as_audio_data (message e) with
  | None => (l, Err (Handler "undecodable audio payload"))
  | Some payload =>
      if audio_poisoned l then
        (l, Err (Handler "audio lock poisoned: poisoned lock: another task failed inside"))
      else
        let '(p, r) := feed (playback l) (Message.channels payload) (Message.sample_rate payload)
                         (opus_data payload) in
        ({| local_clipboard := local_clipboard l; clip_poisoned := clip_poisoned l; playback := p;
            audio_poisoned := false |},
         map_err (fun e => Handler ("audio decode failed: " +:+ audio_error_text e)) r)
  end.

(** [build_dispatcher], when the clipboard and the audio device are there or not. *)
Definition build_dispatcher (has_clipboard has_audio : bool) : MessageDispatcher Local :=
  let d := new_dispatcher in
  let d := if has_clipboard then register_handler d ClipboardData on_clipboard else d in
  if has_audio then register_handler d AudioData on_audio else d.

Definition handle_incoming_message (d : MessageDispatcher Local) (l : Local) (m : ProtocolMessage)
    (client_id server_id : NodeId) : Local * result DispatchError unit :=
  dispatch d l {| source := server_id; destination := client_id; session_id := replicate 16 0;
                  route := Direct; message := m; routing_flags := 0 |}.

(** The receiver task: decoder, counters, the frames sent to the window (whose end may be
    gone), and the handlers' state.  [false] ends the task. *)
Record Receiver := {
  rx_decoder : D; frames_rendered : Z; video_received : Z; frame_tx : list DecodedImage;
  window_open : bool; rx_local : Local }.

Definition receive_message (d : MessageDispatcher Local) (client_id server_id : NodeId) (r : Receiver)
    (m : ProtocolMessage) : Receiver * bool :=
  match as_video_data m with
  | Some payload =>
      let counted := wrap 64 (video_received r + 1) in
      match from_bytes (encoded_frame payload) with
      | Err _ =>
          ({| rx_decoder := rx_decoder r; frames_rendered := frames_rendered r;
              video_received := counted; frame_tx := frame_tx r; window_open := window_open r;
              rx_local := rx_local r |}, true)
      | Ok frame =>
          let '(dec, res) := pipeline_decode (rx_decoder r) frame in
          match res with
          | Ok (Some image) =>
              if window_open r then
                ({| rx_decoder := dec; frames_rendered := wrap 64 (frames_rendered r + 1);
                    video_received := counted; frame_tx := frame_tx r ++ [image];
                    window_open := true; rx_local := rx_local r |}, true)
              else
                ({| rx_decoder := dec; frames_rendered := frames_rendered r;
                    video_received := counted; frame_tx := frame_tx r; window_open := false;
                    rx_local := rx_local r |}, false)
          | _ =>
              ({| rx_decoder := dec; frames_rendered := frames_rendered r;
                  video_received := counted; frame_tx := frame_tx r; window_open := window_open r;
                  rx_local := rx_local r |}, true)
          end
      end
  | None =>
      let '(l, _) := handle_incoming_message d (rx_local r) m client_id server_id in
      ({| rx_decoder := rx_decoder r; frames_rendered := frames_rendered r;
          video_received := video_received r; frame_tx := frame_tx r; window_open := window_open r;
          rx_local := l |}, true)
  end.
End Inbound.

(** ** The session thread *)

(** What the forwarding loop takes next: a captured input, a clipboard message, or the
    end of either channel. *)
Inductive forwarded : Type :=
| FromInput (m : ProtocolMessage)
| InputClosed
| FromClipboard (m : ProtocolMessage)
| ClipboardClosed.

(** The loop: [sends m] is whether sending succeeds.  [None] is a loop still running. *)
Fixpoint forward_loop (sends : ProtocolMessage -> bool) (events : list forwarded) :
    list ProtocolMessage * option (result string unit) :=
  match events with
  | [] => ([], None)
  | InputClosed :: _ => ([], Some (Ok tt))
  | ClipboardClosed :: events => forward_loop sends events
  | FromInput m :: events | FromClipboard m :: events =>
      if sends m then let '(sent, r) := forward_loop sends events in (m :: sent, r)
      else ([], Some (Ok tt))
  end.

(** One call of [run_session]: it fails before the session is established, or forwards. *)
Inductive attempt : Type :=
| NotEstablished (e : string)
| Established (sends : ProtocolMessage -> bool) (events : list forwarded).

Definition run_session (a : attempt) : option (result string unit) :=
  match a with
  | NotEstablished e => Some (Err e)
  | Established sends events => (forward_loop sends events).2
  end.

(** [spawn_session]: the delays between attempts (in seconds), how many attempts were
    made, and whether the thread has ended. *)
Fixpoint spawn_session (backoff : Z) (attempts : list attempt) : list Z * nat * bool :=
  match attempts with
  | [] => ([], O, false)
  | a :: attempts =>
      match run_session a with
      | None => ([], 1%nat, false)
      | Some (Ok _) => ([], 1%nat, true)
      | Some (Err _) =>
          let '(delays, n, ended) := spawn_session (Z.min (backoff * 2) 30) attempts in
          (backoff :: delays, S n, ended)
      end
  end.

(** ** Lemmas *)

(** The development mode does not lift the need for a target. *)
Lemma dev_insecure_needs_target a : target_id a = None ->
  direct_endpoint a = Ret (Err TargetIdRequired).
Proof. unfold direct_endpoint. by intros ->. Qed.

(** Failed attempts double the delay, up to 30 seconds. *)
Definition delay (i : nat) : Z := Z.min (2 ^ Z.of_nat i) 30.

Lemma delay_next i : Z.min (delay i * 2) 30 = delay (S i).
Proof. unfold delay. rewrite Nat2Z.inj_succ, Z.pow_succ_r by lia. lia. Qed.

(** *** Button masks *)

Lemma mask_has_bit mask i b : 0 <= i -> Input.button_bit b = Z.shiftl 1 i ->
  mask_has mask b = Z.testbit mask i.
Proof.
  intros Hi Hb. unfold mask_has. rewrite Hb. destruct (Z.testbit mask i) eqn:E.
  - destruct (Z.eqb_spec (Z.land mask (Z.shiftl 1 i)) 0) as [He|]; [|done].
    apply land_bit_zero in He; [congruence|done].
  - apply land_bit_zero in E; [|done]. by rewrite E.
Qed.

Definition bit_index (b : MouseButton) : Z := match b with Left => 0 | Right => 1 | Middle => 2 end.

Lemma mask_has_index mask b : mask_has mask b = Z.testbit mask (bit_index b).
Proof. apply mask_has_bit; by destruct b. Qed.

(** The server's name of a button of the window, if it has one. *)
Definition server_button (button : Winit.MouseButton) : option MouseButton :=
  match button with
  | Winit.Left => Some Left
  | Winit.Right => Some Right
  | Winit.Middle => Some Middle
  | _ => None
  end.

Definition press (mask : Z) (pressed : bool) (button : Winit.MouseButton) : Z :=
  match button_bit button with
  | Some bit => if pressed then Z.lor mask bit else Z.ldiff mask bit
  | None => mask
  end.

Lemma mask_has_press mask pressed button b :
  mask_has (press mask pressed button) b =
    if decide (server_button button = Some b) then pressed else mask_has mask b.
Proof.
  rewrite !mask_has_index. unfold press.
  destruct button; cbn [button_bit server_button]; try done.
  all: destruct pressed, b; case_decide; simplify_eq; try done.
  all: rewrite ?Z.lor_spec, ?Z.ldiff_spec; simpl; by rewrite ?orb_true_r, ?orb_false_r, ?andb_true_r, ?andb_false_r.
Qed.

(** ** The viewer and the remote desktop *)

Section Mirror.
Context {B C : Type} `{Hin : InjectingBackend B} `{Hab : Arboard C}.
Context `{Hkc : Cbor KeyboardEvent, Hmc : Cbor MouseEvent, !CborLaws MouseEvent, Hcc : Cbor ClipboardEvent}.
Context (utf8_error_text : list Z -> string).
Context (identifier : list Z) (server_node : NodeId) (sid : SessionId).

(** The viewer, and the desktop of the server it is connected to. *)
Record System := { viewer : App; desk : Desktop B C }.

Definition set_viewer (s : System) (a : App) : System := {| viewer := a; desk := desk s |}.

(** What happens, in any order: events of the window and of the mouse, frames that arrive,
    and the forwarding of the oldest captured message, which the server handles. *)
Inductive action : Type :=
| Window (e : WindowEvent)
| Motion (dx dy : spec_float) (now : Z)
| FrameArrives (image : DecodedImage)
| Resume
| Forward.

Definition step (s : System) (act : action) : outcome System :=
  match act with
  | Window e => let! a := window_event (viewer s) e in Ret (set_viewer s a)
  | Motion dx dy now => Ret (set_viewer s (device_event (viewer s) dx dy now))
  | FrameArrives image =>
      let a := viewer s in
      Ret (set_viewer s (set_view a (pixels a) (frame_rx a ++ [image]) (last_image a)))
  | Resume => Ret (set_viewer s (resumed (viewer s)))
  | Forward =>
      match input_tx (viewer s) with
      | [] => Ret s
      | m :: q =>
          let! d := handle_message utf8_error_text (desk s) identifier server_node sid m in
          Ret {| viewer := set_input (viewer s) q; desk := d |}
      end
  end.

Fixpoint run (s : System) (acts : list action) : outcome System :=
  match acts with
  | [] => Ret s
  | act :: acts => let! s := step s act in run s acts
  end.

(** The buttons the user holds after the actions. *)
Definition hold (held : MouseButton -> bool) (act : action) (b : MouseButton) : bool :=
  match act with
  | Window (MouseInput pressed button) =>
      if decide (server_button button = Some b) then pressed else held b
  | _ => held b
  end.

Definition held (acts : list action) : MouseButton -> bool := foldl hold (fun _ => false) acts.

Definition is_click (act : action) : bool :=
  match act with Window (MouseInput _ _) => true | _ => false end.

(** Images whose sides the blit can index. *)
Definition small (i : DecodedImage) : Prop :=
  0 <= Blit.width i <= 2 ^ 24 /\ 0 <= Blit.height i <= 2 ^ 24.

Definition small_action (act : action) : Prop :=
  match act with FrameArrives i => small i | _ => True end.

Definition small_view (a : App) : Prop :=
  Forall small (frame_rx a) /\ match last_image a with Some i => small i | None => True end.

(** *** Messages in flight *)

Context (Hid : zlen identifier <= 32).
Context (Hne : identifier ++ replicate (Z.to_nat (32 - zlen identifier)) 0 <> server_node).
Context (Hbr : server_node <> broadcast).
Context (Hser : forall ev : MouseEvent, is_Some (into_writer ev)).

Abbreviation reported := (fun m q => last_mask m identifier server_node sid q).

Lemma reported_snoc m q x : reported m (q ++ [x]) = reported (reported m q) [x].
Proof. revert m. induction q as [|y q IH]; intros m; [done|]. simpl. apply IH. Qed.

Lemma reported_key m code down msg : keyboard_event code down = Ok msg -> reported m [msg] = m.
Proof.
  intros Hm. unfold keyboard_event, build in Hm. destruct (into_writer _); [|done]. injection Hm as <-.
  simpl. unfold mask_of. destruct (validate _); [|done].
  done.
Qed.

Lemma reported_mouse m x y k abs : exists msg,
  mouse_event_abs x y k abs = Ok msg /\ reported m [msg] = k.
Proof.
  set (ev := {| dx := x; dy := y; buttons_mask := k; is_absolute := abs |}).
  destruct (Hser ev) as [p Hp]. unfold mouse_event_abs, build. fold ev. rewrite Hp.
  eexists. split; [reflexivity|]. simpl. unfold mask_of.
  match goal with |- context [validate ?e] => assert (Hv : validate e = Ok tt) end.
  { unfold validate. rewrite (proj2 (validate_envelope_ok_iff _)); [done|]. split; [|done].
    unfold validate_message. simpl. pose proof (into_writer_nonempty ev p Hp). by destruct p. }
  rewrite Hv. unfold as_mouse_event. simpl.
  by rewrite (from_into_writer ev p Hp).
Qed.

(** What queueing a message does to the mask on its way. *)
Lemma send_key m a code down : reported m (input_tx (send_built a (keyboard_event code down))) =
  reported m (input_tx a).
Proof.
  destruct (keyboard_event code down) as [msg|] eqn:E; [|done]. cbn [send_built]. unfold send_input.
  destruct (_ <? _)%nat; [|done]. cbn [set_input input_tx]. by rewrite reported_snoc, (reported_key _ code down).
Qed.

Lemma send_mouse m a x y k abs :
  reported m (input_tx (send_built a (mouse_event_abs x y k abs))) =
    if (length (input_tx a) <? INPUT_CAPACITY)%nat then k else reported m (input_tx a).
Proof.
  destruct (reported_mouse (reported m (input_tx a)) x y k abs) as (msg & -> & Hm).
  cbn [send_built]. unfold send_input. destruct (_ <? _)%nat; [|done]. cbn [set_input input_tx].
  by rewrite reported_snoc.
Qed.

Lemma send_built_mask a r : app_mask (send_built a r) = app_mask a.
Proof. destruct r; [|done]. cbn [send_built]. unfold send_input. by destruct (_ <? _)%nat. Qed.

Lemma send_built_view a r : small_view a -> small_view (send_built a r).
Proof. destruct r; [|done]. cbn [send_built]. unfold send_input. by destruct (_ <? _)%nat. Qed.

Lemma render_ok a : small_view a ->
  exists a' g, render a = Ret (a', g) /\ small_view a' /\ input_tx a' = input_tx a /\ app_mask a' = app_mask a.
Proof.
  intros [Hf Hl]. unfold render.
  set (image := match list.last (frame_rx a) with Some i => Some i | None => last_image a end).
  assert (Hi : match image with Some i => small i | None => True end).
  { unfold image. destruct (list.last (frame_rx a)) as [i|] eqn:E; [|done].
    apply last_Some_elem_of in E. rewrite Stdlib.Lists.List.Forall_forall in Hf.
    by apply Hf, list_elem_of_In. }
  destruct (pixels a) as [buf|], image as [i|]; try (by eexists _, _).
  destruct (blit_never_aborts i buf WINDOW_WIDTH WINDOW_HEIGHT Bilinear) as (buf' & -> & _);
    [apply Hi|apply Hi|done|done|]. by eexists _, _.
Qed.

(** The desktop is in step with the mask it last got, and [r] is the last one on its way. *)
Definition in_flight (s : System) (r : Z) : Prop :=
  small_view (viewer s) /\
  exists m, session_ok sid m (desk s) /\ reported m (input_tx (viewer s)) = r.

(** The mask after an action. *)
Definition act_mask (mask : Z) (act : action) : Z :=
  match act with Window (MouseInput pressed button) => press mask pressed button | _ => mask end.

Lemma device_event_ok a x y now m :
  small_view a ->
  small_view (device_event a x y now) /\ app_mask (device_event a x y now) = app_mask a /\
  (reported m (input_tx (device_event a x y now)) = reported m (input_tx a) \/
   reported m (input_tx (device_event a x y now)) = app_mask a).
Proof.
  intros Hs. unfold device_event. destruct (_ || (16 <=? _)); [|by auto].
  destruct (negb _ || negb _); [|by auto].
  split; [by apply send_built_view|]. rewrite send_built_mask. split; [done|].
  rewrite send_mouse. destruct (_ <? _)%nat; [by right|by left].
Qed.

Lemma window_event_ok a e m : small_view a ->
  exists a', window_event a e = Ret a' /\ small_view a' /\
    app_mask a' = act_mask (app_mask a) (Window e) /\
    reported m (input_tx a') =
      if is_click (Window e) && (length (input_tx a) <? INPUT_CAPACITY)%nat then app_mask a'
      else reported m (input_tx a).
Proof.
  intros Hs. destruct e as [|w h| |pr bt|rep key pr|]; cbn [window_event is_click andb act_mask].
  - by eexists.
  - by eexists.
  - destruct (render_ok a Hs) as (a' & g & -> & Hs' & Hi & Hm). eexists. split; [reflexivity|].
    by rewrite Hi.
  - set (a1 := match button_bit bt with Some _ => _ | None => _ end).
    assert (Ha1 : app_mask a1 = press (app_mask a) pr bt /\ small_view a1 /\ input_tx a1 = input_tx a).
    { unfold a1, press. by destruct (button_bit bt). }
    destruct Ha1 as (E1 & E2 & E3). eexists. split; [reflexivity|].
    split; [by apply send_built_view|]. rewrite send_built_mask. split; [done|].
    unfold mouse_event. rewrite send_mouse, E3. done.
  - destruct rep; [by eexists|]. destruct key as [code|]; [|by eexists].
    destruct (Key.winit_keycode_to_vk code) as [kc|]; [|by eexists].
    eexists. split; [reflexivity|]. split; [by apply send_built_view|].
    rewrite send_built_mask. split; [done|]. apply send_key.
  - by eexists.
Qed.

Lemma step_ok s r act : small_action act -> in_flight s r ->
  exists s' r', step s act = Ret s' /\ in_flight s' r' /\
    app_mask (viewer s') = act_mask (app_mask (viewer s)) act /\
    (r' = r \/ r' = app_mask (viewer s')) /\
    (is_click act = true -> (length (input_tx (viewer s)) < INPUT_CAPACITY)%nat ->
     r' = app_mask (viewer s')).
Proof.
  intros Ha (Hv & m & Hm & Hr). destruct act as [e|x y now|i| |]; cbn [step].
  - destruct (window_event_ok (viewer s) e m Hv) as (a' & -> & Hv' & Hmask & Hrep).
    exists (set_viewer s a'), (reported m (input_tx a')). split; [reflexivity|]. split; [split; [exact Hv'|by exists m]|]. cbn [viewer set_viewer].
    rewrite Hr in Hrep. split; [done|]. rewrite Hrep. destruct (is_click (Window e)); cbn [andb].
    + destruct (Nat.ltb_spec (length (input_tx (viewer s))) INPUT_CAPACITY); [by auto|].
      split; [by left|]. intros _ ?. lia.
    + split; [by left|done].
  - destruct (device_event_ok (viewer s) x y now m Hv) as (Hv' & Hmask & Hrep).
    set (a' := device_event (viewer s) x y now) in *.
    exists (set_viewer s a'), (reported m (input_tx a')). split; [reflexivity|]. split; [split; [exact Hv'|by exists m]|].
    cbn [viewer set_viewer act_mask]. rewrite Hr in Hrep. split; [done|]. split; [|done].
    destruct Hrep as [->| ->]; [by left|by right].
  - eexists _, r. split; [reflexivity|]. split; [|split; [done|split; [by left|done]]].
    split; [|by exists m]. destruct Hv as [Hf Hl]. split; [|done]. simpl. apply Forall_app. by split; [|constructor].
  - eexists _, r. split; [reflexivity|]. cbn [viewer set_viewer act_mask is_click].
    unfold in_flight. cbn [viewer set_viewer desk]. unfold resumed.
    destruct (pixels (viewer s)); (split; [split; [done|by exists m]|split; [done|split; [by left|done]]]).
  - destruct (input_tx (viewer s)) as [|msg q] eqn:Eq.
    { exists s, r. split; [done|]. split; [split; [done|]; exists m; by rewrite Eq|split; [done|split; [by left|done]]]. }
    destruct (handle_message_ok utf8_error_text sid m (desk s) identifier server_node msg Hid Hm)
      as (d' & -> & Hd'). eexists _, r. split; [reflexivity|]. split; [|split; [done|split; [by left|done]]].
    split; [exact Hv|]. eexists. split; [exact Hd'|]. rewrite <- Hr. done.
Qed.

(** The mask of the viewer is what the user holds. *)
Lemma mask_held acts f mask : (forall b, mask_has mask b = f b) ->
  forall b, mask_has (foldl act_mask mask acts) b = foldl hold f acts b.
Proof.
  revert f mask. induction acts as [|act acts IH]; intros f mask Hf b; [apply Hf|]. cbn [foldl].
  apply IH. intros b'. unfold act_mask, hold. destruct act as [[]| | | |]; try apply Hf.
  rewrite mask_has_press. by rewrite Hf.
Qed.

Lemma run_ok acts : forall s r, Forall small_action acts -> in_flight s r ->
  exists s' r', run s acts = Ret s' /\ in_flight s' r' /\
    app_mask (viewer s') = foldl act_mask (app_mask (viewer s)) acts /\
    (Forall (fun a => is_click a = false) acts -> r = app_mask (viewer s) -> r' = app_mask (viewer s')).
Proof.
  induction acts as [|act acts IH]; intros s r Ha Hs.
  { by exists s, r. }
  apply Forall_cons_1 in Ha as [Hact Ha].
  destruct (step_ok s r act Hact Hs) as (s1 & r1 & Hst & Hs1 & Hm1 & Hr1 & _).
  destruct (IH s1 r1 Ha Hs1) as (s2 & r2 & Hrun & Hs2 & Hm2 & Hr2).
  exists s2, r2. cbn [run]. rewrite Hst. split; [done|]. split; [done|]. cbn [foldl].
  split; [by rewrite Hm2, Hm1|]. intros [Hc Hcs]%Forall_cons_1 ->. apply Hr2; [done|].
  destruct Hr1 as [->| ->]; [|done]. rewrite Hm1. destruct act as [[]| | | |]; done.
Qed.

Lemma run_actions_app s acts acts' : run s (acts ++ acts') = let! s' := run s acts in run s' acts'.
Proof.
  revert s. induction acts as [|act acts IH]; intros s; [done|]. cbn [app run].
  destruct (step s act); [apply IH|done].
Qed.

(** The remote desktop's buttons mirror the user's.  Whatever happened before, and
    however many captured messages the full channel dropped, let the user press or release
    a button while the channel has room, and let then anything happen but clicks: once the
    captured messages are forwarded, the buttons that the injected events leave down on the
    server are exactly those the user holds, and none was pressed while down or released
    while up.  Neither side aborts on the way. *)
Theorem remote_buttons_mirror (d : Desktop B C) (now : Z) (before after : list action)
    (s1 : System) (pressed_ : bool) (button : Winit.MouseButton) :
  idle_for sid d ->
  Forall small_action before -> Forall small_action after ->
  Forall (fun a => is_click a = false) after ->
  run {| viewer := new_app now; desk := d |} before = Ret s1 ->
  (length (input_tx (viewer s1)) < INPUT_CAPACITY)%nat ->
  let acts := before ++ Window (MouseInput pressed_ button) :: after in
  exists s2, run {| viewer := new_app now; desk := d |} acts = Ret s2 /\
    (input_tx (viewer s2) = [] ->
     alternating (injections (backend (desk s2))) /\
     forall b, pressed (injections (backend (desk s2))) b = held acts b).
Proof.
  intros Hidle Hb Ha Hnc Hrun1 Hroom acts. set (s0 := {| viewer := new_app now; desk := d |}) in *.
  assert (H0 : in_flight s0 0).
  { split; [done|]. exists 0. split; [by apply session_ok_idle|done]. }
  destruct (run_ok before s0 0 Hb H0) as (s1' & r1 & Hrun1' & Hs1 & Hm1 & _).
  rewrite Hrun1 in Hrun1'. injection Hrun1' as <-.
  destruct (step_ok s1 r1 (Window (MouseInput pressed_ button)) I Hs1)
    as (s2 & r2 & Hst & Hs2 & Hm2 & _ & Hr2). specialize (Hr2 eq_refl Hroom).
  destruct (run_ok after s2 r2 Ha Hs2) as (s3 & r3 & Hrun3 & (_ & m & Hm & Hrep) & Hm3 & Hr3).
  specialize (Hr3 Hnc Hr2). exists s3. split.
  { unfold acts. rewrite run_actions_app, Hrun1. cbn [run]. by rewrite Hst. }
  intros Hq. rewrite Hq in Hrep. simpl in Hrep. subst m. destruct Hm as (_ & _ & Halt & Hp).
  split; [exact Halt|]. intros b. rewrite Hp, Hr3, Hm3, Hm2, Hm1.
  change (act_mask ?x ?y) with (foldl act_mask x [y]). rewrite <- !foldl_app.
  unfold held, acts. change (?x :: after) with ([x] ++ after). rewrite (assoc_L (++)).
  apply mask_held. by intros [].
Qed.
End Mirror.

(** The session thread gives up when a session ends: after any number of failed
    attempts, with delays of 1, 2, 4, 8, 16 and then 30 seconds, the first attempt that
    establishes a session is the last one.  When its connection drops, noticed by a send
    that fails, the thread ends, and no later attempt is made. *)
Theorem ended_session_not_resumed (errors : list string) (sends : ProtocolMessage -> bool)
    (earlier later : list forwarded) (m : ProtocolMessage) (rest : list attempt) :
  Forall (fun f => exists x, f = FromInput x /\ sends x = true) earlier -> sends m = false ->
  spawn_session 1 ((NotEstablished <$> errors) ++
                   Established sends (earlier ++ FromInput m :: later) :: rest) =
    (delay <$> seq 0 (length errors), S (length errors), true).
Proof.
  intros Hs Hm.
  assert (Hrun : run_session (Established sends (earlier ++ FromInput m :: later)) = Some (Ok tt)).
  { cbn [run_session]. induction Hs as [|f earlier (x & -> & Hx) Hs IH]; cbn [app forward_loop].
    - by rewrite Hm.
    - rewrite Hx. by destruct (forward_loop sends (earlier ++ FromInput m :: later)). }
  change 1 with (delay 0). generalize 0%nat as i. induction errors as [|e errors IH]; intros i.
  - cbn [fmap list_fmap app spawn_session]. by rewrite Hrun.
  - cbn [fmap list_fmap app spawn_session run_session length seq]. rewrite delay_next, IH. done.
Qed.

(** ** Instances on concrete inputs *)

Section Witnesses.
#[local] Instance keyboard_cbor : Cbor KeyboardEvent := countable_cbor KeyboardEvent.
#[local] Instance mouse_cbor : Cbor MouseEvent := countable_cbor MouseEvent.
#[local] Instance mouse_cbor_laws : CborLaws MouseEvent := countable_cbor_laws MouseEvent.
#[local] Instance clipboard_cbor : Cbor ClipboardEvent := countable_cbor ClipboardEvent.
#[local] Instance unit_arboard : Arboard unit :=
  {| arboard_set_text c _ := (c, Ok tt); arboard_set_image c _ := (c, Ok tt) |}.

Definition sample_system : System (B := RecordingBackend) (C := unit) := {| viewer := new_app 0; desk := idle_desktop ∅ |}.

(** The left button is pressed and the press handled, then the right one is pressed. *)
Definition sample_before : list action := [Window (MouseInput true Winit.Left); Forward].

Definition sample_middle : System (B := RecordingBackend) (C := unit) :=
  match run no_text [1] [2] [3] sample_system sample_before with Ret s => s | Panic => sample_system end.

Lemma remote_buttons_mirror_witness :
  exists s2, run no_text [1] [2] [3] sample_system
      [Window (MouseInput true Winit.Left); Forward; Window (MouseInput true Winit.Right); Forward] = Ret s2 /\
    (input_tx (viewer s2) = [] ->
     alternating (injections (backend (desk s2))) /\
     forall b, pressed (injections (backend (desk s2))) b =
       held [Window (MouseInput true Winit.Left); Forward; Window (MouseInput true Winit.Right); Forward] b).
Proof.
  refine (remote_buttons_mirror no_text [1] [2] [3] _ _ _ _ (idle_desktop ∅) 0 sample_before [Forward]
            sample_middle true Winit.Right (idle_desktop_idle _) _ _ _ _ _).
  - vm_compute. congruence.
  - vm_compute. congruence.
  - by_decide.
  - intros ev. by eexists.
  - repeat constructor.
  - repeat constructor.
  - repeat constructor.
  - vm_compute. reflexivity.
  - vm_compute. lia.
Defined.

Lemma ended_session_not_resumed_witness :
  spawn_session 1 [NotEstablished "refused"; NotEstablished "refused";
                   Established (fun _ => false) [FromInput (sample_mouse 1)]; NotEstablished "never"] =
    ([1; 2], 3%nat, true).
Proof.
  refine (ended_session_not_resumed ["refused"; "refused"] (fun _ => false) [] [] (sample_mouse 1)
            [NotEstablished "never"] _ eq_refl). constructor.
Defined.
End Witnesses.
