(* ===== verification/Checker.v ===== *)
(** * Connectivity checks ([bw-relay/src/checker.rs])

    The client's half of the traversal protocol: the candidates a peer offered are tried in
    descending priority, each a fixed number of times, and the first address that answers is
    the direct path.  The network is a [DirectConnector], an interface with a state of its
    own: what an attempt answers may depend on every attempt made before it. *)

From Stdlib Require Import Sorted.
From S2P Require Import Prelude Forwarding Rendezvous.

(** The trait [DirectConnector]; the state is what [&self] hides (the network, a mock's
    counters), a duration is in milliseconds. *)
Class DirectConnector (C : Type) := {
  try_connect : C -> SocketAddr -> Z -> C * bool
}.

Record ConnectivityChecker (C : Type) := {
  connector : C;
  retry_count : Z;
  retry_delay : Z
}.

Arguments connector {C} _.
Arguments retry_count {C} _.
Arguments retry_delay {C} _.

(** [sort_by_key(|b| Reverse(b.priority))]: the standard library's stable sort.  A candidate
    goes in front of those that came after it and are not better. *)
Fixpoint insert_by_priority (c : Candidate) (l : list Candidate) : list Candidate :=
  match l with
  | [] => [c]
  | d :: l' => if priority d <=? priority c then c :: l else d :: insert_by_priority c l'
  end.

Definition sort_by_priority (l : list Candidate) : list Candidate :=
  foldr insert_by_priority [] l.

Section checker.
Context {C : Type} `{DirectConnector C}.

Definition checker_new (c : C) : ConnectivityChecker C :=
  {| connector := c; retry_count := 3; retry_delay := 1000 |}.

Definition checker_with_params (c : C) (count delay : Z) : ConnectivityChecker C :=
  {| connector := c; retry_count := count; retry_delay := delay |}.

(** [for _ in 0..self.retry_count]: [n] attempts are left. *)
Fixpoint try_candidate (n : nat) (delay : Z) (addr : SocketAddr) (net : C) : C * bool :=
  match n with
  | O => (net, false)
  | S n' =>
      let '(net', ok) := try_connect net addr delay in
      if ok then (net', true) else try_candidate n' delay addr net'
  end.

(** [for candidate in &candidates]. *)
Fixpoint try_candidates (count : nat) (delay : Z) (l : list Candidate) (net : C) :
    C * option SocketAddr :=
  match l with
  | [] => (net, None)
  | c :: l' =>
      let '(net', ok) := try_candidate count delay (cand_addr c) net in
      if ok then (net', Some (cand_addr c)) else try_candidates count delay l' net'
  end.

(** The connector's state after the call is threaded out with the answer. *)
Definition find_direct_path (ck : ConnectivityChecker C) (candidates : list Candidate) :
    C * option SocketAddr :=
  try_candidates (Z.to_nat (retry_count ck)) (retry_delay ck) (sort_by_priority candidates)
    (connector ck).

(** ** Reference: one flat list of attempts *)

(** The attempts the checker may make, in order. *)
Definition attempts (count : nat) (l : list Candidate) : list SocketAddr :=
  c ← l; replicate count (cand_addr c).

(** Every attempt of [plan] fails, one after the other. *)
Fixpoint all_fail (delay : Z) (plan : list SocketAddr) (net : C) : option C :=
  match plan with
  | [] => Some net
  | a :: plan' =>
      let '(net', ok) := try_connect net a delay in
      if ok then None else all_fail delay plan' net'
  end.

(** What the answer means: every attempt of the plan failed; or there is a first one that did
    not, and it is the answer. *)
Definition first_answer (delay : Z) (plan : list SocketAddr) (net : C) (r : C * option SocketAddr) :
    Prop :=
  match snd r with
  | None => all_fail delay plan net = Some (fst r)
  | Some a =>
      exists before after net0, plan = before ++ a :: after /\
        all_fail delay before net = Some net0 /\ try_connect net0 a delay = (fst r, true)
  end.

Lemma all_fail_app delay p q net :
  all_fail delay (p ++ q) net =
  match all_fail delay p net with Some net' => all_fail delay q net' | None => None end.
Proof.
  revert net; induction p as [|a p IH]; intros net; simpl; [done|].
  destruct (try_connect net a delay) as [net' []]; [done|apply IH].
Qed.

Lemma try_candidate_spec n delay a net :
  let '(net', ok) := try_candidate n delay a net in
  first_answer delay (replicate n a) net (net', if ok then Some a else None).
Proof.
  revert net; induction n as [|n IH]; intros net; simpl; [done|].
  destruct (try_connect net a delay) as [net1 []] eqn:E.
  - by exists [], (replicate n a), net.
  - specialize (IH net1). destruct (try_candidate n delay a net1) as [net2 []];
      unfold first_answer in *; simpl in *; [|by rewrite E].
    destruct IH as (p & q & net0 & Hp & Hf & Ht). exists (a :: p), q, net0.
    rewrite Hp. split_and!; [done| |done]. simpl. by rewrite E.
Qed.

Lemma try_candidates_spec n delay l net :
  first_answer delay (attempts n l) net (try_candidates n delay l net).
Proof.
  revert net; induction l as [|c l IH]; intros net; simpl; [done|].
  pose proof (try_candidate_spec n delay (cand_addr c) net) as Hc.
  destruct (try_candidate n delay (cand_addr c) net) as [net1 []]; unfold first_answer in *; simpl in *.
  - destruct Hc as (p & q & net0 & Hp & Hf & Ht). exists p, (q ++ attempts n l), net0.
    unfold attempts; simpl. by rewrite Hp, <- app_assoc.
  - specialize (IH net1). destruct (try_candidates n delay l net1) as [net2 [a|]]; simpl in *.
    + destruct IH as (p & q & net0 & Hp & Hf & Ht).
      exists (replicate n (cand_addr c) ++ p), q, net0. unfold attempts in *; simpl.
      rewrite Hp, app_assoc. split_and!; [done| |done]. by rewrite all_fail_app, Hc.
    + unfold attempts in *; simpl. by rewrite all_fail_app, Hc.
Qed.

End checker.

(** ** The order *)

Definition not_better (c d : Candidate) : Prop := priority d <= priority c.

Lemma insert_by_priority_perm c l : insert_by_priority c l ≡ₚ c :: l.
Proof.
  induction l as [|d l IH]; simpl; [done|]. case_match; [done|].
  rewrite IH. apply Permutation_swap.
Qed.

Lemma sort_by_priority_perm l : sort_by_priority l ≡ₚ l.
Proof. induction l as [|c l IH]; simpl; [done|]. by rewrite insert_by_priority_perm, IH. Qed.

Lemma insert_by_priority_sorted c l :
  StronglySorted not_better l -> StronglySorted not_better (insert_by_priority c l).
Proof.
  induction l as [|d l IH]; intros Hs; simpl; [by repeat constructor|].
  inversion Hs as [|?? Hl Hd]; subst. case_match eqn:E.
  - apply Z.leb_le in E. constructor; [done|]. constructor; [done|].
    eapply list.Forall_impl; [exact Hd|]. unfold not_better. intros x Hx; lia.
  - apply Z.leb_gt in E. constructor; [by apply IH|].
    rewrite insert_by_priority_perm. constructor; [unfold not_better; lia|done].
Qed.

Lemma sort_by_priority_sorted l : StronglySorted not_better (sort_by_priority l).
Proof. induction l; simpl; [constructor|by apply insert_by_priority_sorted]. Qed.

(** Candidates of one priority keep the order they were offered in. *)
Lemma insert_by_priority_stable p c l :
  List.filter (fun d => priority d =? p) (insert_by_priority c l) =
  List.filter (fun d => priority d =? p) (c :: l).
Proof.
  induction l as [|d l IH]; simpl; [done|]. case_match eqn:E; [done|].
  apply Z.leb_gt in E. simpl in *. rewrite IH.
  destruct (Z.eqb_spec (priority c) p), (Z.eqb_spec (priority d) p); try done. lia.
Qed.

Lemma sort_by_priority_stable p l :
  List.filter (fun d => priority d =? p) (sort_by_priority l) =
  List.filter (fun d => priority d =? p) l.
Proof.
  induction l as [|c l IH]; simpl; [done|]. rewrite insert_by_priority_stable. simpl. by rewrite IH.
Qed.

Lemma length_attempts n l : length (attempts n l) = (n * length l)%nat.
Proof.
  induction l as [|c l IH]; simpl; [lia|]. unfold attempts in *; simpl.
  rewrite length_app, length_replicate, IH. lia.
Qed.

(** The connectivity check on any network, also one whose answers change between
    attempts: the attempts are those of one plan, each candidate in turn, [retry_count] times;
    the candidates are in descending priority, each once, and those of equal priority in the
    order offered.  The answer is the address of the first attempt that succeeds, and none
    exactly when the whole plan was carried out and failed; so there are never more than
    [retry_count] attempts per candidate. *)
Theorem direct_path_first_success {C} `{DirectConnector C} (ck : ConnectivityChecker C)
    (candidates : list Candidate) :
  let order := sort_by_priority candidates in
  let plan := attempts (Z.to_nat (retry_count ck)) order in
  first_answer (retry_delay ck) plan (connector ck) (find_direct_path ck candidates) /\
  order ≡ₚ candidates /\ StronglySorted not_better order /\
  (forall p, List.filter (fun d => priority d =? p) order =
             List.filter (fun d => priority d =? p) candidates) /\
  length plan = (Z.to_nat (retry_count ck) * length candidates)%nat.
Proof.
  simpl. split_and!.
  - apply try_candidates_spec.
  - apply sort_by_priority_perm.
  - apply sort_by_priority_sorted.
  - intros p. apply sort_by_priority_stable.
  - by rewrite length_attempts, (Permutation_length (sort_by_priority_perm candidates)).
Qed.

(** ** A network that does not change *)

Section steady.
Context {C : Type} `{DirectConnector C}.
Variable reachable : SocketAddr -> bool.
Hypothesis steady : forall net a delay, snd (try_connect net a delay) = reachable a.

Lemma all_fail_steady delay plan net :
  is_Some (all_fail delay plan net) <-> Forall (fun a => reachable a = false) plan.
Proof.
  revert net; induction plan as [|a plan IH]; intros net; simpl.
  - split; [constructor|by eexists].
  - pose proof (steady net a delay) as Hs. destruct (try_connect net a delay) as [net' ok].
    simpl in Hs. subst ok. rewrite list.Forall_cons. destruct (reachable a).
    + split; [intros [? ?]; done|intros [? _]; done].
    + rewrite IH. split; [intros Hp; by split|by intros [_ Hp]].
Qed.

Definition best_answer (l : list Candidate) (r : option SocketAddr) : Prop :=
  match r with
  | Some a => reachable a = true /\ exists c, c ∈ l /\ cand_addr c = a /\
      forall d, d ∈ l -> reachable (cand_addr d) = true -> priority d <= priority c
  | None => forall c, c ∈ l -> reachable (cand_addr c) = false
  end.

Lemma best_answer_perm l l' r : l ≡ₚ l' -> best_answer l r -> best_answer l' r.
Proof.
  intros Hp. destruct r as [a|]; simpl.
  - intros (Hr & c & Hc & Ha & Hd). split; [done|]. exists c. rewrite <- Hp.
    split_and!; [done..|]. intros d. rewrite <- Hp. apply Hd.
  - intros Hn c. rewrite <- Hp. apply Hn.
Qed.

Lemma try_candidates_best n delay l net :
  (0 < n)%nat -> StronglySorted not_better l -> best_answer l (snd (try_candidates n delay l net)).
Proof.
  intros Hn. revert net. induction l as [|c l IH]; intros net Hs; simpl.
  { intros c Hc. by apply elem_of_nil in Hc. }
  inversion Hs as [|?? Hl Hc]; subst.
  pose proof (try_candidate_spec n delay (cand_addr c) net) as Ht.
  destruct (try_candidate n delay (cand_addr c) net) as [net1 []]; unfold first_answer in Ht; simpl in *.
  - destruct Ht as (p & q & net0 & _ & _ & Ha). split.
    { rewrite <- (steady net0 (cand_addr c) delay), Ha. done. }
    exists c. split_and!; [by left|done|]. intros d Hd _.
    apply elem_of_cons in Hd as [->|Hd]; [lia|].
    rewrite list.Forall_forall in Hc. by apply Hc.
  - assert (Hc0 : reachable (cand_addr c) = false).
    { assert (Hf : is_Some (all_fail delay (replicate n (cand_addr c)) net)) by eauto.
      apply all_fail_steady in Hf. destruct n as [|n]; [lia|]. simpl in Hf.
      by apply list.Forall_cons in Hf as [? _]. }
    specialize (IH net1 Hl). destruct (snd (try_candidates n delay l net1)) as [a|].
    + destruct IH as [Hr (e & He & Hea & Hbest)]. split; [done|]. exists e.
      split_and!; [by right|done|]. intros d Hd Hrd. apply elem_of_cons in Hd as [->|Hd]; [congruence|].
      by apply Hbest.
    + intros d Hd. apply elem_of_cons in Hd as [->|Hd]; [done|by apply IH].
Qed.

(** On a steady network with at least one attempt per candidate the check finds the best
    reachable candidate: nothing reachable has a higher priority; and it answers [None] only
    if nothing is reachable. *)
Lemma find_direct_path_best (ck : ConnectivityChecker C) candidates :
  0 < retry_count ck -> best_answer candidates (snd (find_direct_path ck candidates)).
Proof.
  intros Hn. apply (best_answer_perm (sort_by_priority candidates)), try_candidates_best.
  - apply sort_by_priority_perm.
  - lia.
  - apply sort_by_priority_sorted.
Qed.
End steady.

(** ** Example: a network that answers a relayed address at the second attempt *)

Module CheckerExample.
#[export] Instance flaky : DirectConnector nat :=
  {| try_connect net _ _ := (S net, (4 <=? net)%nat) |}.

Definition host := AddrV4 [10; 0; 0; 1] 4000.
Definition public := AddrV4 [203; 0; 113; 9] 4001.

(** The host address is tried three times, the public one at the fifth attempt answers. *)
Lemma found :
  find_direct_path (checker_new 0%nat) [cand_server_reflexive public; cand_host host] =
  (5%nat, Some public).
Proof. reflexivity. Qed.
End CheckerExample.
