(* ===== verification/IceSocket.v ===== *)
(** * The QUIC socket over an ICE connection ([bw-transport/src/ice_socket.rs])

    The QUIC library polls a socket; the ICE connection is awaited.  A bridge task moves
    datagrams between the two: out of an unbounded channel into the connection, and from the
    connection into a queue behind a mutex.  The reader and the bridge meet at that queue and
    at a slot for the reader's waker, each behind a mutex of its own, so the two can interleave
    between any two lock regions.  The model is a labelled step relation whose steps are the
    lock regions and the completions of the awaited calls. *)

From S2P Require Import Prelude Forwarding.

(** ** The socket *)

(** [RecvMeta]: sender, length and stride; [ecn] and [dst_ip] are always [None]. *)
Record RecvMeta := { meta_addr : SocketAddr; meta_len : Z; meta_stride : Z }.

(** [Poll::Ready(Ok(1))] with the metadata and the bytes written to the buffer,
    [Poll::Ready(Ok(0))], or [Poll::Pending]. *)
Inductive PollRecv : Type :=
| ReadyOne (meta : RecvMeta) (written : list Z)
| ReadyNone
| PollPending.

(** The part of [IceUdpSocket] behind the mutexes, and the outgoing channel.  A [Waker] is
    named by a number. *)
Record IceUdpSocket := {
  ice_local : SocketAddr;
  recv_queue : list (SocketAddr * list Z);
  recv_waker : option Z;
  send_queue : list (list Z)
}.

Definition set_queue (q : list (SocketAddr * list Z)) (s : IceUdpSocket) : IceUdpSocket :=
  {| ice_local := ice_local s; recv_queue := q; recv_waker := recv_waker s; send_queue := send_queue s |}.

Definition set_waker (w : option Z) (s : IceUdpSocket) : IceUdpSocket :=
  {| ice_local := ice_local s; recv_queue := recv_queue s; recv_waker := w; send_queue := send_queue s |}.

Definition set_outgoing (q : list (list Z)) (s : IceUdpSocket) : IceUdpSocket :=
  {| ice_local := ice_local s; recv_queue := recv_queue s; recv_waker := recv_waker s; send_queue := q |}.

(** [try_send]: the channel refuses once its receiver, which the bridge owns, is gone.  The
    destination of the [Transmit] is not looked at. *)
Definition ice_try_send (bridge_gone : bool) (contents : list Z) (s : IceUdpSocket) :
    IceUdpSocket * result string unit :=
  if bridge_gone then (s, Err "ICE connection closed")
  else (set_outgoing (send_queue s ++ [contents]) s, Ok tt).

(** [poll_recv], its first lock region: the waker is registered. *)
Definition poll_register (w : Z) (s : IceUdpSocket) : IceUdpSocket := set_waker (Some w) s.

(** What a buffer of [buf_len] bytes gets of a datagram. *)
Definition deliver (buf_len : Z) (d : SocketAddr * list Z) : PollRecv :=
  let '(addr, data) := d in
  if buf_len <? zlen data then ReadyOne {| meta_addr := addr; meta_len := 0; meta_stride := 0 |} []
  else ReadyOne {| meta_addr := addr; meta_len := zlen data; meta_stride := zlen data |} data.

(** [poll_recv], its second lock region: the queue is looked at.  [meta] is the number of
    entries of the slice [meta], whose first is written without a check. *)
Definition poll_check (buf_len : Z) (meta : nat) (s : IceUdpSocket) : IceUdpSocket * outcome PollRecv :=
  match recv_queue s with
  | [] => (s, Ret PollPending)
  | d :: q => (set_queue q s, match meta with O => Panic | S _ => Ret (deliver buf_len d) end)
  end.

(** [poll_recv] when nothing runs between the two regions; [bufs] are the lengths of the
    buffers offered, of which only the first is used. *)
Definition ice_poll_recv (w : Z) (bufs : list Z) (meta : nat) (s : IceUdpSocket) :
    IceUdpSocket * outcome PollRecv :=
  match bufs with
  | [] => (s, Ret ReadyNone)
  | b :: _ => poll_check b meta (poll_register w s)
  end.

(** [poll_writable], [may_fragment]: constants. *)
Definition ice_poll_writable : bool := true.
Definition ice_may_fragment : bool := false.

(** ** The bridge task and its reader *)

(** Where the bridge is: at the [select!], awaiting [conn.send], between queueing a datagram
    and taking the waker, or past its loop. *)
Inductive Bridge : Type := Selecting | Sending (data : list Z) | Waking | Ended.

(** Where the task that polls the socket is: not polling, between the two regions of
    [poll_recv], or returned with [Pending]. *)
Inductive Reader : Type := ReaderIdle | ReaderPolling (w : Z) | ReaderPending (w : Z).

(** [wakes] are the wakers woken since the reader last began to poll; [attached] is whether
    the socket, which owns the channel's only sender, still exists. *)
Record System := {
  sock : IceUdpSocket;
  remote : SocketAddr;
  bridge : Bridge;
  reader : Reader;
  wakes : list Z;
  attached : bool
}.

Definition with_sock (k : IceUdpSocket) (b : Bridge) (s : System) : System :=
  {| sock := k; remote := remote s; bridge := b; reader := reader s; wakes := wakes s;
     attached := attached s |}.

Definition with_reader (k : IceUdpSocket) (r : Reader) (ws : list Z) (s : System) : System :=
  {| sock := k; remote := remote s; bridge := bridge s; reader := r; wakes := ws;
     attached := attached s |}.

(** [IceUdpSocket::new]: the two addresses are the connection's answers. *)
Definition ice_new (local_addr : result string SocketAddr) (remote_addr : option SocketAddr) :
    result string System :=
  let? local := local_addr in
  Ok {| sock := {| ice_local := local; recv_queue := []; recv_waker := None; send_queue := [] |};
        remote := default local remote_addr; bridge := Selecting; reader := ReaderIdle;
        wakes := []; attached := true |}.

Inductive label : Type :=
| TrySend (data : list Z) (r : result string unit)
| DropSocket
| TakeOutgoing (data : list Z)
| SendDone (data : list Z) (ok : bool)
| SendersGone
| ConnRecv (data : list Z)
| ConnRecvEmpty
| ConnRecvErr
| WakeReader (w : option Z)
| PollNoBuffer
| PollRegister (w : Z)
| PollCheck (buf_len : Z) (r : PollRecv).

(** The buffer of the bridge: [conn.recv] reports at most this many bytes. *)
Definition ICE_BUF_LEN : Z := 65535.

Definition is_ended (b : Bridge) : bool := match b with Ended => true | _ => false end.

Inductive ice_step : System -> label -> System -> Prop :=
| StTrySend s data : attached s = true ->
    ice_step s (TrySend data (snd (ice_try_send (is_ended (bridge s)) data (sock s))))
      (with_sock (fst (ice_try_send (is_ended (bridge s)) data (sock s))) (bridge s) s)
| StDropSocket s :
    reader s = ReaderIdle \/ (exists w, reader s = ReaderPending w) ->
    ice_step s DropSocket
      {| sock := sock s; remote := remote s; bridge := bridge s; reader := ReaderIdle;
         wakes := wakes s; attached := false |}
| StTakeOutgoing s data q : bridge s = Selecting -> send_queue (sock s) = data :: q ->
    ice_step s (TakeOutgoing data) (with_sock (set_outgoing q (sock s)) (Sending data) s)
| StSendDone s data ok : bridge s = Sending data ->
    ice_step s (SendDone data ok) (with_sock (sock s) (if ok : bool then Selecting else Ended) s)
| StSendersGone s : bridge s = Selecting -> send_queue (sock s) = [] -> attached s = false ->
    ice_step s SendersGone (with_sock (sock s) Ended s)
| StConnRecv s data : bridge s = Selecting -> 0 < zlen data <= ICE_BUF_LEN ->
    ice_step s (ConnRecv data)
      (with_sock (set_queue (recv_queue (sock s) ++ [(remote s, data)]) (sock s)) Waking s)
| StConnRecvEmpty s : bridge s = Selecting -> ice_step s ConnRecvEmpty s
| StConnRecvErr s : bridge s = Selecting -> ice_step s ConnRecvErr (with_sock (sock s) Ended s)
| StWake s : bridge s = Waking ->
    ice_step s (WakeReader (recv_waker (sock s)))
      (let s' := with_sock (set_waker None (sock s)) Selecting s in
       match recv_waker (sock s) with
       | Some w => with_reader (sock s') (reader s') (w :: wakes s') s'
       | None => s'
       end)
| StPollNoBuffer s : attached s = true -> (forall w, reader s <> ReaderPolling w) -> ice_step s PollNoBuffer s
| StPollRegister s w : attached s = true -> (forall w', reader s <> ReaderPolling w') ->
    ice_step s (PollRegister w) (with_reader (poll_register w (sock s)) (ReaderPolling w) [] s)
| StPollCheck s w buf_len meta k r : reader s = ReaderPolling w -> (0 < meta)%nat ->
    poll_check buf_len meta (sock s) = (k, Ret r) ->
    ice_step s (PollCheck buf_len r)
      (with_reader k (match r with PollPending => ReaderPending w | _ => ReaderIdle end) (wakes s) s).

Inductive ice_exec : System -> list label -> System -> Prop :=
| ExecNil s : ice_exec s [] s
| ExecSnoc s tr s1 l s2 : ice_exec s tr s1 -> ice_step s1 l s2 -> ice_exec s (tr ++ [l]) s2.

(** ** What a trace did *)

Definition arrived (tr : list label) : list (list Z) :=
  omap (fun l => match l with ConnRecv d => Some d | _ => None end) tr.

(** The datagrams taken off the queue: the buffer offered and what it got. *)
Definition polled (tr : list label) : list (Z * PollRecv) :=
  omap (fun l => match l with
                 | PollCheck b (ReadyOne m d) => Some (b, ReadyOne m d)
                 | _ => None end) tr.

Definition accepted (tr : list label) : list (list Z) :=
  omap (fun l => match l with TrySend d (Ok _) => Some d | _ => None end) tr.

(** The datagrams given to the connection, whether it took them or failed. *)
Definition handed (tr : list label) : list (list Z) :=
  omap (fun l => match l with SendDone d _ => Some d | _ => None end) tr.

Definition in_flight (b : Bridge) : list (list Z) :=
  match b with Sending d => [d] | _ => [] end.

(** ** The invariant *)

(** A reader that is polling has its waker in the slot or was woken already; one that returned
    [Pending] was woken, or has its waker in the slot while the queue is empty or the bridge is
    about to look into the slot. *)
Record wake_inv (s : System) : Prop := {
  inv_polling : forall w, reader s = ReaderPolling w -> w ∈ wakes s \/ recv_waker (sock s) = Some w;
  inv_pending : forall w, reader s = ReaderPending w ->
    w ∈ wakes s \/
    recv_waker (sock s) = Some w /\ (recv_queue (sock s) = [] \/ bridge s = Waking)
}.

Lemma wake_inv_step s l s' : ice_step s l s' -> wake_inv s -> wake_inv s'.
Proof.
  intros Hstep [Hpoll Hpend].
  destruct Hstep as [s data Ha|s Hr|s data q Hb Hq|s data ok Hb|s Hb Hq Ha|s data Hb Hn|s Hb|s Hb|s Hb
                    |s Ha Hr|s w Ha Hr|s w b m k r Hr Hm Hc]; constructor; simpl.
  all: try done.
  - intros w Hw. destruct (is_ended (bridge s)); by apply Hpoll.
  - intros w Hw. destruct (is_ended (bridge s)); by apply Hpend.
  - intros w Hw. destruct (Hpend w Hw) as [|[? [?|?]]]; [by left|right; auto|congruence].
  - intros w Hw. destruct (Hpend w Hw) as [|[? [?|?]]]; [by left|right; auto|congruence].
  - intros w Hw. destruct (Hpend w Hw) as [|[? [?|?]]]; [by left|right; auto|congruence].
  - intros w Hw. destruct (Hpend w Hw) as [|[? _]]; [by left|right; auto].
  - intros w Hw. destruct (Hpend w Hw) as [|[? [?|?]]]; [by left|right; auto|congruence].
  - destruct (recv_waker (sock s)) as [w0|] eqn:E; simpl; intros w Hw.
    + destruct (Hpoll w Hw) as [|Heq]; [left; by right|]. simplify_eq. left. by left.
    + destruct (Hpoll w Hw); [by left|congruence].
  - destruct (recv_waker (sock s)) as [w0|] eqn:E; simpl; intros w Hw.
    + destruct (Hpend w Hw) as [|[Heq _]]; [left; by right|]. simplify_eq. left. by left.
    + destruct (Hpend w Hw) as [|[? _]]; [by left|congruence].
  - intros w' [= ->]. by right.
  - intros w' Hw. destruct r; done.
  - intros w' Hw. destruct r; [done..|]. simplify_eq. unfold poll_check in Hc.
    destruct (recv_queue (sock s)) as [|d q] eqn:Eq; [|destruct m, d; unfold deliver in Hc; repeat case_match; simplify_eq].
    simplify_eq. destruct (Hpoll w' Hr) as [|Hw]; [by left|right]. auto.
Qed.

Lemma wake_inv_exec s tr s' : ice_exec s tr s' -> wake_inv s -> wake_inv s'.
Proof. induction 1; [done|]. eauto using wake_inv_step. Qed.

Lemma ice_new_ok local_addr remote_addr s : ice_new local_addr remote_addr = Ok s ->
  recv_queue (sock s) = [] /\ send_queue (sock s) = [] /\ bridge s = Selecting /\ reader s = ReaderIdle.
Proof. unfold ice_new. destruct local_addr; simpl; intros; simplify_eq; done. Qed.

Lemma wake_inv_new local_addr remote_addr s : ice_new local_addr remote_addr = Ok s -> wake_inv s.
Proof. intros (_ & _ & _ & Hr)%ice_new_ok. constructor; intros w; rewrite Hr; done. Qed.

(** The steps of the bridge task. *)
Definition of_bridge (l : label) : bool :=
  match l with
  | TakeOutgoing _ | SendDone _ _ | SendersGone | ConnRecv _ | ConnRecvEmpty | ConnRecvErr
  | WakeReader _ => true
  | _ => false
  end.

(** C18.  No wakeup is lost, however the reader and the bridge interleave: when the reader has
    been told [Pending] and a datagram is in the queue, the waker it polled with has been woken,
    or the bridge can take a step, and whatever step it takes wakes that waker. *)
Theorem no_lost_wakeup local_addr remote_addr s0 tr s w :
  ice_new local_addr remote_addr = Ok s0 -> ice_exec s0 tr s ->
  reader s = ReaderPending w -> recv_queue (sock s) <> [] ->
  w ∈ wakes s \/
  (exists l s', ice_step s l s' /\ of_bridge l = true) /\
  (forall l s', ice_step s l s' -> of_bridge l = true -> l = WakeReader (Some w) /\ w ∈ wakes s').
Proof.
  intros Hnew Hex Hr Hq.
  destruct (wake_inv_exec _ _ _ Hex (wake_inv_new _ _ _ Hnew)) as [_ Hpend].
  destruct (Hpend w Hr) as [|[Hw [|Hb]]]; [by left|done|right]. split.
  - eexists _, _. split; [by apply StWake|done].
  - intros l s' Hstep Hl. inversion Hstep; subst; try congruence; try done.
    rewrite Hw. split; [done|]. simpl. by left.
Qed.

(** ** Order *)

Record flow_inv (tr : list label) (s : System) : Prop := {
  flow_in : exists taken,
    (fun d => (remote s, d)) <$> arrived tr = taken ++ recv_queue (sock s) /\
    Forall2 (fun d p => snd p = deliver (fst p) d) taken (polled tr);
  flow_out : accepted tr = handed tr ++ in_flight (bridge s) ++ send_queue (sock s)
}.

Lemma omap_snoc {A B} (f : A -> option B) l x :
  omap f (l ++ [x]) = omap f l ++ match f x with Some y => [y] | None => [] end.
Proof. rewrite omap_app. simpl. by destruct (f x). Qed.

Lemma flow_inv_step tr s l s' : ice_step s l s' -> flow_inv tr s -> flow_inv (tr ++ [l]) s'.
Proof.
  intros Hstep [(taken & Hin & Hpol) Hout].
  destruct Hstep as [s data Ha|s Hr|s data q Hb Hq|s data ok Hb|s Hb Hq Ha|s data Hb Hn|s Hb|s Hb|s Hb
                    |s Ha Hr|s w Ha Hr|s w b m k r Hr Hm Hc].
  all: constructor; unfold arrived, polled, accepted, handed in *; simpl; rewrite !omap_snoc; simpl.
  all: rewrite ?app_nil_r in *.
  all: try (exists taken; by rewrite ?app_nil_r).
  all: try done.
  - exists taken. rewrite ?app_nil_r. by destruct (is_ended (bridge s)).
  - unfold ice_try_send. destruct (bridge s); simpl in *; rewrite Hout, ?app_nil_r, <- ?app_assoc; done.
  - rewrite Hout, Hb, Hq. done.
  - rewrite Hout, Hb. destruct ok; simpl; by rewrite <- app_assoc.
  - rewrite Hout, Hb. done.
  - exists taken. rewrite fmap_app, Hin, <- app_assoc. done.
  - rewrite Hout, Hb. done.
  - rewrite Hout, Hb. done.
  - destruct (recv_waker (sock s)); exists taken; by rewrite ?app_nil_r.
  - rewrite Hout, Hb. destruct (recv_waker (sock s)); done.
  - unfold poll_check in Hc. destruct (recv_queue (sock s)) as [|[a d] q] eqn:Eq.
    + simplify_eq. exists taken. simpl. rewrite Eq, ?app_nil_r in *. done.
    + destruct m as [|m]; [lia|]. simplify_eq. exists (taken ++ [(a, d)]). simpl.
      rewrite <- app_assoc. split; [done|]. unfold deliver.
      destruct (b <? zlen d) eqn:E; apply Forall2_app; try done;
        repeat constructor; simpl; by rewrite E.
  - unfold poll_check in Hc. destruct (recv_queue (sock s)), m; by simplify_eq.
Qed.

Lemma flow_inv_exec s0 tr s : ice_exec s0 tr s -> flow_inv [] s0 -> flow_inv tr s.
Proof. induction 1; [done|]. eauto using flow_inv_step. Qed.

(** Both directions keep order and lose nothing while the bridge runs.  The datagrams the
    connection yielded are, in order, those the QUIC library took and those still queued; a
    poll hands over a whole datagram with its length and the peer's address, or, when the
    buffer is too small, an empty one.  The datagrams [try_send] accepted are, in order, those
    given to the connection, the one being sent and those in the channel. *)
Theorem ice_datagrams_in_order local_addr remote_addr s0 tr s :
  ice_new local_addr remote_addr = Ok s0 -> ice_exec s0 tr s ->
  (exists taken,
    (fun d => (remote s, d)) <$> arrived tr = taken ++ recv_queue (sock s) /\
    Forall2 (fun d p => snd p = deliver (fst p) d) taken (polled tr)) /\
  accepted tr = handed tr ++ in_flight (bridge s) ++ send_queue (sock s).
Proof.
  intros (Hq & Hs & Hb & _)%ice_new_ok Hex.
  destruct (flow_inv_exec _ _ _ Hex) as [Hin Hout]; [|done].
  constructor; [exists []; by rewrite Hq|]. by rewrite Hb, Hs.
Qed.

(** ** After the bridge has ended *)

Definition silent_label (l : label) : Prop :=
  match l with
  | TrySend _ r => r = Err "ICE connection closed"
  | PollCheck _ r => r = PollPending
  | DropSocket | PollNoBuffer | PollRegister _ => True
  | _ => False
  end.

(** Once the connection has failed and the queue is empty the reader hears nothing more: every
    poll is [Pending] and no waker is ever woken; only a sender learns of the end. *)
Lemma ended_socket_silent s tr s' :
  ice_exec s tr s' -> bridge s = Ended -> recv_queue (sock s) = [] ->
  Forall silent_label tr /\ bridge s' = Ended /\ recv_queue (sock s') = [].
Proof.
  induction 1 as [|s tr s1 l s2 _ IH Hstep]; intros Hb Hq; [done|].
  destruct (IH Hb Hq) as (Hl & Hb1 & Hq1). clear IH.
  assert (silent_label l /\ bridge s2 = Ended /\ recv_queue (sock s2) = []) as (Hl2 & ?).
  { inversion Hstep; subst; simpl; try congruence; rewrite ?Hb1; try done.
    match goal with H : poll_check _ _ _ = _ |- _ => unfold poll_check in H; rewrite Hq1 in H end.
    by simplify_eq. }
  split; [apply Forall_app_2; auto|done].
Qed.

(** ** Instances *)

Module IceSocketExample.
Definition here := AddrV4 [192; 168; 0; 10] 5000.
Definition there := AddrV4 [203; 0; 113; 7] 6000.

Definition start : System :=
  {| sock := {| ice_local := here; recv_queue := []; recv_waker := None; send_queue := [] |};
     remote := there; bridge := Selecting; reader := ReaderIdle; wakes := []; attached := true |}.

(** The reader has looked at an empty queue, the bridge has queued a datagram and not yet
    looked for the waker. *)
Definition racing : System :=
  {| sock := {| ice_local := here; recv_queue := [(there, [1; 2; 3])]; recv_waker := Some 7;
                send_queue := [] |};
     remote := there; bridge := Waking; reader := ReaderPending 7; wakes := []; attached := true |}.

Definition registered : IceUdpSocket :=
  {| ice_local := here; recv_queue := []; recv_waker := Some 7; send_queue := [] |}.

Definition at_reader (r : Reader) : System :=
  {| sock := registered; remote := there; bridge := Selecting; reader := r; wakes := [];
     attached := true |}.

Lemma racing_reached :
  ice_exec start [PollRegister 7; PollCheck 1500 PollPending; ConnRecv [1; 2; 3]] racing.
Proof.
  apply (ExecSnoc _ [PollRegister 7; PollCheck 1500 PollPending] (at_reader (ReaderPending 7))).
  2: { exact (StConnRecv (at_reader (ReaderPending 7)) [1; 2; 3] eq_refl ltac:(by_decide)). }
  apply (ExecSnoc _ [PollRegister 7] (at_reader (ReaderPolling 7))).
  2: { exact (StPollCheck (at_reader (ReaderPolling 7)) 7 1500 1 registered PollPending
         eq_refl ltac:(lia) eq_refl). }
  apply (ExecSnoc _ [] start); [constructor|]. by apply StPollRegister.
Defined.
End IceSocketExample.

Lemma no_lost_wakeup_witness :
  7 ∈ wakes IceSocketExample.racing \/
  (exists l s', ice_step IceSocketExample.racing l s' /\ of_bridge l = true) /\
  (forall l s', ice_step IceSocketExample.racing l s' -> of_bridge l = true ->
     l = WakeReader (Some 7) /\ 7 ∈ wakes s').
Proof.
  apply (no_lost_wakeup (Ok IceSocketExample.here) (Some IceSocketExample.there)
    IceSocketExample.start [PollRegister 7; PollCheck 1500 PollPending; ConnRecv [1; 2; 3]]
    IceSocketExample.racing 7); [reflexivity|apply IceSocketExample.racing_reached|reflexivity|discriminate].
Defined.

Lemma ice_datagrams_in_order_witness :
  exists taken,
    (fun d => (IceSocketExample.there, d)) <$> [[1; 2; 3]] =
      taken ++ [(IceSocketExample.there, [1; 2; 3])] /\
    Forall2 (fun d p => snd p = deliver (fst p) d) taken [].
Proof.
  exact (proj1 (ice_datagrams_in_order (Ok IceSocketExample.here) (Some IceSocketExample.there)
    IceSocketExample.start _ _ eq_refl IceSocketExample.racing_reached)).
Defined.
