(* ===== verification/Ice.v ===== *)
(** * ICE ([bw-ice/src/error.rs, manager.rs, signaling.rs])

    A manager wraps the agent of the [webrtc-ice] crate; a signaling peer owns a manager and a
    worker task that sends the candidates the agent gathers to the other side and feeds the
    agent with those the other side sends.  The agent is a type class; the peer is a labelled
    step relation whose steps are the worker's turns at its channels, the agent's callbacks and
    the owner's calls. *)

From S2P Require Import Prelude Cbor Message Auth Routing.

(** ** Errors and configuration *)

(** [IceError]; what a library error prints is kept as text, a candidate or URL too. *)
Inductive IceError : Type :=
| InvalidUrl (url : string) (why : string)
| AgentError (why : string)
| InvalidCandidate (candidate : string) (why : string)
| ConnectFailed (why : string)
| AlreadyGathered
| MissingRemoteCredentials
| ChannelClosed.

Record IceConfig := {
  cfg_urls : list string;
  cfg_is_controlling : bool;
  cfg_include_loopback : bool;
  cfg_local_ufrag : option (list Z);
  cfg_local_pwd : option (list Z)
}.

Definition ice_config_default : IceConfig := {|
  cfg_urls := ["stun:stun.l.google.com:19302"];
  cfg_is_controlling := false;
  cfg_include_loopback := false;
  cfg_local_ufrag := None;
  cfg_local_pwd := None
|}.

(** The fields of the crate's [AgentConfig] that are set; the network types are always
    [Udp4] and multicast names are always disabled. *)
Record AgentConfig (Url : Type) := {
  ac_urls : list Url;
  ac_include_loopback : bool;
  ac_local_ufrag : list Z;
  ac_local_pwd : list Z
}.

Arguments ac_urls {Url} _.
Arguments ac_include_loopback {Url} _.
Arguments ac_local_ufrag {Url} _.
Arguments ac_local_pwd {Url} _.

(** ** The agent of [webrtc-ice] *)

Class IceAgent (Url Agent Cand Conn : Type) := {
  parse_url : string -> result string Url;
  agent_new : AgentConfig Url -> result string Agent;
  get_local_user_credentials : Agent -> list Z * list Z;
  agent_gather_candidates : Agent -> Agent * result string unit;
  unmarshal_candidate : string -> result string Cand;
  agent_add_remote_candidate : Agent -> Cand -> Agent * result string unit;
  agent_dial : Agent -> list Z -> list Z -> Agent * result string Conn;
  agent_accept : Agent -> list Z -> list Z -> Agent * result string Conn;
  agent_close : Agent -> Agent * result string unit
}.

(** Documented: a username fragment and password given in the configuration are used as they
    are, and gathering does not change them. *)
Class IceAgentLaws (Url Agent Cand Conn : Type) `{IceAgent Url Agent Cand Conn} : Prop := {
  agent_new_credentials : forall cfg a,
    agent_new cfg = Ok a -> ac_local_ufrag cfg <> [] -> ac_local_pwd cfg <> [] ->
    get_local_user_credentials a = (ac_local_ufrag cfg, ac_local_pwd cfg);
  agent_gather_credentials : forall a,
    get_local_user_credentials (fst (agent_gather_candidates a)) = get_local_user_credentials a
}.

(** ** The connection *)

(** The [Conn] trait of [webrtc-util]: the connection's state, the calls and their errors. *)
Class IceConn (Conn Addr : Type) := {
  conn_send : Conn -> list Z -> Conn * result string Z;
  conn_recv : Conn -> Z -> Conn * result string (list Z);
  conn_local_addr : Conn -> result string Addr;
  conn_remote_addr : Conn -> option Addr;
  conn_close : Conn -> Conn * result string unit
}.

(** [IceConnection]: every error of the transport is a [ConnectFailed]. *)
Section connection.
Context {Conn Addr : Type} `{IceConn Conn Addr}.

Definition ice_conn_send (c : Conn) (buf : list Z) : Conn * result IceError Z :=
  let '(c, r) := conn_send c buf in (c, map_err ConnectFailed r).

Definition ice_conn_recv (c : Conn) (buf_len : Z) : Conn * result IceError (list Z) :=
  let '(c, r) := conn_recv c buf_len in (c, map_err ConnectFailed r).

Definition ice_conn_local_addr (c : Conn) : result IceError Addr :=
  map_err ConnectFailed (conn_local_addr c).

Definition ice_conn_remote_addr (c : Conn) : option Addr := conn_remote_addr c.

Definition ice_conn_close (c : Conn) : Conn * result IceError unit :=
  let '(c, r) := conn_close c in (c, map_err ConnectFailed r).
End connection.

(** ** Credentials *)

Definition TOKEN_LEN : nat := 32.

(** [hex]: two lowercase digits per byte, pushed onto the output one byte after the other. *)
Definition ice_hex (bytes : list Z) : list Z :=
  foldl (fun out b => out ++ hex_byte b) [] bytes.

Definition ice_credentials_from_token (token : list Z) : list Z * list Z :=
  (ice_hex (take 4 token), ice_hex token).

Lemma ice_hex_eq bytes : ice_hex bytes = Auth.hex bytes.
Proof.
  unfold ice_hex, Auth.hex.
  assert (Hacc : forall acc, foldl (fun out b => out ++ hex_byte b) acc bytes =
                             acc ++ concat (hex_byte <$> bytes)).
  { induction bytes as [|b bytes IH]; intros acc; [by rewrite app_nil_r|].
    cbn [foldl fmap list_fmap concat]. by rewrite IH, <- app_assoc. }
  by rewrite Hacc.
Qed.

Lemma length_ice_hex bytes : length (ice_hex bytes) = (2 * length bytes)%nat.
Proof.
  rewrite ice_hex_eq. unfold Auth.hex. induction bytes as [|b bytes IH]; [done|].
  cbn [fmap list_fmap concat hex_byte app length]. rewrite IH. lia.
Qed.

Section ice.
Context {Url Agent Cand Conn : Type} `{IceAgent Url Agent Cand Conn}.

(** ** The manager *)

Record IceManager := {
  agent : Agent;
  is_controlling : bool;
  remote_credentials : option (list Z * list Z);
  gathered : bool
}.

Definition set_agent (a : Agent) (m : IceManager) : IceManager :=
  {| agent := a; is_controlling := is_controlling m; remote_credentials := remote_credentials m;
     gathered := gathered m |}.

(** [for raw in &config.urls]: the first URL that does not parse is the error. *)
Fixpoint parse_urls (raws : list string) : result IceError (list Url) :=
  match raws with
  | [] => Ok []
  | raw :: raws =>
      let? url := map_err (InvalidUrl raw) (parse_url raw) in
      let? urls := parse_urls raws in
      Ok (url :: urls)
  end.

Definition manager_new (config : IceConfig) : result IceError IceManager :=
  let? urls := parse_urls (cfg_urls config) in
  let? a := map_err AgentError (agent_new {|
    ac_urls := urls;
    ac_include_loopback := cfg_include_loopback config;
    ac_local_ufrag := default [] (cfg_local_ufrag config);
    ac_local_pwd := default [] (cfg_local_pwd config)
  |}) in
  Ok {| agent := a; is_controlling := cfg_is_controlling config; remote_credentials := None;
        gathered := false |}.

Definition local_credentials (m : IceManager) : list Z * list Z :=
  get_local_user_credentials (agent m).

Definition set_remote_credentials (ufrag pwd : list Z) (m : IceManager) : IceManager :=
  {| agent := agent m; is_controlling := is_controlling m; remote_credentials := Some (ufrag, pwd);
     gathered := gathered m |}.

(** [gather_candidates]: the flag is set before anything can fail, so that a failed call too
    makes the next one [AlreadyGathered]. *)
Definition gather_candidates (m : IceManager) : IceManager * result IceError unit :=
  if gathered m then (m, Err AlreadyGathered)
  else
    let '(a, r) := agent_gather_candidates (agent m) in
    ({| agent := a; is_controlling := is_controlling m; remote_credentials := remote_credentials m;
        gathered := true |}, map_err AgentError r).

Definition add_remote_candidate (candidate : string) (m : IceManager) :
    IceManager * result IceError unit :=
  match unmarshal_candidate candidate with
  | Err why => (m, Err (InvalidCandidate candidate why))
  | Ok c =>
      let '(a, r) := agent_add_remote_candidate (agent m) c in
      (set_agent a m, map_err AgentError r)
  end.

Definition establish_connection (m : IceManager) : IceManager * result IceError Conn :=
  match remote_credentials m with
  | None => (m, Err MissingRemoteCredentials)
  | Some (ufrag, pwd) =>
      let '(a, r) := if is_controlling m then agent_dial (agent m) ufrag pwd
                     else agent_accept (agent m) ufrag pwd in
      (set_agent a m, map_err ConnectFailed r)
  end.

Definition manager_close (m : IceManager) : IceManager * result IceError unit :=
  let '(a, r) := agent_close (agent m) in (set_agent a m, map_err AgentError r).

(** ** The signaling peer *)

Context `{Cbor IceCandidatePayload}.

(** Where the worker is: in the loop with both channels, in the loop after gathering, or
    returned, its ends of the channels dropped. *)
Inductive Worker : Type := Exchanging | PostGathering | WorkerDone.

(** [gathering]: the callback still has its sender.  [owned]: the [IcePeer] exists, with the
    inbound sender and the outbound receiver.  The queues are the channels' contents. *)
Record Peer := {
  manager : IceManager;
  gathering : bool;
  local_rx : list string;
  inbound : list string;
  outbound : list ProtocolMessage;
  worker : Worker;
  owned : bool
}.

Definition LOCAL_CAPACITY : nat := 64.

Definition as_payload (candidate : string) : IceCandidatePayload :=
  {| candidate_str := candidate; sdp_mid := None; sdp_mline_index := None |}.

(** [IcePeer::new]. *)
Definition peer_new (token : list Z) (controlling : bool) (urls : list string) : result IceError Peer :=
  let '(ufrag, pwd) := ice_credentials_from_token token in
  let? m := manager_new {| cfg_urls := urls; cfg_is_controlling := controlling;
                           cfg_include_loopback := true; cfg_local_ufrag := Some ufrag;
                           cfg_local_pwd := Some pwd |} in
  let '(m, r) := gather_candidates (set_remote_credentials ufrag pwd m) in
  let? _ := r in
  Ok {| manager := m; gathering := true; local_rx := []; inbound := []; outbound := [];
        worker := Exchanging; owned := true |}.

Definition worker_done (w : Worker) : bool := match w with WorkerDone => true | _ => false end.
Definition outbound_open (w : Worker) : bool := match w with Exchanging => true | _ => false end.

(** [push_candidate]. *)
Definition push_candidate (message : ProtocolMessage) (p : Peer) : Peer * result IceError unit :=
  if decide (message_type message = IceCandidate) then
    match as_ice_candidate message with
    | None => (p, Err (InvalidCandidate "undecodable ICE candidate payload" ""))
    | Some payload =>
        if worker_done (worker p) then (p, Err ChannelClosed)
        else ({| manager := manager p; gathering := gathering p; local_rx := local_rx p;
                 inbound := inbound p ++ [candidate_str payload]; outbound := outbound p;
                 worker := worker p; owned := owned p |}, Ok tt)
    end
  else (p, Err (InvalidCandidate "message is not an ICE candidate" "")).

(** The worker's turn at a gathered candidate: a message that cannot be built is skipped, a
    receiver that is gone ends the worker. *)
Definition worker_local (c : string) (rest : list string) (p : Peer) : Peer :=
  let mk out w := {| manager := manager p; gathering := gathering p; local_rx := rest;
                     inbound := inbound p; outbound := out; worker := w; owned := owned p |} in
  match ice_candidate (as_payload c) with
  | Err _ => mk (outbound p) (worker p)
  | Ok m => if owned p then mk (outbound p ++ [m]) (worker p) else mk (outbound p) WorkerDone
  end.

(** The worker's turn at a remote candidate, in either of its loops. *)
Definition worker_inbound (c : string) (rest : list string) (p : Peer) : Peer * result IceError unit :=
  let '(m, r) := add_remote_candidate c (manager p) in
  ({| manager := m; gathering := gathering p; local_rx := local_rx p; inbound := rest;
      outbound := outbound p; worker := if is_ok r then worker p else WorkerDone; owned := owned p |}, r).

Definition set_worker (w : Worker) (p : Peer) : Peer :=
  {| manager := manager p; gathering := gathering p; local_rx := local_rx p; inbound := inbound p;
     outbound := outbound p; worker := w; owned := owned p |}.

Definition set_gathering (rx : list string) (g : bool) (p : Peer) : Peer :=
  {| manager := manager p; gathering := g; local_rx := rx; inbound := inbound p;
     outbound := outbound p; worker := worker p; owned := owned p |}.

Definition set_outbound (out : list ProtocolMessage) (o : bool) (p : Peer) : Peer :=
  {| manager := manager p; gathering := gathering p; local_rx := local_rx p; inbound := inbound p;
     outbound := out; worker := worker p; owned := o |}.

Inductive peer_label : Type :=
| Gathered (c : string)
| GatheringDone
| WorkerLocal
| WorkerLocalEnd
| WorkerInbound (c : string) (r : result IceError unit)
| WorkerInboundEnd
| PushCandidate (m : ProtocolMessage) (r : result IceError unit)
| NextOutbound (m : option ProtocolMessage)
| DropPeer.

(** The agent calls back with each candidate and, once, with none at the end; the callback
    waits while the channel is full and its send fails when the worker is gone. *)
Inductive peer_step : Peer -> peer_label -> Peer -> Prop :=
| PGathered p c : gathering p = true -> worker p = Exchanging -> (length (local_rx p) < LOCAL_CAPACITY)%nat ->
    peer_step p (Gathered c) (set_gathering (local_rx p ++ [c]) true p)
| PGatheredLost p c : gathering p = true -> worker p = WorkerDone -> peer_step p (Gathered c) p
| PGatheringDone p : gathering p = true -> peer_step p GatheringDone (set_gathering (local_rx p) false p)
| PWorkerLocal p c rest : worker p = Exchanging -> local_rx p = c :: rest ->
    peer_step p WorkerLocal (worker_local c rest p)
| PWorkerLocalEnd p : worker p = Exchanging -> local_rx p = [] -> gathering p = false ->
    peer_step p WorkerLocalEnd (set_worker PostGathering p)
| PWorkerInbound p c rest : worker_done (worker p) = false -> inbound p = c :: rest ->
    peer_step p (WorkerInbound c (snd (worker_inbound c rest p))) (fst (worker_inbound c rest p))
| PWorkerInboundEnd p : worker_done (worker p) = false -> inbound p = [] -> owned p = false ->
    peer_step p WorkerInboundEnd (set_worker WorkerDone p)
| PPush p m : owned p = true ->
    peer_step p (PushCandidate m (snd (push_candidate m p))) (fst (push_candidate m p))
| PNextOutbound p m rest : owned p = true -> outbound p = m :: rest ->
    peer_step p (NextOutbound (Some m)) (set_outbound rest true p)
| PNextOutboundEnd p : owned p = true -> outbound p = [] -> outbound_open (worker p) = false ->
    peer_step p (NextOutbound None) p
| PDropPeer p : owned p = true -> peer_step p DropPeer (set_outbound (outbound p) false p).

Inductive peer_exec : Peer -> list peer_label -> Peer -> Prop :=
| PExecNil p : peer_exec p [] p
| PExecSnoc p tr p1 l p2 : peer_exec p tr p1 -> peer_step p1 l p2 -> peer_exec p (tr ++ [l]) p2.

(** ** What a trace did *)

Definition gathered_in (tr : list peer_label) : list string :=
  omap (fun l => match l with Gathered c => Some c | _ => None end) tr.

Definition emitted (tr : list peer_label) : list ProtocolMessage :=
  omap (fun l => match l with NextOutbound m => m | _ => None end) tr.

Definition pushed (tr : list peer_label) : list ProtocolMessage :=
  omap (fun l => match l with PushCandidate m (Ok _) => Some m | _ => None end) tr.

Definition fed (tr : list peer_label) : list string :=
  omap (fun l => match l with WorkerInbound c _ => Some c | _ => None end) tr.

(** The messages that carry candidates, and the candidates that messages carry. *)
Definition messages_of (cs : list string) : list ProtocolMessage :=
  omap (fun c => match ice_candidate (as_payload c) with Ok m => Some m | Err _ => None end) cs.

Definition candidates_of (ms : list ProtocolMessage) : list string :=
  omap (fun m => candidate_str <$> as_ice_candidate m) ms.

(** The remote side sent a candidate the agent refused. *)
Definition refused (tr : list peer_label) : Prop :=
  exists c e, WorkerInbound c (Err e) ∈ tr.

Record signal_inv (tr : list peer_label) (p : Peer) : Prop := {
  sig_out : exists rest, messages_of (gathered_in tr) = emitted tr ++ outbound p ++ rest /\
    (worker p <> WorkerDone -> rest = messages_of (local_rx p));
  sig_in : candidates_of (pushed tr) = fed tr ++ inbound p;
  sig_post : worker p = PostGathering -> local_rx p = [] /\ gathering p = false;
  sig_done : worker p = WorkerDone -> DropPeer ∈ tr \/ refused tr;
  sig_owned : owned p = false -> DropPeer ∈ tr
}.


(** *** The server's handler *)

(** The texts of the errors. *)
Definition ice_error_text (e : IceError) : string :=
  match e with
  | InvalidUrl url why => "invalid ICE server URL `" +:+ url +:+ "`: " +:+ why
  | AgentError why => "ICE agent error: " +:+ why
  | InvalidCandidate c why => "invalid remote candidate `" +:+ c +:+ "`: " +:+ why
  | ConnectFailed why => "ICE connection failed: " +:+ why
  | AlreadyGathered => "ICE candidates have already been gathered"
  | MissingRemoteCredentials => "remote ICE credentials have not been set"
  | ChannelClosed => "ICE signaling channel closed"
  end.

(** [register_ice_handler] of the server. *)
Definition on_ice_candidate (p : Peer) (e : MessageEnvelope) : Peer * result DispatchError unit :=
  let '(p, r) := push_candidate (message e) p in (p, map_err (fun e => Handler (ice_error_text e)) r).

Definition register_ice_handler (d : MessageDispatcher Peer) : MessageDispatcher Peer :=
  register_handler d IceCandidate on_ice_candidate.

End ice.

Lemma omap_snoc_some {A B} (f : A -> option B) l x y : f x = Some y -> omap f (l ++ [x]) = omap f l ++ [y].
Proof. intros Hf. rewrite omap_app. simpl. by rewrite Hf. Qed.

Lemma omap_snoc_none {A B} (f : A -> option B) l x : f x = None -> omap f (l ++ [x]) = omap f l.
Proof. intros Hf. rewrite omap_app. simpl. rewrite Hf. by rewrite app_nil_r. Qed.

Section ice_proofs.
Context {Url Agent Cand Conn : Type} `{IceAgent Url Agent Cand Conn}.
Context `{Cbor IceCandidatePayload}.

Implicit Types (p : Peer (Agent := Agent)) (tr : list peer_label).

Lemma elem_of_snoc_l {A} (x : A) l y : x ∈ l -> x ∈ l ++ [y].
Proof. intros Hx. apply elem_of_app. by left. Qed.

Lemma refused_snoc tr l : refused tr -> refused (tr ++ [l]).
Proof. intros (c & e & Hc). exists c, e. by apply elem_of_snoc_l. Qed.

Lemma signal_inv_start p : gathering p = true -> local_rx p = [] -> inbound p = [] ->
  outbound p = [] -> worker p = Exchanging -> owned p = true -> signal_inv [] p.
Proof.
  intros Hg Hl Hi Ho Hw Hown. constructor; rewrite ?Hl, ?Hi, ?Ho, ?Hw, ?Hown; try done.
  by exists [].
Qed.

Ltac signal_simp :=
  unfold gathered_in, emitted, pushed, fed in *;
  repeat first [rewrite omap_snoc_none by done | erewrite omap_snoc_some by done].

Lemma worker_local_cases c rest p :
  let p' := worker_local c rest p in
  local_rx p' = rest /\ inbound p' = inbound p /\ gathering p' = gathering p /\ owned p' = owned p /\
  (messages_of [c] = [] /\ outbound p' = outbound p /\ worker p' = worker p \/
   exists m, messages_of [c] = [m] /\
     (outbound p' = outbound p ++ [m] /\ worker p' = worker p \/
      outbound p' = outbound p /\ worker p' = WorkerDone /\ owned p = false)).
Proof.
  unfold worker_local, messages_of. simpl. destruct (ice_candidate (as_payload c)) as [m|e]; simpl.
  - destruct (owned p) eqn:E; simpl; split_and!; try done; right; exists m; auto.
  - split_and!; try done. by left.
Qed.

Lemma push_candidate_cases m p :
  (exists c, as_ice_candidate m = Some c /\ worker p <> WorkerDone /\
    push_candidate m p =
      ({| manager := manager p; gathering := gathering p; local_rx := local_rx p;
          inbound := inbound p ++ [candidate_str c]; outbound := outbound p;
          worker := worker p; owned := owned p |}, Ok tt)) \/
  (exists e, push_candidate m p = (p, Err e)).
Proof.
  unfold push_candidate. case_decide; [|right; by eexists].
  destruct (as_ice_candidate m) as [c|]; [|right; by eexists].
  destruct (worker p) eqn:E; simpl; [left; by exists c..|right; by eexists].
Qed.

Lemma messages_of_app a b : messages_of (a ++ b) = messages_of a ++ messages_of b.
Proof. apply omap_app. Qed.

Lemma messages_of_cons c rest : messages_of (c :: rest) = messages_of [c] ++ messages_of rest.
Proof. apply (messages_of_app [c] rest). Qed.

Lemma signal_inv_local tr p c rest : worker p = Exchanging -> local_rx p = c :: rest ->
  signal_inv tr p -> signal_inv (tr ++ [WorkerLocal]) (worker_local c rest p).
Proof.
  intros Hw Hl [(r & Hout & Hrest) Hin Hpost Hdone Hown].
  destruct (worker_local_cases c rest p) as (El & Ei & Eg & Eo & Hcase).
  rewrite Hrest in Hout by congruence. rewrite Hl, messages_of_cons in Hout.
  constructor; signal_simp; rewrite ?El, ?Ei, ?Eg, ?Eo; auto using elem_of_snoc_l.
  - destruct Hcase as [(Em & -> & _)|(m & Em & [[-> _]|(-> & -> & _)])]; rewrite Em in Hout.
    + exists (messages_of rest). auto.
    + exists (messages_of rest). rewrite Hout, <- !app_assoc. auto.
    + by exists (m :: messages_of rest).
  - destruct Hcase as [(_ & _ & ->)|(m & _ & [[_ ->]|(_ & -> & _)])]; congruence.
  - destruct Hcase as [(_ & _ & ->)|(m & _ & [[_ ->]|(_ & _ & Ho)])]; [congruence..|].
    intros _. left. auto using elem_of_snoc_l.
Qed.

Lemma signal_inv_inbound tr p c rest : inbound p = c :: rest -> worker p <> WorkerDone ->
  signal_inv tr p ->
  signal_inv (tr ++ [WorkerInbound c (snd (worker_inbound c rest p))]) (fst (worker_inbound c rest p)).
Proof.
  intros Hi Hw [(r & Hout & Hrest) Hin Hpost Hdone Hown]. unfold worker_inbound.
  destruct (add_remote_candidate c (manager p)) as [m r0]. rewrite Hi in Hin.
  constructor; signal_simp; simpl; auto using elem_of_snoc_l.
  - exists r. auto.
  - by rewrite <- app_assoc.
  - destruct r0; [auto|done].
  - destruct r0 as [|e]; [done|]. intros _. right. exists c, e. apply elem_of_app. right. by left.
Qed.

Lemma signal_inv_push tr p m : signal_inv tr p ->
  signal_inv (tr ++ [PushCandidate m (snd (push_candidate m p))]) (fst (push_candidate m p)).
Proof.
  intros [(r & Hout & Hrest) Hin Hpost Hdone Hown].
  assert (Hd' : forall l, worker p = WorkerDone -> DropPeer ∈ tr ++ [l] \/ refused (tr ++ [l])).
  { intros l Hw. destruct (Hdone Hw); [left|right]; auto using elem_of_snoc_l, refused_snoc. }
  destruct (push_candidate_cases m p) as [(c & Hc & Hw & ->)|(e & ->)];
    constructor; signal_simp; simpl; eauto using elem_of_snoc_l.
  unfold candidates_of. rewrite omap_app. simpl. rewrite Hc. simpl. unfold candidates_of in Hin.
  by rewrite Hin, <- app_assoc.
Qed.

Lemma signal_inv_step tr p l p' : peer_step p l p' -> signal_inv tr p -> signal_inv (tr ++ [l]) p'.
Proof.
  intros Hstep Hinv.
  assert (Hd' : worker p = WorkerDone -> DropPeer ∈ tr ++ [l] \/ refused (tr ++ [l])).
  { intros Hw. destruct (sig_done _ _ Hinv Hw); [left|right]; auto using elem_of_snoc_l, refused_snoc. }
  assert (Ho' : owned p = false -> DropPeer ∈ tr ++ [l]).
  { intros Ho. apply elem_of_snoc_l, (sig_owned _ _ Hinv Ho). }
  destruct Hstep as [p c Hg Hw Hlen|p c Hg Hw|p Hg|p c rest Hw Hl|p Hw Hl Hg|p c rest Hw Hi|p Hw Hi Ho
                    |p m Ho|p m rest Ho Hout|p Ho Hout Hw|p Ho].
  4: by apply signal_inv_local.
  5: by apply signal_inv_inbound; [done|intros E; rewrite E in Hw|].
  6: by apply signal_inv_push.
  all: destruct Hinv as [(r & Hflow & Hrest) Hin Hpost Hdone Hown]; constructor; signal_simp; simpl; auto; try done.
  - rewrite messages_of_app, Hflow. exists (r ++ messages_of [c]). rewrite <- !app_assoc. split; [done|].
    intros Hne. rewrite Hrest, <- messages_of_app; done.
  - rewrite Hw. done.
  - rewrite messages_of_app, Hflow. exists (r ++ messages_of [c]). rewrite <- !app_assoc. split; [done|].
    intros Hne. done.
  - exists r. auto.
  - intros Hp. destruct (Hpost Hp); done.
  - exists r. split; [done|]. intros _. apply Hrest. congruence.
  - by exists r.
  - exists r. split; [|done]. by rewrite Hflow, Hout, <- app_assoc.
  - exists r. auto.
  - exists r. auto.
  - intros _. apply elem_of_app. right. by left.
Qed.

Lemma signal_inv_exec p0 tr p : peer_exec p0 tr p -> signal_inv [] p0 -> signal_inv tr p.
Proof. induction 1; [done|]. eauto using signal_inv_step. Qed.

Definition ended_inv tr p : Prop :=
  NextOutbound None ∈ tr -> outbound p = [] /\ worker p <> Exchanging.

Lemma ended_inv_step tr p l p' : peer_step p l p' -> ended_inv tr p -> ended_inv (tr ++ [l]) p'.
Proof.
  intros Hstep Hinv [Hl|Hl%list_elem_of_singleton]%elem_of_app.
  - destruct (Hinv Hl) as [Ho Hw]. clear Hinv Hl. inversion Hstep; subst; simpl; try done; try congruence.
    + unfold worker_inbound. destruct (add_remote_candidate c (manager p)) as [m []]; done.
    + destruct (push_candidate_cases m p) as [(c & _ & _ & ->)|(e & ->)]; done.
  - subst l. inversion Hstep; subst. split; [done|]. intros Hw. rewrite Hw in *. done.
Qed.

Lemma ended_inv_exec p0 tr p : peer_exec p0 tr p -> ended_inv tr p.
Proof.
  induction 1; [|eauto using ended_inv_step]. intros Hin. by apply elem_of_nil in Hin.
Qed.

Lemma peer_new_ok token c urls p : peer_new token c urls = Ok p -> signal_inv [] p.
Proof.
  unfold peer_new. simpl. destruct (manager_new _) as [m|]; simpl; [|done].
  unfold gather_candidates. simpl. destruct (gathered m); [done|].
  destruct (agent_gather_candidates (agent m)) as [a [[]|]]; simpl; [|done].
  intros [= <-]. by apply signal_inv_start.
Qed.

Definition encodable (c : string) : bool := is_ok (ice_candidate (as_payload c)).

Lemma candidates_of_app a b : candidates_of (a ++ b) = candidates_of a ++ candidates_of b.
Proof. apply omap_app. Qed.

Lemma candidates_of_messages_of `{!CborLaws IceCandidatePayload} cs :
  candidates_of (messages_of cs) = List.filter encodable cs.
Proof.
  induction cs as [|c cs IH]; [done|]. rewrite messages_of_cons, candidates_of_app, IH.
  unfold candidates_of, messages_of, encodable. simpl.
  destruct (ice_candidate (as_payload c)) as [m|e] eqn:E; simpl; [|done].
  apply build_read in E as [Ht Hr]. unfold as_ice_candidate.
  rewrite decide_True by done. by rewrite Hr.
Qed.

Lemma signaling_stream p0 tr p : peer_exec p0 tr p -> signal_inv [] p0 ->
  emitted tr `prefix_of` messages_of (gathered_in tr) /\
  (NextOutbound None ∈ tr -> ~ refused tr -> ~ DropPeer ∈ tr -> emitted tr = messages_of (gathered_in tr)).
Proof.
  intros Hex Hinv. pose proof (ended_inv_exec _ _ _ Hex) as Hend.
  apply (signal_inv_exec _ _ _ Hex) in Hinv as [(rest & Hout & Hrest) _ Hpost Hdone _].
  split; [by eexists|]. intros Hn Hr Hd. destruct (Hend Hn) as [Ho Hw].
  assert (Hwp : worker p = PostGathering).
  { destruct (worker p) eqn:E; [done..|]. destruct (Hdone eq_refl); done. }
  destruct (Hpost Hwp) as [Hl _]. rewrite Hout, Ho, Hrest, Hl by congruence. simpl. by rewrite app_nil_r.
Qed.


(** ** A refused candidate *)

Lemma refused_ends_worker p c e p' :
  peer_step p (WorkerInbound c (Err e)) p' -> worker p' = WorkerDone.
Proof.
  inversion 1; subst. unfold worker_inbound in *.
  destruct (add_remote_candidate c (manager p)) as [m []]; simpl in *; congruence.
Qed.

Lemma done_step p l p' : peer_step p l p' -> worker p = WorkerDone ->
  worker p' = WorkerDone /\ fed [l] = [] /\ pushed [l] = [] /\ outbound p = emitted [l] ++ outbound p'.
Proof.
  intros Hstep Hw. inversion Hstep; subst; simpl; try congruence; try done.
  all: try (match goal with Hd : worker_done (worker _) = false |- _ => by rewrite Hw in Hd end).
  - destruct (push_candidate_cases m p) as [(c & _ & ? & _)|(e & ->)]; done.
Qed.

(** One candidate that the agent refuses ends the exchange for good, in both directions:
    from then on no candidate the agent gathers is emitted (only messages already in the channel
    are), nothing more is fed to the agent, and every message pushed is refused. *)
Theorem refused_candidate_ends_exchange p c e p1 tr p2 :
  peer_step p (WorkerInbound c (Err e)) p1 -> peer_exec p1 tr p2 ->
  worker p2 = WorkerDone /\ fed tr = [] /\ pushed tr = [] /\
  outbound p1 = emitted tr ++ outbound p2.
Proof.
  intros Hw%refused_ends_worker Hex. induction Hex as [|p1 tr p2 l p3 _ IH Hstep]; [done|].
  destruct (IH Hw) as (Hw2 & Hf & Hp & Ho). destruct (done_step _ _ _ Hstep Hw2) as (? & Hf' & Hp' & Ho').
  unfold fed, pushed, emitted in *. rewrite !omap_app, Hf, Hp, Hf', Hp', Ho, Ho', app_assoc. done.
Qed.


(** A candidate that comes in an envelope between two devices is queued for the agent. *)
Lemma dispatched_candidate_queued `{!CborLaws IceCandidatePayload} d source destination sid m c p :
  source <> destination -> destination <> broadcast -> ice_candidate c = Ok m -> worker p <> WorkerDone ->
  dispatch (register_ice_handler d) p
    {| Routing.source := source; Routing.destination := destination; session_id := sid; route := Direct;
       message := m; routing_flags := 0 |} =
  ({| manager := manager p; gathering := gathering p; local_rx := local_rx p;
      inbound := inbound p ++ [candidate_str c]; outbound := outbound p;
      worker := worker p; owned := owned p |}, Ok tt).
Proof.
  intros Hne Hb Hm Hw. pose proof (build_valid _ _ _ Hm) as Hv. apply build_read in Hm as [Ht Hr].
  unfold dispatch, validate. rewrite (proj2 (validate_envelope_ok_iff _)) by done. simpl.
  rewrite Ht, lookup_insert_eq. unfold on_ice_candidate, push_candidate, as_ice_candidate. simpl.
  rewrite !decide_True by done. rewrite Hr. destruct (worker p); done.
Qed.
End ice_proofs.

(** ** Credentials *)

Section agreement.
Context {Url Agent Cand Conn : Type} `{IceAgentLaws Url Agent Cand Conn}.

Lemma manager_new_credentials cfg (m : IceManager) ufrag pwd : manager_new cfg = Ok m ->
  cfg_local_ufrag cfg = Some ufrag -> cfg_local_pwd cfg = Some pwd -> ufrag <> [] -> pwd <> [] ->
  local_credentials m = (ufrag, pwd) /\ is_controlling m = cfg_is_controlling cfg.
Proof.
  unfold manager_new. intros Hm Hu Hp Hune Hpne. destruct (parse_urls _) as [urls|]; [|done].
  simpl in Hm. rewrite Hu, Hp in Hm. simpl in Hm.
  destruct (agent_new _) as [a|] eqn:Ea; simpl in Hm; [|done]. simplify_eq.
  apply agent_new_credentials in Ea; done.
Qed.

Lemma peer_new_credentials token c urls (p : Peer) : length token = TOKEN_LEN ->
  peer_new token c urls = Ok p ->
  local_credentials (manager p) = ice_credentials_from_token token /\
  remote_credentials (manager p) = Some (ice_credentials_from_token token) /\
  is_controlling (manager p) = c.
Proof.
  intros Hlen. unfold peer_new, ice_credentials_from_token.
  destruct (manager_new _) as [m|] eqn:Em; simpl; [|done].
  assert (Hne : forall l, (0 < length l)%nat -> ice_hex l <> []).
  { intros l Hl Hnil. pose proof (length_ice_hex l) as Hh. rewrite Hnil in Hh. simpl in Hh. lia. }
  unfold TOKEN_LEN in Hlen.
  apply (manager_new_credentials _ _ (ice_hex (take 4 token)) (ice_hex token)) in Em as [Hc Hr];
    [|done|done|apply Hne; rewrite length_take; lia|apply Hne; lia].
  unfold gather_candidates. simpl. destruct (gathered m); [done|].
  pose proof (agent_gather_credentials (agent m)) as Hg.
  destruct (agent_gather_candidates (agent m)) as [a [[]|]]; simpl in *; [|done].
  intros [= <-]. simpl. unfold local_credentials in *. simpl. by rewrite Hg, Hc, Hr.
Qed.
End agreement.

(** The two ends of a relayed connection agree without exchanging credentials: each end's
    remote credentials are the other end's local ones; the controlling one dials and the other
    accepts, both with that pair; and ends with different tokens have different passwords. *)
Theorem ice_peers_agree {Url Agent Cand Conn} `{IceAgentLaws Url Agent Cand Conn}
    tokA tokB urlsA urlsB (a b : Peer) :
  byte_array TOKEN_LEN tokA -> byte_array TOKEN_LEN tokB ->
  peer_new tokA true urlsA = Ok a -> peer_new tokB false urlsB = Ok b ->
  (tokA = tokB ->
     remote_credentials (manager a) = Some (local_credentials (manager b)) /\
     remote_credentials (manager b) = Some (local_credentials (manager a)) /\
     exists ufrag pwd,
       snd (establish_connection (manager a)) =
         map_err ConnectFailed (snd (agent_dial (agent (manager a)) ufrag pwd)) /\
       snd (establish_connection (manager b)) =
         map_err ConnectFailed (snd (agent_accept (agent (manager b)) ufrag pwd)) /\
       (ufrag, pwd) = local_credentials (manager a)) /\
  (tokA <> tokB -> snd (local_credentials (manager a)) <> snd (local_credentials (manager b))).
Proof.
  intros [HlA HbA] [HlB HbB] HA HB.
  apply peer_new_credentials in HA as (LA & RA & CA); [|done].
  apply peer_new_credentials in HB as (LB & RB & CB); [|done].
  rewrite LA, LB, RA, RB. split.
  - intros ->. split_and!; [done..|]. eexists _, _. unfold establish_connection.
    rewrite RA, RB, CA, CB. unfold ice_credentials_from_token. split_and!; [| |done].
    + by destruct (agent_dial _ _ _).
    + by destruct (agent_accept _ _ _).
  - intros Hne Heq. apply Hne. simpl in Heq. rewrite !ice_hex_eq in Heq.
    rewrite <- (unhex_hex tokA), <- (unhex_hex tokB) by done. by rewrite Heq.
Qed.

(** ** Instances *)

Module IceExample.
#[local] Existing Instance countable_cbor.
#[local] Existing Instance countable_cbor_laws.

(** An agent that keeps its credentials and the candidates it was fed, and refuses the
    candidate ["bad"]. *)
Record toy_agent := { toy_credentials : list Z * list Z; toy_fed : list string }.

#[export] Instance toy_ice : IceAgent unit toy_agent string unit := {|
  parse_url _ := Ok tt;
  agent_new cfg := Ok {| toy_credentials := (ac_local_ufrag cfg, ac_local_pwd cfg); toy_fed := [] |};
  get_local_user_credentials := toy_credentials;
  agent_gather_candidates a := (a, Ok tt);
  unmarshal_candidate c := if decide (c = "bad") then Err "malformed" else Ok c;
  agent_add_remote_candidate a c :=
    ({| toy_credentials := toy_credentials a; toy_fed := toy_fed a ++ [c] |}, Ok tt);
  agent_dial a _ _ := (a, Ok tt);
  agent_accept a _ _ := (a, Ok tt);
  agent_close a := (a, Ok tt)
|}.

#[export] Instance toy_ice_laws : IceAgentLaws unit toy_agent string unit.
Proof. split; [|done]. by intros cfg a [= <-] _ _. Qed.

Definition token : list Z := replicate 32 171.
Definition other : list Z := replicate 32 172.

Definition fresh (controlling : bool) : Peer :=
  {| manager := {| agent := {| toy_credentials := ice_credentials_from_token token; toy_fed := [] |};
                   is_controlling := controlling;
                   remote_credentials := Some (ice_credentials_from_token token); gathered := true |};
     gathering := true; local_rx := []; inbound := []; outbound := []; worker := Exchanging;
     owned := true |}.

Definition a0 := fresh true.
Definition b0 := fresh false.

Definition message : ProtocolMessage :=
  {| message_type := IceCandidate; message_id := 0; msg_flags := 0;
     msg_payload := default [] (into_writer (as_payload "host")) |}.

(** The first peer gathers one candidate, sends it and reports the end. *)
Definition a1 := set_gathering ["host"] true a0.
Definition a2 := set_gathering ["host"] false a1.
Definition a3 := worker_local "host" [] a2.
Definition a4 := set_worker PostGathering a3.
Definition a5 := set_outbound [] true a4.

Definition trA : list peer_label :=
  [Gathered "host"; GatheringDone; WorkerLocal; WorkerLocalEnd; NextOutbound (Some message);
   NextOutbound None].

Lemma a_runs : peer_exec a0 trA a5.
Proof.
  apply (PExecSnoc _ [Gathered "host"; GatheringDone; WorkerLocal; WorkerLocalEnd;
                      NextOutbound (Some message)] a5); [|exact (PNextOutboundEnd a5 eq_refl eq_refl eq_refl)].
  apply (PExecSnoc _ [Gathered "host"; GatheringDone; WorkerLocal; WorkerLocalEnd] a4);
    [|exact (PNextOutbound a4 message [] eq_refl eq_refl)].
  apply (PExecSnoc _ [Gathered "host"; GatheringDone; WorkerLocal] a3);
    [|exact (PWorkerLocalEnd a3 eq_refl eq_refl eq_refl)].
  apply (PExecSnoc _ [Gathered "host"; GatheringDone] a2); [|exact (PWorkerLocal a2 "host" [] eq_refl eq_refl)].
  apply (PExecSnoc _ [Gathered "host"] a1); [|exact (PGatheringDone a1 eq_refl)].
  apply (PExecSnoc _ [] a0); [constructor|].
  exact (PGathered a0 "host" eq_refl eq_refl ltac:(vm_compute; lia)).
Defined.

(** The second is pushed the message and feeds its agent. *)
Definition b1 : Peer := fst (push_candidate message b0).
Definition b2 : Peer := fst (worker_inbound "host" [] b1).

Definition trB : list peer_label := [PushCandidate message (Ok tt); WorkerInbound "host" (Ok tt)].

Lemma b_runs : peer_exec b0 trB b2.
Proof.
  apply (PExecSnoc _ [PushCandidate message (Ok tt)] b1).
  2: { exact (PWorkerInbound b1 "host" [] eq_refl eq_refl). }
  apply (PExecSnoc _ [] b0); [constructor|]. exact (PPush b0 message eq_refl).
Defined.

(** A peer that is fed a malformed candidate while its own candidate waits. *)
Definition c1 : Peer :=
  {| manager := manager a1; gathering := true; local_rx := ["host"]; inbound := ["bad"];
     outbound := []; worker := Exchanging; owned := true |}.
Definition c2 : Peer := fst (worker_inbound "bad" [] c1).

Lemma c_refuses : peer_step c1 (WorkerInbound "bad" (Err (InvalidCandidate "bad" "malformed"))) c2.
Proof. exact (PWorkerInbound c1 "bad" [] eq_refl eq_refl). Defined.

Lemma c_runs : peer_exec c2 [NextOutbound None] c2.
Proof. apply (PExecSnoc _ [] c2); [constructor|]. exact (PNextOutboundEnd c2 eq_refl eq_refl eq_refl). Defined.
End IceExample.

Import IceExample.


Lemma refused_candidate_ends_exchange_witness :
  worker c2 = WorkerDone /\ emitted [NextOutbound None] = [] /\ local_rx c2 = ["host"].
Proof.
  pose proof (@refused_candidate_ends_exchange unit toy_agent string unit toy_ice
    (countable_cbor _) c1 _ _ c2 _ c2 c_refuses c_runs) as (Hw & _). split_and!; [exact Hw|reflexivity..].
Defined.

Lemma ice_peers_agree_witness :
  remote_credentials (manager a0) = Some (local_credentials (manager b0)) /\
  snd (local_credentials (manager a0)) <> ice_hex other.
Proof.
  split.
  - apply (ice_peers_agree token token [] [] a0 b0); [by_decide|by_decide|reflexivity..].
  - vm_compute. discriminate.
Defined.
