(* ===== verification/StoreDir.v ===== *)
(** * The enrollment store on disk ([bw-auth/src/store.rs], [bw-server/src/main.rs])

    The store is written to a directory, the setup in one file and a file per identifier named
    by its hexadecimal form, and read back by listing the directory.  The directory is a finite
    map from names to contents, [None] for a file that cannot be read; the order in which the
    operating system lists it, and in which the hash map is walked, is an argument; a write can
    fail and leave anything behind.  On top of it is the program's enrollment mode. *)

From S2P Require Import Prelude Auth.

(** Serialization of the setup and of password files, by the crate [opaque-ke]. *)
Class OpaqueFiles `{Opaque} := {
  setup_serialize : setup_t -> list Z;
  setup_deserialize : list Z -> option setup_t;
  file_serialize : file_t -> list Z;
  file_deserialize : list Z -> option file_t
}.

Class OpaqueFilesLaws `{OpaqueFiles} : Prop := {
  setup_roundtrip : forall s, setup_deserialize (setup_serialize s) = Some s;
  file_roundtrip : forall f, file_deserialize (file_serialize f) = Some f
}.

(** ** Files *)

Abbreviation Dir := (gmap (list Z) (option (list Z))).

(** What [std::fs::write] does: it succeeds, or fails and leaves the file as it was or with
    some content. *)
Inductive WriteOutcome : Type :=
| WriteOk
| WriteFailed (left_behind : option (list Z)).

Definition fs_write (disk : list Z -> WriteOutcome) (name contents : list Z) (dir : Dir) :
    Dir * result StoreError unit :=
  match disk name with
  | WriteOk => (<[name := Some contents]> dir, Ok tt)
  | WriteFailed (Some junk) => (<[name := Some junk]> dir, Err StoreIo)
  | WriteFailed None => (dir, Err StoreIo)
  end.

Definition OPAQUE_SUFFIX : list Z := string_bytes ".opaque".
Definition SETUP_NAME : list Z := string_bytes "setup.opaque".

(** [format!("{name}.opaque")] of [hex(identifier)]. *)
Definition file_name (identifier : list Z) : list Z := hex identifier ++ OPAQUE_SUFFIX.

(** [str::strip_suffix]. *)
Definition strip_suffix (suffix name : list Z) : option (list Z) :=
  let k := (length name - length suffix)%nat in
  if decide (drop k name = suffix) then Some (take k name) else None.

Section store_dir.
Context `{OpaqueFiles}.

(** ** Saving *)

Fixpoint save_files (disk : list Z -> WriteOutcome) (order : list (list Z * file_t)) (dir : Dir) :
    Dir * result StoreError unit :=
  match order with
  | [] => (dir, Ok tt)
  | (identifier, registration) :: order =>
      let '(dir, r) := fs_write disk (file_name identifier) (file_serialize registration) dir in
      match r with
      | Err e => (dir, Err e)
      | Ok _ => save_files disk order dir
      end
  end.

(** [save_to_dir]; [created] is the answer of [create_dir_all], [order] the hash map's order. *)
Definition save_to_dir (created : bool) (disk : list Z -> WriteOutcome)
    (order : list (list Z * file_t)) (s : EnrollmentStore) (dir : Dir) :
    Dir * result StoreError unit :=
  if created then
    let '(dir, r) := fs_write disk SETUP_NAME (setup_serialize (setup s)) dir in
    match r with
    | Err e => (dir, Err e)
    | Ok _ => save_files disk order dir
    end
  else (dir, Err StoreIo).

(** ** Loading *)

(** [std::fs::read]. *)
Definition fs_read (dir : Dir) (name : list Z) : option (list Z) := mjoin (dir !! name).

(** One entry of the listing. *)
Definition load_entry (dir : Dir) (name : list Z) (acc : gmap (list Z) file_t) : gmap (list Z) file_t :=
  if decide (name = SETUP_NAME) then acc
  else match strip_suffix OPAQUE_SUFFIX name with
       | None => acc
       | Some hex_id =>
           match fs_read dir name ≫= file_deserialize with
           | Some registration => <[unhex hex_id := registration]> acc
           | None => acc
           end
       end.

Fixpoint load_entries (dir : Dir) (entries : list (option (list Z))) (acc : gmap (list Z) file_t) :
    result StoreError (gmap (list Z) file_t) :=
  match entries with
  | [] => Ok acc
  | None :: _ => Err StoreIo
  | Some name :: entries => load_entries dir entries (load_entry dir name acc)
  end.

(** [load_from_dir]; [listing] is the answer of [read_dir], with an entry that fails as
    [None]. *)
Definition load_from_dir (dir : Dir) (listing : option (list (option (list Z)))) :
    result StoreError EnrollmentStore :=
  let? setup_bytes := ok_or MissingSetup (fs_read dir SETUP_NAME) in
  let? s := ok_or (StoreAuth AuthProtocol) (setup_deserialize setup_bytes) in
  let? entries := ok_or StoreIo listing in
  let? m := load_entries dir entries ∅ in
  Ok {| setup := s; enrollments := m |}.

(** ** Enrollment mode ([main]) *)

(** [--register id password]: a store that cannot be loaded, for whatever reason, is replaced by
    a new one with a fresh setup. *)
Definition enroll_mode (fresh : setup_t) (r1 r2 : list Z) (created : bool) (disk : list Z -> WriteOutcome)
    (order : EnrollmentStore -> list (list Z * file_t)) (identifier password : list Z)
    (dir : Dir) (listing : option (list (option (list Z)))) : Dir * result StoreError unit :=
  let store := match load_from_dir dir listing with Ok s => s | Err _ => store_new fresh end in
  let '(store, r) := store_register store r1 r2 identifier password in
  match r with
  | Err e => (dir, Err e)
  | Ok _ => save_to_dir created disk (order store) store dir
  end.

(** ** Specification *)

(** The operating system lists every file of the directory once. *)
Definition lists (dir : Dir) (listing : option (list (option (list Z)))) : Prop :=
  exists names, listing = Some (Some <$> names) /\ NoDup names /\
    forall name, name ∈ names <-> is_Some (dir !! name).

(** Every enrollment file has the name of an identifier. *)
Definition canonical (dir : Dir) : Prop :=
  forall name, is_Some (dir !! name) -> name <> SETUP_NAME ->
    is_Some (strip_suffix OPAQUE_SUFFIX name) -> exists id, is_bytes id /\ name = file_name id.

(** The enrollment a directory holds for an identifier. *)
Definition enrollment_in (dir : Dir) (id : list Z) : option file_t :=
  fs_read dir (file_name id) ≫= file_deserialize.

End store_dir.

(** ** File names *)

Lemma strip_suffix_app suffix l : strip_suffix suffix (l ++ suffix) = Some l.
Proof.
  unfold strip_suffix. rewrite length_app, Nat.add_sub.
  rewrite drop_app_length, decide_True, take_app_length by done. done.
Qed.

Lemma file_name_inj id id' : is_bytes id -> is_bytes id' -> file_name id = file_name id' -> id = id'.
Proof.
  intros Hi Hi' Heq. unfold file_name in Heq. apply app_inj_2 in Heq as [Hh _]; [|done].
  by rewrite <- (unhex_hex id), <- (unhex_hex id'), Hh.
Qed.

Lemma file_name_not_setup id : is_bytes id -> file_name id <> SETUP_NAME.
Proof.
  intros Hid Heq.
  assert (Hs : strip_suffix OPAQUE_SUFFIX (file_name id) = strip_suffix OPAQUE_SUFFIX SETUP_NAME)
    by by rewrite Heq.
  unfold file_name in Hs. rewrite strip_suffix_app in Hs. apply (inj Some) in Hs.
  apply (f_equal length) in Hs. unfold hex in Hs. vm_compute (length (take _ _)) in Hs.
  assert (He : forall l : list Z, exists n, length (concat (hex_byte <$> l)) = (2 * n)%nat).
  { induction l as [|b l [n IH]]; [by exists 0%nat|]. exists (S n).
    cbn [fmap list_fmap concat hex_byte app length]. rewrite IH. lia. }
  destruct (He id) as [n Hn]. rewrite Hn in Hs. lia.
Qed.

Section store_dir_proofs.
Context `{OpaqueFilesLaws}.

(** ** Loading *)

Lemma load_entries_names dir names acc :
  load_entries dir (Some <$> names) acc = Ok (foldl (fun m name => load_entry dir name m) acc names).
Proof. revert acc; induction names as [|n names IH]; intros acc; simpl; [done|]. apply IH. Qed.

Lemma load_entry_file_name dir id acc : is_bytes id ->
  load_entry dir (file_name id) acc =
  match enrollment_in dir id with Some f => <[id := f]> acc | None => acc end.
Proof.
  intros Hid. unfold load_entry, enrollment_in. rewrite decide_False by by apply file_name_not_setup.
  unfold file_name at 1. rewrite strip_suffix_app, unhex_hex by done. done.
Qed.

Lemma load_entry_other dir name acc id : canonical dir -> is_Some (dir !! name) -> is_bytes id ->
  name <> file_name id -> load_entry dir name acc !! id = acc !! id.
Proof.
  intros Hcan Hn Hid Hne. unfold load_entry. case_decide; [done|].
  destruct (strip_suffix OPAQUE_SUFFIX name) eqn:Es; [|done].
  destruct (Hcan name) as (id' & Hid' & ->); [done..|by eexists|].
  unfold file_name in Es. rewrite strip_suffix_app in Es. injection Es as <-.
  rewrite unhex_hex by done. destruct (_ ≫= _); [|done]. apply lookup_insert_ne. congruence.
Qed.

Lemma load_names_lookup dir names acc id : canonical dir ->
  (forall n, n ∈ names -> is_Some (dir !! n)) -> is_bytes id ->
  foldl (fun m name => load_entry dir name m) acc names !! id =
  if decide (file_name id ∈ names) then
    match enrollment_in dir id with Some f => Some f | None => acc !! id end
  else acc !! id.
Proof.
  intros Hcan Hnames Hid. revert acc Hnames.
  induction names as [|n names IH]; intros acc Hnames; cbn [foldl].
  { rewrite decide_False; [done|]. intros []%elem_of_nil. }
  rewrite IH by (intros; apply Hnames; by right). clear IH.
  destruct (decide (n = file_name id)) as [->|Hne].
  - rewrite load_entry_file_name by done.
    rewrite (decide_True (P := file_name id ∈ file_name id :: names)) by by left.
    destruct (enrollment_in dir id); [|by destruct (decide _)].
    rewrite lookup_insert_eq. by destruct (decide _).
  - rewrite load_entry_other by (try done; apply Hnames; by left).
    assert (Hiff : file_name id ∈ n :: names <-> file_name id ∈ names).
    { rewrite elem_of_cons. split; [intros [?|?]; congruence|auto]. }
    destruct (decide (file_name id ∈ names)), (decide (file_name id ∈ n :: names)); tauto.
Qed.

(** Only identifiers that are bytes are ever loaded. *)
Lemma load_names_bytes dir names acc id : canonical dir ->
  (forall n, n ∈ names -> is_Some (dir !! n)) -> ~ is_bytes id ->
  foldl (fun m name => load_entry dir name m) acc names !! id = acc !! id.
Proof.
  intros Hcan Hnames Hid. revert acc Hnames. induction names as [|n names IH]; intros acc Hnames; [done|].
  simpl. rewrite IH by (intros; apply Hnames; by right). unfold load_entry. case_decide; [done|].
  destruct (strip_suffix OPAQUE_SUFFIX n) eqn:Es; [|done].
  destruct (Hcan n) as (id' & Hid' & ->); [apply Hnames; by left|done|by eexists|].
  unfold file_name in Es. rewrite strip_suffix_app in Es. injection Es as <-.
  rewrite unhex_hex by done. destruct (_ ≫= _); [|done]. apply lookup_insert_ne. congruence.
Qed.

(** Loading a directory: the setup of its setup file, and for each identifier what its file
    holds. *)
Lemma load_from_dir_spec dir listing bytes st :
  canonical dir -> lists dir listing ->
  fs_read dir SETUP_NAME = Some bytes -> setup_deserialize bytes = Some st ->
  exists s, load_from_dir dir listing = Ok s /\ setup s = st /\
    (forall id, is_bytes id -> enrollments s !! id = enrollment_in dir id) /\
    (forall id, ~ is_bytes id -> enrollments s !! id = None).
Proof.
  intros Hcan (names & -> & Hnd & Hn) Hb Hs. unfold load_from_dir. rewrite Hb. simpl. rewrite Hs. simpl.
  rewrite load_entries_names. simpl. eexists. split; [reflexivity|]. simpl.
  assert (Hin : forall n, n ∈ names -> is_Some (dir !! n)) by (intros; by apply Hn).
  split_and!; [done|..]; intros id Hid.
  - rewrite load_names_lookup by done. rewrite lookup_empty. case_decide as Hd.
    + by destruct (enrollment_in dir id).
    + unfold enrollment_in, fs_read. destruct (dir !! file_name id) eqn:E; [|done].
      destruct Hd. apply Hn. by eexists.
  - by rewrite load_names_bytes, lookup_empty by done.
Qed.

(** ** Saving *)

Lemma fs_write_ok disk name contents dir dir' :
  fs_write disk name contents dir = (dir', Ok tt) -> dir' = <[name := Some contents]> dir.
Proof. unfold fs_write. destruct (disk name) as [|[]]; by intros [= <-]. Qed.

Lemma save_files_ok disk order dir dir' :
  save_files disk order dir = (dir', Ok tt) -> Forall (fun p => is_bytes p.1) order ->
  NoDup order.*1 ->
  dir' !! SETUP_NAME = dir !! SETUP_NAME /\
  (forall id f, (id, f) ∈ order -> dir' !! file_name id = Some (Some (file_serialize f))) /\
  (forall name, (forall id f, (id, f) ∈ order -> name <> file_name id) -> dir' !! name = dir !! name).
Proof.
  revert dir; induction order as [|[id f] order IH]; intros dir; simpl.
  { intros [= <-] _ _. split_and!; [done| |done]. intros id f Hin. by apply elem_of_nil in Hin. }
  destruct (fs_write _ _ _ dir) as [dir1 [[]|]] eqn:Ew; [|done].
  apply fs_write_ok in Ew as ->. intros Hs [Hid Hall]%Forall_cons_1 [Hnin Hnd]%list.NoDup_cons.
  simpl in Hid. destruct (IH _ Hs Hall Hnd) as (Hset & Hin & Hout).
  assert (Hout' : forall id' f', (id', f') ∈ order -> file_name id <> file_name id').
  { intros id' f' Hin' Heq. apply file_name_inj in Heq as <-; [|done|].
    - apply Hnin, list_elem_of_fmap. by exists (id, f').
    - rewrite list.Forall_forall in Hall. by apply (Hall _ Hin'). }
  split_and!.
  - rewrite Hset. apply lookup_insert_ne. by apply file_name_not_setup.
  - intros id' f' [Heq|Hin']%elem_of_cons; [|by apply Hin]. injection Heq as -> ->.
    rewrite Hout by done. apply lookup_insert_eq.
  - intros name Hne. rewrite Hout.
    + apply lookup_insert_ne. intros <-. apply (Hne id f); [by left|done].
    + intros id' f' Hin' . apply (Hne id' f'). by right.
Qed.

(** The hash map is walked in some order. *)
Definition walks (s : EnrollmentStore) (order : list (list Z * file_t)) : Prop :=
  order ≡ₚ map_to_list (enrollments s).

Lemma save_to_dir_ok created disk order s dir dir' :
  save_to_dir created disk order s dir = (dir', Ok tt) -> walks s order ->
  (forall id, is_Some (enrollments s !! id) -> is_bytes id) ->
  fs_read dir' SETUP_NAME = Some (setup_serialize (setup s)) /\
  (forall id, is_bytes id ->
     enrollment_in dir' id = match enrollments s !! id with Some f => Some f | None => enrollment_in dir id end) /\
  (canonical dir -> canonical dir').
Proof.
  intros Hsave Hw Hids. unfold save_to_dir in Hsave. destruct created; [|done].
  destruct (fs_write _ _ _ dir) as [dir1 [[]|]] eqn:Ew; [|done]. apply fs_write_ok in Ew as ->.
  assert (Hel : forall id f, (id, f) ∈ order <-> enrollments s !! id = Some f).
  { intros id f. rewrite Hw. apply elem_of_map_to_list. }
  apply save_files_ok in Hsave as (Hset & Hin & Hout).
  2: { apply list.Forall_forall. intros [id f] Hp. apply Hids. apply Hel in Hp. by eexists. }
  2: { rewrite Hw. apply NoDup_fst_map_to_list. }
  split_and!.
  - unfold fs_read. rewrite Hset, lookup_insert_eq. done.
  - intros id Hid. unfold enrollment_in, fs_read. destruct (enrollments s !! id) as [f|] eqn:Ef.
    + rewrite (Hin id f) by by apply Hel. simpl. apply file_roundtrip.
    + rewrite Hout, lookup_insert_ne; [done|apply not_eq_sym; by apply file_name_not_setup|].
      intros id' f' Hp%Hel Heq. apply file_name_inj in Heq as <-; [congruence|done|].
      apply Hids. by eexists.
  - intros Hcan name Hn Hne Hsuf. destruct (dir !! name) as [c|] eqn:Ed; [apply Hcan; auto; by eexists|].
    destruct (decide (Exists (fun p => name = file_name p.1) order)) as [Hex|Hnex].
    + apply list.Exists_exists in Hex as ([id f] & Hp & ->). exists id. split; [|done].
      apply Hids. apply Hel in Hp. by eexists.
    + rewrite Hout, lookup_insert_ne, Ed in Hn; [by destruct Hn|done|].
      intros id f Hp Heq. apply Hnex, list.Exists_exists. by exists (id, f).
Qed.

(** What a saved store reads back as. *)
Lemma load_saved created disk order s dir dir' listing :
  save_to_dir created disk order s dir = (dir', Ok tt) -> walks s order ->
  (forall id, is_Some (enrollments s !! id) -> is_bytes id) ->
  canonical dir -> lists dir' listing ->
  exists s', load_from_dir dir' listing = Ok s' /\ setup s' = setup s /\
    (forall id, is_bytes id -> enrollments s' !! id =
       match enrollments s !! id with Some f => Some f | None => enrollment_in dir id end) /\
    (forall id, ~ is_bytes id -> enrollments s' !! id = None).
Proof.
  intros Hsave Hw Hids Hcan Hl. destruct (save_to_dir_ok _ _ _ _ _ _ Hsave Hw Hids) as (Hset & Hen & Hc).
  destruct (load_from_dir_spec dir' listing _ (setup s) (Hc Hcan) Hl Hset (setup_roundtrip _))
    as (s' & Hload & Hs & Hb & Hn). exists s'. split_and!; [done..| |done].
  intros id Hid. by rewrite Hb, Hen.
Qed.

(** C20.  A store survives the disk.  If [save_to_dir] reports success, loading the directory,
    however the hash map was walked and however the operating system lists the files, gives a
    store with the same setup and every password file of the saved one; and if the directory
    held no other enrollments it is the saved store itself. *)
Theorem store_survives_disk created disk order s dir dir' listing :
  save_to_dir created disk order s dir = (dir', Ok tt) -> walks s order ->
  (forall id, is_Some (enrollments s !! id) -> is_bytes id) ->
  canonical dir -> lists dir' listing ->
  exists s', load_from_dir dir' listing = Ok s' /\ setup s' = setup s /\
    enrollments s ⊆ enrollments s' /\
    ((forall id, is_bytes id -> enrollment_in dir id = None) -> s' = s).
Proof.
  intros Hsave Hw Hids Hcan Hl.
  destruct (load_saved _ _ _ _ _ _ _ Hsave Hw Hids Hcan Hl) as (s' & Hload & Hs & Hb & Hn).
  exists s'. split_and!; [done..| |].
  - apply map_subseteq_spec. intros id f Hf. rewrite Hb, Hf; [done|]. apply Hids. by eexists.
  - intros Hempty. destruct s as [st m], s' as [st' m']. simpl in *. subst st'. f_equal.
    apply map_eq. intros id. destruct (decide (is_bytes id)) as [Hid|Hid].
    + rewrite Hb, Hempty by done. by destruct (m !! id).
    + rewrite Hn by done. destruct (m !! id) eqn:E; [|done]. destruct Hid. apply Hids. by eexists.
Qed.

Lemma store_register_ok s r1 r2 id pw s' :
  store_register s r1 r2 id pw = (s', Ok tt) ->
  exists f, enrolled (setup s) id pw f /\ setup s' = setup s /\ enrollments s' = <[id := f]> (enrollments s).
Proof.
  unfold store_register, client_start_registration, server_start_registration, client_finish_registration.
  destruct (oc_reg_start r1 pw) as [[req c]|] eqn:E1; simpl; [|done].
  destruct (os_reg_start (setup s) req id) as [resp|] eqn:E2; simpl; [|done].
  destruct (oc_reg_finish c r2 pw resp) as [up|] eqn:E3; simpl; [|done].
  intros [= <-]. eexists. split; [|done]. by exists r1, r2, req, c, resp, up.
Qed.

Lemma load_from_dir_inv dir listing s : canonical dir -> lists dir listing ->
  load_from_dir dir listing = Ok s ->
  (forall id, is_bytes id -> enrollments s !! id = enrollment_in dir id) /\
  (forall id, ~ is_bytes id -> enrollments s !! id = None).
Proof.
  intros Hcan Hl Hload. pose proof Hload as Hload'. unfold load_from_dir in Hload'.
  destruct (fs_read dir SETUP_NAME) as [b|] eqn:Eb; [|done]. simpl in Hload'.
  destruct (setup_deserialize b) as [st|] eqn:Es; [|done].
  destruct (load_from_dir_spec dir listing b st Hcan Hl Eb Es) as (s0 & Hl0 & _ & Hb & Hn).
  rewrite Hload in Hl0. by injection Hl0 as <-.
Qed.

(** The store that enrollment mode starts from holds identifiers that are bytes, if the
    listing is true or the directory does not load. *)
Lemma loaded_or_new_bytes fresh dir listing : canonical dir -> lists dir listing ->
  forall id, is_Some (enrollments (match load_from_dir dir listing with
                                   | Ok s => s | Err _ => store_new fresh end) !! id) -> is_bytes id.
Proof.
  intros Hcan Hl id. destruct (load_from_dir dir listing) as [s|] eqn:E.
  - destruct (load_from_dir_inv _ _ _ Hcan Hl E) as [_ Hn]. intros Hs.
    destruct (decide (is_bytes id)); [done|]. rewrite Hn in Hs by done. by destruct Hs.
  - simpl. rewrite lookup_empty. by intros [].
Qed.

(** C19.  Enrolling a device.  When [--register] succeeds, the directory loads at the next
    start, and the device's password file was made from the given password under the setup that
    is loaded, so a login with that password succeeds on both sides with one key.  If the
    directory loaded before, the setup is the same and every other device has the file it
    had. *)
Theorem enrollment_effective `{!OpaqueLaws} fresh r1 r2 created disk order id pw dir listing dir' listing' :
  canonical dir -> lists dir listing -> is_bytes id -> (forall s, walks s (order s)) ->
  enroll_mode fresh r1 r2 created disk order id pw dir listing = (dir', Ok tt) ->
  lists dir' listing' ->
  exists s' f, load_from_dir dir' listing' = Ok s' /\ enrollments s' !! id = Some f /\
    (forall q1 q2 q3, exists req c resp st fin key,
       oc_login_start q1 pw = Some (req, c) /\
       os_login_start q2 (setup s') (Some f) req id = Some (resp, st) /\
       oc_login_finish c q3 pw resp = Some (fin, key) /\ os_login_finish st fin = Some key) /\
    (forall s, load_from_dir dir listing = Ok s ->
       setup s' = setup s /\
       forall id', id' <> id -> enrollments s' !! id' = enrollments s !! id').
Proof.
  intros Hcan Hl Hid Hw Henroll Hl'. unfold enroll_mode in Henroll.
  pose proof (loaded_or_new_bytes fresh _ _ Hcan Hl) as Hbytes. revert Henroll Hbytes.
  set (s0 := match load_from_dir dir listing with Ok s => s | Err _ => store_new fresh end).
  intros Henroll Hbytes.
  destruct (store_register s0 r1 r2 id pw) as [s1 [[]|]] eqn:Er; [|done].
  apply store_register_ok in Er as (f & Hf & Hset & Hen).
  assert (Hids : forall id', is_Some (enrollments s1 !! id') -> is_bytes id').
  { intros id' Hs'. rewrite Hen in Hs'. destruct (decide (id' = id)) as [->|Hne]; [done|].
    rewrite lookup_insert_ne in Hs' by congruence. by apply Hbytes. }
  destruct (load_saved _ _ _ _ _ _ _ Henroll (Hw s1) Hids Hcan Hl') as (s' & Hload' & Hs' & Hb' & Hn').
  exists s', f. split_and!; [done| | |].
  - by rewrite Hb', Hen, lookup_insert_eq by done.
  - intros q1 q2 q3. apply login_complete. congruence.
  - intros s Hload. assert (s0 = s) as <- by (unfold s0; by rewrite Hload).
    destruct (load_from_dir_inv _ _ _ Hcan Hl Hload) as [Hb Hn]. split; [congruence|].
    intros id' Hne. destruct (decide (is_bytes id')) as [Hid'|Hid'].
    + rewrite Hb', Hen, lookup_insert_ne, <- Hb by congruence. by destruct (enrollments s0 !! id').
    + by rewrite Hn, Hn'.
Qed.

(** When the directory does not load (a setup file that is unreadable for a moment or damaged, a
    failing listing), the same command succeeds all the same and overwrites the setup file with
    that of a fresh setup: the other devices' password files stay, under a setup they were not
    made for. *)
Theorem failed_load_replaces_setup fresh r1 r2 created disk order id pw dir listing e dir' :
  canonical dir -> is_bytes id -> (forall s, walks s (order s)) ->
  load_from_dir dir listing = Err e ->
  enroll_mode fresh r1 r2 created disk order id pw dir listing = (dir', Ok tt) ->
  fs_read dir' SETUP_NAME = Some (setup_serialize fresh) /\
  forall id', is_bytes id' -> id' <> id -> enrollment_in dir' id' = enrollment_in dir id'.
Proof.
  intros Hcan Hid Hw Hload Henroll. unfold enroll_mode in Henroll. rewrite Hload in Henroll.
  destruct (store_register (store_new fresh) r1 r2 id pw) as [s1 [[]|]] eqn:Er; [|done].
  apply store_register_ok in Er as (f & _ & Hset & Hen). simpl in *.
  assert (Hids : forall id', is_Some (enrollments s1 !! id') -> is_bytes id').
  { intros id'. rewrite Hen. destruct (decide (id' = id)) as [->|Hne]; [done|].
    rewrite lookup_insert_ne, lookup_empty by done. by intros []. }
  destruct (save_to_dir_ok _ _ _ _ _ _ Henroll (Hw s1) Hids) as (Hs & Hb & _).
  rewrite Hset in Hs. split; [done|]. intros id' Hid' Hne.
  by rewrite Hb, Hen, lookup_insert_ne, lookup_empty by done.
Qed.

End store_dir_proofs.

(** ** Instances *)

Module StoreDirExample.
#[local] Existing Instance toy_opaque.

#[export] Instance toy_files : OpaqueFiles := {|
  setup_serialize _ := [7];
  setup_deserialize b := if decide (b = [7]) then Some tt else None;
  file_serialize f := f;
  file_deserialize b := Some b
|}.

#[export] Instance toy_files_laws : OpaqueFilesLaws.
Proof. split; [by intros []|done]. Qed.

Definition id : list Z := [97; 98].
Definition good_disk (_ : list Z) : WriteOutcome := WriteOk.
Definition order (s : EnrollmentStore) : list (list Z * file_t) := map_to_list (enrollments s).

(** A directory with a setup file of the given content. *)
Definition with_setup (b : list Z) : Dir := {[ SETUP_NAME := Some b ]}.
Definition enrolled_dir (b : list Z) : Dir :=
  <[ file_name id := Some [1; 2; 3] ]> (<[ SETUP_NAME := Some [7] ]> (with_setup b)).

Lemma order_walks s : walks s (order s).
Proof. unfold walks, order. reflexivity. Qed.

Lemma with_setup_canonical b : canonical (with_setup b).
Proof.
  intros name [c Hc] Hne _. unfold with_setup in Hc. apply lookup_singleton_Some in Hc as [<- _]. done.
Qed.

Lemma with_setup_lists b : lists (with_setup b) (Some [Some SETUP_NAME]).
Proof.
  exists [SETUP_NAME]. split_and!; [done|apply NoDup_singleton|]. intros name.
  rewrite list_elem_of_singleton. unfold with_setup.
  split; [intros ->; rewrite lookup_singleton_eq; by eexists|].
  intros [c Hc]. unfold with_setup in Hc. by apply lookup_singleton_Some in Hc as [<- _].
Qed.

Lemma enrolled_dir_lists b : lists (enrolled_dir b) (Some [Some SETUP_NAME; Some (file_name id)]).
Proof.
  exists [SETUP_NAME; file_name id]. split_and!; [done|by_decide|]. intros name.
  rewrite elem_of_cons, list_elem_of_singleton. unfold enrolled_dir, with_setup.
  rewrite !lookup_insert_is_Some, lookup_singleton_is_Some.
  destruct (decide (name = SETUP_NAME)), (decide (name = file_name id)); intuition congruence.
Qed.

Lemma enrolls_good : enroll_mode tt [] [] true good_disk order id [1; 2; 3] (with_setup [7])
    (Some [Some SETUP_NAME]) = (enrolled_dir [7], Ok tt).
Proof. vm_compute. reflexivity. Defined.

Lemma enrolls_damaged : enroll_mode tt [] [] true good_disk order id [1; 2; 3] (with_setup [0])
    (Some [Some SETUP_NAME]) = (enrolled_dir [0], Ok tt).
Proof. vm_compute. reflexivity. Defined.

Lemma fails_damaged :
  load_from_dir (with_setup [0]) (Some [Some SETUP_NAME]) = Err (StoreAuth AuthProtocol).
Proof. unfold load_from_dir, fs_read, with_setup. rewrite lookup_singleton_eq. reflexivity. Defined.

Lemma id_bytes : is_bytes id.
Proof. by_decide. Defined.
End StoreDirExample.

Import StoreDirExample.

Lemma enrollment_effective_witness :
  exists (s' : @EnrollmentStore toy_opaque) f,
    load_from_dir (enrolled_dir [7]) (Some [Some SETUP_NAME; Some (file_name id)]) = Ok s' /\
    enrollments s' !! id = Some f.
Proof.
  destruct (@enrollment_effective toy_opaque toy_files toy_files_laws toy_opaque_laws tt [] [] true good_disk
    StoreDirExample.order id [1; 2; 3] (with_setup [7]) (Some [Some SETUP_NAME])
    (enrolled_dir [7]) (Some [Some SETUP_NAME; Some (file_name id)]) (with_setup_canonical [7])
    (with_setup_lists [7]) id_bytes order_walks enrolls_good
    (enrolled_dir_lists [7])) as (s' & f & Hload & Hf & _).
  exists s', f. split; [exact Hload|exact Hf].
Defined.

Lemma failed_load_replaces_setup_witness :
  fs_read (enrolled_dir [0]) SETUP_NAME = Some [7].
Proof.
  exact (proj1 (@failed_load_replaces_setup toy_opaque toy_files toy_files_laws tt [] [] true good_disk
    StoreDirExample.order id [1; 2; 3] (with_setup [0]) (Some [Some SETUP_NAME]) (StoreAuth AuthProtocol)
    (enrolled_dir [0]) (with_setup_canonical [0]) id_bytes order_walks
    fails_damaged enrolls_damaged)).
Defined.

Lemma store_survives_disk_witness :
  exists s' : @EnrollmentStore toy_opaque,
    load_from_dir (enrolled_dir [7]) (Some [Some SETUP_NAME; Some (file_name id)]) = Ok s' /\
    {[ id := [1; 2; 3] ]} ⊆ enrollments s'.
Proof.
  destruct (@store_survives_disk toy_opaque toy_files toy_files_laws true good_disk [(id, [1; 2; 3])]
    (@Build_EnrollmentStore toy_opaque tt {[ id := [1; 2; 3] ]}) (with_setup [7]) (enrolled_dir [7])
    (Some [Some SETUP_NAME; Some (file_name id)])) as (s' & Hload & _ & Hsub & _).
  - vm_compute. reflexivity.
  - unfold walks. simpl. by rewrite map_to_list_singleton.
  - simpl. intros id' [f Hf]. apply lookup_singleton_Some in Hf as [<- _]. by_decide.
  - apply with_setup_canonical.
  - apply enrolled_dir_lists.
  - by exists s'.
Defined.
