(* ===== verification/SigningKeys.v ===== *)
(** * Signing keys and identifiers as they are stored ([bw-crypto/src/identity.rs, backend/],
    [bw-relay/src/relay_client.rs])

    The signing key with its two backends, the file a device keeps it in, and the serialized form of
    identifiers. *)

From S2P Require Import Prelude Symmetric Identity Cert.

(** ** Randomness *)

(** [OsRandom::fill]: what [getrandom] answered for a buffer of this length. *)
Definition os_fill (random : option (list Z)) : result CryptoError (list Z) :=
  ok_or EntropyUnavailable random.

(** ** Keys *)

(** [SigningKeyInner]: an Ed25519 secret, or the handle of a key in a TPM, whose operations are
    not implemented and abort. *)
Inductive SigningKeyInner : Type :=
| Dalek (secret : list Z)
| Tpm (key_handle : Z).

(** [VerifyKeyInner] *)
Inductive VerifyKeyInner : Type :=
| DalekPublic (public : list Z)
| TpmPublic (public_bytes : list Z).

Section keys.
Context `{Signatures}.

Definition generate_ed25519 (random : option (list Z)) : result CryptoError SigningKeyInner :=
  let? secret := os_fill random in Ok (Dalek secret).

(** The backends: Ed25519 in software, and a TPM, of which nothing is implemented. *)
Definition dalek_sign (secret message : list Z) : list Z := ed25519_sign secret message.
Definition dalek_get_verify_key (secret : list Z) : list Z := ed25519_public secret.
Definition dalek_verify (public message signature : list Z) : result CryptoError unit :=
  if ed25519_verify public message signature then Ok tt else Err VerificationFailed.
Definition tpm_sign (key_handle : Z) (message : list Z) : outcome (list Z) := Panic.
Definition tpm_get_verify_key (key_handle : Z) : outcome (list Z) := Panic.
Definition tpm_verify (public_bytes message signature : list Z) : outcome (result CryptoError unit) := Panic.

Definition sk_verify_key (k : SigningKeyInner) : outcome VerifyKeyInner :=
  match k with
  | Dalek secret => Ret (DalekPublic (dalek_get_verify_key secret))
  | Tpm h => match tpm_get_verify_key h with Ret p => Ret (TpmPublic p) | Panic => Panic end
  end.

Definition sk_sign (k : SigningKeyInner) (message : list Z) : outcome (list Z) :=
  match k with
  | Dalek secret => Ret (dalek_sign secret message)
  | Tpm h => tpm_sign h message
  end.

Definition sk_to_bytes (k : SigningKeyInner) : outcome (list Z) :=
  match k with
  | Dalek secret => Ret secret
  | Tpm _ => Panic
  end.

Definition from_secret_bytes (bytes : list Z) : result CryptoError SigningKeyInner := Ok (Dalek bytes).

(** [zeroize], which [drop] calls. *)
Definition zeroize (k : SigningKeyInner) : SigningKeyInner :=
  match k with
  | Dalek secret => Dalek (replicate (length secret) 0)
  | Tpm h => Tpm h
  end.

Definition vk_as_bytes (k : VerifyKeyInner) : list Z :=
  match k with DalekPublic p => p | TpmPublic p => p end.

Definition vk_verify (k : VerifyKeyInner) (message signature : list Z) : outcome (result CryptoError unit) :=
  match k with
  | DalekPublic p => Ret (dalek_verify p message signature)
  | TpmPublic p => tpm_verify p message signature
  end.

(** [DeviceId::derive] *)
Definition derive (k : VerifyKeyInner) : DeviceId := from_digest (sha256 (vk_as_bytes k)).

(** ** The key file *)

(** What can go wrong: reading or writing the file, and the generator. *)
Inductive KeyError : Type := KeyRead | KeyWrite | KeyCrypto (e : CryptoError).

(** [load_or_generate_key]: a file that exists without being 32 bytes long is replaced. *)
Definition load_or_generate_key (file : KeyFile) (random : option (list Z)) :
    KeyFile * outcome (result KeyError SigningKeyInner) :=
  let generate :=
    match generate_ed25519 random with
    | Err e => (file, Ret (Err (KeyCrypto e)))
    | Ok key =>
        match sk_to_bytes key with
        | Panic => (file, Panic)
        | Ret bytes =>
            if can_write file then
              ({| contents := Some bytes; can_read := can_read file; can_mkdir := can_mkdir file;
                  can_write := can_write file |}, Ret (Ok key))
            else (file, Ret (Err KeyWrite))
        end
    end in
  match contents file with
  | Some bytes =>
      if negb (can_read file) then (file, Ret (Err KeyRead))
      else if (length bytes =? 32)%nat then (file, Ret (map_err KeyCrypto (from_secret_bytes bytes)))
      else generate
  | None => generate
  end.

End keys.

(** ** Serialized identifiers *)

(** A serializer's string or byte string. *)
Inductive SerdeValue : Type := SerdeStr (s : list Z) | SerdeBytes (b : list Z).

Inductive SerdeError : Type := SerdeParse (e : DeviceIdParseError) | SerdeLength (n : nat) | SerdeType.

Definition device_id_serialize (human_readable : bool) (id : DeviceId) : SerdeValue :=
  if human_readable then SerdeStr (display id) else SerdeBytes (as_bytes id).

(** The visitor is asked for a string or for bytes by the kind of the format; another value is
    a type error. *)
Definition device_id_deserialize (human_readable : bool) (v : SerdeValue) :
    outcome (result SerdeError DeviceId) :=
  match human_readable, v with
  | true, SerdeStr s =>
      match from_str s with
      | Panic => Panic
      | Ret r => Ret (map_err SerdeParse r)
      end
  | false, SerdeBytes b =>
      Ret (if (length b =? DEVICE_ID_BYTES)%nat then Ok (from_digest b) else Err (SerdeLength (length b)))
  | _, _ => Ret (Err SerdeType)
  end.

(** ** Properties *)

Section properties.
Context `{SignaturesLaws}.

(** A device keeps its identity.  Once [load_or_generate_key] has returned a key, every
    later call on the file it leaves returns the same key, whatever randomness it is offered;
    the key's signatures verify under its public key, and the device's identifier, which is
    derived from it, survives being serialized in a readable or a binary format. *)
Theorem identity_persists file random file' key :
  can_read file = true -> (forall bytes, random = Some bytes -> length bytes = 32%nat) ->
  load_or_generate_key file random = (file', Ret (Ok key)) ->
  (forall random', load_or_generate_key file' random' = (file', Ret (Ok key))) /\
  exists public, sk_verify_key key = Ret public /\
    (forall message, exists signature, sk_sign key message = Ret signature /\
       vk_verify public message signature = Ret (Ok tt)) /\
    (forall readable,
       device_id_deserialize readable (device_id_serialize readable (derive public)) =
       Ret (Ok (derive public))).
Proof.
  intros Hread Hrand Hload.
  assert (Hkey : exists secret, key = Dalek secret /\ length secret = 32%nat /\
    contents file' = Some secret /\ can_read file' = true).
  { unfold load_or_generate_key, generate_ed25519, os_fill in Hload.
    destruct (contents file) as [bytes|] eqn:Ec.
    - rewrite Hread in Hload. simpl in Hload. destruct (Nat.eqb_spec (length bytes) 32) as [Hl|].
      + injection Hload as <- <-. by exists bytes.
      + destruct random as [secret|]; simpl in Hload; [|done]. destruct (can_write file); [|done].
        injection Hload as <- <-. exists secret. eauto.
    - destruct random as [secret|]; simpl in Hload; [|done]. destruct (can_write file); [|done].
      injection Hload as <- <-. exists secret. eauto. }
  destruct Hkey as (secret & -> & Hlen & Hc & Hr). split.
  { intros random'. unfold load_or_generate_key. rewrite Hc, Hr, Hlen. done. }
  eexists. split; [reflexivity|]. split.
  - intros message. eexists. split; [reflexivity|]. unfold vk_verify, dalek_verify. by rewrite verify_sign.
  - intros [].
    + unfold device_id_serialize, device_id_deserialize.
      rewrite from_str_display; [done|]. apply sha256_length.
    + simpl. by rewrite (proj1 (sha256_length _)).
Qed.
End properties.

Lemma identity_persists_witness :
  let file := {| contents := Some [1; 2; 3]; can_read := true; can_mkdir := true; can_write := true |} in
  let '(file', _) := @load_or_generate_key file (Some (replicate 32 5)) in
  forall random', @load_or_generate_key file' random' = (file', Ret (Ok (Dalek (replicate 32 5)))).
Proof.
  refine (proj1 (@identity_persists toy_signatures toy_signatures_laws
    {| contents := Some [1; 2; 3]; can_read := true; can_mkdir := true; can_write := true |}
    (Some (replicate 32 5)) _ _ eq_refl _ eq_refl)).
  by intros bytes [= <-].
Defined.
