(* ===== verification/Text.v ===== *)
(** * Text

    The pieces of the standard library's text handling that several programs use: decimal
    numbers and their parsing, splitting, and the printed form of IPv4 addresses.  Text is a list
    of bytes. *)

From S2P Require Import Prelude.

(** Decimal digits, as [{}] prints a number of at most ten digits. *)
Fixpoint dec_digits (fuel : nat) (n : Z) : list Z :=
  match fuel with
  | O => []
  | S fuel => if n <? 10 then [48 + n] else dec_digits fuel (n / 10) ++ [48 + n mod 10]
  end.

Definition dec (n : Z) : list Z := dec_digits 10 n.

(** [str::parse] of an unsigned type with maximum [max]: an optional plus sign, at least one
    digit, no overflow. *)
Fixpoint parse_digits (max acc : Z) (s : list Z) : option Z :=
  match s with
  | [] => Some acc
  | c :: s =>
      if (48 <=? c) && (c <=? 57) then
        let v := acc * 10 + (c - 48) in
        if max <? v then None else parse_digits max v s
      else None
  end.

Definition parse_uint (max : Z) (s : list Z) : option Z :=
  match s with
  | [] => None
  | 43 :: [] => None
  | 43 :: s => parse_digits max 0 s
  | s => parse_digits max 0 s
  end.

(** [str::split('_')]: always at least one part. *)
Fixpoint split_on (sep : Z) (s : list Z) : list (list Z) :=
  match s with
  | [] => [[]]
  | c :: s =>
      if c =? sep then [] :: split_on sep s
      else match split_on sep s with
           | p :: ps => (c :: p) :: ps
           | [] => [[c]]
           end
  end.

Lemma dec_digits_range fuel n : 0 <= n -> Forall (fun c => 48 <= c <= 57) (dec_digits fuel n).
Proof.
  revert n; induction fuel as [|fuel IH]; intros n Hn; simpl; [constructor|]. case_match eqn:E.
  - apply Z.ltb_lt in E. repeat constructor; lia.
  - apply Forall_app_2; [apply IH; Z.div_mod_to_equations; lia|].
    repeat constructor; Z.div_mod_to_equations; lia.
Qed.

Lemma parse_digits_app max acc s c v : parse_digits max acc s = Some v -> 48 <= c <= 57 ->
  v * 10 + (c - 48) <= max -> parse_digits max acc (s ++ [c]) = Some (v * 10 + (c - 48)).
Proof.
  revert acc; induction s as [|d s IH]; intros acc Hs Hc Hv; simpl in *.
  - simplify_eq. rewrite (proj2 (Z.leb_le 48 c)), (proj2 (Z.leb_le c 57)) by lia. simpl.
    by rewrite (proj2 (Z.ltb_ge _ _)) by lia.
  - destruct (_ && _); [|done]. destruct (max <? _); [done|]. by apply IH.
Qed.

Lemma parse_dec_digits max fuel n : 0 <= n < 10 ^ Z.of_nat fuel -> n <= max ->
  parse_digits max 0 (dec_digits fuel n) = Some n.
Proof.
  revert n; induction fuel as [|fuel IH]; intros n Hn Hmax; [change (10 ^ Z.of_nat 0) with 1 in Hn; simpl; f_equal; lia|].
  rewrite Nat2Z.inj_succ, Z.pow_succ_r in Hn by lia. cbn [dec_digits]. case_match eqn:E.
  - apply Z.ltb_lt in E. cbn [parse_digits].
    rewrite (proj2 (Z.leb_le 48 (48 + n))), (proj2 (Z.leb_le (48 + n) 57)) by lia. cbn [andb].
    rewrite (proj2 (Z.ltb_ge _ _)) by lia. f_equal. lia.
  - rewrite (parse_digits_app max 0 _ _ (n / 10)).
    + f_equal. Z.div_mod_to_equations. lia.
    + apply IH; Z.div_mod_to_equations; lia.
    + Z.div_mod_to_equations; lia.
    + Z.div_mod_to_equations; lia.
Qed.

Lemma parse_u32_dec n : uint 32 n -> parse_uint U32_MAX (dec n) = Some n.
Proof.
  intros Hn. unfold uint in Hn. change (2 ^ 32) with 4294967296 in Hn.
  assert (Hp : parse_digits U32_MAX 0 (dec n) = Some n).
  { apply parse_dec_digits; [change (10 ^ Z.of_nat 10) with 10000000000|unfold U32_MAX]; lia. }
  pose proof (dec_digits_range 10 n ltac:(lia)) as Hr. unfold dec in *.
  destruct (dec_digits 10 n) as [|c s] eqn:E; [|].
  - cbn [dec_digits] in E. repeat case_match; by try destruct (app_cons_not_nil _ _ _ (eq_sym E)).
  - apply Forall_cons_1 in Hr as [Hc _]. unfold parse_uint.
    destruct c as [|c|c]; try lia. do 6 (destruct c as [c|c|]; try done); lia.
Qed.

Lemma split_on_none sep s : Forall (fun c => c <> sep) s -> split_on sep s = [s].
Proof.
  induction 1 as [|c s Hc _ IH]; [done|]. simpl. rewrite (proj2 (Z.eqb_neq _ _)), IH by done. done.
Qed.

Lemma split_on_app sep s t : Forall (fun c => c <> sep) s -> split_on sep (s ++ sep :: t) = s :: split_on sep t.
Proof.
  induction 1 as [|c s Hc _ IH]; simpl; [by rewrite Z.eqb_refl|].
  rewrite (proj2 (Z.eqb_neq _ _)), IH by done. done.
Qed.


(** [Display for Ipv4Addr]: four decimal numbers with dots between them. *)
Definition DOT : Z := 46.

Fixpoint dotted (octets : list Z) : list Z :=
  match octets with
  | [] => []
  | [o] => dec o
  | o :: octets => dec o ++ DOT :: dotted octets
  end.

Definition v4_text (octets : list Z) : list Z := dotted octets.
