(* ===== verification/Dxgi.v ===== *)
(** * The Windows capture backend ([bw-capture/src/windows/dxgi.rs, monitor.rs, wgc.rs])

    Desktop duplication: enumeration of displays, start, acquisition of a frame, stop.  The
    operating system's answers to the calls of one operation are the operation's inputs; its
    objects are numbers, except that a staging texture is its dimensions, which is what the
    unsafe read of the mapped memory depends on. *)

From S2P Require Import Prelude Text Capture Cursor.

(** ** Displays *)

(** The scale factor is always 1.0 and is left out. *)
Record DisplayInfo := {
  disp_id : list Z;
  disp_name : list Z;
  disp_width : Z;
  disp_height : Z;
  virtual_x : Z;
  virtual_y : Z;
  refresh_hz : Z;
  is_primary : bool
}.

Definition pixel_count (d : DisplayInfo) : Z := wrap 64 (disp_width d * disp_height d).

(** [DXGI_OUTPUT_DESC]: the name in UTF-16 units and the desktop coordinates (32-bit signed). *)
Record OutputDesc := { device_name : list Z; rc_left : Z; rc_top : Z; rc_right : Z; rc_bottom : Z }.

Definition UNDERSCORE : Z := 95.

Definition display_id (adapter_idx output_idx : Z) : list Z := dec adapter_idx ++ UNDERSCORE :: dec output_idx.

(** [position(|&c| c == 0)] or the whole array; the name stays in UTF-16 units. *)
Fixpoint until_nul (l : list Z) : list Z :=
  match l with
  | [] => []
  | c :: l => if c =? 0 then [] else c :: until_nul l
  end.

Definition display_of (adapter_idx output_idx : Z) (desc : OutputDesc) : DisplayInfo := {|
  disp_id := display_id adapter_idx output_idx;
  disp_name := until_nul (device_name desc);
  disp_width := wrap 32 (rc_right desc - rc_left desc);
  disp_height := wrap 32 (rc_bottom desc - rc_top desc);
  virtual_x := rc_left desc;
  virtual_y := rc_top desc;
  refresh_hz := 60;
  is_primary := (rc_left desc =? 0) && (rc_top desc =? 0)
|}.

(** The inner loop: an output whose description fails is skipped but counted. *)
Fixpoint enum_outputs (adapter_idx output_idx : Z) (outputs : list (option OutputDesc)) : list DisplayInfo :=
  match outputs with
  | [] => []
  | o :: outputs =>
      match o with Some desc => [display_of adapter_idx output_idx desc] | None => [] end ++
      enum_outputs adapter_idx (output_idx + 1) outputs
  end.

Fixpoint enum_adapters (adapter_idx : Z) (adapters : list (list (option OutputDesc))) : list DisplayInfo :=
  match adapters with
  | [] => []
  | outputs :: adapters => enum_outputs adapter_idx 0 outputs ++ enum_adapters (adapter_idx + 1) adapters
  end.

(** [displays]: the adapters and outputs the factory enumerates. *)
Definition displays (factory : result string (list (list (option OutputDesc)))) :
    result CaptureError (list DisplayInfo) :=
  let? adapters := map_err DisplayEnumerationFailed factory in
  Ok (enum_adapters 0 adapters).

(** [start_capture] of the server: the primary display, or the first. *)
Definition start_capture (factory : result string (list (list (option OutputDesc)))) : option DisplayInfo :=
  match displays factory with
  | Err _ => None
  | Ok ds => match List.find is_primary ds with Some d => Some d | None => head ds end
  end.

(** ** The backend *)

Definition cursor_default : CursorInfo := {|
  cursor_x := 0; cursor_y := 0; cursor_visible := true; cursor_shape := Arrow;
  bitmap := None; bitmap_width := 0; bitmap_height := 0
|}.

(** A duplication is named by the output it duplicates; the staging texture is its width and
    height. *)
Record DxgiCaptureBackend := {
  dx_device : option nat;
  dx_context : option nat;
  duplication : option nat;
  staging_texture : option (Z * Z);
  active_display : option DisplayInfo;
  dx_width : Z;
  dx_height : Z;
  last_cursor : CursorInfo
}.

Definition dxgi_new : DxgiCaptureBackend := {|
  dx_device := None; dx_context := None; duplication := None; staging_texture := None;
  active_display := None; dx_width := 0; dx_height := 0; last_cursor := cursor_default
|}.

Definition dxgi_stop (b : DxgiCaptureBackend) : DxgiCaptureBackend := {|
  dx_device := None; dx_context := None; duplication := None; staging_texture := None;
  active_display := None; dx_width := dx_width b; dx_height := dx_height b;
  last_cursor := cursor_default
|}.

Definition E_ACCESSDENIED : Z := 0x80070005.

(** What the system answers while starting.  [enum_output] is asked on the adapter of the
    device that was created. *)
Record StartAnswers := {
  create_device : result string (option nat * option nat);
  device_cast : result string unit;
  get_adapter : result string unit;
  enum_output : Z -> result string nat;
  output1_cast : result string unit;
  duplicate_output : nat -> result (Z * string) nat;
  create_texture : result string bool
}.

(** [init_d3d11] *)
Definition init_d3d11 (a : StartAnswers) : result CaptureError (nat * nat) :=
  let? p := map_err (fun e => InitFailed ("D3D11CreateDevice failed: " ++ e)%string) (create_device a) in
  let? device := ok_or (InitFailed "Device is null") p.1 in
  let? context := ok_or (InitFailed "Context is null") p.2 in
  Ok (device, context).

(** [create_staging_texture]; [Ok false] is a call that succeeds without a texture. *)
Definition create_staging_texture (a : StartAnswers) (w h : Z) : result CaptureError (Z * Z) :=
  let? made := map_err (fun e => InitFailed ("CreateTexture2D failed: " ++ e)%string) (create_texture a) in
  if made : bool then Ok (w, h) else Err (InitFailed "Staging texture is null").

(** From the device to the duplication. *)
Definition find_output (a : StartAnswers) (display : DisplayInfo) : result CaptureError nat :=
  let? _ := map_err (fun e => InitFailed ("Device cast failed: " ++ e)%string) (device_cast a) in
  let? _ := map_err (fun e => InitFailed ("GetAdapter failed: " ++ e)%string) (get_adapter a) in
  match split_on UNDERSCORE (disp_id display) with
  | [_; part] =>
      let? output_idx := ok_or InvalidDisplay (parse_uint U32_MAX part) in
      let? output := map_err (fun e => InitFailed ("EnumOutputs failed: " ++ e)%string)
                       (enum_output a output_idx) in
      let? _ := map_err (fun e => InitFailed ("Output1 cast failed: " ++ e)%string) (output1_cast a) in
      map_err (fun '(code, e) =>
        if code =? E_ACCESSDENIED then AccessDenied
        else InitFailed ("DuplicateOutput failed: " ++ e)%string) (duplicate_output a output)
  | _ => Err InvalidDisplay
  end.

(** [start]: what was set before an error stays set. *)
Definition dxgi_start (b : DxgiCaptureBackend) (display : DisplayInfo) (a : StartAnswers) :
    DxgiCaptureBackend * result CaptureError unit :=
  match init_d3d11 a with
  | Err e => (b, Err e)
  | Ok (device, context) =>
      let b := {| dx_device := Some device; dx_context := Some context; duplication := duplication b;
                  staging_texture := staging_texture b; active_display := active_display b;
                  dx_width := dx_width b; dx_height := dx_height b; last_cursor := last_cursor b |} in
      match find_output a display with
      | Err e => (b, Err e)
      | Ok d =>
          let b := {| dx_device := dx_device b; dx_context := dx_context b; duplication := Some d;
                      staging_texture := staging_texture b; active_display := Some display;
                      dx_width := disp_width display; dx_height := disp_height display;
                      last_cursor := last_cursor b |} in
          match create_staging_texture a (disp_width display) (disp_height display) with
          | Err e => (b, Err e)
          | Ok t =>
              ({| dx_device := dx_device b; dx_context := dx_context b; duplication := duplication b;
                  staging_texture := Some t; active_display := active_display b;
                  dx_width := dx_width b; dx_height := dx_height b; last_cursor := last_cursor b |}, Ok tt)
          end
      end
  end.

(** ** Acquiring a frame *)

Definition DXGI_ERROR_WAIT_TIMEOUT : Z := 0x887A0027.
Definition DXGI_ERROR_ACCESS_LOST : Z := 0x887A0026.
Definition DXGI_ERROR_INVALID_CALL : Z := 0x887A0001.

Definition CURSOR_SHOWING : Z := 1.

(** The fields of [DXGI_OUTDUPL_FRAME_INFO] that are read. *)
Record FrameInfo := {
  last_present_time : Z;
  pointer_x : Z;
  pointer_y : Z;
  pointer_visible : bool;
  total_metadata_buffer_size : Z
}.

(** What the system answers during one acquisition.  [acquire]: a code and a text, or the
    frame's description and its resource, with the answer to the cast.  [map_texture] maps a
    texture of the given dimensions: the row pitch and the memory.  The rectangle calls give
    the bytes they filled in. *)
Record FrameAnswers := {
  acquire : result (Z * string) (FrameInfo * option (result string unit));
  get_cursor_info : option (Z * Z * Z);
  map_texture : Z * Z -> result string (Z * list Z);
  get_move_rects : option (list Z);
  get_dirty_rects : option (list Z);
  release_frame : result string unit
}.

(** A little-endian [i32] at a byte offset. *)
Definition i32_at (bytes : list Z) (i : nat) : Z := as_i32 (le_num (slice bytes i (i + 4))).

Definition RECT_SIZE : nat := 16.
Definition MOVE_RECT_SIZE : nat := 24.

(** [RECT] and [DXGI_OUTDUPL_MOVE_RECT] as the frame has them. *)
Definition dirty_of (bytes : list Z) (i : nat) : DirtyRect := {|
  rx := wrap 32 (i32_at bytes i);
  ry := wrap 32 (i32_at bytes (i + 4));
  rwidth := wrap 32 (i32_at bytes (i + 8) - i32_at bytes i);
  rheight := wrap 32 (i32_at bytes (i + 12) - i32_at bytes (i + 4))
|}.

Definition move_of (bytes : list Z) (i : nat) : MoveRect := {|
  source_point_x := wrap 32 (i32_at bytes i);
  source_point_y := wrap 32 (i32_at bytes (i + 4));
  dest_rect := dirty_of bytes (i + 8)
|}.

Definition decode_dirty (bytes : list Z) : list DirtyRect :=
  (fun k => dirty_of bytes (k * RECT_SIZE)) <$> seq 0 (length bytes / RECT_SIZE).

Definition decode_moves (bytes : list Z) : list MoveRect :=
  (fun k => move_of bytes (k * MOVE_RECT_SIZE)) <$> seq 0 (length bytes / MOVE_RECT_SIZE).

Definition set_cursor (c : CursorInfo) (b : DxgiCaptureBackend) : DxgiCaptureBackend := {|
  dx_device := dx_device b; dx_context := dx_context b; duplication := duplication b;
  staging_texture := staging_texture b; active_display := active_display b;
  dx_width := dx_width b; dx_height := dx_height b; last_cursor := c
|}.

Definition arrow_at (x y : Z) (visible : bool) : CursorInfo := {|
  cursor_x := x; cursor_y := y; cursor_visible := visible; cursor_shape := Arrow;
  bitmap := None; bitmap_width := 0; bitmap_height := 0
|}.

(** The screen is idle: a frame without pixels that carries the cursor. *)
Definition idle_frame (b : DxgiCaptureBackend) (a : FrameAnswers) : DxgiCaptureBackend * Frame :=
  let c := match get_cursor_info a with
           | Some (x, y, flags) => arrow_at x y (negb (Z.land flags CURSOR_SHOWING =? 0))
           | None => last_cursor b
           end in
  (set_cursor c b,
   {| fwidth := dx_width b; fheight := dx_height b; stride := wrap 32 (dx_width b * 4);
      timestamp_us := 0; pixel_format := Bgra8; buffer := []; dirty_rects := []; move_rects := [];
      cursor := Some c; is_refresh := false |}).

(** Without any rectangle the whole screen counts as changed. *)
Definition or_whole (b : DxgiCaptureBackend) (dirty : list DirtyRect) (moves : list MoveRect) :
    list DirtyRect * list MoveRect :=
  match dirty, moves with
  | [], [] => ([{| rx := 0; ry := 0; rwidth := dx_width b; rheight := dx_height b |}], [])
  | _, _ => (dirty, moves)
  end.

(** The rectangles of a frame. *)
Definition frame_rects (b : DxgiCaptureBackend) (info : FrameInfo) (a : FrameAnswers) :
    list DirtyRect * list MoveRect :=
  let moves := if 0 <? total_metadata_buffer_size info then
                 match get_move_rects a with Some bytes => decode_moves bytes | None => [] end else [] in
  let dirty := if 0 <? total_metadata_buffer_size info then
                 match get_dirty_rects a with Some bytes => decode_dirty bytes | None => [] end else [] in
  or_whole b dirty moves.

(** [next_frame].  Reading past the mapped memory, which is undefined, is [Panic]. *)
Definition next_frame (b : DxgiCaptureBackend) (a : FrameAnswers) :
    DxgiCaptureBackend * outcome (result CaptureError Frame) :=
  match duplication b, dx_context b, staging_texture b with
  | Some _, Some _, Some texture =>
      match acquire a with
      | Err (code, e) =>
          if code =? DXGI_ERROR_WAIT_TIMEOUT then
            let '(b, f) := idle_frame b a in (b, Ret (Ok f))
          else
            let b := if (code =? DXGI_ERROR_ACCESS_LOST) || (code =? DXGI_ERROR_INVALID_CALL)
                        || (code =? E_ACCESSDENIED) then dxgi_stop b else b in
            (b, Ret (Err (FrameAcquisitionFailed ("AcquireNextFrame: " ++ e)%string)))
      | Ok (_, None) =>
          (b, Ret (Err (FrameAcquisitionFailed "AcquireNextFrame returned no resource")))
      | Ok (_, Some (Err e)) => (b, Ret (Err (FrameAcquisitionFailed ("Texture cast: " ++ e)%string)))
      | Ok (info, Some (Ok _)) =>
          match map_texture a texture with
          | Err e => (b, Ret (Err (FrameAcquisitionFailed ("Map: " ++ e)%string)))
          | Ok (row_pitch, data) =>
              let size_bytes := wrap 32 (row_pitch * dx_height b) in
              if zlen data <? size_bytes then (b, Panic)
              else
                let '(dirty, moves) := frame_rects b info a in
                match release_frame a with
                | Err e => (b, Ret (Err (FrameAcquisitionFailed ("ReleaseFrame: " ++ e)%string)))
                | Ok _ =>
                    let c := arrow_at (pointer_x info) (pointer_y info) (pointer_visible info) in
                    (set_cursor c b,
                     Ret (Ok {| fwidth := dx_width b; fheight := dx_height b; stride := row_pitch;
                                timestamp_us := wrap 64 (last_present_time info);
                                pixel_format := Bgra8; buffer := take (Z.to_nat size_bytes) data;
                                dirty_rects := dirty; move_rects := moves; cursor := Some c;
                                is_refresh := false |}))
                end
          end
      end
  | _, _, _ => (b, Ret (Err Stopped))
  end.

Definition dxgi_cursor_info (b : DxgiCaptureBackend) : result CaptureError CursorInfo :=
  match duplication b with
  | None => Err Stopped
  | Some _ => Ok (last_cursor b)
  end.

(** ** The other backend ([wgc.rs]), which does not capture yet *)

Record WgcCaptureBackend := { wgc_active : bool }.

Definition wgc_new : WgcCaptureBackend := {| wgc_active := false |}.
Definition wgc_displays (_ : WgcCaptureBackend) : result CaptureError (list DisplayInfo) := Ok [].
Definition wgc_start (_ : WgcCaptureBackend) : WgcCaptureBackend := {| wgc_active := true |}.
Definition wgc_next_frame (b : WgcCaptureBackend) : result CaptureError Frame :=
  if negb (wgc_active b) then Err Stopped else Err (FrameAcquisitionFailed "Not implemented").
Definition wgc_cursor_info (b : WgcCaptureBackend) : result CaptureError CursorInfo :=
  if negb (wgc_active b) then Err Stopped else Ok cursor_default.
Definition wgc_stop (_ : WgcCaptureBackend) : WgcCaptureBackend := {| wgc_active := false |}.

(** ** Display identifiers *)

Lemma dec_no_underscore n : 0 <= n -> Forall (fun c => c <> UNDERSCORE) (dec n).
Proof.
  intros Hn. eapply list.Forall_impl; [by apply dec_digits_range|]. unfold UNDERSCORE. simpl. lia.
Qed.

Lemma split_display_id i j : 0 <= i -> 0 <= j -> split_on UNDERSCORE (display_id i j) = [dec i; dec j].
Proof.
  intros Hi Hj. unfold display_id. rewrite split_on_app by by apply dec_no_underscore.
  by rewrite split_on_none by by apply dec_no_underscore.
Qed.

Lemma enum_outputs_elem i j outputs d : d ∈ enum_outputs i j outputs <->
  exists k desc, outputs !! k = Some (Some desc) /\ d = display_of i (j + Z.of_nat k) desc.
Proof.
  revert j; induction outputs as [|o outputs IH]; intros j; simpl.
  { split; [by intros ?%elem_of_nil|]. intros (k & desc & Hk & _). by rewrite lookup_nil in Hk. }
  rewrite elem_of_app, IH. split.
  - intros [Hd|(k & desc & Hk & ->)].
    + destruct o as [desc|]; [|by apply elem_of_nil in Hd]. apply list_elem_of_singleton in Hd as ->.
      exists 0%nat, desc. split; [done|]. f_equal. lia.
    + exists (S k), desc. split; [done|]. f_equal. lia.
  - intros ([|k] & desc & Hk & ->); simpl in Hk.
    + injection Hk as ->. left. apply list_elem_of_singleton. f_equal. lia.
    + right. exists k, desc. split; [done|]. f_equal. lia.
Qed.

Lemma enum_adapters_elem i adapters d : d ∈ enum_adapters i adapters <->
  exists a j outputs desc, adapters !! a = Some outputs /\ outputs !! j = Some (Some desc) /\
    d = display_of (i + Z.of_nat a) (Z.of_nat j) desc.
Proof.
  revert i; induction adapters as [|o adapters IH]; intros i; simpl.
  { split; [by intros ?%elem_of_nil|]. intros (a & j & os & desc & Ha & _). by rewrite lookup_nil in Ha. }
  rewrite elem_of_app, IH, enum_outputs_elem. split.
  - intros [(k & desc & Hk & ->)|(a & j & os & desc & Ha & Hj & ->)].
    + exists 0%nat, k, o, desc. split_and!; [done..|]. f_equal; lia.
    + exists (S a), j, os, desc. split_and!; [done..|]. f_equal; lia.
  - intros ([|a] & j & os & desc & Ha & Hj & ->); simpl in Ha.
    + injection Ha as ->. left. exists j, desc. split; [done|]. f_equal; lia.
    + right. exists a, j, os, desc. split_and!; [done..|]. f_equal; lia.
Qed.

(** The outputs [find_output] asks for, once the identifier is read. *)
Definition open_output (a : StartAnswers) (j : Z) : result CaptureError nat :=
  let? _ := map_err (fun e => InitFailed ("Device cast failed: " ++ e)%string) (device_cast a) in
  let? _ := map_err (fun e => InitFailed ("GetAdapter failed: " ++ e)%string) (get_adapter a) in
  let? output := map_err (fun e => InitFailed ("EnumOutputs failed: " ++ e)%string) (enum_output a j) in
  let? _ := map_err (fun e => InitFailed ("Output1 cast failed: " ++ e)%string) (output1_cast a) in
  map_err (fun '(code, e) =>
    if code =? E_ACCESSDENIED then AccessDenied
    else InitFailed ("DuplicateOutput failed: " ++ e)%string) (duplicate_output a output).

Lemma find_output_display_of a i j desc : 0 <= i -> uint 32 j ->
  find_output a (display_of i j desc) = open_output a j.
Proof.
  intros Hi Hj. unfold find_output, open_output. simpl.
  destruct (device_cast a); [|done]. destruct (get_adapter a); [|done]. simpl.
  rewrite split_display_id by (unfold uint in Hj; lia). by rewrite parse_u32_dec.
Qed.

(** An enumerated display is started by the index of its output: the identifier that
    [displays] printed is read back.  The adapter's index is not used: displays of two adapters
    with the same output index start the same output, that of the device's own adapter. *)
Theorem started_by_output_index factory ds d a :
  displays factory = Ok ds -> d ∈ ds ->
  (forall adapters, factory = Ok adapters -> Forall (fun os => zlen os < 2 ^ 32) adapters) ->
  exists adapters i j outputs desc, factory = Ok adapters /\
    adapters !! i = Some outputs /\ outputs !! j = Some (Some desc) /\
    d = display_of (Z.of_nat i) (Z.of_nat j) desc /\ find_output a d = open_output a (Z.of_nat j).
Proof.
  unfold displays. destruct factory as [adapters|]; [|done]. simpl. intros [= <-] Hd Hlen.
  apply enum_adapters_elem in Hd as (i & j & outputs & desc & Hi & Hj & ->).
  exists adapters, i, j, outputs, desc. split_and!; [done..|].
  specialize (Hlen _ eq_refl). rewrite list.Forall_forall in Hlen.
  specialize (Hlen outputs (list_elem_of_lookup_2 _ _ _ Hi)). apply lookup_lt_Some in Hj. unfold zlen in Hlen.
  simpl. apply find_output_display_of; [lia|]. unfold uint. lia.
Qed.

Lemma start_ignores_adapter a i i' j desc desc' : 0 <= i -> 0 <= i' -> uint 32 j ->
  find_output a (display_of i j desc) = find_output a (display_of i' j desc').
Proof. intros. by rewrite !find_output_display_of. Qed.

(** ** The mapped memory *)

(** Documented of [Map]: a texture of [h] rows gives [h] rows of [RowPitch] bytes, each long
    enough for the pixels, with 32-bit pitch. *)
Definition maps (a : FrameAnswers) : Prop := forall w h row_pitch data,
  map_texture a (w, h) = Ok (row_pitch, data) ->
  w * 4 <= row_pitch < 2 ^ 32 /\ zlen data = row_pitch * h.

Definition texture_inv (b : DxgiCaptureBackend) : Prop := forall w h,
  staging_texture b = Some (w, h) -> w = dx_width b /\ h = dx_height b /\ 0 <= h.

(** The use the capture thread makes of a backend: it starts one that is new or stopped, takes
    frames, and stops. *)
Inductive dx_reach : DxgiCaptureBackend -> Prop :=
| ReachNew : dx_reach dxgi_new
| ReachStart b display a : dx_reach b -> staging_texture b = None -> uint 32 (disp_height display) ->
    dx_reach (fst (dxgi_start b display a))
| ReachFrame b a : dx_reach b -> maps a -> dx_reach (fst (next_frame b a))
| ReachStop b : dx_reach b -> dx_reach (dxgi_stop b).

Lemma next_frame_texture b a :
  fst (next_frame b a) = dxgi_stop b \/
  staging_texture (fst (next_frame b a)) = staging_texture b /\
  dx_width (fst (next_frame b a)) = dx_width b /\ dx_height (fst (next_frame b a)) = dx_height b.
Proof.
  unfold next_frame, idle_frame. repeat case_match; simplify_eq; simpl; try (right; done). by left.
Qed.

Lemma dx_reach_inv b : dx_reach b -> texture_inv b.
Proof.
  induction 1 as [|b display a _ IH Hnone Hh|b a _ IH _|b _ IH]; [done| | |done].
  - unfold dxgi_start. destruct (init_d3d11 a) as [[dv cx]|]; [|done].
    destruct (find_output a display); simpl; [|by rewrite Hnone].
    unfold create_staging_texture. destruct (create_texture a) as [[]|]; simpl; try (intros w h Hw; simpl in *; congruence).
    intros w h [= <- <-]. simpl. unfold uint in Hh. split_and!; [done..|lia].
  - destruct (next_frame_texture b a) as [->|(Hs & Hw & Hh)]; [done|]. unfold texture_inv.
    by rewrite Hs, Hw, Hh.
Qed.

(** What a captured frame looks like: an idle frame without pixels, or a frame with all its
    rows and at least one changed rectangle. *)
Definition frame_shape (b : DxgiCaptureBackend) (f : Frame) : Prop :=
  fwidth f = dx_width b /\ fheight f = dx_height b /\ is_refresh f = false /\
  (buffer f = [] \/
   has_updates f = true /\ fwidth f * 4 <= stride f < 2 ^ 32 /\
   zlen (buffer f) = wrap 32 (stride f * fheight f)).

Lemma or_whole_updates b ds ms dirty moves : or_whole b ds ms = (dirty, moves) ->
  negb (zlen dirty =? 0) || negb (zlen moves =? 0) = true.
Proof.
  assert (Hc : forall {A} (x : A) l, negb (zlen (x :: l) =? 0) = true).
  { intros A x l. rewrite zlen_cons. pose proof (zlen_nonneg l). by rewrite (proj2 (Z.eqb_neq _ _)) by lia. }
  destruct ds as [|d ds]; [destruct ms as [|m ms]|]; simpl; intros [= <- <-]; rewrite Hc; [done| |done].
  by rewrite orb_true_r.
Qed.

Lemma size_in_bounds b a w h row_pitch data : texture_inv b -> maps a ->
  staging_texture b = Some (w, h) -> map_texture a (w, h) = Ok (row_pitch, data) ->
  0 <= wrap 32 (row_pitch * dx_height b) <= zlen data.
Proof.
  intros Hinv Hm Ht Hd. destruct (Hinv w h Ht) as (-> & -> & Hh). destruct (Hm _ _ _ _ Hd) as [Hp Hl].
  pose proof (zlen_nonneg data) as Hnn. rewrite Hl in *. unfold wrap.
  split; [apply Z.mod_pos_bound; lia|]. apply Z.mod_le; lia.
Qed.

Lemma next_frame_safe b a : texture_inv b -> maps a ->
  match snd (next_frame b a) with
  | Panic => False
  | Ret (Ok f) => frame_shape b f
  | Ret (Err _) => True
  end.
Proof.
  intros Hinv Hm. unfold next_frame.
  destruct (duplication b); [|done]. destruct (dx_context b); [|done].
  destruct (staging_texture b) as [[w h]|] eqn:Et; [|done].
  destruct (acquire a) as [[info res]|[code e]]; simpl.
  2: { destruct (code =? DXGI_ERROR_WAIT_TIMEOUT); [|done]. simpl. unfold frame_shape. simpl. auto. }
  destruct res as [[[]|]|]; [|done|done].
  destruct (map_texture a (w, h)) as [[row_pitch data]|] eqn:Em; [|done].
  pose proof (size_in_bounds b a w h row_pitch data Hinv Hm Et Em) as Hsz.
  destruct (Hm _ _ _ _ Em) as [Hp _]. destruct (Hinv w h Et) as (-> & -> & Hh).
  rewrite (proj2 (Z.ltb_ge _ _)) by lia.
  destruct (frame_rects b info a) as [dirty moves] eqn:Er. apply or_whole_updates in Er.
  destruct (release_frame a); [|done]. simpl. unfold frame_shape. simpl. split_and!; [done..|]. right.
  split_and!; [unfold has_updates; simpl; by rewrite Er|lia|lia|].
  unfold zlen in *. rewrite length_take. lia.
Qed.

(** The capture backend's unsafe read stays within the mapped memory, for every sequence
    of starts, frames and stops the capture thread makes and whatever the operating system
    answers: the copy never reads past the rows the texture has.  A frame it returns is either
    the idle one without pixels or has every row it claims and a changed rectangle; and the
    cursor can be drawn into it without aborting, on a screen whose frame fits 32 bits. *)
Theorem capture_reads_in_bounds b a : dx_reach b -> maps a ->
  snd (next_frame b a) <> Panic /\
  forall f, snd (next_frame b a) = Ret (Ok f) ->
    frame_shape b f /\
    (0 < fwidth f < 2 ^ 31 -> 0 < fheight f < 2 ^ 31 -> stride f * fheight f < 2 ^ 32 ->
     forall x y visible, exists drawn,
       composite_cursor (buffer f) (stride f) (fwidth f) (fheight f) x y visible = Ret drawn).
Proof.
  intros Hb Hm. pose proof (next_frame_safe b a (dx_reach_inv b Hb) Hm) as Hs. split.
  { by destruct (snd (next_frame b a)). }
  intros f Hf. rewrite Hf in Hs. split; [done|]. intros Hw Hh Hst x y visible.
  destruct visible; [|by eexists]. destruct Hs as (_ & _ & _ & [Hnil|(_ & Hp & Hlen)]).
  { exists []. by rewrite Hnil. }
  destruct (composite_cursor_spec (stride f) (fwidth f) (fheight f) (buffer f) x y) as (drawn & Hd & _).
  - constructor; [done|done|lia| |done]. rewrite Hlen. apply wrap_small. unfold uint. nia.
  - by exists drawn.
Qed.

(** ** Restarting without stopping

    If a running backend is started on another display and the texture cannot be made, it keeps
    the old texture with the new dimensions, and the next frame is read past the mapping. *)
Module DxgiExample.
Definition desc (w h : Z) : OutputDesc :=
  {| device_name := [68; 49; 0; 0]; rc_left := 0; rc_top := 0; rc_right := w; rc_bottom := h |}.
Definition small := display_of 0 0 (desc 2 2).
Definition large := display_of 0 1 (desc 2 4).

Definition works (texture : bool) : StartAnswers := {|
  create_device := Ok (Some 1%nat, Some 2%nat); device_cast := Ok tt; get_adapter := Ok tt;
  enum_output j := Ok (Z.to_nat j); output1_cast := Ok tt; duplicate_output o := Ok o;
  create_texture := Ok texture
|}.

(** A mapping that follows the documentation for every texture. *)
Definition frame : FrameAnswers := {|
  acquire := Ok ({| last_present_time := 5; pointer_x := 1; pointer_y := 1; pointer_visible := true;
                    total_metadata_buffer_size := 16 |}, Some (Ok tt));
  get_cursor_info := None;
  map_texture '(w, h) :=
    if (0 <=? w) && (w <? 2 ^ 30) && (0 <=? h)
    then Ok (w * 4, replicate (Z.to_nat (w * 4 * h)) 9) else Err "too large";
  get_move_rects := None;
  get_dirty_rects := Some [0; 0; 0; 0; 0; 0; 0; 0; 2; 0; 0; 0; 1; 0; 0; 0];
  release_frame := Ok tt
|}.

Definition started := fst (dxgi_start dxgi_new small (works true)).

Lemma restart_reads_past :
  snd (next_frame (fst (dxgi_start started large (works false))) frame) = Panic.
Proof. vm_compute. reflexivity. Qed.

(** The frame of the display that was started; its rectangle is the one of the metadata. *)
Lemma started_frame : exists f, snd (next_frame started frame) = Ret (Ok f) /\
  dirty_rects f = [{| rx := 0; ry := 0; rwidth := 2; rheight := 1 |}] /\ zlen (buffer f) = 16.
Proof. eexists. split; [vm_compute; reflexivity|]. vm_compute. done. Defined.

Lemma frame_maps : maps frame.
Proof.
  intros w h p d. simpl. destruct (Z.leb_spec 0 w), (Z.ltb_spec w (2 ^ 30)), (Z.leb_spec 0 h); try done.
  cbn [andb]. intros [= <- <-]. split; [lia|]. unfold zlen. rewrite length_replicate. nia.
Qed.
End DxgiExample.

Lemma capture_reads_in_bounds_witness :
  snd (next_frame DxgiExample.started DxgiExample.frame) <> Panic /\
  exists f, snd (next_frame DxgiExample.started DxgiExample.frame) = Ret (Ok f) /\
    frame_shape DxgiExample.started f.
Proof.
  assert (Hr : dx_reach DxgiExample.started).
  { apply ReachStart; [constructor|reflexivity|]. by_decide. }
  pose proof (capture_reads_in_bounds _ _ Hr DxgiExample.frame_maps) as [Hp Hf].
  split; [exact Hp|]. eexists. split; [vm_compute; reflexivity|].
  apply Hf. vm_compute. reflexivity.
Defined.

Lemma started_by_output_index_witness :
  find_output (DxgiExample.works true) DxgiExample.large =
  open_output (DxgiExample.works true) 1.
Proof.
  destruct (started_by_output_index
    (Ok [[Some (DxgiExample.desc 2 2); Some (DxgiExample.desc 2 4)]])
    [DxgiExample.small; DxgiExample.large] DxgiExample.large (DxgiExample.works true))
    as (ads & i & j & os & dsc & [= <-] & Hi & Hj & Hd & Hfind).
  - reflexivity.
  - right. left.
  - intros adapters [= <-]. repeat constructor.
  - reflexivity.
Defined.
