(* ===== verification/CaptureThread.v ===== *)
(** * The life of the capture thread ([bw-capture/src/thread.rs], [backend.rs])

    [CaptureThread::spawn] starts a backend and a thread that drives it; [stop] (also run when
    the value is dropped) asks the thread to end and waits for it.  The thread is proved against
    the interface of the backends; the DXGI backend and the one that does not capture yet
    implement it. *)

From S2P Require Import Prelude Pixels Capture Cursor Dxgi.

(** ** The backends' interface *)

(** [CaptureBackend]; [S] and [F] are what the operating system answers to a start and to a
    request for a frame. *)
Class CaptureBackend (B S F : Type) := {
  bk_start : B -> DisplayInfo -> S -> B * result CaptureError unit;
  bk_next_frame : B -> F -> B * outcome (result CaptureError Frame);
  bk_cursor_info : B -> result CaptureError CursorInfo;
  bk_stop : B -> B }.

#[export] Instance dxgi_backend : CaptureBackend DxgiCaptureBackend StartAnswers FrameAnswers := {|
  bk_start := dxgi_start; bk_next_frame := next_frame; bk_cursor_info := dxgi_cursor_info; bk_stop := dxgi_stop |}.

#[export] Instance wgc_backend : CaptureBackend WgcCaptureBackend unit unit := {|
  bk_start b _ _ := (wgc_start b, Ok tt); bk_next_frame b _ := (b, Ret (wgc_next_frame b));
  bk_cursor_info := wgc_cursor_info; bk_stop := wgc_stop |}.

(** A captured frame of a display, with all its rows. *)
Definition frame_of (display : DisplayInfo) (f : Frame) : Prop :=
  fwidth f = disp_width display /\ fheight f = disp_height display /\
  fwidth f * 4 <= stride f < 2 ^ 32 /\ zlen (buffer f) = wrap 32 (stride f * fheight f).

(** What the thread relies on: a backend that is used for one display, stopped before it is
    started again, never aborts, gives idle frames or frames of the display, and holds nothing
    once it is stopped.  [sane] is what is documented of the system's answers. *)
Class CaptureLaws (B S F : Type) `{CaptureBackend B S F} (display : DisplayInfo) := {
  in_use : B -> Prop;
  stopped : B -> Prop;
  sane : F -> Prop;
  law_stop : forall b, in_use b -> in_use (bk_stop b) /\ stopped (bk_stop b);
  law_start : forall b a, in_use b -> stopped b -> in_use (bk_start b display a).1;
  law_next : forall b a, in_use b -> sane a ->
    in_use (bk_next_frame b a).1 /\
    match (bk_next_frame b a).2 with
    | Panic => False
    | Ret (Ok f) => buffer f = [] \/ frame_of display f
    | Ret (Err _) => True
    end }.

(** ** The thread *)

Section Thread.
Context {B S F : Type} `{CaptureBackend B S F}.

(** Where the thread is in its loop: before it looks at the stop channel, in [next_frame], with
    what [next_frame] gave it after [took] (asleep, or about to offer a frame), or between the
    stop and the start of its backend after an error. *)
Inductive Phase : Type :=
| AtTop
| InNextFrame
| HasResponse (r : result CaptureError Frame) (took : Z)
| Recovering (e : CaptureError) (took : Z).

(** The thread, the messages in its stop channel, and what the owner does: it has a handle, it
    is in [stop] waiting for the thread, or it has joined it.  [aborted]: the thread panicked. *)
Inductive Owner : Type := Holding | Joining | Joined.

Record CaptureThread := {
  ct_backend : B;
  ct_loop : Capture;
  ct_phase : Phase;
  ct_stops : nat;
  ct_aborted : bool;
  ct_owner : Owner
}.

(** [spawn_with_config]: [spawned] is whether the system gives a thread. *)
Definition spawn_with_config (b : B) (display : DisplayInfo) (a : S) (spawned : result string unit) (now : Z) :
    result CaptureError CaptureThread :=
  let '(b, r) := bk_start b display a in
  let? _ := r in
  match spawned with
  | Err e => Err (InitFailed ("Failed to spawn thread: " ++ e)%string)
  | Ok _ =>
      Ok {| ct_backend := b; ct_loop := capture_start now; ct_phase := AtTop; ct_stops := 0; ct_aborted := false; ct_owner := Holding |}
  end.

(** What the system answers, and the times. *)
Record Answers := { an_frame : F; an_start : S; an_took : Z; an_overrun : Z }.

(** The thread after a piece of its turn. *)
Definition moves (t : CaptureThread) (b : B) (c : Capture) (p : Phase) : CaptureThread :=
  {| ct_backend := b; ct_loop := c; ct_phase := p; ct_stops := ct_stops t; ct_aborted := ct_aborted t; ct_owner := ct_owner t |}.

(** The loop's bookkeeping at the end of a turn, with what the backend then says of the cursor. *)
Definition ends_turn (cfg : FrameTimerConfig) (t : CaptureThread) (b : B) (r : result CaptureError Frame) (took overrun : Z)
    (restarted : bool) : CaptureThread :=
  moves t b
    (turn cfg (ct_loop t)
       {| stop_requested := false; response := r; took := took; overrun := overrun;
          cursor_info := bk_cursor_info b; restarted := restarted |}) AtTop.

(** What the thread does next: it looks at the stop channel; [next_frame] returns; it handles
    the frame (after its sleep, if any), or ends, or stops its backend after an error; and it
    starts the backend again, or gives up. *)
Definition thread_acts (cfg : FrameTimerConfig) (display : DisplayInfo) (t : CaptureThread) (a : Answers) : CaptureThread :=
  if negb (running (ct_loop t)) then t
  else
    match ct_phase t with
    | AtTop =>
        match ct_stops t with
        | Datatypes.S n =>
            {| ct_backend := bk_stop (ct_backend t); ct_loop := halt (clock (ct_loop t)) (ct_loop t); ct_phase := AtTop;
               ct_stops := n; ct_aborted := ct_aborted t; ct_owner := ct_owner t |}
        | O => moves t (ct_backend t) (ct_loop t) InNextFrame
        end
    | InNextFrame =>
        let '(b, r) := bk_next_frame (ct_backend t) (an_frame a) in
        match r with
        | Panic =>
            {| ct_backend := b; ct_loop := halt (clock (ct_loop t)) (ct_loop t); ct_phase := AtTop; ct_stops := ct_stops t;
               ct_aborted := true; ct_owner := ct_owner t |}
        | Ret r => moves t b (ct_loop t) (HasResponse r (an_took a))
        end
    | HasResponse (Ok f) took => ends_turn cfg t (ct_backend t) (Ok f) took (an_overrun a) true
    | HasResponse (Err Stopped) took => ends_turn cfg t (bk_stop (ct_backend t)) (Err Stopped) took (an_overrun a) false
    | HasResponse (Err e) took => moves t (bk_stop (ct_backend t)) (ct_loop t) (Recovering e took)
    | Recovering e took =>
        let '(b, s) := bk_start (ct_backend t) display (an_start a) in
        match s with
        | Ok _ => ends_turn cfg t b (Err e) took (an_overrun a) true
        | Err _ => ends_turn cfg t (bk_stop b) (Err e) took (an_overrun a) false
        end
    end.

(** [stop] up to the join: a second call finds no handle and returns. *)
Definition call_stop (t : CaptureThread) : CaptureThread :=
  {| ct_backend := ct_backend t; ct_loop := ct_loop t; ct_phase := ct_phase t;
     ct_stops := if running (ct_loop t) then Datatypes.S (ct_stops t) else ct_stops t;
     ct_aborted := ct_aborted t; ct_owner := match ct_owner t with Joined => Joined | _ => Joining end |}.

Definition finish_stop (t : CaptureThread) : CaptureThread :=
  {| ct_backend := ct_backend t; ct_loop := ct_loop t; ct_phase := ct_phase t; ct_stops := ct_stops t;
     ct_aborted := ct_aborted t; ct_owner := Joined |}.

Section Steps.
Context (cfg : FrameTimerConfig) (display : DisplayInfo) (sane : F -> Prop).

Inductive thread_step : CaptureThread -> CaptureThread -> Prop :=
| ThreadActs t a : sane (an_frame a) -> thread_step t (thread_acts cfg display t a)
| OwnerStops t : thread_step t (call_stop t)
| OwnerJoins t : ct_owner t = Joining -> running (ct_loop t) = false -> thread_step t (finish_stop t).
End Steps.
End Thread.

Arguments CaptureThread : clear implicits.
Arguments Answers : clear implicits.

(** ** Lemmas *)

Section Proofs.
Context {B S F : Type} (display : DisplayInfo) `{CaptureLaws B S F display} (cfg : FrameTimerConfig).

(** Every frame the thread caches or offers is one of the display. *)
Definition frames_of (c : Capture) : Prop :=
  Forall (fun p => frame_of display p.2) (offered c) /\
  match last_frame c with Some f => frame_of display f | None => True end.

(** What is known where the thread is. *)
Definition phase_ok (b : B) (p : Phase) : Prop :=
  match p with
  | AtTop | InNextFrame => True
  | HasResponse r _ => match r with Ok f => buffer f = [] \/ frame_of display f | Err _ => True end
  | Recovering e _ => stopped b /\ e <> Stopped
  end.

Record thread_inv (t : CaptureThread B) : Prop := {
  ti_in_use : in_use (ct_backend t);
  ti_phase : running (ct_loop t) = true -> phase_ok (ct_backend t) (ct_phase t);
  ti_ended : running (ct_loop t) = false -> stopped (ct_backend t);
  ti_frames : frames_of (ct_loop t);
  ti_aborted : ct_aborted t = false;
  ti_joining : ct_owner t = Joining -> running (ct_loop t) = true -> (0 < ct_stops t)%nat;
  ti_joined : ct_owner t = Joined -> running (ct_loop t) = false
}.

(** Whether the loop goes on after a turn. *)
Lemma turn_goes_on c i : running c = true -> stop_requested i = false ->
  (forall e, response i = Err e -> restarted i = false) \/ (forall e, response i = Err e -> e <> Stopped) ->
  running (turn cfg c i) = match response i with Ok _ => true | Err _ => restarted i end.
Proof.
  intros Hc Hs Hr. unfold turn. rewrite Hc, Hs. cbn [negb]. destruct (response i) as [f|e].
  - unfold idle_turn, real_turn. destruct (zlen (buffer f) =? 0); [|done].
    destruct (0 <? _); [|done]. destruct (last_frame c); [|done]. by destruct (_ <=? _).
  - destruct Hr as [Hr|Hr]; [rewrite (Hr e eq_refl); by destruct e|].
    specialize (Hr e eq_refl). destruct e; try done; by destruct (restarted i).
Qed.

Lemma turn_frames c i : frames_of c -> match response i with Ok f => buffer f = [] \/ frame_of display f | Err _ => True end ->
  frames_of (turn cfg c i).
Proof.
  intros [Ho Hl] Hr. unfold turn. destruct (running c); [|done]. cbn [negb]. destruct (stop_requested i); [done|].
  destruct (response i) as [f|e].
  - destruct (Z.eqb_spec (zlen (buffer f)) 0) as [Hz|Hz].
    + unfold idle_turn. destruct (0 <? _); [|done]. destruct (last_frame c) as [g|] eqn:El; [|done].
      destruct (_ <=? _); [|done]. split; cbn; [|done].
      apply Forall_app. split; [done|]. by constructor.
    + destruct Hr as [Hnil|Hf]; [by rewrite Hnil in Hz|]. split; cbn; [|done].
      apply Forall_app. split; [done|]. by constructor.
  - destruct e; try done; destruct (restarted i); try done; by split.
Qed.

(** The end of a turn, on a backend that is stopped if the loop does not go on. *)
Lemma ends_turn_inv t b r k o re : thread_inv t -> running (ct_loop t) = true -> in_use b ->
  match r with Ok f => buffer f = [] \/ frame_of display f | Err e => (e = Stopped -> re = false) /\ (re = false -> stopped b) end ->
  thread_inv (ends_turn cfg t b r k o re).
Proof.
  intros [_ _ _ Hf Hab Hj Hd] Hr Hu Hb. unfold ends_turn.
  set (i := {| stop_requested := false; response := r; took := _; overrun := _; cursor_info := _; restarted := re |}).
  assert (Hrun : running (turn cfg (ct_loop t) i) = match r with Ok _ => true | Err _ => re end).
  { apply turn_goes_on; [done|done|]. cbn. destruct r as [f|e]; [by left|]. destruct Hb as [Hs _].
    destruct e; try (right; by intros ? [= <-]). left. intros ? _. by apply Hs. }
  constructor; cbn [moves ct_backend ct_loop ct_phase ct_stops ct_aborted ct_owner]; try done.
  - rewrite Hrun. destruct r; [done|]. apply Hb.
  - apply turn_frames; [done|]. cbn. by destruct r.
  - intros Hown _. by apply Hj.
  - intros Hown. by rewrite Hd in Hr.
Qed.

Lemma moves_inv t b p : thread_inv t -> running (ct_loop t) = true -> in_use b -> phase_ok b p ->
  thread_inv (moves t b (ct_loop t) p).
Proof. intros [_ _ _ Hf Hab Hj Hd] Hr Hu Hp. constructor; cbn; try done. by rewrite Hr. Qed.

Lemma thread_acts_inv t a : sane (an_frame a) -> thread_inv t -> thread_inv (thread_acts cfg display t a).
Proof.
  intros Ha Ht. pose proof Ht as [Hu Hp He Hf Hab Hj Hd]. unfold thread_acts.
  destruct (running (ct_loop t)) eqn:Er; [|done]. specialize (Hp eq_refl). cbn [negb].
  destruct (law_stop _ Hu) as [Hus Hss]. destruct (ct_phase t) as [| |r k|e k].
  - destruct (ct_stops t) as [|n] eqn:En; [by apply moves_inv|by constructor].
  - destruct (law_next _ _ Hu Ha) as [Hu1 Hr1]. destruct (bk_next_frame (ct_backend t) (an_frame a)) as [b [r|]]; [|done].
    by apply moves_inv.
  - destruct r as [f|e]; [by apply ends_turn_inv|]. destruct e; try (by apply moves_inv). by apply ends_turn_inv.
  - destruct Hp as [Hs Hne]. pose proof (law_start _ (an_start a) Hu Hs) as Hu1.
    destruct (bk_start (ct_backend t) display (an_start a)) as [b [|]]; cbn in Hu1; [by apply ends_turn_inv|].
    destruct (law_stop b Hu1) as [Hu2 Hs2]. by apply ends_turn_inv.
Qed.

Lemma thread_step_inv t t' : thread_step cfg display sane t t' -> thread_inv t -> thread_inv t'.
Proof.
  intros [t0 a Ha|t0|t0 Ho Hr] Hi; [by apply thread_acts_inv|..]; destruct Hi as [Hu Hp He Hf Hab Hj Hd].
  - constructor; cbn; try done.
    + intros _ ->. lia.
    + by destruct (ct_owner t0).
  - by constructor.
Qed.

Lemma thread_run_inv t t' : rtc (thread_step cfg display sane) t t' -> thread_inv t -> thread_inv t'.
Proof. induction 1; eauto using thread_step_inv. Qed.

Lemma spawn_inv b a spawned now t : in_use b -> stopped b -> spawn_with_config b display a spawned now = Ok t ->
  thread_inv t.
Proof.
  intros Hb Hs. unfold spawn_with_config. pose proof (law_start b a Hb Hs) as Hu.
  destruct (bk_start b display a) as [b1 [|]]; [|done]. destruct spawned; [|done]. intros [= <-].
  by constructor.
Qed.
End Proofs.

(** ** The backends keep the interface's promises *)

Definition dxgi_in_use (display : DisplayInfo) (b : DxgiCaptureBackend) : Prop :=
  dx_reach b /\
  (staging_texture b <> None -> dx_width b = disp_width display /\ dx_height b = disp_height display).

Definition dxgi_stopped (b : DxgiCaptureBackend) : Prop :=
  dx_device b = None /\ dx_context b = None /\ duplication b = None /\ staging_texture b = None.

Lemma dxgi_next_display display b a f : dxgi_in_use display b -> maps a ->
  (next_frame b a).2 = Ret (Ok f) -> buffer f = [] \/ frame_of display f.
Proof.
  intros [Hr Hd] Hm Hf. pose proof (next_frame_safe b a (dx_reach_inv b Hr) Hm) as Hs. rewrite Hf in Hs.
  destruct Hs as (Hw & Hh & _ & [Hnil|(_ & Hst & Hl)]); [by left|]. right.
  assert (Hsome : staging_texture b <> None).
  { intros Hn. unfold next_frame in Hf. rewrite Hn in Hf. by destruct (duplication b), (dx_context b). }
  destruct (Hd Hsome) as [Ew Eh]. unfold frame_of. by rewrite Hw, Hh, Ew, Eh in *.
Qed.

#[export] Instance dxgi_laws (display : DisplayInfo) (Hh : uint 32 (disp_height display)) :
  CaptureLaws DxgiCaptureBackend StartAnswers FrameAnswers display.
Proof.
  refine {| in_use := dxgi_in_use display; stopped := dxgi_stopped; sane := maps |}.
  - intros b [Hr _]. split; [|done]. split; [by constructor|done].
  - intros b a [Hr _] (_ & _ & _ & Hn). split; [by constructor|]. cbn. unfold dxgi_start.
    destruct (init_d3d11 a) as [[dv cx]|]; [|done].
    destruct (find_output a display); [|done]. by destruct (create_staging_texture _ _ _).
  - intros b a Hb Hm. split.
    + destruct Hb as [Hr Hd]. split; [by constructor|]. cbn.
      destruct (next_frame_texture b a) as [->|(-> & -> & ->)]; done.
    + cbn. pose proof (next_frame_safe b a (dx_reach_inv b (proj1 Hb)) Hm) as Hs.
      destruct (next_frame b a) as [b' [[f|e]|]] eqn:En; cbn in *; [|done|done].
      apply (dxgi_next_display display b a); [done|done|by rewrite En].
Defined.

(** The backend that does not capture yet never gives a frame. *)
#[export] Instance wgc_laws (display : DisplayInfo) : CaptureLaws WgcCaptureBackend unit unit display.
Proof.
  refine {| in_use _ := True; stopped b := wgc_active b = false; sane _ := True |}; try done.
  intros b a _ _. split; [done|]. cbn. unfold wgc_next_frame. by destruct (negb _).
Defined.

(** ** The life of the thread *)

Section Life.
Context {B S F : Type} (display : DisplayInfo) `{CaptureLaws B S F display} (cfg : FrameTimerConfig).

(** A turn offers at most one frame. *)
Lemma turn_offers c i : exists l, offered (turn cfg c i) = offered c ++ l /\ (length l <= 1)%nat.
Proof.
  assert (Hnil : exists l, offered c = offered c ++ l /\ (length l <= 1)%nat) by (exists []; rewrite app_nil_r; split; [done|cbn; lia]).
  unfold turn, idle_turn, real_turn. repeat case_match; cbn; eauto.
Qed.

(** The frames a thread that is asked to stop can still offer: that of the turn it is in. *)
Definition still_to_offer (t : CaptureThread B) : nat :=
  match ct_phase t with AtTop => 0 | _ => if running (ct_loop t) then 1 else 0 end.

Lemma stopping_offers t t' : thread_step cfg display sane t t' ->
  (0 < ct_stops t)%nat \/ running (ct_loop t) = false ->
  (exists l, offered (ct_loop t') = offered (ct_loop t) ++ l /\ (length l + still_to_offer t' <= still_to_offer t)%nat) /\
  ((0 < ct_stops t')%nat \/ running (ct_loop t') = false).
Proof.
  intros [t0 a _|t0|t0 Ho Hr] Hs; unfold still_to_offer.
  2: { split; [exists []; rewrite app_nil_r; cbn; by destruct (ct_phase t0)|].
       cbn. destruct Hs as [Hs|Hs]; [left; destruct (running _); lia|by right]. }
  2: { split; [exists []; rewrite app_nil_r; cbn; by destruct (ct_phase t0)|done]. }
  unfold thread_acts. destruct (running (ct_loop t0)) eqn:Er; cbn [negb].
  2: { rewrite Er. split; [|by right]. exists []. rewrite app_nil_r. cbn. by destruct (ct_phase t0). }
  destruct Hs as [Hs|]; [|done].
  assert (Hturn : forall b r k o re, (exists l, offered (ct_loop (ends_turn cfg t0 b r k o re)) = offered (ct_loop t0) ++ l /\
    (length l + 0 <= 1)%nat) /\ ((0 < ct_stops t0)%nat \/ running (ct_loop (ends_turn cfg t0 b r k o re)) = false)).
  { intros. split; [|by left]. unfold ends_turn. cbn.
    match goal with |- context [turn cfg ?c ?i] => destruct (turn_offers c i) as (l & -> & Hl) end. exists l. split; [done|lia]. }
  assert (Hkeep : exists l, offered (ct_loop t0) = offered (ct_loop t0) ++ l /\ (length l + 1 <= 1)%nat)
    by (exists []; by rewrite app_nil_r).
  destruct (ct_phase t0) as [| |r k|e k].
  - destruct (ct_stops t0); [lia|]. cbn. split; [|by right]. exists []. by rewrite app_nil_r.
  - destruct (bk_next_frame _ _) as [b [r|]]; cbn; rewrite ?Er; [by auto|].
    split; [|by right]. exists []. rewrite app_nil_r. cbn. split; [done|lia].
  - destruct r as [f|[]]; try apply Hturn; cbn; rewrite Er; auto.
  - destruct (bk_start _ _ _) as [b [|]]; apply Hturn.
Qed.

Lemma stopping_run t t' : rtc (thread_step cfg display sane) t t' ->
  (0 < ct_stops t)%nat \/ running (ct_loop t) = false ->
  exists l, offered (ct_loop t') = offered (ct_loop t) ++ l /\ (length l <= still_to_offer t)%nat.
Proof.
  induction 1 as [t|t t1 t2 Hs _ IH]; intros Hp; [exists []; by rewrite app_nil_r; split; [|cbn; lia]|].
  destruct (stopping_offers t t1 Hs Hp) as [(l1 & Ho1 & Hl1) Hp1]. destruct (IH Hp1) as (l2 & Ho2 & Hl2).
  exists (l1 ++ l2). rewrite Ho2, Ho1, length_app, app_assoc. split; [done|lia].
Qed.

(** How many times a thread that is asked to stop still acts. *)
Definition acts_left (t : CaptureThread B) : nat :=
  if running (ct_loop t) then
    match ct_phase t with AtTop => 1 | InNextFrame => 4 | HasResponse _ _ => 3 | Recovering _ _ => 2 end
  else 0.

Lemma stopping_ends t a n : (0 < ct_stops t)%nat \/ running (ct_loop t) = false -> (acts_left t <= Datatypes.S n)%nat ->
  (acts_left (thread_acts cfg display t a) <= n)%nat /\
  ((0 < ct_stops (thread_acts cfg display t a))%nat \/ running (ct_loop (thread_acts cfg display t a)) = false) /\
  ct_owner (thread_acts cfg display t a) = ct_owner t.
Proof.
  intros Hp Hn. unfold thread_acts. destruct (running (ct_loop t)) eqn:Er; cbn [negb].
  2: { unfold acts_left in *. rewrite Er in *. split; [lia|]. split; [by right|done]. }
  destruct Hp as [Hp|]; [|done]. unfold acts_left in Hn. rewrite Er in Hn.
  assert (Hturn : forall b r k o re, (2 <= Datatypes.S n)%nat -> let t' := ends_turn cfg t b r k o re in
    (acts_left t' <= n)%nat /\ ((0 < ct_stops t')%nat \/ running (ct_loop t') = false) /\ ct_owner t' = ct_owner t).
  { intros b r k o re H2. cbv zeta. split; [|split; [by left|done]]. unfold acts_left, ends_turn. cbn [moves ct_loop ct_phase].
    destruct (running (turn _ _ _)); lia. }
  destruct (ct_phase t) as [| |r k|e k].
  - destruct (ct_stops t); [lia|]. cbn. split; [lia|]. split; [by right|done].
  - destruct (bk_next_frame _ _) as [b [r|]]; unfold acts_left; cbn; rewrite ?Er; split_and!; try lia; auto.
  - destruct r as [f|[]]; try (apply Hturn; lia); unfold acts_left; cbn; rewrite Er; split_and!; try lia; auto.
  - destruct (bk_start _ _ _) as [b [|]]; apply Hturn; lia.
Qed.

Lemma stopping_ended answers : forall t, (0 < ct_stops t)%nat \/ running (ct_loop t) = false -> (acts_left t <= length answers)%nat ->
  running (ct_loop (foldl (thread_acts cfg display) t answers)) = false /\
  ct_owner (foldl (thread_acts cfg display) t answers) = ct_owner t.
Proof.
  induction answers as [|a answers IH]; intros t Hp Hn; cbn [foldl length] in *.
  - unfold acts_left in Hn. destruct (running (ct_loop t)); [|done]. destruct (ct_phase t); lia.
  - destruct (stopping_ends t a _ Hp Hn) as (Hn' & Hp' & Ho). destruct (IH _ Hp' Hn') as [Hr Ho']. split; [done|congruence].
Qed.

(** C21.  The life of the capture thread, on every backend that keeps the interface's promises,
    for every interleaving of the thread with its owner, who may call [stop] while the thread is
    in [next_frame], sleeps, or restarts its backend, and whatever the system answers.  It never
    aborts, and every frame it offers is one of the display, with all its rows.  When the thread
    has ended, however it came to that, the backend is stopped and holds nothing.  After [stop]
    has been called at most one more frame is offered, that of the turn the thread is in, and
    none if it is between two turns; the thread ends at the next look at its channel, within four
    of its actions, and [stop] then returns; when it has returned, the thread is gone. *)
Theorem capture_thread_life b a spawned now t t' :
  in_use b -> stopped b -> spawn_with_config b display a spawned now = Ok t ->
  rtc (thread_step cfg display sane) t t' ->
  ct_aborted t' = false /\
  Forall (fun p => frame_of display p.2) (offered (ct_loop t')) /\
  (running (ct_loop t') = false -> stopped (ct_backend t')) /\
  (ct_owner t' = Joined -> running (ct_loop t') = false) /\
  (forall t2, rtc (thread_step cfg display sane) (call_stop t') t2 ->
     exists l, offered (ct_loop t2) = offered (ct_loop t') ++ l /\ (length l <= 1)%nat /\ (ct_phase t' = AtTop -> l = [])) /\
  (ct_owner t' = Joining -> forall answers, Forall (fun an => sane (an_frame an)) answers -> length answers = 4%nat ->
     let t2 := foldl (thread_acts cfg display) t' answers in
     rtc (thread_step cfg display sane) t' t2 /\ running (ct_loop t2) = false /\
     thread_step cfg display sane t2 (finish_stop t2)).
Proof.
  intros Hb Hs Hsp Hrun.
  pose proof (thread_run_inv display cfg _ _ Hrun (spawn_inv display b a spawned now t Hb Hs Hsp)) as Hi.
  destruct Hi as [Hu Hp He [Hf _] Hab Hj Hd]. split_and!; try done.
  - intros t2 Hst. destruct (stopping_run _ _ Hst) as (l & Ho & Hl).
    { cbn. destruct (running (ct_loop t')); [left; lia|by right]. }
    exists l. split; [done|]. unfold still_to_offer in Hl. cbn in Hl. split.
    + destruct (ct_phase t'), (running (ct_loop t')); lia.
    + intros Etop. rewrite Etop in Hl. apply nil_length_inv. lia.
  - intros Hjo answers Hsane Hlen t2.
    assert (Hpend : (0 < ct_stops t')%nat \/ running (ct_loop t') = false).
    { destruct (running (ct_loop t')) eqn:Er; [left; by apply Hj|by right]. }
    destruct (stopping_ended answers t' Hpend) as [Hend Hown].
    { rewrite Hlen. unfold acts_left. destruct (running _), (ct_phase t'); lia. }
    split; [|split; [done|]].
    + unfold t2. clear - Hsane. revert t'. induction Hsane as [|an answers Ha _ IH]; intros t'; [done|]. cbn [foldl].
      eapply rtc_l; [by apply ThreadActs|apply IH].
    + apply OwnerJoins; [unfold t2; by rewrite Hown|done].
Qed.
End Life.

(** ** On a concrete display *)

Import DxgiExample.

Lemma small_height : uint 32 (disp_height small).
Proof. by_decide. Qed.

#[local] Instance small_laws : CaptureLaws DxgiCaptureBackend StartAnswers FrameAnswers small := dxgi_laws small small_height.

Definition one_answer : Answers StartAnswers FrameAnswers :=
  {| an_frame := frame; an_start := works true; an_took := 5; an_overrun := 0 |}.

Definition spawned : CaptureThread DxgiCaptureBackend :=
  match spawn_with_config dxgi_new small (works true) (Ok tt) 0 with
  | Ok t => t
  | Err _ => {| ct_backend := dxgi_new; ct_loop := capture_start 0; ct_phase := AtTop; ct_stops := 0; ct_aborted := false; ct_owner := Joined |}
  end.

(** The owner stops the thread while it waits in its second [next_frame]. *)
Definition stopping : CaptureThread DxgiCaptureBackend :=
  call_stop (foldl (thread_acts default_config small) spawned (replicate 4 one_answer)).

Lemma capture_thread_life_witness :
  length (offered (ct_loop stopping)) = 1%nat /\ ct_phase stopping = InNextFrame /\
  running (ct_loop (foldl (thread_acts default_config small) stopping (replicate 4 one_answer))) = false /\
  length (offered (ct_loop (foldl (thread_acts default_config small) stopping (replicate 4 one_answer)))) = 2%nat /\
  Forall (fun p => frame_of small p.2) (offered (ct_loop stopping)).
Proof.
  destruct (capture_thread_life small default_config dxgi_new (works true) (Ok tt) 0 spawned stopping)
    as (_ & Hf & _ & _ & _ & Hend).
  - split; [constructor|done].
  - done.
  - reflexivity.
  - do 4 (eapply rtc_l; [eapply (ThreadActs _ _ _ _ one_answer); exact frame_maps|]).
    eapply rtc_l; [apply OwnerStops|]. apply rtc_refl.
  - split; [vm_compute; reflexivity|]. split; [vm_compute; reflexivity|].
    split; [|split; [vm_compute; reflexivity|exact Hf]].
    apply (Hend eq_refl (replicate 4 one_answer)); [|reflexivity]. apply Forall_replicate. exact frame_maps.
Defined.
