(* ===== verification/Startup.v ===== *)
(** * The programs' command lines and start ([bw-server/src/main.rs], [bw-relay/src/bin/relay.rs])

    The arguments of the server and of the relay, the choice between enrolling and serving, and
    the names the server's certificate carries.  The text form of socket addresses and of IPv6
    addresses is the standard library's and is left as a function. *)

From S2P Require Import Prelude Text Auth StoreDir Identity Forwarding Admission.

(** What a command line comes to: the program goes on, returns, exits with a code, or aborts
    with a message. *)
Inductive CommandLine (A : Type) : Type :=
| Proceed (a : A)
| Return (r : result string unit)
| ExitWith (code : Z)
| AbortWith (msg : string).

Arguments Proceed {A} _.
Arguments Return {A} _.
Arguments ExitWith {A} _.
Arguments AbortWith {A} _.

(** ** The server *)

Record ServerArgs := {
  sa_listen : string;
  sa_data_dir : option string;
  sa_register : option (string * string);
  sa_relay : option string;
  sa_signing_key : option string
}.

Definition server_args_default : ServerArgs :=
  {| sa_listen := DEFAULT_LISTEN; sa_data_dir := None; sa_register := None; sa_relay := None;
     sa_signing_key := None |}.

(** [parse_args]: the values collected so far, and the arguments left. *)
Fixpoint parse_server_args (c : ServerArgs) (args : list string) : CommandLine ServerArgs :=
  match args with
  | [] => Proceed c
  | arg :: rest =>
      if decide (arg = "--listen") then
        match rest with
        | v :: rest => parse_server_args {| sa_listen := v; sa_data_dir := sa_data_dir c;
            sa_register := sa_register c; sa_relay := sa_relay c; sa_signing_key := sa_signing_key c |} rest
        | [] => AbortWith "--listen requires an address"
        end
      else if decide (arg = "--data-dir") then
        match rest with
        | v :: rest => parse_server_args {| sa_listen := sa_listen c; sa_data_dir := Some v;
            sa_register := sa_register c; sa_relay := sa_relay c; sa_signing_key := sa_signing_key c |} rest
        | [] => AbortWith "--data-dir requires a path"
        end
      else if decide (arg = "--register") then
        match rest with
        | id :: password :: rest => parse_server_args {| sa_listen := sa_listen c; sa_data_dir := sa_data_dir c;
            sa_register := Some (id, password); sa_relay := sa_relay c; sa_signing_key := sa_signing_key c |} rest
        | [_] => AbortWith "--register requires a password"
        | [] => AbortWith "--register requires a device id"
        end
      else if decide (arg = "--relay") then
        match rest with
        | v :: rest => parse_server_args {| sa_listen := sa_listen c; sa_data_dir := sa_data_dir c;
            sa_register := sa_register c; sa_relay := Some v; sa_signing_key := sa_signing_key c |} rest
        | [] => AbortWith "--relay requires a relay address"
        end
      else if decide (arg = "--signing-key") then
        match rest with
        | v :: rest => parse_server_args {| sa_listen := sa_listen c; sa_data_dir := sa_data_dir c;
            sa_register := sa_register c; sa_relay := sa_relay c; sa_signing_key := Some v |} rest
        | [] => AbortWith "--signing-key requires a path"
        end
      else if decide (arg = "--help" \/ arg = "-h") then ExitWith 0
      else ExitWith 2
  end.

(** The arguments that ask for a configuration. *)
Definition option_flag (flag : string) (v : option string) : list string :=
  match v with Some v => [flag; v] | None => [] end.

Definition render_server_args (a : ServerArgs) : list string :=
  ["--listen"; sa_listen a] ++ option_flag "--data-dir" (sa_data_dir a) ++
  match sa_register a with Some (id, password) => ["--register"; id; password] | None => [] end ++
  option_flag "--relay" (sa_relay a) ++ option_flag "--signing-key" (sa_signing_key a).

(** Every configuration can be asked for, whatever text its values are, also the text of a
    flag: the parser reads it back. *)
Lemma server_args_roundtrip a :
  parse_server_args server_args_default (render_server_args a) = Proceed a.
Proof. by destruct a as [l [d|] [[i p]|] [r|] [k|]]. Qed.

(** The enrollment command in the documentation of the program, with the password behind a flag,
    takes the flag for the password and is refused with exit code 2. *)
Lemma documented_enrollment_refused id password dir :
  ~ (password = "--listen" \/ password = "--data-dir" \/ password = "--register" \/
     password = "--relay" \/ password = "--signing-key" \/ password = "--help" \/ password = "-h") ->
  parse_server_args server_args_default ["--register"; id; "--password"; password; "--data-dir"; dir] =
  ExitWith 2.
Proof.
  intros Hp. transitivity (parse_server_args {| sa_listen := DEFAULT_LISTEN; sa_data_dir := None;
    sa_register := Some (id, "--password"); sa_relay := None; sa_signing_key := None |}
    [password; "--data-dir"; dir]); [reflexivity|].
  cbn [parse_server_args]. repeat (rewrite decide_False by tauto). done.
Qed.

(** *** What the server does with them *)

Section server.
Context `{OpaqueFiles}.
Variable parse_addr : string -> option SocketAddr.

(** The ways [main] goes on: it has enrolled a device, or it serves. *)
Inductive ServerStart : Type :=
| Enrolled (r : result StoreError unit)
| NoEnrollments
| BadListenAddress
| Serving (listen : SocketAddr) (store : EnrollmentStore) (relay signing_key : option string).

(** [main], on the directory the arguments name; the directory it leaves. *)
Definition server_main (args : ServerArgs) (fresh : setup_t) (r1 r2 : list Z) (created : bool)
    (disk : list Z -> WriteOutcome) (order : EnrollmentStore -> list (list Z * file_t))
    (dir : Dir) (listing : option (list (option (list Z)))) : Dir * ServerStart :=
  match sa_register args with
  | Some (id, password) =>
      let '(dir, r) := enroll_mode fresh r1 r2 created disk order (string_bytes id)
                         (string_bytes password) dir listing in
      (dir, Enrolled r)
  | None =>
      (dir, match load_from_dir dir listing with
            | Err _ => NoEnrollments
            | Ok store =>
                match parse_addr (sa_listen args) with
                | None => BadListenAddress
                | Some addr => Serving addr store (sa_relay args) (sa_signing_key args)
                end
            end)
  end.
End server.

(** *** Names of the certificate *)

Section names.
Variable v6_text : list Z -> list Z.

(** [Display for IpAddr]. *)
Definition ip_text (ip : IpAddr) : list Z :=
  match ip with IpV4 octets => v4_text octets | IpV6 octets => v6_text octets end.

Definition LOCALHOST : list Z := string_bytes "127.0.0.1".
Definition ANY_V4 : list Z := string_bytes "0.0.0.0".

(** The subject names of [run_server]; [lan] is the local address of a socket connected to the
    outside, if the system could make one. *)
Definition san_listeners (listen : SocketAddr) (lan : option SocketAddr) : list (list Z) :=
  match listen with
  | AddrV4 octets _ =>
      let ip_str := v4_text octets in
      if decide (ip_str = ANY_V4) then
        match lan with
        | Some (AddrV4 local _) =>
            let s := v4_text local in
            if decide (s <> LOCALHOST /\ s ∉ [LOCALHOST]) then [LOCALHOST; s] else [LOCALHOST]
        | _ => [LOCALHOST]
        end
      else if decide (ip_str <> LOCALHOST) then [LOCALHOST; ip_str] else [LOCALHOST]
  | AddrV6 octets _ _ _ => [LOCALHOST; v6_text octets]
  end.

Definition octets_ok (octets : list Z) : Prop := byte_array 4 octets.

(** The certificate names the loopback address and the address the server listens on, each
    once; for a server on every interface, the address that reaches the outside. *)
Lemma san_listeners_spec listen lan :
  (forall o p f s, listen = AddrV6 o p f s -> v6_text o <> LOCALHOST) ->
  NoDup (san_listeners listen lan) /\ LOCALHOST ∈ san_listeners listen lan /\
  (ip_text (addr_ip listen) <> ANY_V4 -> ip_text (addr_ip listen) ∈ san_listeners listen lan) /\
  (forall local port, ip_text (addr_ip listen) = ANY_V4 -> (exists o p, listen = AddrV4 o p) ->
     lan = Some (AddrV4 local port) -> v4_text local ∈ san_listeners listen lan).
Proof.
  intros Hv6.
  assert (Hnd : forall s, s <> LOCALHOST -> NoDup [LOCALHOST; s]).
  { intros s Hs. apply list.NoDup_cons. split; [|apply NoDup_singleton].
    rewrite list_elem_of_singleton. congruence. }
  assert (Hin : forall s : list Z, s ∈ [LOCALHOST; s]) by (intros; right; left).
  unfold san_listeners. destruct listen as [o p|o p f s]; simpl.
  - destruct (decide (v4_text o = ANY_V4)) as [Hany|Hany].
    + split_and!; try done.
      * destruct lan as [[l ?|]|]; try apply NoDup_singleton. case_decide as Hd; [|apply NoDup_singleton].
        apply Hnd, Hd.
      * destruct lan as [[l ?|]|]; try (by left). case_decide; by left.
      * intros local port _ _ ->. destruct (decide _) as [_|Hn]; [apply Hin|].
        destruct (decide (v4_text local = LOCALHOST)) as [->|Hne]; [left|].
        destruct Hn. split; [done|]. by rewrite list_elem_of_singleton.
    + destruct (decide _) as [Hne|Heq]; (split; [|split; [by left|split; [intros _|done]]]).
      * by apply Hnd.
      * apply Hin.
      * apply NoDup_singleton.
      * destruct (decide (v4_text o = LOCALHOST)) as [->|]; [by left|done].
  - split_and!; [by apply Hnd, (Hv6 o p f s)|by left|intros _; apply Hin|].
    by intros ? ? _ (? & ? & ?).
Qed.
End names.

(** ** The relay *)

(** [decode_hex]: pairs of characters, each read as a number in base 16; slicing off a character
    boundary aborts. *)
Fixpoint decode_pairs (n i : nat) (s : list Z) : outcome (result string (list Z)) :=
  match n with
  | O => Ret (Ok [])
  | S n =>
      match str_slice s (i * 2) (i * 2 + 2) with
      | Panic => Panic
      | Ret chars =>
          match from_str_radix16 chars with
          | None => Ret (Err "invalid hex byte")
          | Some b =>
              match decode_pairs n (S i) s with
              | Ret (Ok bs) => Ret (Ok (b :: bs))
              | r => r
              end
          end
      end
  end.

Definition decode_hex (s : list Z) : outcome (result string (list Z)) :=
  if negb (length s mod 2 =? 0)%nat then Ret (Err "hex string must have even length")
  else decode_pairs (length s / 2) 0 s.

Definition encode_hex (bytes : list Z) : list Z := concat (hex_byte <$> bytes).

Lemma decode_pairs_parse n i s bytes : parse_bytes n i s = Ret (Ok bytes) -> decode_pairs n i s = Ret (Ok bytes).
Proof.
  revert i bytes; induction n as [|n IH]; intros i bytes; simpl; [by intros [= <-]|].
  destruct (str_slice s (i * 2) (i * 2 + 2)) as [p|]; [|done].
  destruct (from_str_radix16 p) as [b|]; [|done].
  destruct (parse_bytes n (S i) s) as [[bs|]|] eqn:E; try done. intros [= <-]. by rewrite (IH _ bs).
Qed.

(** What the relay prints of a token can be given back to it. *)
Lemma decode_encode_hex bytes : is_bytes bytes -> decode_hex (encode_hex bytes) = Ret (Ok bytes).
Proof.
  intros Hb. unfold decode_hex, encode_hex.
  assert (HF : Forall2 spells (hex_byte <$> bytes) bytes).
  { induction Hb; constructor; [split; [done|by left]|done]. }
  destruct (concat_spells_ascii _ _ HF) as (_ & Hl & _). rewrite Hl.
  rewrite Nat.mul_comm, Nat.Div0.mod_mul, Nat.div_mul by done. cbn [Nat.eqb negb].
  apply decode_pairs_parse, (parse_bytes_of_spells (hex_byte <$> bytes)); try done.
  by rewrite Hl, Nat.mul_comm.
Qed.

Record RelayArgs := {
  ra_listen : string;
  ra_dev_token : option (list Z);
  ra_dev_server : option SocketAddr;
  ra_rate_limit : Z;
  ra_session_expiry_ms : Z
}.

Definition relay_args_default : RelayArgs := {|
  ra_listen := "0.0.0.0:9999"; ra_dev_token := None; ra_dev_server := None;
  ra_rate_limit := 50 * 1024 * 1024 / 8; ra_session_expiry_ms := 24 * 60 * 60 * 1000
|}.

(** The usage text gives 6,250,000 bytes per second as the default. *)
Lemma relay_default_rate : ra_rate_limit relay_args_default = 6553600.
Proof. reflexivity. Qed.

Section relay_args.
Variable parse_addr : string -> option SocketAddr.

(** The loop of [main]; the first error is returned. *)
Fixpoint parse_relay_args (c : RelayArgs) (args : list string) : CommandLine RelayArgs :=
  match args with
  | [] => Proceed c
  | arg :: rest =>
      if decide (arg = "--listen") then
        match rest with
        | v :: rest => parse_relay_args {| ra_listen := v; ra_dev_token := ra_dev_token c;
            ra_dev_server := ra_dev_server c; ra_rate_limit := ra_rate_limit c;
            ra_session_expiry_ms := ra_session_expiry_ms c |} rest
        | [] => Return (Err "--listen requires an address")
        end
      else if decide (arg = "--dev-server") then
        match rest with
        | v :: rest =>
            match parse_addr v with
            | Some addr => parse_relay_args {| ra_listen := ra_listen c; ra_dev_token := ra_dev_token c;
                ra_dev_server := Some addr; ra_rate_limit := ra_rate_limit c;
                ra_session_expiry_ms := ra_session_expiry_ms c |} rest
            | None => Return (Err "invalid socket address syntax")
            end
        | [] => Return (Err "--dev-server requires an address")
        end
      else if decide (arg = "--rate-limit") then
        match rest with
        | v :: rest =>
            match parse_uint U64_MAX (string_bytes v) with
            | Some n => parse_relay_args {| ra_listen := ra_listen c; ra_dev_token := ra_dev_token c;
                ra_dev_server := ra_dev_server c; ra_rate_limit := n;
                ra_session_expiry_ms := ra_session_expiry_ms c |} rest
            | None => Return (Err "--rate-limit must be a number (bytes/sec)")
            end
        | [] => Return (Err "--rate-limit requires bytes/sec")
        end
      else if decide (arg = "--session-expiry") then
        match rest with
        | v :: rest =>
            match parse_uint U64_MAX (string_bytes v) with
            | Some n => parse_relay_args {| ra_listen := ra_listen c; ra_dev_token := ra_dev_token c;
                ra_dev_server := ra_dev_server c; ra_rate_limit := ra_rate_limit c;
                ra_session_expiry_ms := n |} rest
            | None => Return (Err "--session-expiry must be a number (ms)")
            end
        | [] => Return (Err "--session-expiry requires ms")
        end
      else if decide (arg = "--dev-token") then
        match rest with
        | v :: rest =>
            match decode_hex (string_bytes v) with
            | Panic => AbortWith "byte index is not a char boundary"
            | Ret (Err e) => Return (Err e)
            | Ret (Ok bytes) =>
                if (length bytes =? 32)%nat then
                  parse_relay_args {| ra_listen := ra_listen c; ra_dev_token := Some bytes;
                    ra_dev_server := ra_dev_server c; ra_rate_limit := ra_rate_limit c;
                    ra_session_expiry_ms := ra_session_expiry_ms c |} rest
                else Return (Err "dev token must be exactly 32 bytes (64 hex chars)")
            end
        | [] => Return (Err "--dev-token requires a hex token")
        end
      else if decide (arg = "--help" \/ arg = "-h") then Return (Ok tt)
      else Return (Err ("unknown argument: " ++ arg)%string)
  end.

(** What the loop lets through: numbers that fit 64 bits and a token of 32 bytes. *)
Definition relay_args_ok (c : RelayArgs) : Prop :=
  uint 64 (ra_rate_limit c) /\ uint 64 (ra_session_expiry_ms c) /\
  forall t, ra_dev_token c = Some t -> length t = 32%nat.

Lemma parse_digits_bound max acc s v : 0 <= acc <= max -> parse_digits max acc s = Some v -> 0 <= v <= max.
Proof.
  revert acc; induction s as [|c s IH]; intros acc Ha; simpl; [intros [= <-]; lia|].
  destruct (Z.leb_spec 48 c), (Z.leb_spec c 57); try done. simpl.
  destruct (Z.ltb_spec max (acc * 10 + (c - 48))); [done|]. apply IH. lia.
Qed.

Lemma parse_u64_bound s v : parse_uint U64_MAX s = Some v -> uint 64 v.
Proof.
  intros Hp. assert (0 <= v <= U64_MAX).
  { unfold parse_uint in Hp. repeat case_match; try done;
      eapply parse_digits_bound; [|done| |done..]; unfold U64_MAX; lia. }
  unfold uint, U64_MAX in *. lia.
Qed.

Lemma parse_relay_args_ok n c args a : (length args <= n)%nat -> relay_args_ok c ->
  parse_relay_args c args = Proceed a -> relay_args_ok a.
Proof.
  revert c args. induction n as [|n IH]; intros c args Hn Hc; destruct args as [|arg rest]; simpl in Hn; try lia.
  1, 2: by intros [= <-].
  cbn [parse_relay_args]. destruct Hc as (Hr & He & Ht).
  repeat (case_decide; [try (destruct rest as [|v rest]; [done|])|]); try done; simpl in Hn.
  - apply IH; [lia|done].
  - destruct (parse_addr v); [|done]. apply IH; [lia|done].
  - destruct (parse_uint U64_MAX (string_bytes v)) eqn:E; [|done]. apply IH; [lia|].
    apply parse_u64_bound in E. done.
  - destruct (parse_uint U64_MAX (string_bytes v)) eqn:E; [|done]. apply IH; [lia|].
    apply parse_u64_bound in E. done.
  - destruct (decode_hex (string_bytes v)) as [[bytes|]|]; try done.
    destruct (Nat.eqb_spec (length bytes) 32); [|done]. apply IH; [lia|].
    split_and!; [done..|]. by intros t [= <-].
Qed.
End relay_args.
