(* ===== verification/VideoPath.v ===== *)
(** * The server's video path ([spawn_video_pipeline] in [bw-server/src/main.rs])

    Capture thread, cursor compositor, encoder thread and forwarding task, and the bounded
    channels between them.  Each stage is the one modelled in its own file; here they run
    concurrently: a step is one stage's turn, in any order.  The channels hold [FRAME_CAPACITY]
    items; the capture and encoder threads drop what does not fit, the compositor and the
    forwarding task wait. *)

From S2P Require Import Prelude Cbor Message Capture Cursor Pixels Video Encoder.

Definition FRAME_CAPACITY : nat := 4.

(** The compositor's turn on one frame: the cursor is drawn into the buffer. *)
Definition set_buffer (buf : list Z) (f : Frame) : Frame :=
  {| fwidth := fwidth f; fheight := fheight f; stride := stride f; timestamp_us := timestamp_us f;
     pixel_format := pixel_format f; buffer := buf; dirty_rects := dirty_rects f;
     move_rects := move_rects f; cursor := cursor f; is_refresh := is_refresh f |}.

Definition composite (f : Frame) : outcome Frame :=
  match cursor f with
  | None => Ret f
  | Some c =>
      match composite_cursor (buffer f) (stride f) (fwidth f) (fheight f) (cursor_x c) (cursor_y c)
              (cursor_visible c) with
      | Ret buf => Ret (set_buffer buf f)
      | Panic => Panic
      end
  end.

Section path.
Context {E : Type} `{OpenH264 E} `{Cbor VideoPayload}.

(** [compositing]: the thread lives; [held]: the frame it is about to send.  [forwarding]: the
    task that turns encoded frames into messages lives; [outgoing] is the session's queue, which
    audio and clipboard share; [session] is whether its receiver is there. *)
Record Path := {
  captured : list Frame;
  compositing : bool;
  held : option Frame;
  composited : list Frame;
  encoding : Pipeline E;
  encoded : list EncodedFrame;
  forwarding : bool;
  outgoing : list ProtocolMessage;
  session : bool
}.

(** Everything is in place and empty. *)
Definition path_new (b : OpenH264Backend E) : Path := {|
  captured := []; compositing := true; held := None; composited := [];
  encoding := pipeline_new b; encoded := []; forwarding := true; outgoing := []; session := true
|}.

Inductive path_label : Type :=
| OfferFrame (f : Frame) (taken : bool)
| CompositeFrame (f : Frame)
| SendComposited
| EncodeNewest (f : Frame)
| ForwardFrame (m : option ProtocolMessage)
| SessionSends (m : ProtocolMessage)
| OtherMessage (m : ProtocolMessage)
| PathEnds.

Definition set_captured (q : list Frame) (p : Path) : Path :=
  {| captured := q; compositing := compositing p; held := held p; composited := composited p;
     encoding := encoding p; encoded := encoded p; forwarding := forwarding p;
     outgoing := outgoing p; session := session p |}.

Definition set_compositor (alive : bool) (h : option Frame) (q2 : list Frame) (p : Path) : Path :=
  {| captured := captured p; compositing := alive; held := h; composited := q2;
     encoding := encoding p; encoded := encoded p; forwarding := forwarding p;
     outgoing := outgoing p; session := session p |}.

Definition set_encoding (q2 : list Frame) (e : Pipeline E) (q3 : list EncodedFrame) (p : Path) : Path :=
  {| captured := captured p; compositing := compositing p; held := held p; composited := q2;
     encoding := e; encoded := q3; forwarding := forwarding p; outgoing := outgoing p;
     session := session p |}.

Definition set_forwarding (q3 : list EncodedFrame) (alive : bool) (out : list ProtocolMessage) (s : bool)
    (p : Path) : Path :=
  {| captured := captured p; compositing := compositing p; held := held p; composited := composited p;
     encoding := encoding p; encoded := q3; forwarding := alive; outgoing := out; session := s |}.

(** [frame_tx.try_send]: the capture thread ignores the answer. *)
Definition offer (f : Frame) (p : Path) : Path * bool :=
  if compositing p && (length (captured p) <? FRAME_CAPACITY)%nat
  then (set_captured (captured p ++ [f]) p, true) else (p, false).

(** What [encoded_tx.try_send] says to the encoder. *)
Definition try_send_encoded (p : Path) : SendResult :=
  if negb (forwarding p) then Closed
  else if (length (encoded p) <? FRAME_CAPACITY)%nat then Sent else Full.

(** The encoder's turn on the frames that wait; a turn that aborts ends the thread. *)
Definition encode_turn (first : Frame) (newer : list Frame) (p : Path) : Path :=
  match pipeline_turn (encoding p) first newer (try_send_encoded p) with
  | Ret e => set_encoding [] e (encoded p ++ drop (length (log (encoding p))) (log e).*2) p
  | Panic =>
      set_encoding [] {| backend := backend (encoding p); sequence := sequence (encoding p);
                         log := log (encoding p); dropped := dropped (encoding p); open := false |}
        (encoded p) p
  end.

(** The message of an encoded frame; a frame that cannot be serialized is skipped. *)
Definition video_message (ef : EncodedFrame) : option ProtocolMessage :=
  match video_data {| encoded_frame := to_bytes ef |} with Ok m => Some m | Err _ => None end.

Inductive path_step : Path -> path_label -> Path -> Prop :=
| PathOffer p f : path_step p (OfferFrame f (snd (offer f p))) (fst (offer f p))
| PathComposite p f fs g : compositing p = true -> held p = None -> captured p = f :: fs ->
    composite (drain f fs) = Ret g ->
    path_step p (CompositeFrame (drain f fs)) (set_captured [] (set_compositor true (Some g) (composited p) p))
| PathCompositeAbort p f fs : compositing p = true -> held p = None -> captured p = f :: fs ->
    composite (drain f fs) = Panic ->
    path_step p PathEnds (set_captured [] (set_compositor false None (composited p) p))
| PathSend p g : compositing p = true -> held p = Some g -> open (encoding p) = true ->
    (length (composited p) < FRAME_CAPACITY)%nat ->
    path_step p SendComposited (set_compositor true None (composited p ++ [g]) p)
| PathSendFails p g : compositing p = true -> held p = Some g -> open (encoding p) = false ->
    path_step p PathEnds (set_captured [] (set_compositor false None (composited p) p))
| PathEncode p f fs : open (encoding p) = true -> composited p = f :: fs ->
    path_step p (EncodeNewest (drain f fs)) (encode_turn f fs p)
| PathForward p ef rest m : forwarding p = true -> encoded p = ef :: rest ->
    video_message ef = Some m -> session p = true -> (length (outgoing p) < FRAME_CAPACITY)%nat ->
    path_step p (ForwardFrame (Some m)) (set_forwarding rest true (outgoing p ++ [m]) true p)
| PathForwardSkip p ef rest : forwarding p = true -> encoded p = ef :: rest -> video_message ef = None ->
    path_step p (ForwardFrame None) (set_forwarding rest true (outgoing p) (session p) p)
| PathForwardFails p ef rest m : forwarding p = true -> encoded p = ef :: rest ->
    video_message ef = Some m -> session p = false ->
    path_step p PathEnds (set_forwarding rest false (outgoing p) false p)
| PathSessionSends p m rest : session p = true -> outgoing p = m :: rest ->
    path_step p (SessionSends m) (set_forwarding (encoded p) (forwarding p) rest true p)
| PathOther p m : session p = true -> (length (outgoing p) < FRAME_CAPACITY)%nat ->
    path_step p (OtherMessage m)
      (set_forwarding (encoded p) (forwarding p) (outgoing p ++ [m]) true p)
| PathSessionEnds p : session p = true ->
    path_step p PathEnds (set_forwarding (encoded p) (forwarding p) [] false p).

Inductive path_exec : Path -> list path_label -> Path -> Prop :=
| PathNil p : path_exec p [] p
| PathSnoc p tr p1 l p2 : path_exec p tr p1 -> path_step p1 l p2 -> path_exec p (tr ++ [l]) p2.

(** ** What a trace did *)

(** The frames the capture thread offered. *)
Definition offered_in (tr : list path_label) : list Frame :=
  omap (fun l => match l with OfferFrame f _ => Some f | _ => None end) tr.

(** The frames the encoder was given. *)
Definition encoded_in (tr : list path_label) : list Frame :=
  omap (fun l => match l with EncodeNewest f => Some f | _ => None end) tr.

(** The video messages that left for the session's queue. *)
Definition forwarded_in (tr : list path_label) : list ProtocolMessage :=
  omap (fun l => match l with ForwardFrame m => m | _ => None end) tr.

(** A frame with the cursor drawn. *)
Definition drawn (f : Frame) : option Frame := match composite f with Ret g => Some g | Panic => None end.

Record path_inv (tr : list path_label) (p : Path) : Prop := {
  path_frames : encoded_in tr ++ composited p ++ option_list (held p) ++ omap drawn (captured p)
                  `sublist_of` omap drawn (offered_in tr);
  path_messages : forwarding p = true -> omap video_message (log (encoding p)).*2 =
                  forwarded_in tr ++ omap video_message (encoded p);
  path_prefix : forwarded_in tr `prefix_of` omap video_message (log (encoding p)).*2;
  path_bounds : (length (captured p) <= FRAME_CAPACITY)%nat /\ (length (composited p) <= FRAME_CAPACITY)%nat /\
                (length (encoded p) <= FRAME_CAPACITY)%nat /\ (length (outgoing p) <= FRAME_CAPACITY)%nat
}.
End path.

Lemma drain_last first newer : exists before, first :: newer = before ++ [drain first newer].
Proof.
  unfold drain. induction newer as [|f newer IH] using rev_ind; [by exists []|].
  exists (first :: newer). by rewrite foldl_app.
Qed.

Section path_proofs.
Context {E : Type} `{OpenH264 E} `{Cbor VideoPayload}.
Implicit Types p : @Path E.

Lemma pipeline_turn_log (q : Pipeline E) first newer r q' :
  pipeline_turn q first newer r = Ret q' ->
  log q' = log q \/ r = Sent /\ exists x, log q' = log q ++ [x].
Proof.
  unfold pipeline_turn. destruct (encode_frame _ _ _) as [[b [ef|e]]|]; simpl; [|intros [= <-]; by left|done].
  destruct r; intros [= <-]; simpl; eauto.
Qed.

(** The encoder's turn: what it adds to the log it puts in the channel. *)
Lemma encode_turn_spec first newer p :
  let p' := encode_turn first newer p in
  captured p' = captured p /\ compositing p' = compositing p /\ held p' = held p /\
  composited p' = [] /\ forwarding p' = forwarding p /\ outgoing p' = outgoing p /\ session p' = session p /\
  exists new, (log (encoding p')).*2 = (log (encoding p)).*2 ++ new /\ encoded p' = encoded p ++ new /\
    (length (encoded p) <= FRAME_CAPACITY -> length (encoded p') <= FRAME_CAPACITY)%nat.
Proof.
  unfold encode_turn. simpl.
  destruct (pipeline_turn _ _ _ _) as [q|] eqn:Et; simpl; split_and!; try done;
    [|exists []; by rewrite !app_nil_r].
  apply pipeline_turn_log in Et as [Hl|(Hr & [d ef] & Hl)]; rewrite Hl.
  - exists []. rewrite app_nil_r, drop_ge by (rewrite length_fmap; lia). by rewrite app_nil_r.
  - exists [ef]. rewrite fmap_app. simpl. rewrite drop_app_length' by by rewrite length_fmap.
    split_and!; [done..|]. unfold try_send_encoded in Hr. destruct (forwarding p); [|done]. simpl in Hr.
    destruct (Nat.ltb_spec (length (encoded p)) FRAME_CAPACITY); [|done]. rewrite length_app. simpl. lia.
Qed.

Lemma sublist_drained {A} (f : Frame -> option A) first newer x : f (drain first newer) = Some x ->
  [x] `sublist_of` omap f (first :: newer).
Proof.
  intros Hx. destruct (drain_last first newer) as [before ->]. rewrite omap_app. simpl. rewrite Hx.
  apply sublist_inserts_l. done.
Qed.

Lemma path_frames_step tr p l p' : path_step p l p' -> path_inv tr p ->
  encoded_in (tr ++ [l]) ++ composited p' ++ option_list (held p') ++ omap drawn (captured p')
    `sublist_of` omap drawn (offered_in (tr ++ [l])).
Proof.
  intros Hstep [Hf _ _ _]. unfold encoded_in, offered_in in *. rewrite !omap_app.
  destruct Hstep as [p f|p f fs g Hc Hh Hq Hg|p f fs Hc Hh Hq Hg|p g Hc Hh Ho Hl|p g Hc Hh Ho|p f fs Ho Hq
    |p ef rest m Ha Hq Hm Hs Hl|p ef rest Ha Hq Hm|p ef rest m Ha Hq Hm Hs|p m rest Hs Hq|p m Hs Hl|p Hs];
    simpl; rewrite ?app_nil_r; try exact Hf.
  - unfold offer. destruct (_ && _); simpl.
    + rewrite omap_app. simpl. rewrite !app_assoc. rewrite !app_assoc in Hf.
      apply sublist_app; [done|by destruct (drawn f)].
    + by apply sublist_inserts_r.
  - rewrite Hh, Hq in Hf. etrans; [|exact Hf]. apply sublist_app; [done|].
    apply sublist_app; [done|]. cbn [option_list app]. apply sublist_drained. unfold drawn. by rewrite Hg.
  - etrans; [|exact Hf]. apply sublist_app; [done|]. by apply sublist_inserts_r.
  - rewrite Hh in Hf. by rewrite <- app_assoc.
  - etrans; [|exact Hf]. apply sublist_app; [done|]. by apply sublist_inserts_r.
  - destruct (encode_turn_spec f fs p) as (-> & _ & -> & -> & _). etrans; [|exact Hf].
    rewrite <- app_assoc. apply sublist_app; [done|]. rewrite Hq. apply sublist_app; [|done].
    destruct (drain_last f fs) as [before ->]. by apply sublist_inserts_l.
Qed.

Lemma path_inv_step tr p l p' : path_step p l p' -> path_inv tr p -> path_inv (tr ++ [l]) p'.
Proof.
  intros Hstep Hinv. pose proof (path_frames_step _ _ _ _ Hstep Hinv) as Hfr.
  destruct Hinv as [_ Hm Hp (B1 & B2 & B3 & B4)].
  destruct Hstep as [p f|p f fs g Hc Hh Hq Hg|p f fs Hc Hh Hq Hg|p g Hc Hh Ho Hl|p g Hc Hh Ho|p f fs Ho Hq
    |p ef rest m Ha Hq Hvm Hs Hl|p ef rest Ha Hq Hvm|p ef rest m Ha Hq Hvm Hs|p m rest Hs Hq|p m Hs Hl|p Hs];
    (constructor; [exact Hfr|..]); clear Hfr; unfold forwarded_in in *; rewrite ?omap_app; simpl;
    rewrite ?app_nil_r; auto; try (split_and!; simpl; lia).
  - unfold offer. by destruct (_ && _).
  - unfold offer. by destruct (_ && _).
  - unfold offer. destruct (Nat.ltb_spec (length (captured p)) FRAME_CAPACITY), (compositing p);
      simpl; rewrite ?length_app; simpl; split_and!; lia.
  - rewrite length_app. simpl. split_and!; lia.
  - destruct (encode_turn_spec f fs p) as (_ & _ & _ & _ & -> & _ & _ & new & -> & -> & _).
    intros Hfw. rewrite !omap_app, (Hm Hfw). by rewrite <- app_assoc.
  - destruct (encode_turn_spec f fs p) as (_ & _ & _ & _ & _ & _ & _ & new & -> & _).
    rewrite omap_app. by apply prefix_app_r.
  - destruct (encode_turn_spec f fs p) as (-> & _ & _ & -> & _ & -> & _ & new & _ & _ & Hb).
    simpl. split_and!; lia.
  - intros _. rewrite (Hm Ha), Hq. simpl. rewrite Hvm, <- app_assoc. done.
  - rewrite (Hm Ha), Hq. simpl. rewrite Hvm. eexists. by rewrite <- app_assoc.
  - rewrite Hq in B3. simpl in B3. rewrite length_app. simpl. split_and!; lia.
  - intros _. rewrite (Hm Ha), Hq. simpl. by rewrite Hvm.
  - rewrite Hq in B3. simpl in B3. split_and!; lia.
  - done.
  - rewrite Hq in B3. simpl in B3. split_and!; lia.
  - rewrite Hq in B4. simpl in B4. split_and!; lia.
  - rewrite length_app. simpl. split_and!; lia.
Qed.

Lemma path_inv_new (b : OpenH264Backend E) : path_inv [] (path_new b).
Proof. constructor; simpl; try done. split_and!; lia. Qed.

Lemma path_inv_exec p0 tr p : path_exec p0 tr p -> path_inv [] p0 -> path_inv tr p.
Proof. induction 1; [done|]. eauto using path_inv_step. Qed.

(** ** Fresh pictures *)

(** The turns of the compositor and of the encoder. *)
Definition is_turn (l : path_label) : bool :=
  match l with CompositeFrame _ | SendComposited | EncodeNewest _ => true | _ => false end.

Definition turns (tr : list path_label) : nat := length (filter (fun l => is_turn l = true) tr).

Definition waiting (p : Path (E := E)) : nat := match composited p with [] => 0 | _ => 1 end.

Definition in_hand (p : Path (E := E)) : nat := match held p with Some _ => 1 | None => 0 end.

Lemma path_exec_app p tr p1 tr' p2 : path_exec p tr p1 -> path_exec p1 tr' p2 -> path_exec p (tr ++ tr') p2.
Proof.
  intros H1 H2. induction H2 as [|p1 tr' p2 l p3 _ IH Hs]; [by rewrite app_nil_r|].
  rewrite app_assoc. econstructor; [by apply IH|done].
Qed.

Lemma path_exec_one p l p' : path_step p l p' -> path_exec p [l] p'.
Proof. intros Hs. apply (PathSnoc _ [] p); [constructor|done]. Qed.

(** While the two threads run and a frame waits for one of them, one of them can move. *)
Lemma path_moves p : compositing p = true -> open (encoding p) = true ->
  captured p <> [] \/ held p <> None \/ composited p <> [] ->
  exists l p', path_step p l p' /\ (is_turn l = true \/ l = PathEnds).
Proof.
  intros Hc Ho Hw. destruct (composited p) as [|f fs] eqn:Ec.
  2: { eexists _, _. split; [by apply PathEncode|by left]. }
  destruct (held p) as [g|] eqn:Eh.
  { eexists _, _. split; [apply (PathSend p g); try done; rewrite Ec; unfold FRAME_CAPACITY; simpl; lia|by left]. }
  destruct (captured p) as [|f fs] eqn:Eq; [naive_solver|]. destruct (composite (drain f fs)) as [g|] eqn:Eg.
  - eexists _, _. split; [by apply PathComposite|by left].
  - eexists _, _. split; [by eapply PathCompositeAbort|by right].
Qed.

Section fresh.
Context (newest : Frame).

(** A frame drawn from [newest] or from one that was offered in [tr]. *)
Definition as_new (tr : list path_label) (g : Frame) : Prop :=
  exists h, drawn h = Some g /\ (h = newest \/ h ∈ offered_in tr).

(** How far such a frame has come, [tr] after it was captured; how many older frames can still be
    encoded before it, or, when a thread has ended, in its place. *)
Inductive progress (tr : list path_label) (p : Path (E := E)) : Prop :=
| NewEncoded g : g ∈ encoded_in tr -> as_new tr g -> progress tr p
| NewCaptured fs h : captured p = fs ++ [h] -> h = newest \/ h ∈ offered_in tr ->
    (length (encoded_in tr) + waiting p + in_hand p <= 2)%nat -> progress tr p
| NewInHand g : held p = Some g -> as_new tr g -> Forall (fun h => h ∈ offered_in tr) (captured p) ->
    (length (encoded_in tr) + waiting p <= 2)%nat -> progress tr p
| NewComposited l g : composited p = l ++ [g] -> as_new tr g -> Forall (fun h => h ∈ offered_in tr) (captured p) ->
    (forall g, held p = Some g -> as_new tr g) -> (length (encoded_in tr) <= 2)%nat -> progress tr p
| NewLost : compositing p = false -> (length (encoded_in tr) + waiting p <= 2)%nat -> progress tr p.

Lemma as_new_snoc tr l g : as_new tr g -> as_new (tr ++ [l]) g.
Proof.
  intros (h & Hd & Hh). exists h. split; [done|]. unfold offered_in in *. rewrite omap_app.
  destruct Hh as [->|Hh]; [by left|right]. apply elem_of_app. by left.
Qed.

Lemma offered_snoc tr l h : h ∈ offered_in tr -> h ∈ offered_in (tr ++ [l]).
Proof. intros Hh. unfold offered_in. rewrite omap_app. apply elem_of_app. by left. Qed.

Lemma all_offered_snoc tr l q : Forall (fun h => h ∈ offered_in tr) q -> Forall (fun h => h ∈ offered_in (tr ++ [l])) q.
Proof. apply Forall_impl. intros h. apply offered_snoc. Qed.

(** A step that leaves what the two threads have where it is. *)
Lemma progress_kept tr l p p' :
  encoded_in [l] = [] -> captured p' = captured p -> compositing p' = compositing p -> held p' = held p ->
  composited p' = composited p -> progress tr p -> progress (tr ++ [l]) p'.
Proof.
  intros Hl Hc Ha Hh Hq Hp.
  assert (He : encoded_in (tr ++ [l]) = encoded_in tr) by (unfold encoded_in in *; by rewrite omap_app, Hl, app_nil_r).
  assert (Hw : waiting p' = waiting p) by (unfold waiting; by rewrite Hq).
  assert (Hi : in_hand p' = in_hand p) by (unfold in_hand; by rewrite Hh).
  destruct Hp as [g Hg Hn|fs h Hf Hn Hlen|g Hg Hn HF Hlen|q g Hg Hn HF Hhn Hlen|Hd Hlen].
  - apply (NewEncoded _ _ g); [by rewrite He|by apply as_new_snoc].
  - apply (NewCaptured _ _ fs h); [congruence| |by rewrite He, Hw, Hi]. destruct Hn; eauto using offered_snoc.
  - apply (NewInHand _ _ g); [congruence|by apply as_new_snoc|rewrite Hc; by apply all_offered_snoc|by rewrite He, Hw].
  - apply (NewComposited _ _ q g); [congruence|by apply as_new_snoc|rewrite Hc; by apply all_offered_snoc| |by rewrite He].
    rewrite Hh. eauto using as_new_snoc.
  - apply NewLost; [congruence|by rewrite He, Hw].
Qed.

Lemma progress_offer tr p f : progress tr p -> progress (tr ++ [OfferFrame f (snd (offer f p))]) (fst (offer f p)).
Proof.
  intros Hp. unfold offer. destruct (_ && _) eqn:Hc; [|by apply (progress_kept tr _ p)]. cbn [fst snd].
  set (l := OfferFrame f true).
  assert (Hin : f ∈ offered_in (tr ++ [l])) by (unfold offered_in; rewrite omap_app; apply elem_of_app; right; by left).
  assert (He : encoded_in (tr ++ [l]) = encoded_in tr) by (unfold encoded_in; by rewrite omap_app, app_nil_r).
  destruct Hp as [g Hg Hn|fs h Hf Hn Hlen|g Hg Hn HF Hlen|q g Hg Hn HF Hhn Hlen|Hd Hlen].
  - apply (NewEncoded _ _ g); [by rewrite He|by apply as_new_snoc].
  - apply (NewCaptured _ _ (captured p) f); [done|by right|by rewrite He].
  - apply (NewInHand _ _ g); [done|by apply as_new_snoc| |by rewrite He].
    apply Forall_app. split; [by apply all_offered_snoc|by constructor].
  - apply (NewComposited _ _ q g); [done|by apply as_new_snoc| |eauto using as_new_snoc|by rewrite He].
    apply Forall_app. split; [by apply all_offered_snoc|by constructor].
  - by rewrite Hd in Hc.
Qed.

Lemma drain_of_snoc fs h f q : fs ++ [h] = f :: q -> drain f q = h.
Proof.
  intros E0. destruct (drain_last f q) as [before Hb]. rewrite <- E0 in Hb. by apply app_inj_2 in Hb as [_ [= <-]].
Qed.

Lemma drain_elem f q : drain f q ∈ f :: q.
Proof. destruct (drain_last f q) as [before ->]. apply elem_of_app. right. by left. Qed.

Lemma progress_composite tr p f fs g : compositing p = true -> held p = None -> captured p = f :: fs ->
  composite (drain f fs) = Ret g -> progress tr p ->
  progress (tr ++ [CompositeFrame (drain f fs)]) (set_captured [] (set_compositor true (Some g) (composited p) p)).
Proof.
  intros Hc Hh Hq Hg Hp. set (l := CompositeFrame _).
  assert (He : encoded_in (tr ++ [l]) = encoded_in tr) by (unfold encoded_in; by rewrite omap_app, app_nil_r).
  assert (Hdr : drawn (drain f fs) = Some g) by (unfold drawn; by rewrite Hg).
  destruct Hp as [g' Hg' Hn|fs' h Hf Hn Hlen|g' Hg' Hn HF Hlen|q g' Hg' Hn HF Hhn Hlen|Hd Hlen]; try congruence.
  - apply (NewEncoded _ _ g'); [by rewrite He|by apply as_new_snoc].
  - apply (NewInHand _ _ g); [done| |constructor|rewrite He; unfold waiting in *; cbn; lia].
    apply as_new_snoc. exists h. rewrite Hq in Hf. symmetry in Hf. by rewrite (drain_of_snoc _ _ _ _ Hf) in Hdr.
  - apply (NewComposited _ _ q g'); [done|by apply as_new_snoc|constructor| |by rewrite He].
    intros ? [= <-]. apply as_new_snoc. exists (drain f fs). split; [done|]. right. rewrite Hq in HF.
    rewrite list.Forall_forall in HF. apply HF, drain_elem.
Qed.

Lemma progress_send tr p g : compositing p = true -> held p = Some g -> progress tr p ->
  progress (tr ++ [SendComposited]) (set_compositor true None (composited p ++ [g]) p).
Proof.
  intros Hc Hh Hp.
  assert (He : encoded_in (tr ++ [SendComposited]) = encoded_in tr) by (unfold encoded_in; by rewrite omap_app, app_nil_r).
  destruct Hp as [g' Hg' Hn|fs' h Hf Hn Hlen|g' Hg' Hn HF Hlen|q g' Hg' Hn HF Hhn Hlen|Hd Hlen]; try congruence.
  - apply (NewEncoded _ _ g'); [by rewrite He|by apply as_new_snoc].
  - apply (NewCaptured _ _ fs' h); [done|destruct Hn; eauto using offered_snoc|].
    rewrite He. unfold waiting, in_hand in *. rewrite Hh in Hlen. cbn. destruct (composited p); cbn in *; lia.
  - apply (NewComposited _ _ (composited p) g); [done| |by apply all_offered_snoc|done|rewrite He; lia].
    apply as_new_snoc. congruence.
  - apply (NewComposited _ _ (composited p) g); [done|apply as_new_snoc; eauto|by apply all_offered_snoc|done|by rewrite He].
Qed.

(** A compositor that ends, with or without a frame in its hand. *)
Lemma progress_ends tr p : compositing p = true -> progress tr p ->
  progress (tr ++ [PathEnds]) (set_captured [] (set_compositor false None (composited p) p)).
Proof.
  intros Hc Hp.
  assert (He : encoded_in (tr ++ [PathEnds]) = encoded_in tr) by (unfold encoded_in; by rewrite omap_app, app_nil_r).
  destruct Hp as [g' Hg' Hn|fs' h Hf Hn Hlen|g' Hg' Hn HF Hlen|q g' Hg' Hn HF Hhn Hlen|Hd Hlen]; try congruence.
  - apply (NewEncoded _ _ g'); [by rewrite He|by apply as_new_snoc].
  - apply NewLost; [done|]. rewrite He. unfold waiting in *. cbn. lia.
  - apply NewLost; [done|]. rewrite He. unfold waiting in *. cbn. lia.
  - apply (NewComposited _ _ q g'); [done|by apply as_new_snoc|constructor|done|by rewrite He].
Qed.

Lemma progress_encode tr p f fs : composited p = f :: fs -> progress tr p ->
  progress (tr ++ [EncodeNewest (drain f fs)]) (encode_turn f fs p).
Proof.
  intros Hq Hp. destruct (encode_turn_spec f fs p) as (Ec & Ea & Eh & Eq & _). set (l := EncodeNewest _).
  assert (He : encoded_in (tr ++ [l]) = encoded_in tr ++ [drain f fs]) by (unfold encoded_in; by rewrite omap_app).
  assert (Hw : waiting p = 1%nat) by (unfold waiting; by rewrite Hq).
  assert (Hw' : waiting (encode_turn f fs p) = 0%nat) by (unfold waiting; by rewrite Eq).
  destruct Hp as [g' Hg' Hn|fs' h Hf Hn Hlen|g' Hg' Hn HF Hlen|q g' Hg' Hn HF Hhn Hlen|Hd Hlen].
  - apply (NewEncoded _ _ g'); [rewrite He; apply elem_of_app; by left|by apply as_new_snoc].
  - apply (NewCaptured _ _ fs' h); [congruence|destruct Hn; eauto using offered_snoc|].
    rewrite He, length_app, Hw'. unfold in_hand in *. rewrite Eh. cbn. lia.
  - apply (NewInHand _ _ g'); [congruence|by apply as_new_snoc|rewrite Ec; by apply all_offered_snoc|].
    rewrite He, length_app, Hw'. cbn. lia.
  - apply (NewEncoded _ _ g'); [|by apply as_new_snoc]. rewrite He. apply elem_of_app. right.
    rewrite Hq in Hg'. symmetry in Hg'. rewrite (drain_of_snoc _ _ _ _ Hg'). by left.
  - apply NewLost; [congruence|]. rewrite He, length_app, Hw'. cbn. lia.
Qed.

Lemma progress_step tr p l p' : path_step p l p' -> progress tr p -> progress (tr ++ [l]) p'.
Proof.
  destruct 1; intros Hp; try (by apply (progress_kept tr _ p));
    eauto using progress_offer, progress_composite, progress_ends, progress_send, progress_encode.
Qed.

Lemma progress_exec p tr p' fs : captured p = fs ++ [newest] -> path_exec p tr p' -> progress tr p'.
Proof.
  intros Hc Hex. induction Hex as [p|p tr p1 l p2 _ IH Hs]; [|eauto using progress_step].
  apply (NewCaptured _ _ fs newest); [done|by left|]. unfold waiting, in_hand. destruct (composited p), (held p); cbn; lia.
Qed.

(** Of three frames that are encoded after it, one is as new. *)
Lemma third_is_new p tr p' fs : captured p = fs ++ [newest] -> path_exec p tr p' -> (3 <= length (encoded_in tr))%nat ->
  exists g, g ∈ encoded_in tr /\ as_new tr g.
Proof. intros Hc Hex Hl. destruct (progress_exec p tr p' fs Hc Hex) as [g Hg Hn| | | |]; [by exists g|lia..]. Qed.
End fresh.

(** The compositor cannot go on for ever without the encoder. *)
Definition fill (p : Path (E := E)) : nat :=
  2 * length (composited p) + (if compositing p then in_hand p else 1).

Lemma turns_snoc tr l : turns (tr ++ [l]) = (turns tr + if is_turn l then 1 else 0)%nat.
Proof.
  unfold turns. rewrite list.filter_app, list.filter_cons, filter_nil. rewrite length_app.
  destruct (is_turn l); [by rewrite decide_True|by rewrite decide_False].
Qed.

Lemma encoded_snoc tr l : length (encoded_in (tr ++ [l])) = (length (encoded_in tr) + length (encoded_in [l]))%nat.
Proof. unfold encoded_in. by rewrite omap_app, length_app. Qed.

Lemma fill_step p l p' : path_step p l p' -> (length (composited p) <= FRAME_CAPACITY)%nat ->
  ((if is_turn l then 1 else 0) + fill p <= fill p' + 9 * length (encoded_in [l]))%nat.
Proof.
  intros Hs Hb. destruct Hs as [p f|p f fs g Hc Hh Hq Hg|p f fs Hc Hh Hq Hg|p g Hc Hh Ho Hl|p g Hc Hh Ho|p f fs Ho Hq
    |p ef rest m Ha Hq Hvm Hs Hl|p ef rest Ha Hq Hvm|p ef rest m Ha Hq Hvm Hs|p m rest Hs Hq|p m Hs Hl|p Hs];
    unfold fill, in_hand; cbn [is_turn encoded_in omap list_omap length]; try (cbn; lia).
  - unfold offer. destruct (_ && _); cbn; lia.
  - rewrite Hc, Hh. cbn. lia.
  - rewrite Hc, Hh. cbn. lia.
  - rewrite Hc, Hh. cbn. rewrite length_app. cbn. lia.
  - rewrite Hc, Hh. cbn. lia.
  - destruct (encode_turn_spec f fs p) as (_ & -> & -> & -> & _). unfold FRAME_CAPACITY in Hb. cbn. destruct (compositing p), (held p); lia.
Qed.

Lemma turns_bounded p0 tr0 p tr p' : path_exec p0 tr0 p -> path_inv [] p0 -> path_exec p tr p' ->
  (turns tr <= 9 + 9 * length (encoded_in tr))%nat.
Proof.
  intros Hb0 Hi Hex.
  assert (Hfill : (turns tr + fill p <= fill p' + 9 * length (encoded_in tr))%nat).
  { revert Hb0. induction Hex as [p|p tr p1 l p2 Hex IH Hs]; intros Hb0; [cbn; lia|]. specialize (IH Hb0).
    destruct (path_inv_exec _ _ _ (path_exec_app _ _ _ _ _ Hb0 Hex) Hi) as [_ _ _ (_ & Hb & _)].
    pose proof (fill_step _ _ _ Hs Hb). rewrite turns_snoc, encoded_snoc. lia. }
  destruct (path_inv_exec _ _ _ (path_exec_app _ _ _ _ _ Hb0 Hex) Hi) as [_ _ _ (_ & Hb & _)].
  assert (fill p' <= 9)%nat; [|lia]. unfold fill, in_hand, FRAME_CAPACITY in *. destruct (compositing p'), (held p'); lia.
Qed.


(** What the viewer reads from a message is what the encoder made. *)
Lemma video_message_read `{!CborLaws VideoPayload} ef m :
  video_message ef = Some m -> exists payload, as_video_data m = Some payload /\
    from_bytes (encoded_frame payload) = from_bytes (to_bytes ef).
Proof.
  unfold video_message, video_data. destruct (build _ _) as [m'|] eqn:Eb; [|done]. intros [= ->].
  apply build_read in Eb as [Ht Hr]. exists {| encoded_frame := to_bytes ef |}.
  unfold as_video_data. by rewrite decide_True.
Qed.

End path_proofs.

Module VideoPathExample.
#[export] Existing Instance toy_h264.
#[export] Existing Instance toy_h264_laws.
#[export] Instance video_cbor : Cbor VideoPayload := countable_cbor VideoPayload.

Definition screen : Frame := black_frame 2 2.
Definition empty_path : Path (E := bool) := path_new backend_new.
Definition one_frame : Path (E := bool) := fst (offer screen empty_path).

Lemma one_frame_offered : path_exec empty_path [OfferFrame screen true] one_frame.
Proof. apply (PathSnoc _ [] empty_path); [constructor|]. exact (PathOffer empty_path screen). Defined.

(** A frame that is captured goes through the compositor to the encoder. *)
Definition through : list path_label := [CompositeFrame screen; SendComposited; EncodeNewest screen].

Definition after_through (p : Path (E := bool)) : Path (E := bool) :=
  encode_turn screen [] (set_compositor true None [screen] (set_captured [] (set_compositor true (Some screen) [] p))).

Lemma through_happens (p : Path (E := bool)) :
  compositing p = true -> held p = None -> captured p = [screen] -> composited p = [] -> open (encoding p) = true ->
  path_exec p through (after_through p).
Proof.
  intros Hc Hh Hq He Ho. apply (PathSnoc _ [_; _] (set_compositor true None [screen] (set_captured [] (set_compositor true (Some screen) [] p)))).
  2: { by apply (PathEncode _ screen []). }
  apply (PathSnoc _ [_] (set_captured [] (set_compositor true (Some screen) [] p))).
  2: { apply (PathSend (set_captured [] (set_compositor true (Some screen) [] p)) screen); try done. cbn. unfold FRAME_CAPACITY. lia. }
  apply (PathSnoc _ [] p); [constructor|]. rewrite <- He at 2. by apply (PathComposite p screen [] screen).
Defined.

Definition second : Path (E := bool) := fst (offer screen (after_through one_frame)).
Definition third : Path (E := bool) := fst (offer screen (after_through second)).

Definition three : list path_label :=
  through ++ [OfferFrame screen true] ++ through ++ [OfferFrame screen true] ++ through.

Lemma three_happen : path_exec one_frame three (after_through third).
Proof.
  eapply path_exec_app; [by apply through_happens|]. eapply path_exec_app.
  { apply path_exec_one. exact (PathOffer (after_through one_frame) screen). }
  eapply path_exec_app; [by apply (through_happens second)|]. eapply path_exec_app.
  { apply path_exec_one. exact (PathOffer (after_through second) screen). }
  by apply (through_happens third).
Defined.
End VideoPathExample.

Import VideoPathExample.

