(* ===== verification/Endpoints.v ===== *)
(** * QUIC endpoints and who they trust ([bw-transport/src/server.rs, client.rs],
      [bw-client/src/main.rs], [bw-server/src/main.rs])

    The constructors of the server's and the client's endpoints with the certificate, the
    verifier, the socket and the keep-alive each configures; the way [run_session] of the
    viewer comes to its endpoint, through a relay or without one; and the two ways the
    server serves what it accepts.  The QUIC library and the operating system's sockets are
    an interface. *)

From S2P Require Import Prelude Text Symmetric Identity Forwarding Rendezvous RelayServer RelayClient RelaySocket Pixels Cert IceSocket Ice SigningKeys Startup Admission Client.

(** ** Configurations *)

(** The field of [TransportConfig] that is set, in seconds; the default leaves it off. *)
Record TransportConfig := { keep_alive_interval : option Z }.

Definition transport_default : TransportConfig := {| keep_alive_interval := None |}.

(** The keep-alive of endpoints behind a relay. *)
Definition relay_transport_config : TransportConfig := {| keep_alive_interval := Some 10 |}.

(** What an endpoint sends and receives through. *)
Inductive EndpointSocket : Type :=
| PlainUdp (local : SocketAddr)
| OverRelay (local : SocketAddr) (s : RelayUdpSocket)
| OverIce (s : IceSocket.System).

(** A Quinn endpoint: its socket, the configuration it accepts connections with, and the
    default one it connects with. *)
Record QuicEndpoint := {
  ep_socket : EndpointSocket;
  ep_server : option (ServerConfig * TransportConfig);
  ep_client : option (ClientConfig * TransportConfig)
}.

(** What the QUIC library and the system answer: whether a TLS configuration can be used for
    QUIC, and the calls that make a socket and an endpoint. *)
Class Quinn := {
  server_crypto : ServerConfig -> bool;
  client_crypto : ClientConfig -> bool;
  udp_bind : SocketAddr -> result string SocketAddr;
  set_nonblocking : SocketAddr -> result string unit;
  from_std : SocketAddr -> result string unit;
  new_endpoint : EndpointSocket -> result string unit
}.

Inductive QuicServerError : Type :=
| ServerIo (e : string)
| ServerCert (e : CertError)
| ServerEndpointError.

(** [EndpointStopping] is the only [ConnectError] the constructors return. *)
Inductive QuicClientError : Type :=
| ClientIo (e : string)
| ClientEndpointStopping
| ClientConnect (e : string)
| ClientConnection (e : string).

Definition LOCALHOST_NAMES : list (list Z) := [string_bytes "localhost"; string_bytes "127.0.0.1"].

(** [SocketAddrV4::new(Ipv4Addr::UNSPECIFIED, 0)] *)
Definition UNSPECIFIED : SocketAddr := AddrV4 [0; 0; 0; 0] 0.

Section endpoints.
Context `{Quinn, Rcgen, Signatures}.

(** The socket of an endpoint behind a relay. *)
Definition relay_socket (addr : SocketAddr) (relay : SocketAddr * list Z) : result string EndpointSocket :=
  let? local := udp_bind addr in
  let? _ := set_nonblocking local in
  let? _ := from_std local in
  Ok (OverRelay local {| sock_relay_addr := relay.1; sock_relay_token := relay.2 |}).

Definition with_endpoint (s : EndpointSocket) (sc : option (ServerConfig * TransportConfig))
    (cc : option (ClientConfig * TransportConfig)) : result string QuicEndpoint :=
  let? _ := new_endpoint s in
  Ok {| ep_socket := s; ep_server := sc; ep_client := cc |}.

(** *** The server's *)

(** The part that [bind] and [bind_dev] share. *)
Definition server_endpoint (tls_config : ServerConfig) (addr : SocketAddr)
    (relay : option (SocketAddr * list Z)) : result QuicServerError QuicEndpoint :=
  if negb (server_crypto tls_config) then Err ServerEndpointError
  else
    map_err ServerIo
      (match relay with
       | Some r =>
           let? s := relay_socket addr r in
           with_endpoint s (Some (tls_config, relay_transport_config)) None
       | None =>
           let? local := udp_bind addr in
           with_endpoint (PlainUdp local) (Some (tls_config, transport_default)) None
       end).

Definition server_bind (addr : SocketAddr) (relay : option (SocketAddr * list Z)) (tls_key_pair : KeyPair)
    (names : list (list Z)) : result QuicServerError QuicEndpoint :=
  let? tls_config := map_err ServerCert (generate_server_config_from_keypair tls_key_pair names) in
  server_endpoint tls_config addr relay.

Definition server_bind_dev (random : list Z) (addr : SocketAddr) (relay : option (SocketAddr * list Z)) :
    result QuicServerError QuicEndpoint :=
  let? tls_config := map_err ServerCert (generate_server_config random LOCALHOST_NAMES) in
  server_endpoint tls_config addr relay.

(** The socket over an ICE connection, from the connection's two addresses. *)
Definition server_over_ice (tls_config : ServerConfig) (local_addr : result string SocketAddr)
    (remote_addr : option SocketAddr) : result QuicServerError QuicEndpoint :=
  if negb (server_crypto tls_config) then Err ServerEndpointError
  else
    map_err ServerIo
      (let? s := ice_new local_addr remote_addr in
       with_endpoint (OverIce s) (Some (tls_config, transport_default)) None).

Definition server_bind_with_ice (local_addr : result string SocketAddr) (remote_addr : option SocketAddr)
    (tls_key_pair : KeyPair) (names : list (list Z)) : result QuicServerError QuicEndpoint :=
  let? tls_config := map_err ServerCert (generate_server_config_from_keypair tls_key_pair names) in
  server_over_ice tls_config local_addr remote_addr.

Definition server_bind_with_ice_dev (random : list Z) (local_addr : result string SocketAddr)
    (remote_addr : option SocketAddr) : result QuicServerError QuicEndpoint :=
  let? tls_config := map_err ServerCert (generate_server_config random LOCALHOST_NAMES) in
  server_over_ice tls_config local_addr remote_addr.

(** [accept]: the endpoint is closed, or an attempt has come and its handshake has ended; both
    a closed endpoint and a failed handshake give [None]. *)
Definition accept {A} (incoming : option (result string A)) : option A :=
  match incoming with
  | Some (Ok conn) => Some conn
  | Some (Err _) => None
  | None => None
  end.

(** *** The client's *)

Definition client_endpoint (tls_config : ClientConfig) (relay : option (SocketAddr * list Z)) :
    result QuicClientError QuicEndpoint :=
  if negb (client_crypto tls_config) then Err ClientEndpointStopping
  else
    map_err ClientIo
      (match relay with
       | Some r =>
           let? s := relay_socket UNSPECIFIED r in
           with_endpoint s None (Some (tls_config, relay_transport_config))
       | None =>
           let? local := udp_bind UNSPECIFIED in
           with_endpoint (PlainUdp local) None (Some (tls_config, transport_default))
       end).

Definition client_bind (relay : option (SocketAddr * list Z)) (server_id : DeviceId) :
    result QuicClientError QuicEndpoint :=
  client_endpoint (generate_pinned_client_config server_id) relay.

Definition client_bind_dev (relay : option (SocketAddr * list Z)) : result QuicClientError QuicEndpoint :=
  client_endpoint generate_dev_client_config relay.

Definition client_over_ice (tls_config : ClientConfig) (local_addr : result string SocketAddr)
    (remote_addr : option SocketAddr) : result QuicClientError QuicEndpoint :=
  if negb (client_crypto tls_config) then Err ClientEndpointStopping
  else
    map_err ClientIo
      (let? s := ice_new local_addr remote_addr in
       with_endpoint (OverIce s) None (Some (tls_config, transport_default))).

Definition client_bind_with_ice (local_addr : result string SocketAddr) (remote_addr : option SocketAddr)
    (server_id : DeviceId) : result QuicClientError QuicEndpoint :=
  client_over_ice (generate_pinned_client_config server_id) local_addr remote_addr.

Definition client_bind_with_ice_dev (local_addr : result string SocketAddr) (remote_addr : option SocketAddr) :
    result QuicClientError QuicEndpoint :=
  client_over_ice generate_dev_client_config local_addr remote_addr.

(** [connect]: the name asked for is the text of the destination's address; [start] is what
    [endpoint.connect] answers for the two, [finish] what awaiting it gives. *)
Definition quic_connect {C A} (v6_text : list Z -> list Z) (start : SocketAddr -> list Z -> result string C)
    (finish : C -> result string A) (server_addr : SocketAddr) : result QuicClientError A :=
  let sni := ip_text v6_text (addr_ip server_addr) in
  let? connecting := map_err ClientConnect (start server_addr sni) in
  map_err ClientConnection (finish connecting).

(** Whether a client accepts the certificate a server presents. *)
Definition trusts (c s : QuicEndpoint) (transcript signature : list Z) : bool :=
  match ep_client c, ep_server s with
  | Some (cc, _), Some (sc, _) =>
      match cert_chain sc with
      | cert :: _ =>
          match client_accepts cc cert transcript signature with Ok _ => true | Err _ => false end
      | [] => false
      end
  | _, _ => false
  end.
End endpoints.

(** ** How the viewer comes to its endpoint *)

(** The errors of [run_session] before it connects. *)
Inductive ViewerError : Type :=
| BadAddress
| ViewerIo (e : string)
| ViewerKey (e : KeyError)
| RelayNeedsTarget
| ViewerTarget (e : EndpointError)
| ViewerRelay (e : RelayClientError)
| ViewerQuic (e : QuicClientError).

(** Whether the viewer can make a runtime for its calls to the relay's control plane, and what it is
    answered. *)
Record ControlAnswers := {
  ca_runtime : result string unit;
  ca_connect : result RelayClientError unit;
  ca_register : result RelayClientError Z;
  ca_intent : DeviceId -> list Z -> result RelayClientError unit;
  ca_candidates : list Z -> result RelayClientError (list Z * list Candidate)
}.

(** [rt.block_on(call)?].  The runtime's documentation has [block_on] abort when it is called
    within an asynchronous execution context. *)
Definition on_runtime {A B} (in_runtime : bool) (call : result RelayClientError A)
    (k : A -> outcome (result ViewerError B)) : outcome (result ViewerError B) :=
  if in_runtime then Panic
  else match call with Err e => Ret (Err (ViewerRelay e)) | Ok a => k a end.

Section viewer.
Context `{Quinn, Signatures}.
Variable parse_addr : string -> option SocketAddr.

(** The relay branch: the key file it leaves, the viewer's own device and its endpoint. *)
Definition relay_quic (in_runtime : bool) (a : Args) (relay_addr : string) (file : KeyFile)
    (random : option (list Z)) (intent_id : list Z) (ca : ControlAnswers) :
    KeyFile * outcome (result ViewerError (DeviceId * QuicEndpoint)) :=
  match parse_addr relay_addr with
  | None => (file, Ret (Err BadAddress))
  | Some relay_sock =>
      let '(file, loaded) := load_or_generate_key file random in
      (file,
       let! loaded := loaded in
       match loaded with
       | Err e => Ret (Err (ViewerKey e))
       | Ok signing_key =>
           let! public := sk_verify_key signing_key in
           let client_device_id := derive public in
           match target_id a with
           | None => Ret (Err RelayNeedsTarget)
           | Some target_id_str =>
               let! parsed := from_str (string_bytes target_id_str) in
               match parsed with
               | Err e => Ret (Err (ViewerTarget (InvalidTargetId e)))
               | Ok target =>
                   match ca_runtime ca with
                   | Err e => Ret (Err (ViewerIo e))
                   | Ok _ =>
                       on_runtime in_runtime (ca_connect ca) (fun _ =>
                       on_runtime in_runtime (ca_register ca) (fun _ =>
                       on_runtime in_runtime (ca_intent ca target intent_id) (fun _ =>
                       on_runtime in_runtime (ca_candidates ca intent_id) (fun answer =>
                       Ret (let? c := map_err ViewerQuic (client_bind (Some (relay_sock, answer.1)) target) in
                            Ok (client_device_id, c))))))
                   end
               end
           end
       end)
  end.

(** The identity of a viewer that has none of its own. *)
Definition DIRECT_CLIENT : DeviceId := from_digest (replicate 32 1).

(** [run_session] up to the call of [connect]: the destination, the viewer's device and its
    endpoint. *)
Definition session_quic (in_runtime : bool) (a : Args) (file : KeyFile) (random : option (list Z))
    (intent_id : list Z) (ca : ControlAnswers) :
    KeyFile * outcome (result ViewerError (SocketAddr * DeviceId * QuicEndpoint)) :=
  match parse_addr (server a) with
  | None => (file, Ret (Err BadAddress))
  | Some server_addr =>
      match relay a with
      | Some relay_addr =>
          let '(file, r) := relay_quic in_runtime a relay_addr file random intent_id ca in
          (file, let! r := r in Ret (let? dc := r in Ok (server_addr, dc.1, dc.2)))
      | None =>
          (file,
           let! chosen := direct_endpoint a in
           Ret (let? e := map_err ViewerTarget chosen in
                let? c := map_err ViewerQuic
                            (match e with
                             | BindDev => client_bind_dev None
                             | BindPinned target => client_bind None target
                             end) in
                Ok (server_addr, DIRECT_CLIENT, c)))
      end
  end.
End viewer.

(** ** The server's endpoints *)

Section server.
Context `{Quinn, Rcgen, Signatures}.
Variable v6_text : list Z -> list Z.

(** What [run_server] derives from its two key files: the TLS key pair, whose identity it prints,
    and the signing key it registers with at the relay. *)
Record ServerKeys := { tls_keypair : KeyPair; server_signing_key : SigningKeyInner }.

Inductive ServerKeyError : Type := TlsKeyFailed (e : CertError) | SigningKeyFailed (e : KeyError).

(** The start of [run_server], on the files [server.tls.key] and the one of the signing key. *)
Definition server_keys (tls_file key_file : KeyFile) (tls_random : list Z) (random : option (list Z)) :
    KeyFile * KeyFile * outcome (result ServerKeyError ServerKeys) :=
  let '(tls_file, kp) := load_or_generate_tls_keypair tls_file tls_random in
  match kp with
  | Err e => (tls_file, key_file, Ret (Err (TlsKeyFailed e)))
  | Ok kp =>
      let '(key_file, sk) := load_or_generate_key key_file random in
      (tls_file, key_file,
       let! sk := sk in
       Ret (let? sk := map_err SigningKeyFailed sk in Ok {| tls_keypair := kp; server_signing_key := sk |}))
  end.

Definition server_device_id (k : ServerKeys) : DeviceId := device_id_from_keypair (tls_keypair k).

(** The endpoint of the direct mode, and the one of a relayed session. *)
Definition direct_server (k : ServerKeys) (listen : SocketAddr) (lan : option SocketAddr) :
    result QuicServerError QuicEndpoint :=
  server_bind listen None (tls_keypair k) (san_listeners v6_text listen lan).

Definition session_server (k : ServerKeys) (listen : SocketAddr) (lan : option SocketAddr)
    (relay_sock : SocketAddr) (token : list Z) : result QuicServerError QuicEndpoint :=
  server_bind listen (Some (relay_sock, token)) (tls_keypair k) (san_listeners v6_text listen lan).
End server.

(** ** Serving *)

(** How one call of [serve], the closure of the relay mode, comes out: without a session, or with
    a task it then awaits. *)
Inductive ServeEnd : Type :=
| BindFailed
| ClosedEarly
| Abandoned
| TurnedAway (r : Rejection)
| ServingTask (i : nat).

(** [serve], from the answer of [bind]; [arrival] is how long after it the endpoint's [accept]
    completes, and with what.  A task that is spawned is then awaited. *)
Definition serve (s : Server) (bound : result QuicServerError QuicEndpoint) (initiator_timeout : Z)
    (arrival : option (Z * option (result string IpAddr))) : Server * ServeEnd :=
  match bound with
  | Err _ => (s, BindFailed)
  | Ok _ =>
      let wait d := server_step s (Timers (clock s + d)) in
      match arrival with
      | Some (d, incoming) =>
          if d <=? initiator_timeout then
            match accept incoming with
            | None => (wait d, ClosedEarly)
            | Some ip =>
                let '(s, r) := spawn_session_task (wait d) ip in
                (s, match r with Ok i => ServingTask i | Err r => TurnedAway r end)
            end
          else (wait initiator_timeout, Abandoned)
      | None => (wait initiator_timeout, Abandoned)
      end
  end.

(** Whether [task.await] in [serve] still waits. *)
Definition awaits (e : ServeEnd) (s : Server) : bool :=
  match e with
  | ServingTask i => existsb (fun t => Nat.eqb (task_id t) i) (tasks s)
  | _ => false
  end.

(** One turn of the direct mode's loop: an [accept] that gives nothing is followed by the next,
    a connection by its admission. *)
Definition direct_turn (s : Server) (incoming : option (result string IpAddr)) : Server :=
  match accept incoming with
  | None => s
  | Some ip => (spawn_session_task s ip).1
  end.

(** ** Lemmas *)

Lemma server_bind_chain `{Quinn, RcgenLaws, Signatures} addr relay kp names s :
  server_bind addr relay kp names = Ok s ->
  exists sc t der i, ep_server s = Some (sc, t) /\ cert_chain sc = [der] /\ key_at der (public_key_raw kp) i.
Proof.
  unfold server_bind, server_endpoint, relay_socket, with_endpoint.
  destruct (generate_server_config_from_keypair kp names) as [sc|] eqn:Hsc; [|done]. simpl.
  destruct (server_config_chain _ _ _ Hsc) as (der & i & Hc & Hi).
  destruct (server_crypto sc); [|done]. simpl. destruct relay as [r|]; simpl.
  - destruct (udp_bind addr) as [l|]; [|done]. simpl. destruct (set_nonblocking l); [|done].
    destruct (from_std l); [|done]. simpl. destruct (new_endpoint _); [|done].
    intros [= <-]. by exists sc, relay_transport_config, der, i.
  - destruct (udp_bind addr) as [l|]; [|done]. simpl. destruct (new_endpoint _); [|done].
    intros [= <-]. by exists sc, transport_default, der, i.
Qed.

Lemma client_endpoint_config `{Quinn} cc relay c :
  client_endpoint cc relay = Ok c -> exists t, ep_client c = Some (cc, t).
Proof.
  unfold client_endpoint, relay_socket, with_endpoint. destruct (client_crypto cc); [|done]. simpl.
  destruct relay as [r|]; simpl.
  - destruct (udp_bind _) as [l|]; [|done]. simpl. destruct (set_nonblocking l); [|done].
    destruct (from_std l); [|done]. simpl. destruct (new_endpoint _); [|done].
    intros [= <-]. by exists relay_transport_config.
  - destruct (udp_bind _) as [l|]; [|done]. simpl. destruct (new_endpoint _); [|done].
    intros [= <-]. by exists transport_default.
Qed.

(** A client pinned to [id] trusts the server of a key pair exactly when [id] is its identity. *)
Lemma pinned_trusts_iff `{Quinn, RcgenLaws, Signatures} addr relay kp names s c id t transcript signature :
  server_bind addr relay kp names = Ok s ->
  ep_client c = Some (generate_pinned_client_config id, t) ->
  trusts c s transcript signature = true <-> id = device_id_from_keypair kp.
Proof.
  intros Hs Hc. destruct (server_bind_chain _ _ _ _ _ Hs) as (sc & ts & der & i & Hes & Hchain & Hi).
  unfold trusts. rewrite Hc, Hes, Hchain.
  pose proof (pinned_accepts_iff id der transcript signature) as Hiff.
  destruct (client_accepts _ der transcript signature) as [[]|e].
  - split; [|done]. intros _. destruct (proj1 Hiff eq_refl) as (key & j & Hj & <-).
    unfold device_id_from_keypair. by rewrite (key_at_unique _ _ _ _ _ Hj Hi).
  - split; [done|]. intros ->.
    assert (Hex : exists key j, key_at der key j /\ from_digest (sha256 key) = device_id_from_keypair kp)
      by (by exists (public_key_raw kp), i).
    apply Hiff in Hex. done.
Qed.

(** The relay branch, when it comes to an endpoint, has pinned the target. *)
Lemma relay_quic_pinned `{Quinn, Signatures} parse_addr in_runtime a ra file random iid ca file' me c :
  relay_quic parse_addr in_runtime a ra file random iid ca = (file', Ret (Ok (me, c))) ->
  exists str id t, target_id a = Some str /\ from_str (string_bytes str) = Ret (Ok id) /\
    ep_client c = Some (generate_pinned_client_config id, t) /\ in_runtime = false.
Proof.
  unfold relay_quic. destruct (parse_addr ra) as [rs|]; [|done].
  destruct (load_or_generate_key file random) as [f [[sk|]|]]; simpl; try done.
  destruct (sk_verify_key sk) as [vk|]; simpl; [|done]. destruct (target_id a) as [str|]; [|done].
  destruct (from_str (string_bytes str)) as [[id|]|] eqn:Hid; simpl; try done.
  destruct (ca_runtime ca); [|done]. unfold on_runtime. destruct in_runtime; [done|].
  destruct (ca_connect ca); [|done]. destruct (ca_register ca); [|done].
  destruct (ca_intent ca id iid); [|done]. destruct (ca_candidates ca iid) as [ans|]; [|done].
  unfold client_bind. destruct (client_endpoint _ _) as [c'|] eqn:Hc; simpl; [|done].
  intros [= <- <- <-]. destruct (client_endpoint_config _ _ _ Hc) as [t Ht]. by exists str, id, t.
Qed.

(** What [session_quic] has configured when it comes to an endpoint. *)
Lemma session_quic_config `{Quinn, Signatures} parse_addr in_runtime a file random iid ca file' addr me c :
  session_quic parse_addr in_runtime a file random iid ca = (file', Ret (Ok (addr, me, c))) ->
  exists str id t, target_id a = Some str /\ from_str (string_bytes str) = Ret (Ok id) /\
    ep_client c = Some (if dev_insecure a && negb (bool_decide (is_Some (relay a)))
                        then generate_dev_client_config else generate_pinned_client_config id, t).
Proof.
  unfold session_quic. destruct (parse_addr (server a)) as [sa|]; [|done].
  destruct (relay a) as [ra|].
  - destruct (relay_quic _ _ _ _ _ _ _ _) as [f [[[d c']|]|]] eqn:Hr; simpl; try done.
    intros [= <- <- <- <-]. destruct (relay_quic_pinned _ _ _ _ _ _ _ _ _ _ _ Hr) as (str & id & t & ? & ? & ? & _).
    exists str, id, t. rewrite andb_false_r. done.
  - unfold direct_endpoint. destruct (target_id a) as [str|]; [|done].
    destruct (from_str (string_bytes str)) as [[id|]|] eqn:Hid; simpl; try done.
    rewrite andb_true_r. unfold client_bind, client_bind_dev. destruct (dev_insecure a).
    all: destruct (client_endpoint _ _) as [c'|] eqn:Hc; simpl; [|done].
    all: intros [= <- <- <- <-]; destruct (client_endpoint_config _ _ _ Hc) as [t Ht]; by exists str, id, t.
Qed.

(** A task of a given number was started before a given time, or is gone. *)
Definition started_by (i : nat) (limit : Z) (s : Server) : Prop :=
  (i < next_task s)%nat /\ forall t, t ∈ tasks s -> task_id t = i -> started t <= limit.

Lemma started_by_step i limit s e : started_by i limit s -> started_by i limit (server_step s e).
Proof.
  intros [Hn Ht]. destruct e as [ip|j|j|now|j]; simpl; [| | | |by split].
  - unfold spawn_session_task. destruct (check_and_record _ _ _) as [m []]; simpl; [|by split].
    destruct (_ =? 0); [by split|]. split; simpl; [lia|].
    intros t [->|Hin]%elem_of_cons Hid; [simpl in Hid; lia|]. by apply Ht.
  - split; [done|]. simpl. intros t (t0 & -> & Hin)%list_elem_of_fmap Hid.
    specialize (Ht t0 Hin). destruct (Nat.eqb _ _); by apply Ht.
  - split; [done|]. simpl. intros t [_ Hin]%list_elem_of_filter. by apply Ht.
  - destruct (_ <? _); [by split|]. split; [done|]. simpl. intros t [_ Hin]%list_elem_of_filter. by apply Ht.
Qed.

Lemma server_run_inv s events : server_inv s -> server_inv (foldl server_step s events).
Proof. revert s. induction events as [|e events IH]; intros s Hs; [done|]. by apply IH, server_step_inv. Qed.

Lemma started_by_run i limit s events :
  started_by i limit s -> started_by i limit (foldl server_step s events).
Proof. revert s. induction events as [|e events IH]; intros s Hs; [done|]. by apply IH, started_by_step. Qed.

Lemma timers_clock s d : 0 <= d -> clock (server_step s (Timers (clock s + d))) = clock s + d.
Proof. intros Hd. simpl. destruct (Z.ltb_spec (clock s + d) (clock s)); [lia|done]. Qed.

Lemma spawned_started s ip s' i :
  server_inv s -> spawn_session_task s ip = (s', Ok i) -> started_by i (clock s) s' /\ clock s' = clock s.
Proof.
  intros [_ _ Ha]. unfold spawn_session_task. destruct (check_and_record _ _ _) as [m []]; simpl; [|done].
  destruct (_ =? 0); [done|]. intros [= <- <-]. split; [|done]. split; simpl; [lia|].
  rewrite Stdlib.Lists.List.Forall_forall in Ha.
  intros t [->|Hin]%elem_of_cons _; [simpl; lia|]. specialize (Ha t (proj1 (list_elem_of_In _ _) Hin)). simpl in Ha. lia.
Qed.

Lemma spawn_clock s ip : clock (spawn_session_task s ip).1 = clock s.
Proof.
  unfold spawn_session_task. destruct (check_and_record _ _ _) as [m []]; simpl; [|done].
  by destruct (_ =? 0).
Qed.

(** The direct mode's loop is the admission of the connections whose handshake succeeds. *)
Lemma direct_turns s (incoming : list (option (result string IpAddr))) :
  foldl direct_turn s incoming =
  foldl server_step s (Connection <$> omap accept incoming).
Proof.
  revert s. induction incoming as [|x l IH]; intros s; [done|]. cbn [foldl omap list_omap].
  unfold direct_turn at 2. destruct (accept x); apply IH.
Qed.

(** ** Properties *)

Section properties.
Context `{Quinn, RcgenLaws, Signatures}.
Variable parse_addr : string -> option SocketAddr.

(** C12.  Whom a viewer trusts.  When [run_session] has come to an endpoint, a target identifier
    was given and parses; with certificate verification on, and always through a relay, the
    viewer accepts the certificate of a server endpoint exactly when the target is the identity
    of that server's TLS key, the one the server prints, whatever the address, the names and the
    relay; with [--dev-insecure] and no relay it accepts every one. *)
Theorem viewer_trusts_target in_runtime a file random intent_id ca file' addr me c :
  session_quic parse_addr in_runtime a file random intent_id ca = (file', Ret (Ok (addr, me, c))) ->
  exists str id, target_id a = Some str /\ from_str (string_bytes str) = Ret (Ok id) /\
  forall listen through kp names s transcript signature,
    server_bind listen through kp names = Ok s ->
    (trusts c s transcript signature = true <->
     (dev_insecure a = true /\ relay a = None) \/ id = device_id_from_keypair kp).
Proof.
  intros Hq. destruct (session_quic_config _ _ _ _ _ _ _ _ _ _ _ Hq) as (str & id & t & Hstr & Hid & Hc).
  exists str, id. split; [done|]. split; [done|]. intros listen through kp names s transcript signature Hs.
  destruct (dev_insecure a) eqn:Hdev; destruct (relay a) as [ra|] eqn:Hra; simpl in Hc.
  2: { destruct (server_bind_chain _ _ _ _ _ Hs) as (sc & ts & der & i & Hes & Hchain & _).
       unfold trusts. rewrite Hc, Hes, Hchain. simpl. tauto. }
  all: rewrite (pinned_trusts_iff _ _ _ _ _ _ _ _ transcript signature Hs Hc).
  all: split; [by right|]; intros [[? ?]|?]; done.
Qed.

(** Through a relay no target works for both parts: the relay lets the server accept an intent
    only if the target is the identity of the signing key it registered with, and the viewer
    trusts it only if the same target is the identity of the TLS key.  A relayed session that
    gets that far exhibits two public keys with one digest. *)
Theorem relayed_session_needs_collision in_runtime a ra file random intent_id ca file' addr me c
    (k : ServerKeys) public intents intents' now token_random intent r listen through names s transcript signature :
  session_quic parse_addr in_runtime a file random intent_id ca = (file', Ret (Ok (addr, me, c))) ->
  relay a = Some ra ->
  (forall str, target_id a = Some str -> from_str (string_bytes str) = Ret (Ok (pi_target intent))) ->
  intents !! intent_id = Some intent ->
  sk_verify_key (server_signing_key k) = Ret public ->
  accept_intent intents now token_random intent_id (derive public) [] = (intents', Ok r) ->
  server_bind listen through (tls_keypair k) names = Ok s ->
  trusts c s transcript signature = true ->
  sha256 (vk_as_bytes public) = sha256 (public_key_raw (tls_keypair k)).
Proof.
  intros Hq Hra Htarget Hint Hpub Hacc Hs Htr.
  destruct (session_quic_config _ _ _ _ _ _ _ _ _ _ _ Hq) as (str & id & t & Hstr & Hid & Hc).
  rewrite Hra, andb_false_r in Hc. apply (pinned_trusts_iff _ _ _ _ _ _ _ _ transcript signature Hs Hc) in Htr.
  specialize (Htarget str Hstr). rewrite Hid in Htarget. injection Htarget as Ht.
  unfold accept_intent in Hacc. rewrite Hint in Hacc. destruct (pi_state intent); try done.
  destruct (_ <? _); [done|]. destruct (decide _) as [|Hn]; [done|].
  assert (Hd : pi_target intent = derive public) by (apply dec_stable; tauto).
  unfold derive, device_id_from_keypair, from_digest in *. congruence.
Qed.

(** C22.  The rendezvous loop gets its turn back.  A call of [serve] waits at most 60 seconds for
    the initiator, whatever arrives; if it then awaits a session, the session's task, authenticated
    or not, is gone 75 seconds after the call began, whatever else happens on the server in between;
    and it never awaits one that admission control turned away. *)
Theorem serve_returns before bound arrival s' e :
  let s := foldl server_step server_new before in
  serve s bound (INITIATOR_CONNECT_TIMEOUT * 1000000) arrival = (s', e) ->
  (forall d incoming, arrival = Some (d, incoming) -> 0 <= d) ->
  clock s <= clock s' <= clock s + 60 * NANOS /\
  forall after, let s'' := foldl server_step s' after in
    clock s + 75 * NANOS <= clock s'' -> awaits e s'' = false.
Proof.
  intros s Hserve Hd. assert (Hinv : server_inv s) by (apply server_run_inv; by split).
  clearbody s. set (limit := INITIATOR_CONNECT_TIMEOUT * 1000000) in *.
  assert (Hlim : limit = 60 * NANOS) by done. clearbody limit.
  assert (H60 : 0 <= 60 * NANOS) by done.
  unfold serve in Hserve. cbv zeta beta in Hserve. destruct bound as [ep|]; [|apply pair_equal_spec in Hserve as [<- <-]; split; [lia|done]].
  destruct arrival as [[d incoming]|].
  2: { apply pair_equal_spec in Hserve as [<- <-]. rewrite timers_clock by lia. split; [lia|done]. }
  specialize (Hd d incoming eq_refl). destruct (Z.leb_spec d limit) as [Hle|Hgt].
  2: { apply pair_equal_spec in Hserve as [<- <-]. rewrite timers_clock by lia. split; [lia|done]. }
  destruct (accept incoming) as [ip|].
  2: { apply pair_equal_spec in Hserve as [<- <-]. rewrite timers_clock by done. split; [lia|done]. }
  destruct (spawn_session_task _ ip) as [s1 r] eqn:Hsp. apply pair_equal_spec in Hserve as [<- <-].
  set (w := server_step s (Timers (clock s + d))) in *.
  assert (Hw : server_inv w) by (by apply server_step_inv).
  assert (Hcw : clock w = clock s + d) by (by apply timers_clock).
  assert (Hc1 : clock s1 = clock w) by (pose proof (spawn_clock w ip) as Hc; by rewrite Hsp in Hc).
  split; [lia|]. intros after s2 Hlate. subst s2. destruct r as [i|]; [|done]. cbn [awaits].
  destruct (spawned_started _ _ _ _ Hw Hsp) as [Hst _]. apply (started_by_run _ _ _ after) in Hst.
  assert (Hinv1 : server_inv s1) by (pose proof (server_step_inv w (Connection ip) Hw) as Hi; simpl in Hi; by rewrite Hsp in Hi).
  apply (server_run_inv _ after) in Hinv1 as [_ _ Ha]. destruct Hst as [_ Hst].
  apply not_true_is_false. intros (t & Hin & Heq)%existsb_exists. apply Nat.eqb_eq in Heq.
  rewrite Stdlib.Lists.List.Forall_forall in Ha. specialize (Ha t Hin).
  specialize (Hst t (proj2 (list_elem_of_In _ _) Hin) Heq). unfold HANDSHAKE_TIMEOUT in Ha. simpl in Ha. lia.
Qed.

(** A relayed viewer never connects at all: [run_session] runs inside the runtime of the session
    thread, and once the addresses, the key and the target are in order its first call to the
    relay aborts that thread. *)
Theorem relayed_viewer_aborts a ra file random intent_id ca rs sa file' sk public str id :
  relay a = Some ra -> parse_addr (server a) = Some sa -> parse_addr ra = Some rs ->
  load_or_generate_key file random = (file', Ret (Ok sk)) -> sk_verify_key sk = Ret public ->
  target_id a = Some str -> from_str (string_bytes str) = Ret (Ok id) ->
  ca_runtime ca = Ok tt ->
  session_quic parse_addr true a file random intent_id ca = (file', Panic).
Proof.
  intros Hra Hsa Hrs Hk Hvk Hstr Hid Hrt. unfold session_quic, relay_quic.
  rewrite Hsa, Hra, Hrs, Hk. simpl. rewrite Hvk. simpl. rewrite Hstr, Hid. simpl. by rewrite Hrt.
Qed.
End properties.

(** ** Instances on concrete inputs *)

(** A system that grants every call. *)
Definition open_quinn : Quinn := {|
  server_crypto _ := true; client_crypto _ := true; udp_bind a := Ok a;
  set_nonblocking _ := Ok tt; from_std _ := Ok tt; new_endpoint _ := Ok tt |}.

Module EndpointsExample.
Definition at_home : SocketAddr := AddrV4 [192; 168; 0; 7] 9000.
Definition addr_of (s : string) : option SocketAddr := Some at_home.

Definition kp : @KeyPair toy_rcgen := exist _ (replicate 32 7) eq_refl.

(** What the server of this key pair prints. *)
Definition printed : string :=
  "bw-id-0707070707070707070707070707070707070707070707070707070707070707".

Definition viewer : Args := {|
  server := "192.168.0.7:9000"; id := "viewer"; password := "secret"; relay := None;
  target_id := Some printed; signing_key := None; dev_insecure := false |}.

Definition no_file : KeyFile := {| contents := None; can_read := true; can_mkdir := true; can_write := true |}.

Definition no_relay : ControlAnswers := {|
  ca_runtime := Ok tt; ca_connect := Err Protocol; ca_register := Err Protocol; ca_intent _ _ := Err Protocol;
  ca_candidates _ := Err Protocol |}.

Definition viewer_end : QuicEndpoint := {|
  ep_socket := PlainUdp UNSPECIFIED; ep_server := None;
  ep_client := Some (generate_pinned_client_config (from_digest (replicate 32 7)), transport_default) |}.

Definition server_end : QuicEndpoint := {|
  ep_socket := PlainUdp at_home;
  ep_server := Some ({| cert_chain := [48 :: spki_marker ++ 0 :: replicate 32 7 ++ oid_pattern ++ [3; 65; 0]];
                        server_key := replicate 32 7; server_alpn := [ALPN] |}, transport_default);
  ep_client := None |}.

Lemma viewer_comes_to :
  @session_quic open_quinn toy_signatures addr_of true viewer no_file None [] no_relay =
  (no_file, Ret (Ok (at_home, DIRECT_CLIENT, viewer_end))).
Proof. vm_compute. reflexivity. Qed.

Definition relayed_viewer : Args := {|
  server := "192.168.0.7:9000"; id := "viewer"; password := "secret"; relay := Some "10.0.0.9:9999";
  target_id := Some printed; signing_key := None; dev_insecure := false |}.

Lemma relayed_viewer_dies :
  (@session_quic open_quinn toy_signatures addr_of true relayed_viewer no_file (Some (replicate 32 5)) [] no_relay).2 =
  Panic.
Proof. vm_compute. reflexivity. Qed.

Lemma server_binds : @server_bind open_quinn toy_rcgen at_home None kp [] = Ok server_end.
Proof. vm_compute. reflexivity. Qed.
End EndpointsExample.

(** A viewer given the printed identity trusts the server. *)
Lemma viewer_trusts_target_witness :
  @trusts toy_signatures EndpointsExample.viewer_end EndpointsExample.server_end [1] [2] = true.
Proof.
  destruct (@viewer_trusts_target open_quinn toy_rcgen toy_rcgen_laws toy_signatures EndpointsExample.addr_of
    true EndpointsExample.viewer EndpointsExample.no_file None [] EndpointsExample.no_relay _ _ _ _
    EndpointsExample.viewer_comes_to) as (str & i & Hstr & Hid & Hiff).
  apply (proj2 (Hiff _ _ _ _ _ [1] [2] EndpointsExample.server_binds)). right.
  injection Hstr as <-. vm_compute in Hid. injection Hid as <-. vm_compute. reflexivity.
Defined.

(** An initiator that connects after two seconds and never logs in. *)
Lemma serve_returns_witness :
  let ip := IpV4 [10; 0; 0; 9] in
  let '(s', e) := serve server_new (Ok EndpointsExample.server_end) (INITIATOR_CONNECT_TIMEOUT * 1000000)
                    (Some (2 * NANOS, Some (Ok ip))) in
  e = ServingTask 0 /\ awaits e s' = true /\ awaits e (server_step s' (Timers (75 * NANOS))) = false.
Proof.
  cbv zeta. destruct (serve _ _ _ _) as [s' e] eqn:Hs. split.
  { vm_compute in Hs. by injection Hs as _ <-. }
  split; [vm_compute in Hs; injection Hs as <- <-; reflexivity|].
  apply (proj2 (serve_returns [] (Ok EndpointsExample.server_end) (Some (2 * NANOS, Some (Ok (IpV4 [10; 0; 0; 9]))))
                  s' e Hs ltac:(intros d incoming [= <- _]; done)) [Timers (75 * NANOS)]).
  vm_compute in Hs. injection Hs as <- _. vm_compute. done.
Defined.
