(* ===== verification/AudioPath.v ===== *)
(** * Sound from the server to the viewer ([spawn_audio_pipeline] and the sender task in
      [bw-server/src/main.rs], [audio_packet_message] in [bw-server/src/lib.rs])

    The thread that turns captured packets into messages, the task that drains the session's
    queue, and the composition of both with the capture and the playback: what the viewer
    plays of what the host played, whatever other messages share the session. *)

From S2P Require Import Prelude Codec Cbor Message Routing Float Pixels Blit Video Audio Input Poller Client.

(** ** The server's end *)

Section audio.
Context `{Cbor AudioPayload}.

Definition audio_packet_message (chans rate : Z) (opus : list Z) : result ProtocolError ProtocolMessage :=
  audio_data {| Message.channels := chans; Message.sample_rate := rate; opus_data := opus |}.

(** The thread of [spawn_audio_pipeline]: the messages it sends of the packets it receives;
    [room] is how many the session takes before its queue is gone. *)
Fixpoint audio_thread (chans rate : Z) (room : nat) (packets : list (list Z)) : list ProtocolMessage :=
  match packets with
  | [] => []
  | packet :: packets =>
      match audio_packet_message chans rate packet with
      | Ok message =>
          match room with
          | O => []
          | S room => message :: audio_thread chans rate room packets
          end
      | Err _ => audio_thread chans rate room packets
      end
  end.
End audio.

(** The sender task of [handle_session]: it drains the queue until a send fails. *)
Fixpoint sender_task {S} (send_message : S -> ProtocolMessage -> S * result string unit) (s : S)
    (queue : list ProtocolMessage) : S :=
  match queue with
  | [] => s
  | m :: queue =>
      let '(s, r) := send_message s m in
      match r with Ok _ => sender_task send_message s queue | Err _ => s end
  end.

(** ** The codec's promise *)

(** An encoder and a decoder opened for the same format stay in step: every frame of the format
    is encoded, and its packet decodes to as many samples, the lossy image of the frame. *)
Class OpusLaws `{Opus} := {
  in_step : Z -> Z -> RustyEncoder -> RustyDecoder -> Prop;
  lossy : RustyEncoder -> list sample -> list sample;
  lossy_length : forall e pcm, length (lossy e pcm) = length pcm;
  decoder_opens : forall rate chans e, rusty_encoder rate chans = Ok e -> exists d, rusty_decoder rate chans = Ok d;
  fresh_in_step : forall rate chans e d,
    rusty_encoder rate chans = Ok e -> rusty_decoder rate chans = Ok d -> in_step rate chans e d;
  codes : forall rate chans e d pcm out,
    in_step rate chans e d -> zlen pcm = rate / 50 * chans -> zlen out = zlen pcm ->
    exists e' packet d', rusty_encode e pcm (rate / 50) = (e', Ok packet) /\
      rusty_decode d packet (rate / 50) out = (d', Ok (rate / 50, lossy e pcm)) /\ in_step rate chans e' d' }.

(** The image of a stream of frames. *)
Fixpoint lossy_all `{OpusLaws} (fs : Z) (e : RustyEncoder) (frames : list (list sample)) : list sample :=
  match frames with
  | [] => []
  | f :: frames => lossy e f ++ lossy_all fs (rusty_encode e f fs).1 frames
  end.

(** ** Lemmas *)

Section codec.
Context `{OpusLaws}.
Variable config : AudioCodecConfig.
Hypothesis config_ok : new_config (sample_rate config) (channels config) = Ok config.

(** The playback is ready for the encoder's next packet: in step with it, or about to replace its
    decoder while the encoder is fresh. *)
Definition ready (e : RustyEncoder) (p : AudioPlayback) : Prop :=
  (dec_config (play_decoder p) = config /\ dec_frame_len (play_decoder p) = frame_size config * channels config /\
   in_step (sample_rate config) (channels config) e (decoder (play_decoder p))) \/
  (dec_config (play_decoder p) <> config /\ rusty_encoder (sample_rate config) (channels config) = Ok e).

Lemma config_frame : frame_size config = sample_rate config / 50 /\ 0 <= frame_size config * channels config /\
  1 <= channels config.
Proof.
  revert config_ok. unfold new_config. case_bool_decide as Hr; simpl; [|done].
  destruct (_ && _) eqn:Hc; simpl; [|done]. intros [= Heq].
  assert (Hfs : frame_size config = sample_rate config / 50) by (rewrite <- Heq at 1; done).
  apply andb_true_iff in Hc as [Hc%Z.leb_le _]. rewrite Hfs. split; [done|]. split; [|done].
  assert (0 <= sample_rate config).
  { rewrite !elem_of_cons in Hr. destruct Hr as [->|[->|[->|[->|[->|[]%not_elem_of_nil]]]]]; done. }
  apply Z.mul_nonneg_nonneg; [by apply Z.div_pos|lia].
Qed.

(** The decoder [feed] uses for a packet of this format. *)
Lemma ready_decoder e p : ready e p ->
  exists d, (if decide (dec_config (play_decoder p) = config) then Ok (play_decoder p) else new_decoder config) = Ok d /\
    dec_config d = config /\ dec_frame_len d = frame_size config * channels config /\
    in_step (sample_rate config) (channels config) e (decoder d).
Proof.
  intros [(Hc & Hl & Hs)|[Hc He]].
  - rewrite decide_True by done. by eexists.
  - rewrite decide_False by done. destruct (decoder_opens _ _ _ He) as [d Hd].
    unfold new_decoder. rewrite Hd. simpl. eexists. split; [reflexivity|]. split; [done|]. split; [done|].
    by apply fresh_in_step.
Qed.

(** One frame, encoded on one side and fed on the other. *)
Lemma frame_passes enc p frame packets :
  enc_config enc = config -> enc_frame_len enc = frame_size config * channels config ->
  ready (encoder enc) p -> zlen frame = frame_size config * channels config ->
  exists packet enc', emit enc packets frame = (enc', packets ++ [packet]) /\
    encoder enc' = (rusty_encode (encoder enc) frame (frame_size config)).1 /\
    enc_config enc' = config /\ enc_frame_len enc' = enc_frame_len enc /\
    ready (encoder enc') (feed p (channels config) (sample_rate config) packet).1 /\
    queue (feed p (channels config) (sample_rate config) packet).1 = queue p ++ lossy (encoder enc) frame.
Proof.
  intros Hec Hel Hr Hf. destruct config_frame as (Hfs & Hpos & Hch).
  destruct (ready_decoder _ _ Hr) as (d & Hd & Hdc & Hdl & Hs).
  destruct (codes _ _ _ _ frame (replicate (Z.to_nat (dec_frame_len d)) (S754_zero false)) Hs)
    as (e' & packet & d' & Henc & Hdec & Hs').
  { by rewrite <- Hfs. }
  { rewrite Hdl, Hf. unfold zlen. rewrite length_replicate. lia. }
  rewrite <- Hfs in Henc, Hdec.
  exists packet, {| encoder := e'; enc_config := config; enc_frame_len := enc_frame_len enc |}.
  unfold emit, encode_frame. rewrite Hel, Hf, Z.eqb_refl, Hec, Henc. cbn.
  split; [done|]. split; [done|]. split; [done|]. split; [done|].
  unfold feed. rewrite config_ok, Hd. unfold decode_frame. rewrite Hdc, Hdec. cbn.
  split; [by left|]. f_equal. rewrite Hdl, Z.min_id. rewrite <- Hf.
  unfold zlen. rewrite Nat2Z.id, <- (lossy_length (encoder enc) frame). apply firstn_all.
Qed.

(** The whole stream. *)
Lemma frames_pass frames : forall enc p packets,
  enc_config enc = config -> enc_frame_len enc = frame_size config * channels config ->
  ready (encoder enc) p -> Forall (fun f => zlen f = frame_size config * channels config) frames ->
  exists enc' sent, emit_all enc packets frames = (enc', packets ++ sent) /\
    queue (foldl (fun p packet => (feed p (channels config) (sample_rate config) packet).1) p sent) =
      queue p ++ lossy_all (frame_size config) (encoder enc) frames.
Proof.
  induction frames as [|f frames IH]; intros enc p packets Hc Hl Hr Hf.
  - exists enc, []. unfold emit_all. cbn. by rewrite !app_nil_r.
  - apply Forall_cons_1 in Hf as [Hf Hfs].
    destruct (frame_passes enc p f packets Hc Hl Hr Hf) as (packet & enc1 & He & Hen & Hc1 & Hl1 & Hr1 & Hq).
    destruct (IH enc1 _ (packets ++ [packet]) Hc1 ltac:(congruence) Hr1 Hfs) as (enc' & sent & Hs & Hq').
    exists enc', (packet :: sent). unfold emit_all in *. cbn [foldl fst snd]. rewrite He.
    split; [by rewrite Hs, <- (assoc_L (++))|]. rewrite Hq', Hq, <- (assoc_L (++)). cbn [lossy_all]. by rewrite Hen.
Qed.
End codec.

Lemma lossy_all_length `{OpusLaws} fs frames : forall e,
  length (lossy_all fs e frames) = length (concat frames).
Proof.
  induction frames as [|f frames IH]; intros e; [done|]. cbn [lossy_all concat].
  by rewrite !length_app, lossy_length, IH.
Qed.

(** ** The viewer's end *)

Section viewer.
Context {C D : Type} `{Arboard C} `{OpenH264Decoder D} `{Opus}.
Context `{Cbor ClipboardEvent, CborLaws AudioPayload, Cbor VideoPayload}.
Context (utf8_error_text : list Z -> string) (audio_error_text : AudioError -> string).

(** The receiver task on the messages of the session, until it ends. *)
Fixpoint receive_all (d : MessageDispatcher (Local (C := C))) (client_id server_id : NodeId)
    (r : Receiver (C := C) (D := D)) (ms : list ProtocolMessage) : Receiver (C := C) (D := D) :=
  match ms with
  | [] => r
  | m :: ms =>
      let '(r, go) := receive_message d client_id server_id r m in
      if go then receive_all d client_id server_id r ms else r
  end.

Definition is_audio (m : ProtocolMessage) : bool := bool_decide (message_type m = AudioData).

(** A message of another kind leaves the playback alone. *)
Lemma other_message_quiet has_clipboard client_id server_id l m :
  message_type m <> AudioData ->
  let '(l', _) := handle_incoming_message (build_dispatcher utf8_error_text audio_error_text has_clipboard true) l m
                    client_id server_id in
  playback l' = playback l /\ audio_poisoned l' = audio_poisoned l.
Proof.
  intros Hm. unfold handle_incoming_message, dispatch. destruct (validate _); [|done].
  cbn [message build_dispatcher register_handler handlers new_dispatcher].
  rewrite lookup_insert_ne by congruence. destruct has_clipboard; cbn [handlers register_handler new_dispatcher].
  - destruct (decide (message_type m = ClipboardData)) as [->|Hc].
    + rewrite lookup_insert_eq. unfold on_clipboard. destruct (as_clipboard_event _); [|done].
      destruct (clip_poisoned l); [done|]. by destruct (apply_clipboard_event _ _ _).
    + rewrite lookup_insert_ne by congruence. by rewrite lookup_empty.
  - by rewrite lookup_empty.
Qed.

(** An audio message is fed to the playback. *)
Lemma audio_message_fed has_clipboard client_id server_id l m chans rate opus :
  client_id <> server_id -> client_id <> broadcast -> audio_poisoned l = false ->
  audio_packet_message chans rate opus = Ok m ->
  let l' := (handle_incoming_message (build_dispatcher utf8_error_text audio_error_text has_clipboard true) l m
               client_id server_id).1 in
  playback l' = (feed (playback l) chans rate opus).1 /\ audio_poisoned l' = false.
Proof.
  intros Hids Hb Hp Hm. unfold audio_packet_message, audio_data in Hm.
  pose proof (build_valid _ _ _ Hm) as Hv. apply build_read in Hm as [Ht Hr].
  unfold handle_incoming_message, dispatch, validate.
  assert (Hve : validate_envelope {| source := server_id; destination := client_id; session_id := replicate 16 0;
                  route := Direct; message := m; routing_flags := 0 |} = Ok tt).
  { apply validate_envelope_ok_iff. cbn. split; [done|]. split; [congruence|done]. }
  rewrite Hve. cbn [map_err message build_dispatcher register_handler handlers new_dispatcher].
  rewrite Ht, lookup_insert_eq. unfold on_audio, as_audio_data. cbn [message]. rewrite decide_True by done.
  rewrite Hr, Hp. cbn [Message.channels Message.sample_rate opus_data].
  by destruct (feed _ _ _ _) as [p r].
Qed.

(** With the window open the receiver goes on, and only an audio message reaches the playback. *)
Lemma receive_other has_clipboard client_id server_id r m :
  window_open r = true -> message_type m <> AudioData ->
  exists r', receive_message (build_dispatcher utf8_error_text audio_error_text has_clipboard true)
               client_id server_id r m = (r', true) /\
    window_open r' = true /\ playback (rx_local r') = playback (rx_local r) /\
    audio_poisoned (rx_local r') = audio_poisoned (rx_local r).
Proof.
  intros Hw Ha. pose proof (other_message_quiet has_clipboard client_id server_id (rx_local r) m Ha) as Hq.
  unfold receive_message. destruct (as_video_data m) as [payload|].
  - destruct (from_bytes _) as [frame|]; [|by eexists].
    destruct (pipeline_decode _ _) as [dec [[image|]|]]; rewrite ?Hw; by eexists.
  - destruct (handle_incoming_message _ _ _ _ _) as [l res]. by eexists.
Qed.

Lemma receive_audio has_clipboard client_id server_id r m chans rate packet :
  client_id <> server_id -> client_id <> broadcast ->
  window_open r = true -> audio_poisoned (rx_local r) = false -> audio_packet_message chans rate packet = Ok m ->
  exists r', receive_message (build_dispatcher utf8_error_text audio_error_text has_clipboard true)
               client_id server_id r m = (r', true) /\
    window_open r' = true /\ playback (rx_local r') = (feed (playback (rx_local r)) chans rate packet).1 /\
    audio_poisoned (rx_local r') = false.
Proof.
  intros Hids Hb Hw Hp Hm.
  pose proof (audio_message_fed has_clipboard client_id server_id (rx_local r) m chans rate packet Hids Hb Hp Hm) as Hfed.
  apply build_read in Hm as [Ht _]. unfold receive_message, as_video_data. rewrite decide_False by congruence.
  destruct (handle_incoming_message _ _ _ _ _) as [l res]. by eexists.
Qed.

Lemma receive_all_playback has_clipboard client_id server_id chans rate ms : forall r packets room,
  client_id <> server_id -> client_id <> broadcast ->
  window_open r = true -> audio_poisoned (rx_local r) = false ->
  (forall packet, exists m, audio_packet_message chans rate packet = Ok m) ->
  filter (fun m => is_audio m = true) ms = audio_thread chans rate room packets ->
  (length packets <= room)%nat ->
  playback (rx_local (receive_all (build_dispatcher utf8_error_text audio_error_text has_clipboard true)
                        client_id server_id r ms)) =
  foldl (fun p packet => (feed p chans rate packet).1) (playback (rx_local r)) packets.
Proof.
  induction ms as [|m ms IH]; intros r packets room Hids Hb Hw Hp Hcbor Hms Hroom.
  { destruct packets as [|packet packets]; [done|]. cbn in Hms, Hroom.
    destruct (Hcbor packet) as [m Hm]. rewrite Hm in Hms. destruct room; [lia|done]. }
  cbn [receive_all]. destruct (decide (message_type m = AudioData)) as [Ha|Ha].
  - rewrite filter_cons_True in Hms by (unfold is_audio; by rewrite bool_decide_eq_true_2).
    destruct packets as [|packet packets]; [done|]. cbn in Hms, Hroom.
    destruct (Hcbor packet) as [m' Hm]. rewrite Hm in Hms. destruct room as [|room]; [lia|].
    injection Hms as <- Hms.
    destruct (receive_audio has_clipboard client_id server_id r m chans rate packet Hids Hb Hw Hp Hm)
      as (r' & -> & Hw' & Hfed & Hp'). cbn [foldl]. rewrite <- Hfed. apply (IH r' packets room); (done || lia).
  - rewrite filter_cons_False in Hms by (unfold is_audio; rewrite bool_decide_eq_false_2 by done; done).
    destruct (receive_other has_clipboard client_id server_id r m Hw Ha) as (r' & -> & Hw' & <- & Hp').
    apply (IH r' packets room); (done || congruence).
Qed.
End viewer.

(** What the capture starts with. *)
Lemma new_capture_start `{Opus} device_rate device_channels c0 :
  new_capture device_rate device_channels = Ok c0 ->
  let config := enc_config (cap_encoder c0) in
  new_config (sample_rate config) (channels config) = Ok config /\
  rusty_encoder (sample_rate config) (channels config) = Ok (encoder (cap_encoder c0)) /\
  frame_len c0 = frame_size config * channels config /\ enc_frame_len (cap_encoder c0) = frame_len c0 /\
  0 < frame_len c0 /\ pending c0 = [] /\ packets c0 = [].
Proof.
  unfold new_capture, new_encoder.
  destruct (new_config device_rate (Z.min device_channels 2)) as [config|] eqn:Hc; [|done]. simpl.
  destruct (rusty_encoder _ _) as [e|] eqn:He; [|done]. simpl. intros [= <-]. simpl.
  assert (Hcc : sample_rate config = device_rate /\ channels config = Z.min device_channels 2 /\
                frame_size config = device_rate / 50 /\ 160 <= device_rate / 50 /\ 1 <= channels config).
  { unfold new_config in Hc. case_bool_decide as Hr; simpl in Hc; [|done].
    destruct ((1 <=? _) && _) eqn:Hch; simpl in Hc; [|done]. injection Hc as <-. simpl.
    apply andb_true_iff in Hch as [Hch%Z.leb_le _].
    do 3 (split; [done|]). split; [|done].
    rewrite !elem_of_cons in Hr. destruct Hr as [->|[->|[->|[->|[->|[]%not_elem_of_nil]]]]]; done. }
  destruct Hcc as (Hr & Hch & Hfs & Hpos & Hch1). split; [by rewrite Hr, Hch|]. split; [done|].
  split; [done|]. split; [done|]. split; [nia|done].
Qed.

Lemma new_playback_ready `{OpusLaws} config cfg0 p0 e :
  new_playback cfg0 = Ok p0 -> rusty_encoder (sample_rate config) (channels config) = Ok e ->
  ready config e p0 /\ queue p0 = [].
Proof.
  unfold new_playback, new_decoder. destruct (rusty_decoder _ _) as [d|] eqn:Hd; [|done]. simpl.
  intros [= <-] He. split; [|done]. unfold ready. simpl.
  destruct (decide (cfg0 = config)) as [->|Hne]; [left|by right].
  split; [done|]. split; [done|]. by apply fresh_in_step.
Qed.

Lemma open_capture_ok `{Opus} dev config c0 :
  open_capture dev = Ok (config, c0) ->
  config = enc_config (cap_encoder c0) /\ exists rate chans, new_capture rate chans = Ok c0.
Proof.
  unfold open_capture. destruct dev as [dev|]; [|done]. simpl.
  destruct (default_output_config dev) as [[[rate chans] f]|]; [|done]. simpl.
  destruct (new_capture rate chans) as [s|] eqn:Hs; [|done]. simpl.
  destruct (open_stream _ _ _ _); [|done]. simpl. intros [= <- <-]. split; [done|]. by exists rate, chans.
Qed.

Lemma open_playback_ok `{Opus} dev config p0 : open_playback dev config = Ok p0 -> new_playback config = Ok p0.
Proof.
  unfold open_playback. destruct dev as [dev|]; [|done]. simpl.
  destruct (default_output_config dev) as [x|]; [|done]. simpl.
  destruct (new_playback config) as [p|]; [|done]. simpl. by destruct (open_stream _ _ _ _).
Qed.

(** ** Property *)

Section property.
Context {C D : Type} `{Arboard C} `{OpenH264Decoder D} `{OpusLaws}.
Context `{Cbor ClipboardEvent, CborLaws AudioPayload, Cbor VideoPayload}.
Context (utf8_error_text : list Z -> string) (audio_error_text : AudioError -> string).

(** C11.  Sound arrives.  Whatever the host plays, however its device slices it into callbacks, and
    whatever video, clipboard and other messages share the session: when the messages of the audio
    thread arrive in order, the viewer queues for its output exactly the codec's image of the
    stream, frame by frame in order, even if the viewer's device was opened in another format; as
    many samples as were captured, but for the less than 20 ms that do not fill a frame. *)
Theorem audio_reaches_player host_device config c0 datas device cfg0 has_clipboard client_id server_id
    (r : Receiver (C := C) (D := D)) ms room :
  open_capture host_device = Ok (config, c0) ->
  open_playback device cfg0 = Ok (playback (rx_local r)) ->
  window_open r = true -> audio_poisoned (rx_local r) = false ->
  client_id <> server_id -> client_id <> broadcast ->
  (forall p : AudioPayload, is_Some (into_writer p)) ->
  let c := foldl on_samples c0 datas in
  let frames := (cut (Z.to_nat (frame_len c0)) (concat datas)).1 in
  filter (fun m => is_audio m = true) ms = audio_thread (channels config) (sample_rate config) room (packets c) ->
  (length (packets c) <= room)%nat ->
  let played := queue (playback (rx_local (receive_all
    (build_dispatcher utf8_error_text audio_error_text has_clipboard true) client_id server_id r ms))) in
  played = lossy_all (frame_size config) (encoder (cap_encoder c0)) frames /\
  concat frames ++ pending c = concat datas /\
  zlen played = zlen (concat datas) - zlen (pending c) /\ zlen (pending c) < frame_size config * channels config.
Proof.
  intros Hcap Hplay%open_playback_ok Hw Hp Hids Hb Hcbor c frames Hms Hroom played.
  apply open_capture_ok in Hcap as (Hc & rate & chans & Hcap).
  destruct (new_capture_start _ _ _ Hcap) as (Hcfg & Henc & Hfl & Hel & Hpos & Hpend & Hpk).
  rewrite <- Hc in Hcfg, Henc, Hfl.
  destruct (capture_cuts_stream c0 datas Hpos) as (Hrun & Hcat & Hfull & Hlt).
  { rewrite Hpend. exact Hpos. }
  rewrite Hpend, app_nil_l in *. fold c in Hrun, Hcat, Hlt. fold frames in Hcat, Hfull.
  destruct (new_playback_ready config _ _ _ Hplay Henc) as [Hready Hq0].
  destruct (frames_pass config Hcfg frames (cap_encoder c0) (playback (rx_local r)) [] (eq_sym Hc)
              ltac:(congruence) Hready) as (enc' & sent & Hsent & Hqueue).
  { rewrite Hfl in Hfull. exact Hfull. }
  assert (Hpc : packets c = sent).
  { rewrite Hrun, Hpk. unfold frames in Hsent. destruct (cut _ _) as [fs rest]. cbn [fst] in Hsent.
    by rewrite Hsent. }
  assert (Hplayed : played = lossy_all (frame_size config) (encoder (cap_encoder c0)) frames).
  { unfold played.
    rewrite (receive_all_playback _ _ has_clipboard client_id server_id (channels config) (sample_rate config)
               ms r (packets c) room); try done.
    - rewrite Hpc, Hqueue, Hq0. done.
    - intros packet. unfold audio_packet_message, audio_data, build.
      destruct (Hcbor {| Message.channels := channels config; Message.sample_rate := sample_rate config;
                         opus_data := packet |}) as [b ->]. by eexists. }
  split; [exact Hplayed|]. split; [exact Hcat|]. split; [|rewrite <- Hfl; exact Hlt].
  rewrite Hplayed, <- Hcat. unfold zlen. rewrite lossy_all_length, length_app. lia.
Qed.
End property.

(** ** Instances on concrete inputs *)

(** A codec that keeps the sign of each sample. *)
Definition sign_of (s : sample) : bool := match s with S754_zero b | S754_infinity b | S754_finite b _ _ => b | S754_nan => false end.

Definition sign_opus : Opus := {|
  RustyEncoder := unit; RustyDecoder := unit;
  rusty_encoder _ _ := Ok tt; rusty_decoder _ _ := Ok tt;
  rusty_encode e pcm _ := (e, Ok ((fun s => Z.b2z (sign_of s)) <$> pcm));
  rusty_decode d packet n _ := (d, Ok (n, (fun b => S754_zero (b =? 1)) <$> packet)) |}.

Definition sign_opus_laws : @OpusLaws sign_opus.
Proof.
  refine (@Build_OpusLaws sign_opus (fun _ _ _ _ => True) (fun _ pcm => (fun s => S754_zero (sign_of s)) <$> pcm)
            _ _ _ _).
  - intros e pcm. apply length_fmap.
  - intros. by exists tt.
  - done.
  - intros rate chans [] [] pcm out _ _ _. exists tt, ((fun s => Z.b2z (sign_of s)) <$> pcm), tt.
    split; [done|]. split; [|done]. cbn. do 3 f_equal. rewrite <- list_fmap_compose. apply list_fmap_ext.
    intros i s _. cbn. by destruct (sign_of s).
Defined.

Module AudioExample.
Section instances.
#[local] Instance clipboard_cbor : Cbor ClipboardEvent := countable_cbor ClipboardEvent.
#[local] Instance audio_cbor : Cbor AudioPayload := countable_cbor AudioPayload.
#[local] Instance audio_cbor_laws : CborLaws AudioPayload := countable_cbor_laws AudioPayload.
#[local] Instance video_cbor : Cbor VideoPayload := countable_cbor VideoPayload.
#[local] Instance unit_arboard : Arboard unit :=
  {| arboard_set_text c _ := (c, Ok tt); arboard_set_image c _ := (c, Ok tt) |}.
#[local] Instance no_decoder : OpenH264Decoder unit := {| h264_decode d _ := (d, Ok None) |}.
#[local] Instance signs : Opus := sign_opus.
#[local] Instance signs_laws : OpusLaws := sign_opus_laws.

Definition host : CaptureState := {|
  cap_encoder := {| encoder := tt; enc_config := {| sample_rate := 8000; channels := 1; frame_size := 160 |};
                    enc_frame_len := 160 |};
  pending := []; frame_len := 160; packets := [] |}.

(** A device that grants every call. *)
Definition device (rate chans : Z) : OutputDevice :=
  {| default_output_config := Ok (rate, chans, F32); build_stream _ _ := Ok tt; stream_play := Ok tt |}.

(** Two callbacks of 100 samples: negative, then positive. *)
Definition heard : list (list sample) :=
  [replicate 100 (S754_finite true 1 0); replicate 100 (S754_finite false 1 0)].

(** A viewer whose device plays 48 kHz stereo. *)
Definition receiver : Receiver (C := unit) (D := unit) := {|
  rx_decoder := tt; frames_rendered := 0; video_received := 0; frame_tx := []; window_open := true;
  rx_local := {| local_clipboard := tt; clip_poisoned := false; audio_poisoned := false;
    playback := {| play_decoder := {| decoder := tt; dec_frame_len := 1920;
                     dec_config := {| sample_rate := 48000; channels := 2; frame_size := 960 |} |};
                   queue := [] |} |} |}.

(** A message of another kind comes first. *)
Definition other : ProtocolMessage :=
  {| message_type := Heartbeat; message_id := 7; msg_flags := 0; msg_payload := [1] |}.

Definition arriving : list ProtocolMessage :=
  other :: audio_thread 1 8000 4 (packets (foldl on_samples host heard)).

(** 100 negative samples and 60 positive ones are queued. *)
Lemma audio_reaches_player_witness :
  queue (playback (rx_local (receive_all (build_dispatcher (fun _ => "") (fun _ => "") false true)
                     (replicate 32 1) (replicate 32 2) receiver arriving))) =
  replicate 100 (S754_zero true) ++ replicate 60 (S754_zero false).
Proof.
  rewrite (proj1 (audio_reaches_player (fun _ => "") (fun _ => "") (Some (device 8000 1))
    {| sample_rate := 8000; channels := 1; frame_size := 160 |} host heard (Some (device 48000 6))
    {| sample_rate := 48000; channels := 2; frame_size := 960 |} false (replicate 32 1) (replicate 32 2)
    receiver arriving 4 eq_refl eq_refl eq_refl eq_refl ltac:(vm_compute; congruence) ltac:(vm_compute; congruence)
    ltac:(intros p; by eexists) ltac:(vm_compute; reflexivity) ltac:(vm_compute; lia))).
  vm_compute. reflexivity.
Defined.
End instances.
End AudioExample.
