(* ===== verification/Telemetry.v ===== *)
(** * Log events, health reports and error codes ([bw-core/src/logging.rs], [error.rs])

    The schema of structured logs with the order of severities, the health report with its
    summary, and the registry of errors with their codes and texts.  The serialization to JSON
    is the library's. *)

From S2P Require Import Prelude.

Inductive Severity : Type := Trace | Debug_ | Info_ | Warn | Error_ | Critical.

#[global] Instance Severity_eq_dec : EqDecision Severity.
Proof. solve_decision. Defined.

(** The position of a variant, by which the derived order compares. *)
Definition severity_rank (s : Severity) : Z :=
  match s with Trace => 0 | Debug_ => 1 | Info_ => 2 | Warn => 3 | Error_ => 4 | Critical => 5 end.

Definition severity_le (a b : Severity) : Prop := severity_rank a <= severity_rank b.

#[global] Instance severity_le_dec : RelDecision severity_le.
Proof. intros a b. unfold severity_le. apply _. Defined.

Record LogEvent := {
  log_timestamp_us : Z;
  component : string;
  thread : string;
  severity : Severity;
  session_epoch : Z;
  tenant : string;
  event_id : string;
  log_message : string;
  stacktrace : option string
}.

(** [emit_json], with the library's serializer. *)
Definition emit_json (to_string : LogEvent -> result string string) (e : LogEvent) : result string string :=
  to_string e.

Record HealthReport := {
  renderer_alive : bool;
  ipc_alive : bool;
  network_alive : bool;
  policy_loaded : bool;
  encoder_initialized : bool
}.

Definition is_healthy (h : HealthReport) : bool :=
  renderer_alive h && ipc_alive h && network_alive h && policy_loaded h && encoder_initialized h.

(** The severities are totally ordered, so that a threshold keeps every event at least as severe. *)
#[global] Instance severity_total_order : TotalOrder severity_le.
Proof.
  unfold severity_le. split; [split; [split|]|].
  - intros a. lia.
  - intros a b c. lia.
  - intros a b Hab Hba. destruct a, b; (done || (exfalso; cbn in *; lia)).
  - intros a b. unfold strict. destruct (Z.lt_trichotomy (severity_rank a) (severity_rank b)) as [?|[He|?]].
    + left. lia.
    + right. left. destruct a, b; done.
    + right. right. lia.
Qed.

(** ** The error registry *)

Inductive BwError : Type :=
| AuthHandshakeFailed
| AuthTokenExpired
| DeviceIdentityRevoked
| PolicyVerificationFailed
| TransportTimeout
| StunHolePunchFailed
| UdpTrafficBlocked
| CaptureInitializationFailed
| FrameCaptureOverwrite
| EncoderInitializationFailed
| AntiDebugViolation
| UpdateSignatureMismatch
| StorageCorruptOrLocked
| PolicySignatureMismatch
| RelayHandshakeFailed
| PoolAllocationBoundaryViolated.

#[global] Instance BwError_eq_dec : EqDecision BwError.
Proof. solve_decision. Defined.

(** The discriminants. *)
Definition error_code (e : BwError) : Z :=
  match e with
  | AuthHandshakeFailed => 1000
  | AuthTokenExpired => 1001
  | DeviceIdentityRevoked => 1002
  | PolicyVerificationFailed => 1003
  | TransportTimeout => 2000
  | StunHolePunchFailed => 2001
  | UdpTrafficBlocked => 2002
  | CaptureInitializationFailed => 3000
  | FrameCaptureOverwrite => 3001
  | EncoderInitializationFailed => 4000
  | AntiDebugViolation => 5002
  | UpdateSignatureMismatch => 5003
  | StorageCorruptOrLocked => 6000
  | PolicySignatureMismatch => 7000
  | RelayHandshakeFailed => 8001
  | PoolAllocationBoundaryViolated => 9001
  end.

(** What [Display] writes. *)
Definition error_display (e : BwError) : string :=
  match e with
  | AuthHandshakeFailed => "[BW-1000] Authentication Handshake Failed: Invalid signature or PAKE mismatch"
  | AuthTokenExpired => "[BW-1001] Authorization Token Expired or Cryptographically Invalid"
  | DeviceIdentityRevoked => "[BW-1002] Device Identity Revoked by Central Identity Plane"
  | PolicyVerificationFailed => "[BW-1003] Administrative Policy Verification Failed: Bad signature"
  | TransportTimeout => "[BW-2000] QUIC Connection Timed Out during initial 1-RTT handshake"
  | StunHolePunchFailed => "[BW-2001] STUN Hole Punch Failed; fallback to Relay triggered"
  | UdpTrafficBlocked => "[BW-2002] UDP Traffic Blocked; falling back to TCP Relay"
  | CaptureInitializationFailed => "[BW-3000] OS Capture API Initialization Failed"
  | FrameCaptureOverwrite => "[BW-3001] Frame Capture Overwrite Triggered: Processing pipeline stalled"
  | EncoderInitializationFailed => "[BW-4000] Hardware Encoder Initialization Failed"
  | AntiDebugViolation => "[BW-5002] Anti-Debugging Violation: Debugger attached, process terminated"
  | UpdateSignatureMismatch => "[BW-5003] Update Verification Failed: Payload signature mismatch"
  | StorageCorruptOrLocked => "[BW-6000] Local Policy Database corrupt or offline SQLite file lock timeout"
  | PolicySignatureMismatch => "[BW-7000] Policy Signature Mismatch: Local JSON validation failed"
  | RelayHandshakeFailed => "[BW-8001] Relay Plane Handshake Verification Failed: Signed JWT JWS rejected"
  | PoolAllocationBoundaryViolated => "[BW-9001] Memory Allocation Boundary Violated: Exceeded static pool bounds"
  end.

(** Different errors have different codes, of 32 bits, and the text of each begins with its own:
    a code found in a log names one error. *)
Lemma codes_identify (a b : BwError) :
  uint 32 (error_code a) /\ (error_code a = error_code b -> a = b) /\
  exists text, error_display a = "[BW-" +:+ pretty (error_code a) +:+ "] " +:+ text.
Proof.
  split; [destruct a; unfold uint; cbn; lia|]. split; [by destruct a, b|].
  destruct a; eexists; reflexivity.
Qed.
