(* ===== verification/ControlClient.v ===== *)
(** * The relay's control client over datagrams ([bw-relay/src/relay_client.rs])

    The calls of [RelayControlClient], each a request datagram to the relay program and a
    response datagram back, either of which the network may lose; and the instance of the
    rendezvous driver's interface that a relay-mode server runs on. *)

From S2P Require Import Prelude Cbor Symmetric Identity Forwarding Rendezvous RelayServer RelayClient RelaySocket RelayPath.

(** ** The client *)

(** [RelayControlClient]: the device's secret and the address of its socket. *)
Record RelayControlClient := { signing_secret : list Z; control_addr : SocketAddr }.

(** What happens to one call: the client's clock, the relay's clock and randomness when the
    request arrives, and which of the two datagrams is lost. *)
Record Call := {
  client_now : Z;
  relay_now : Z;
  relay_random : option (list Z);
  request_lost : bool;
  response_lost : bool
}.

(** [RelayControlClient::connect], from the answer of [UdpSocket::bind]. *)
Definition control_connect (bound : result string SocketAddr) (secret : list Z) :
    result RelayClientError RelayControlClient :=
  let? addr := map_err (fun _ => Io) bound in Ok {| signing_secret := secret; control_addr := addr |}.

Section client.
Context `{Signatures, Cbor RelayMessage}.

Definition control_device_id (cl : RelayControlClient) : DeviceId := own_device_id (signing_secret cl).

(** [send_recv]: the relay program's turn on the request, and the response read; [None] is a call
    that waits for ever, as there is no timeout. *)
Definition send_recv (cl : RelayControlClient) (c : Call) (msg : RelayMessage) (node : RelayNode) :
    RelayNode * option (result RelayClientError RelayMessage) :=
  match control_packet msg with
  | Err e => (node, Some (Err e))
  | Ok packet =>
      if request_lost c then (node, None)
      else
        let '(node, sent) := relay_turn node (relay_now c) (relay_random c) packet (control_addr cl) in
        (node, match sent with
               | (_, datagram) :: _ => if response_lost c then None else Some (control_response datagram)
               | [] => None
               end)
  end.

(** A request, and how its response is read. *)
Definition control_call {A} (cl : RelayControlClient) (c : Call) (msg : RelayMessage)
    (read : RelayMessage -> result RelayClientError A) (node : RelayNode) :
    RelayNode * option (result RelayClientError A) :=
  let '(node, r) := send_recv cl c msg node in
  (node, (fun r => let? response := r in read response) <$> r).

Definition control_register (cl : RelayControlClient) (c : Call) :=
  control_call cl c (register_request (signing_secret cl) (client_now c)) register_response.

Definition control_connect_intent (cl : RelayControlClient) (c : Call) (target : DeviceId) (intent_id : list Z)
    (candidates : list Candidate) :=
  control_call cl c (connect_intent_request (signing_secret cl) (client_now c) target intent_id candidates)
    connect_intent_response.

Definition control_accept_connect (cl : RelayControlClient) (c : Call) (intent_id : list Z) (initiator : DeviceId)
    (candidates : list Candidate) :=
  control_call cl c (accept_connect_request (signing_secret cl) (client_now c) intent_id initiator candidates)
    exchange_response.

Definition control_get_candidates (cl : RelayControlClient) (c : Call) (intent_id : list Z) :=
  control_call cl c (get_candidates_request (signing_secret cl) intent_id) exchange_response.

Definition control_poll_pending_intents (cl : RelayControlClient) (c : Call) :=
  control_call cl c (poll_request (signing_secret cl)) poll_response.

Definition control_establish_relay (cl : RelayControlClient) (c : Call) (intent_id : list Z) :=
  control_call cl c (establish_request (signing_secret cl) (client_now c) intent_id) establish_response.

(** ** The driver's interface *)

(** The relay, and what will happen to the calls to come. *)
Record Link := { link_node : RelayNode; link_calls : list Call }.

(** A call that would wait for ever has no result; the interface, which has none for it either,
    is given an I/O error in its place.  Between a client and a relay that answers there is no such
    call ([send_recv_answered]). *)
Definition link_call {A} (f : Call -> RelayNode -> RelayNode * option (result RelayClientError A)) (l : Link) :
    Link * result RelayClientError A :=
  match link_calls l with
  | [] => (l, Err Io)
  | c :: calls =>
      let '(node, r) := f c (link_node l) in
      ({| link_node := node; link_calls := calls |}, default (Err Io) r)
  end.

(** [impl RelayControl for RelayControlClient] *)
Definition link_control (cl : RelayControlClient) : RelayControl Link := {|
  poll_pending_intents := link_call (control_poll_pending_intents cl);
  accept_connect l intent_id initiator :=
    let '(l, r) := link_call (fun c => control_accept_connect cl c intent_id initiator []) l in
    (l, let? answer := r in Ok answer.1)
|}.
End client.

#[export] Existing Instance link_control.

(** ** Lemmas *)

Section exchange.
Context `{SignaturesLaws, CborLaws RelayMessage}.

(** A message fits into a datagram of this size. *)
Definition fits (size : nat) (m : RelayMessage) : Prop :=
  exists body, into_writer m = Some body /\ (length CONTROL_MAGIC + length body <= size)%nat.

Definition delivered (c : Call) : Prop := request_lost c = false /\ response_lost c = false.

(** Over a network that delivers, a request and a response that fit are one call of the relay's
    handler. *)
Lemma send_recv_answered cl c m node st' resp :
  delivered c -> fits MAX_DATAGRAM m ->
  handle_message_from (node_server node) (relay_now c) (relay_random c) m (Some (control_addr cl)) = (st', Ok resp) ->
  fits RESPONSE_BUFFER resp ->
  exists node', send_recv cl c m node = (node', Some (Ok resp)) /\ node_server node' = st'.
Proof.
  intros [Hq Hr] (b & Hb & Hlen) Hh (body & Hbody & Hfit). unfold send_recv, control_packet. rewrite Hb, Hq.
  destruct (control_exchange node (relay_now c) (relay_random c) m (CONTROL_MAGIC ++ b) (control_addr cl) st' (Ok resp) body)
    as (node' & d & Hturn & Hst & Hresp).
  - unfold control_packet. by rewrite Hb.
  - by rewrite length_app.
  - done.
  - done.
  - done.
  - rewrite Hturn, Hr, Hresp. by exists node'.
Qed.

Lemma control_call_answered {A} cl c m (read : _ -> result RelayClientError A) node st' resp :
  delivered c -> fits MAX_DATAGRAM m ->
  handle_message_from (node_server node) (relay_now c) (relay_random c) m (Some (control_addr cl)) = (st', Ok resp) ->
  fits RESPONSE_BUFFER resp ->
  exists node', control_call cl c m read node = (node', Some (read resp)) /\ node_server node' = st'.
Proof.
  intros Hd Hm Hh Hr. destruct (send_recv_answered cl c m node st' resp Hd Hm Hh Hr) as (node' & Hs & Hst).
  exists node'. unfold control_call. by rewrite Hs.
Qed.
End exchange.

(** What a polled intent is. *)
Lemma pending_elem intents now target id initiator i :
  intents !! id = Some i -> (id, initiator) ∈ pending_for intents now target ->
  exists created, pi_initiator i = initiator /\ pi_target i = target /\ pi_state i = Pending created /\
    sat_sub now created <= INTENT_TIMEOUT_MS.
Proof.
  intros Hi. unfold pending_for. rewrite list_elem_of_fmap. intros ([k i'] & [= -> ->] & Hin).
  apply list_elem_of_filter in Hin as [[Ht Hf] Hin]. apply elem_of_map_to_list in Hin. cbn [snd] in *.
  rewrite Hi in Hin. injection Hin as <-. unfold fresh_pending in Hf. destruct (pi_state i) as [created| |]; try done.
  apply Z.ltb_lt in Hf. exists created. split_and!; try done. unfold sat_sub, INTENT_TIMEOUT_MS in *. lia.
Qed.

(** ** Property *)

Section property.
Context `{SignaturesLaws, CborLaws RelayMessage}.

(** C26.  The rendezvous driver, on the control client, on datagrams, on the relay: when both
    devices are registered and an intent for the server is pending, one turn of
    [next_session_token] obtains the token the relay issued for the first of them, and the
    initiator that then asks for it obtains the same token.  The conditions: every datagram of
    these exchanges arrives; every request fits in the relay's buffer and every answer in the
    client's 4096 bytes, the list of all pending intents included (a longer list is cut, which is
    fatal to the driver); the server's clock is within five minutes of the relay's; the intent is
    still pending when the server's acceptance arrives. *)
Theorem driver_obtains_token cl peer node poll accept calls id i others token :
  let st := node_server node in
  let own := control_device_id cl in
  let initiator := control_device_id peer in
  knows st (signing_secret cl) -> knows st (signing_secret peer) ->
  delivered poll -> delivered accept -> relay_random accept = Some token ->
  abs_diff (relay_now accept) (client_now accept) <= TIMESTAMP_WINDOW_MS -> length id = 16%nat ->
  rendezvous st !! id = Some i ->
  pending_for (rendezvous st) (relay_now poll) own = (id, initiator) :: others ->
  (id, initiator) ∈ pending_for (rendezvous st) (relay_now accept) own ->
  Forall (fits MAX_DATAGRAM)
    [poll_request (signing_secret cl); accept_connect_request (signing_secret cl) (client_now accept) id initiator [];
     get_candidates_request (signing_secret peer) id] ->
  Forall (fits RESPONSE_BUFFER)
    [PendingIntents ((fun p => {| pii_from := p.2; pii_intent_id := p.1 |}) <$>
       pending_for (rendezvous st) (relay_now poll) own);
     CandidateExchange id (initiator_candidates i) token; CandidateExchange id [] token] ->
  exists link', @next_session_token Link (link_control cl)
      {| link_node := node; link_calls := poll :: accept :: calls |} = (link', Ok (Some token)) /\
    link_calls link' = calls /\
    forall fetch, delivered fetch ->
      exists node', control_get_candidates peer fetch id (link_node link') = (node', Some (Ok (token, []))).
Proof.
  intros st own initiator Hown Hpeer Hdp Hda Hrand Hskew Hid Hi Hpend Hstill Hq Hr.
  apply Forall_cons_1 in Hq as [Hq1 [Hq2 [Hq3 _]%Forall_cons_1]%Forall_cons_1].
  apply Forall_cons_1 in Hr as [Hr1 [Hr2 [Hr3 _]%Forall_cons_1]%Forall_cons_1].
  destruct (pending_elem _ _ _ _ _ _ Hi Hstill) as (created & Hin & Htgt & Hst & Hsub).
  destruct (control_call_answered cl poll _ poll_response node st _ Hdp Hq1 (poll_succeeds st _ _ _ _ Hown) Hr1)
    as (node1 & Hc1 & Hn1).
  pose proof (accept_connect_succeeds st (relay_now accept) (client_now accept) (signing_secret cl) id [] token
    (Some (control_addr cl)) i created Hskew Hown Hid Hi Htgt Hst Hsub) as Hacc.
  rewrite Hin in Hacc. rewrite <- Hrand in Hacc. rewrite <- Hn1 in Hacc at 1.
  destruct (control_call_answered cl accept _ exchange_response node1 _ _ Hda Hq2 Hacc Hr2) as (node2 & Hc2 & Hn2).
  exists {| link_node := node2; link_calls := calls |}.
  unfold next_session_token, poll_pending_intents, accept_connect, link_control, link_call,
    control_poll_pending_intents, control_accept_connect. cbn [link_calls link_node].
  rewrite Hc1. cbn [default poll_response].
  change (pending_for (rendezvous st) (relay_now poll) (own_device_id (signing_secret cl)) = (id, initiator) :: others)
    in Hpend.
  unfold default, from_option. cbn [poll_response]. rewrite Hpend. cbn [fmap list_fmap fst snd pii_intent_id pii_from].
  rewrite take_app_le by lia. rewrite (take_ge id) by lia. unfold Datatypes.id. cbn [link_calls link_node]. rewrite Hc2. cbn.
  split; [done|]. split; [done|]. intros fetch Hdf.
  destruct (control_call_answered peer fetch (get_candidates_request (signing_secret peer) id) exchange_response node2
    (node_server node2) (CandidateExchange id [] token) Hdf Hq3) as (node3 & Hc3 & _); [|done|by exists node3].
  rewrite (get_candidates_succeeds (node_server node2) (signing_secret peer) id _ _ _
             (set_intent_state (set_target_candidates i []) (Accepted token)) token); [done| |done| |done|done].
  - rewrite Hn2. done.
  - rewrite Hn2. cbn. by rewrite lookup_insert_eq.
Qed.
End property.

(** ** Instances on concrete inputs *)

#[local] Instance PendingIntentInfo_eq_dec : EqDecision PendingIntentInfo.
Proof. solve_decision. Defined.
#[local] Instance RelayMessage_eq_dec : EqDecision RelayMessage.
Proof. solve_decision. Defined.

(** A serialization of the messages of a phrase book, by their place in it. *)
Definition phrase_cbor (book : list RelayMessage) : Cbor RelayMessage := {|
  into_writer m := (fun p => [Z.of_nat p.1]) <$> list_find (fun x => x = m) (take 256 book);
  from_reader b := match b with [k] => take 256 book !! Z.to_nat k | _ => None end |}.

Lemma phrase_cbor_laws book : @CborLaws RelayMessage (phrase_cbor book).
Proof.
  assert (Hfind : forall (m : RelayMessage) b, @into_writer _ (phrase_cbor book) m = Some b ->
    exists k, b = [Z.of_nat k] /\ take 256 book !! k = Some m).
  { intros m b Hm. cbn in Hm. destruct (list_find _ _) as [[k x]|] eqn:Hf; [|done]. injection Hm as <-.
    apply list_find_Some in Hf as (Hk & -> & _). by exists k. }
  split; intros m b (k & -> & Hk)%Hfind.
  - cbn. by rewrite Nat2Z.id.
  - done.
  - constructor; [|done]. apply lookup_lt_Some in Hk. rewrite length_take in Hk. change (0 <= Z.of_nat k < 256). lia.
Qed.

Module ControlExample.
Definition st : RelayServer := @relay_run toy_signatures sample_relay (take 3 sample_inputs).
Definition node : RelayNode :=
  {| node_server := st; node_dev_token := None; node_dev_bindings := dev_bindings_default |}.
Definition server_client : RelayControlClient := {| signing_secret := [2]; control_addr := AddrV4 [10; 0; 0; 2] 4000 |}.
Definition viewer_client : RelayControlClient := {| signing_secret := [1]; control_addr := AddrV4 [10; 0; 0; 1] 4000 |}.
Definition call (mine relays : Z) (random : option (list Z)) : Call :=
  {| client_now := mine; relay_now := relays; relay_random := random; request_lost := false; response_lost := false |}.
Definition the_intent : list Z := replicate 16 7.
Definition the_token : list Z := replicate 32 9.

Definition requests : list RelayMessage :=
  [@poll_request toy_signatures [2];
   @accept_connect_request toy_signatures [2] 101010 the_intent (@own_device_id toy_signatures [1]) [];
   @get_candidates_request toy_signatures [1] the_intent].

Definition responses : list RelayMessage :=
  [PendingIntents ((fun p => {| pii_from := p.2; pii_intent_id := p.1 |}) <$>
     pending_for (rendezvous st) 102000 (@own_device_id toy_signatures [2]));
   CandidateExchange the_intent [cand_host alice_addr] the_token; CandidateExchange the_intent [] the_token].

#[local] Instance phrases : Cbor RelayMessage := phrase_cbor (requests ++ responses).
End ControlExample.

Lemma driver_obtains_token_witness :
  exists link', @next_session_token Link (@link_control toy_signatures ControlExample.phrases ControlExample.server_client)
      {| link_node := ControlExample.node;
         link_calls := [ControlExample.call 0 102000 None;
                        ControlExample.call 101010 102010 (Some ControlExample.the_token)] |} =
      (link', Ok (Some ControlExample.the_token)).
Proof.
  destruct (@driver_obtains_token toy_signatures toy_signatures_laws ControlExample.phrases (phrase_cbor_laws _)
    ControlExample.server_client ControlExample.viewer_client ControlExample.node (ControlExample.call 0 102000 None)
    (ControlExample.call 101010 102010 (Some ControlExample.the_token)) [] ControlExample.the_intent
    (new_intent 101000 (@own_device_id toy_signatures [1]) (@own_device_id toy_signatures [2]) [cand_host alice_addr])
    [] ControlExample.the_token) as (link' & Hn & _ & _).
  - eexists. vm_compute. split; reflexivity.
  - eexists. vm_compute. split; reflexivity.
  - done.
  - done.
  - done.
  - vm_compute. congruence.
  - done.
  - vm_compute. reflexivity.
  - vm_compute. reflexivity.
  - vm_compute. left.
  - repeat constructor; eexists; (split; [vm_compute; reflexivity|vm_compute; lia]).
  - repeat constructor; eexists; (split; [vm_compute; reflexivity|vm_compute; lia]).
  - by exists link'.
Defined.
