(* ===== verification/Picture.v ===== *)
(** * The picture on the viewer's window

    The whole way of the video: the server's capture, compositor, encoder and forwarding
    ([VideoPath]), the login and the session's tasks ([SessionTasks]), the receiver task of the
    viewer with its decoder ([Client]) and its window ([Blit]).  The codec's two halves are an
    interface: what the decoder gives looks like what the encoder was given, as long as it is
    given everything since a keyframe. *)

From S2P Require Import Prelude Codec Cbor Message Routing Window Symmetric Encryption Session Io Fragments.
From S2P Require Import SecureConn Auth Wire SessionTasks.
From S2P Require Import Float Pixels Blit Capture Cursor Video Audio Input Poller Client AudioPath Encoder VideoPath.

(** ** The codec's promise *)

(** [in_step]: the decoder has the reference pictures the encoder will predict from.  An encoder
    may skip a picture, writing nothing.  What it writes is a sequence of units that begin with a
    start code, and a decoder that is in step, or any decoder when it is an IDR picture, gives a
    picture of the same size that looks like the source.  An attempt that fails leaves the
    reference pictures as they were. *)
Class VideoCodec (E D : Type) `{OpenH264 E} `{OpenH264Decoder D} := {
  in_step : E -> D -> Prop;
  looks_like : BasicYuvSource -> list Z -> Prop;
  codes_bytes : forall e s e' payload, encode e s = (e', Ok payload) ->
    is_bytes payload /\ zlen payload < 2 ^ 32;
  codes_picture : forall e d s e' payload,
    encode e s = (e', Ok payload) -> in_step e d \/ has_idr payload = true ->
    payload = [] /\ in_step e' d \/
    4 < zlen payload /\ start_code payload = true /\
    exists d' write_rgb8, h264_decode d payload = (d', Ok (Some (yw s, yh s, write_rgb8))) /\
      (forall buf, zlen buf = yw s * yh s * 3 ->
         zlen (write_rgb8 buf) = zlen buf /\ looks_like s (write_rgb8 buf)) /\ in_step e' d';
  codes_nothing : forall e d s e' err, encode e s = (e', Err err) -> in_step e d -> in_step e' d }.

Section Picture.
Context {E D : Type} `{OpenH264Laws E} `{OpenH264Decoder D} `{!VideoCodec E D}.

(** The viewer's picture of a captured frame. *)
Definition image_of (f : Frame) (i : DecodedImage) : Prop :=
  Blit.width i = fwidth f /\ Blit.height i = fheight f /\ image_ok i /\
  exists (b : OpenH264Backend E) s,
    bwidth b = fwidth f /\ bheight b = fheight f /\ yuv_source b f = Ret s /\ looks_like s (rgb i).

(** Frames with the types of the source, and not empty. *)
Definition real_frame (f : Frame) : Prop :=
  0 < fwidth f < 2 ^ 32 /\ 0 < fheight f < 2 ^ 32 /\ uint 64 (timestamp_us f).

(** The decoder on the frames of the messages: what [receive_message] does with each. *)
Definition view (s : D * list DecodedImage) (ef : EncodedFrame) : D * list DecodedImage :=
  match from_bytes (to_bytes ef) with
  | Err _ => s
  | Ok frame =>
      let '(d, res) := pipeline_decode s.1 frame in
      match res with Ok (Some image) => (d, s.2 ++ [image]) | _ => (d, s.2) end
  end.

Definition view_all (d : D) (efs : list EncodedFrame) : D * list DecodedImage := foldl view (d, []) efs.

(** The frames that carry a picture. *)
Definition not_skipped (ef : EncodedFrame) : bool := negb (is_empty (ef_payload ef)).

(** The backend goes on from what the decoder has seen, or begins anew. *)
Definition follows (b : OpenH264Backend E) (d : D) : Prop :=
  match encoder b with None => True | Some e => Encoder.pending e = true \/ in_step e d end.

Lemma owes_follows b d : owes b -> follows b d.
Proof. unfold owes, follows. destruct (encoder b); auto. Qed.

Lemma ensure_started_follows b f b' r d : ensure_started b f = (b', r) -> follows b d ->
  follows b' d /\ (r = Ok tt -> bwidth b' = fwidth f /\ bheight b' = fheight f).
Proof.
  assert (Hst : forall r', start b (fwidth f) (fheight f) (config b) = (b', r') -> follows b d ->
    follows b' d /\ (r' = Ok tt -> bwidth b' = fwidth f /\ bheight b' = fheight f)).
  { intros r'. unfold start. destruct encoder_new as [e|e] eqn:He; intros [= <- <-] Hf; [|done].
    split; [|done]. left. by apply pending_new. }
  unfold ensure_started. destruct (encoder b) as [e|] eqn:Eb; [|apply Hst].
  destruct (Z.eqb_spec (fwidth f) (bwidth b)), (Z.eqb_spec (fheight f) (bheight b)); cbn [negb orb]; try apply Hst.
  intros [= <- <-] Hf. done.
Qed.

Lemma enforce_follows b e d : encoder b = Some e -> follows b d ->
  Encoder.pending (enforce_interval b e) = true \/ in_step (enforce_interval b e) d.
Proof.
  unfold follows, enforce_interval. intros -> Hf. destruct (_ && _); [left; apply pending_force|done].
Qed.

(** An attempt that fails. *)
Lemma encode_failed b f seq b' err d :
  follows b d -> Encoder.encode_frame b f seq = Ret (b', Err err) -> follows b' d.
Proof.
  intros Hf. unfold Encoder.encode_frame. destruct (has_pixels f); cbn [negb]; [|by intros [= <- _]].
  destruct (ensure_started b f) as [b1 r1] eqn:Es. destruct (ensure_started_follows _ _ _ _ d Es Hf) as [Hf1 _].
  destruct r1 as [[]|]; [|by intros [= <- _]]. destruct (encoder b1) as [e|] eqn:Ee; [|by intros [= <- _]].
  destruct (yuv_source b1 f) as [s|]; [|done]. cbn.
  destruct (encode (enforce_interval b1 e) s) as [e' [payload|err']] eqn:Enc; [done|]. intros [= <- _].
  unfold follows. cbn. destruct (enforce_follows _ _ _ Ee Hf1) as [Hp|Hi].
  - left. by eapply pending_err.
  - right. by eapply codes_nothing.
Qed.

(** What a successful attempt is made of. *)
Lemma encode_succeeded b f seq b' ef d :
  follows b d -> Encoder.encode_frame b f seq = Ret (b', Ok ef) ->
  exists (b1 : OpenH264Backend E) e s e',
    bwidth b1 = fwidth f /\ bheight b1 = fheight f /\ yuv_source b1 f = Ret s /\
    (Encoder.pending e = true \/ in_step e d) /\ encode e s = (e', Ok (ef_payload ef)) /\
    encoder b' = Some e' /\ ef_session_id ef = 0 /\ ef_sequence ef = seq /\
    ef_timestamp_us ef = timestamp_us f /\ ef_width ef = fwidth f /\ ef_height ef = fheight f /\ ef_codec ef = H264.
Proof.
  intros Hf. unfold Encoder.encode_frame. destruct (has_pixels f); cbn [negb]; [|done].
  destruct (ensure_started b f) as [b1 r1] eqn:Es. destruct (ensure_started_follows _ _ _ _ d Es Hf) as [Hf1 Hs].
  destruct r1 as [[]|]; [|done]. destruct (Hs eq_refl) as [Hw Hh]. destruct (encoder b1) as [e|] eqn:Ee; [|done].
  destruct (yuv_source b1 f) as [s|] eqn:Ey; [|done]. cbn.
  destruct (encode (enforce_interval b1 e) s) as [e' [payload|err']] eqn:Enc; [|done]. intros [= <- <-].
  exists b1, (enforce_interval b1 e), s, e'. cbn. split_and!; try done. by apply enforce_follows.
Qed.

Lemma yuv_source_dimensions (b : OpenH264Backend E) f s :
  yuv_source b f = Ret s -> yw s = bwidth b /\ yh s = bheight b.
Proof.
  unfold yuv_source. destruct (bgra_to_yuv420p _ _ _); [|done]. cbn.
  destruct (subslice _ 0 _); [|done]. cbn. destruct (subslice _ _ _); [|done]. cbn.
  destruct (subslice _ _ _); [|done]. by intros [= <-].
Qed.

(** The frame a successful attempt made, at the viewer. *)
Lemma encode_viewed b f seq b' ef d images :
  real_frame f -> uint 64 seq -> follows b d -> Encoder.encode_frame b f seq = Ret (b', Ok ef) ->
  not_skipped ef = false /\ view (d, images) ef = (d, images) /\ follows b' d \/
  not_skipped ef = true /\ exists d' i, view (d, images) ef = (d', images ++ [i]) /\ image_of f i /\ follows b' d'.
Proof.
  intros (Hw & Hh & Ht) Hseq Hf He.
  destruct (encode_succeeded _ _ _ _ _ d Hf He) as (b1 & e & s & e' & Hbw & Hbh & Hy & Hstep & Henc & Hb' & G1 & G2 & G3 & G4 & G5 & G6).
  destruct (codes_bytes _ _ _ _ Henc) as [Hbytes Hlen].
  assert (Hok : encoded_ok ef).
  { unfold encoded_ok. rewrite G1, G2, G3, G4, G5. unfold uint in *. split_and!; done || lia. }
  assert (Hin : in_step e d \/ has_idr (ef_payload ef) = true).
  { destruct Hstep as [Hp|?]; [right|by left]. exact (pending_idr _ _ _ _ Hp Henc). }
  unfold view, not_skipped. rewrite (from_to_bytes ef Hok Hlen), G6. cbn [fst snd].
  destruct (codes_picture _ _ _ _ _ Henc Hin) as [[Hnil Hi]|(Hl & Hsc & d' & wr & Hdec & Hlike & Hi)].
  - left. rewrite Hnil. split; [done|]. split; [done|]. unfold follows. rewrite Hb'. by right.
  - right. rewrite Hsc, andb_false_r.
    destruct (Z.ltb_spec (zlen (ef_payload ef)) 4); [lia|]. rewrite decide_False by done.
    destruct (ef_payload ef) as [|z l] eqn:Ep; [unfold zlen in Hl; simpl in Hl; lia|]. split; [done|].
    unfold pipeline_decode. rewrite G6, decide_False, Ep by (intros []; done). cbn [is_empty]. rewrite Hdec.
    destruct (yuv_source_dimensions _ _ _ Hy) as [Hyw Hyh]. rewrite Hyw, Hyh, Hbw, Hbh in *.
    rewrite (proj2 (Z.eqb_neq _ _)), (proj2 (Z.eqb_neq (fheight f) 0)) by lia. cbn [orb].
    eexists d', _. split; [reflexivity|]. split.
    + unfold image_of. cbn [Blit.width Blit.height rgb]. rewrite !wrap_small by (unfold uint; lia).
      split; [done|]. split; [done|]. destruct (Hlike (replicate (Z.to_nat (fwidth f * fheight f * 3)) 0))
        as [Hrl Hlk]; [unfold zlen; rewrite length_replicate; nia|].
      split; [|by exists b1, s]. split; [cbn; lia|]. split; [cbn; lia|]. cbn [Blit.width Blit.height rgb].
      rewrite Hrl. unfold zlen. rewrite length_replicate. nia.
    + unfold follows. rewrite Hb'. by right.
Qed.

(** ** The path *)

Context `{Cbor VideoPayload}.

(** One turn of the encoder. *)
Lemma turn_viewed (q : Pipeline E) first newer r q' d :
  real_frame (drain first newer) -> uint 64 (sequence q) -> follows (backend q) d ->
  pipeline_turn q first newer r = Ret q' ->
  uint 64 (sequence q') /\
  (log q' = log q /\ follows (backend q') d \/
   exists x ef, log q' = log q ++ [(x, ef)] /\ forall images,
     not_skipped ef = false /\ view (d, images) ef = (d, images) /\ follows (backend q') d \/
     not_skipped ef = true /\ exists d' i, view (d, images) ef = (d', images ++ [i]) /\
       image_of (drain first newer) i /\ follows (backend q') d').
Proof.
  intros Hf Hs Hd. unfold pipeline_turn.
  set (b0 := if is_refresh (drain first newer) then force_keyframe (backend q) else backend q).
  assert (Hb0 : follows b0 d).
  { unfold b0. destruct (is_refresh _); [apply owes_follows, force_keyframe_owes|done]. }
  destruct (Encoder.encode_frame b0 (drain first newer) (sequence q)) as [[b [ef|err]]|] eqn:He; [| |done]; cbn.
  2: { intros [= <-]. split; [done|]. left. split; [done|]. by eapply encode_failed. }
  destruct r; intros [= <-]; cbn.
  - split; [by apply wrap_uint|]. right. exists (dropped q), ef. split; [done|]. intros images.
    by apply (encode_viewed b0 _ (sequence q)).
  - split; [done|]. left. split; [done|]. apply owes_follows, force_keyframe_owes.
  - split; [done|]. by left.
Qed.

(** The pictures of what was put into the channel so far. *)
Record picture_inv (d0 : D) (tr : list path_label) (p : Path) : Prop := {
  pic_frames : exists fs, fs `sublist_of` encoded_in tr /\
    Forall2 image_of fs (view_all d0 (log (encoding p)).*2).2;
  pic_count : forall k, length (view_all d0 (take k (log (encoding p)).*2)).2 =
    length (filter (fun ef => not_skipped ef = true) (take k (log (encoding p)).*2));
  pic_follows : follows (backend (encoding p)) (view_all d0 (log (encoding p)).*2).1;
  pic_sequence : uint 64 (sequence (encoding p))
}.

Lemma view_all_snoc d0 efs ef : view_all d0 (efs ++ [ef]) = view (view_all d0 efs) ef.
Proof. unfold view_all. by rewrite foldl_app. Qed.

Lemma pic_count_snoc d0 efs ef n :
  (forall k, length (view_all d0 (take k efs)).2 =
     length (filter (fun ef => not_skipped ef = true) (take k efs))) ->
  length (view_all d0 (efs ++ [ef])).2 = (length (view_all d0 efs).2 + n)%nat ->
  n = (if not_skipped ef then 1 else 0)%nat ->
  forall k, length (view_all d0 (take k (efs ++ [ef]))).2 =
     length (filter (fun ef => not_skipped ef = true) (take k (efs ++ [ef]))).
Proof.
  intros Hc Hl Hn k. destruct (decide (k <= length efs)%nat) as [Hk|Hk].
  - by rewrite take_app_le.
  - rewrite take_ge by (rewrite length_app; simpl; lia). rewrite list.filter_app, length_app, Hl.
    specialize (Hc (length efs)). rewrite firstn_all in Hc. rewrite Hc, Hn. f_equal.
    destruct (not_skipped ef) eqn:Ens; [rewrite filter_cons_True|rewrite filter_cons_False]; try done. by rewrite Ens.
Qed.

Lemma encode_turn_pictures d0 tr p f fs : real_frame (drain f fs) -> picture_inv d0 tr p ->
  picture_inv d0 (tr ++ [EncodeNewest (drain f fs)]) (encode_turn f fs p).
Proof.
  intros Hr [(gs & Hsub & HF) Hc Hf Hs].
  assert (Hen : encoded_in (tr ++ [EncodeNewest (drain f fs)]) = encoded_in tr ++ [drain f fs]).
  { unfold encoded_in. by rewrite omap_app. }
  unfold encode_turn. destruct (pipeline_turn _ _ _ _) as [q|] eqn:Et.
  2: { constructor; cbn; try done. exists gs. rewrite Hen. split; [by apply sublist_inserts_r|done]. }
  destruct (turn_viewed _ _ _ _ _ _ Hr Hs Hf Et) as (Hs' & [[Hl Hf']|(x & ef & Hl & Hv)]); cbn.
  - constructor; cbn; rewrite ?Hl; try done. exists gs. rewrite Hen. split; [by apply sublist_inserts_r|done].
  - assert (Hl2 : (log q).*2 = (log (encoding p)).*2 ++ [ef]) by (rewrite Hl, fmap_app; done).
    specialize (Hv (view_all d0 (log (encoding p)).*2).2). rewrite <- surjective_pairing in Hv.
    rewrite <- view_all_snoc in Hv.
    destruct Hv as [(Hns & Hv & Hf')|(Hns & d' & i & Hv & Hi & Hf')]; constructor; cbn; rewrite ?Hl2, ?Hv; try done.
    + exists gs. rewrite Hen. split; [by apply sublist_inserts_r|done].
    + apply (pic_count_snoc _ _ _ 0); [done|rewrite Hv; simpl; lia|by rewrite Hns].
    + exists (gs ++ [drain f fs]). rewrite Hen. split; [by apply sublist_app|]. by apply Forall2_app; [|constructor].
    + apply (pic_count_snoc _ _ _ 1); [done|rewrite Hv; simpl; by rewrite length_app|by rewrite Hns].
Qed.

Lemma real_drawn fs : Forall real_frame fs -> Forall real_frame (omap drawn fs).
Proof.
  induction 1 as [|f fs Hf _ IH]; [constructor|]. cbn. destruct (drawn f) as [g|] eqn:Ed; [|done].
  constructor; [|done]. revert Ed. unfold drawn, composite. destruct (cursor f); [|by intros [= <-]].
  destruct (composite_cursor _ _ _ _ _ _ _); [|done]. by intros [= <-].
Qed.

Lemma picture_step d0 tr p l p' : path_step p l p' -> path_inv tr p ->
  Forall real_frame (offered_in (tr ++ [l])) -> picture_inv d0 tr p -> picture_inv d0 (tr ++ [l]) p'.
Proof.
  intros Hstep Hinv Hreal Hpic.
  assert (Hkeep : encoding p' = encoding p -> encoded_in (tr ++ [l]) = encoded_in tr -> picture_inv d0 (tr ++ [l]) p').
  { intros He Hen. destruct Hpic as [Hfs Hc Hf Hs]. constructor; rewrite ?He, ?Hen; done. }
  destruct Hstep as [p f|p f fs g Hc Hh Hq Hg|p f fs Hc Hh Hq Hg|p g Hc Hh Ho Hl|p g Hc Hh Ho|p f fs Ho Hq
    |p ef rest m Ha Hq Hm Hs Hl|p ef rest Ha Hq Hm|p ef rest m Ha Hq Hm Hs|p m rest Hs Hq|p m Hs Hl|p Hs].
  1: apply Hkeep; [unfold offer; by destruct (_ && _)|unfold encoded_in; by rewrite omap_app, app_nil_r].
  5: { apply encode_turn_pictures; [|done].
       assert (HF : Forall real_frame (composited p)).
       { destruct Hinv as [Hsub _ _ _]. unfold offered_in in Hreal. rewrite omap_app in Hreal.
         cbn in Hreal. rewrite app_nil_r in Hreal. apply real_drawn in Hreal.
         apply (Forall_sublist _ _ _ Hsub) in Hreal. rewrite !Forall_app in Hreal. apply Hreal. }
       rewrite Hq in HF. destruct (drain_last f fs) as [before E0]. rewrite E0 in HF.
       apply Forall_app in HF as [_ HF]. by inversion HF. }
  all: apply Hkeep; [done|unfold encoded_in; by rewrite omap_app, app_nil_r].
Qed.

(** *** What the session's sender task takes *)

Definition sent_in (tr : list path_label) : list ProtocolMessage :=
  omap (fun l => match l with SessionSends m => Some m | _ => None end) tr.

(** The messages of the other pipelines. *)
Definition others_in (tr : list path_label) : list ProtocolMessage :=
  omap (fun l => match l with OtherMessage m => Some m | _ => None end) tr.

Definition is_video (m : ProtocolMessage) : Prop := message_type m = VideoData.

#[local] Instance is_video_dec m : Decision (is_video m).
Proof. unfold is_video. apply _. Defined.

Lemma video_message_is_video ef m : video_message ef = Some m -> is_video m.
Proof.
  unfold video_message, video_data, build. destruct (into_writer _); [|done]. by intros [= <-].
Qed.

(** Video messages leave in the order in which they were forwarded; what is missing at the end
    waits, or was lost with the session. *)
Record sent_inv (tr : list path_label) (p : Path (E := E)) : Prop := {
  sent_video : exists lost, forwarded_in tr = filter is_video (sent_in tr) ++ filter is_video (outgoing p) ++ lost /\
    (session p = true -> lost = []) }.

Lemma sent_step tr (p : Path (E := E)) l p' : path_step p l p' ->
  Forall (fun m => ~ is_video m) (others_in (tr ++ [l])) -> sent_inv tr p -> sent_inv (tr ++ [l]) p'.
Proof.
  intros Hstep Hoth [(lost & Hsent & Hlost)]. unfold others_in, forwarded_in, sent_in in *. rewrite omap_app in Hoth.
  destruct Hstep as [p f|p f fs g Hc Hh Hq Hg|p f fs Hc Hh Hq Hg|p g Hc Hh Ho Hl|p g Hc Hh Ho|p f fs Ho Hq
    |p ef rest m Ha Hq Hm Hs Hl|p ef rest Ha Hq Hm|p ef rest m Ha Hq Hm Hs|p m rest Hs Hq|p m Hs Hl|p Hs];
    constructor; unfold forwarded_in, sent_in; rewrite !omap_app; cbn; rewrite ?app_nil_r.
  1: { exists lost. unfold offer. by destruct (_ && _). }
  5: { exists lost. destruct (encode_turn_spec f fs p) as (_ & _ & _ & _ & _ & -> & -> & _). done. }
  1, 2, 3, 4: by exists lost.
  - exists []. rewrite Hsent, (Hlost Hs), list.filter_app, filter_cons_True by (by eapply video_message_is_video).
    by rewrite !app_nil_r, app_assoc.
  - by exists lost.
  - exists lost. split; [done|]. by rewrite Hs in Hlost.
  - exists []. rewrite Hsent, (Hlost Hs), Hq, list.filter_app, !app_nil_r, <- app_assoc.
    change (m :: rest) with ([m] ++ rest). by rewrite list.filter_app.
  - exists []. rewrite Hsent, (Hlost Hs), list.filter_app, !app_nil_r.
    apply Forall_app in Hoth as [_ Hoth]. cbn in Hoth. apply Forall_cons_1 in Hoth as [Hm _].
    rewrite filter_cons_False by done. by rewrite app_nil_r.
  - exists (filter is_video (outgoing p)). rewrite Hsent, (Hlost Hs), app_nil_r. done.
Qed.

(** *** The viewer *)

Context {C : Type} `{Arboard C} `{Opus} `{Cbor ClipboardEvent, Cbor AudioPayload, !CborLaws VideoPayload}.
Context (disp : MessageDispatcher (Local (C := C))) (viewer_id server_id : NodeId).

Abbreviation receive := (receive_message (D := D) disp viewer_id server_id).

Lemma receive_video r ef m : window_open r = true -> video_message ef = Some m ->
  (receive r m).2 = true /\ window_open (receive r m).1 = true /\
  (rx_decoder (receive r m).1, frame_tx (receive r m).1) = view (rx_decoder r, frame_tx r) ef.
Proof.
  intros Hw Hm. apply video_message_read in Hm as (payload & Hp & Hb). unfold receive_message, view.
  rewrite Hp, Hb. destruct (from_bytes (to_bytes ef)) as [frame|]; [|by split_and!]. cbn [fst snd].
  destruct (pipeline_decode _ _) as [dec [[image|]|]]; rewrite ?Hw; by split_and!.
Qed.

Lemma receive_no_video r m : window_open r = true -> ~ is_video m ->
  (receive r m).2 = true /\ window_open (receive r m).1 = true /\
  (rx_decoder (receive r m).1, frame_tx (receive r m).1) = (rx_decoder r, frame_tx r).
Proof.
  intros Hw Hm. unfold receive_message, as_video_data. rewrite decide_False by done.
  by destruct (handle_incoming_message _ _ _ _ _).
Qed.

Lemma receives ms : forall r efs, window_open r = true ->
  Some <$> filter is_video ms = video_message <$> efs ->
  goes_on receive r ms /\
  (rx_decoder (handle_all receive r ms), frame_tx (handle_all receive r ms)) = foldl view (rx_decoder r, frame_tx r) efs.
Proof.
  induction ms as [|m ms IH]; intros r efs Hw Hms; cbn [goes_on handle_all].
  { by destruct efs. }
  destruct (decide (is_video m)) as [Hv|Hv].
  - rewrite filter_cons_True in Hms by done. destruct efs as [|ef efs]; [done|]. injection Hms as Hm Hms.
    destruct (receive_video r ef m Hw (eq_sym Hm)) as (Hgo & Hw' & Hview).
    destruct (IH _ efs Hw' Hms) as [Hgos Hall]. split; [done|].
    destruct (receive r m) as [r' go]. cbn in *. rewrite Hgo. by rewrite Hall, Hview.
  - rewrite filter_cons_False in Hms by done.
    destruct (receive_no_video r m Hw Hv) as (Hgo & Hw' & Hview).
    destruct (IH _ efs Hw' Hms) as [Hgos Hall]. split; [done|].
    destruct (receive r m) as [r' go]. cbn in *. rewrite Hgo. by rewrite Hall, Hview.
Qed.

(** ** From the screen to the window *)

(** A message that carries a picture: longer than the header of an encoded frame. *)
Definition has_picture (m : ProtocolMessage) : bool :=
  match as_video_data m with Some payload => 38 <? zlen (encoded_frame payload) | None => false end.

Lemma has_picture_video ef m : video_message ef = Some m -> has_picture m = not_skipped ef.
Proof.
  unfold video_message, video_data. destruct (build _ _) as [m'|] eqn:Eb; [|done]. intros [= ->].
  apply build_read in Eb as [Ht Hr]. unfold has_picture, as_video_data. rewrite decide_True, Hr by done.
  cbn [encoded_frame]. destruct (to_bytes_header ef) as (_ & _ & _ & _ & _ & _ & _ & _ & _ & Hl).
  unfold zlen. rewrite Hl. unfold not_skipped. destruct (ef_payload ef); cbn [is_empty negb length]; [done|].
  apply Z.ltb_lt. lia.
Qed.

Lemma has_picture_other m : ~ is_video m -> has_picture m = false.
Proof. intros Hm. unfold has_picture, as_video_data. by rewrite decide_False. Qed.

Lemma count_pictures ms efs : Some <$> filter is_video ms = video_message <$> efs ->
  length (filter (fun m => has_picture m = true) ms) = length (filter (fun ef => not_skipped ef = true) efs).
Proof.
  revert efs. induction ms as [|m ms IH]; intros efs Hms; [by destruct efs|].
  destruct (decide (is_video m)) as [Hv|Hv].
  - rewrite filter_cons_True in Hms by done. destruct efs as [|ef efs]; [done|]. injection Hms as Hm Hms.
    pose proof (has_picture_video ef m (eq_sym Hm)) as Hp. rewrite !filter_cons, Hp.
    destruct (decide (not_skipped ef = true)); cbn [length]; by rewrite (IH efs Hms).
  - rewrite filter_cons_False in Hms by done. rewrite filter_cons_False; [by apply IH|].
    by rewrite has_picture_other.
Qed.

Lemma path_inv_all b tr p : path_exec (path_new b) tr p -> encoder b = None ->
  Forall real_frame (offered_in tr) -> Forall (fun m => ~ is_video m) (others_in tr) ->
  forall d0, path_inv tr p /\ picture_inv d0 tr p /\ sent_inv tr p.
Proof.
  intros Hex Hb Hr Ho d0. remember (path_new b) as p0 eqn:Ep.
  induction Hex as [p|p tr p1 l p2 Hex IH Hstep]; subst p.
  - split; [apply path_inv_new|]. split; constructor; cbn; try done.
    + exists []. split; [constructor|]. constructor.
    + intros k. by rewrite take_nil.
    + unfold follows. by rewrite Hb.
    + by exists [].
  - destruct IH as (Hi & Hp & Hs); [done|..].
    { unfold offered_in in *. rewrite omap_app in Hr. by apply Forall_app in Hr as [? _]. }
    { unfold others_in in *. rewrite omap_app in Ho. by apply Forall_app in Ho as [? _]. }
    split; [by eapply path_inv_step|]. split; [by eapply picture_step|by eapply sent_step].
Qed.

Lemma view_all_prefix d0 efs efs' : (view_all d0 efs).2 `prefix_of` (view_all d0 (efs ++ efs')).2.
Proof.
  unfold view_all. rewrite foldl_app. generalize (foldl view (d0, []) efs) as s.
  induction efs' as [|ef efs' IH]; intros s; [done|]. cbn [foldl]. etrans; [|apply IH].
  unfold view. destruct (from_bytes _); [|done]. destruct (pipeline_decode _ _) as [d [[i|]|]]; cbn; try done.
  by apply prefix_app_r.
Qed.

Lemma omap_total {A B} (f : A -> option B) (l : list A) (k : list B) : (forall x, is_Some (f x)) -> omap f l = k -> Some <$> k = f <$> l.
Proof.
  intros Hf <-. induction l as [|x l IH]; [done|]. cbn. destruct (Hf x) as [y Hy]. rewrite Hy. cbn. by rewrite IH.
Qed.

(** What the viewer has made of the messages a session has sent. *)
Lemma sent_pictures b tr p r : path_exec (path_new b) tr p -> encoder b = None ->
  Forall real_frame (offered_in tr) -> Forall (fun m => ~ is_video m) (others_in tr) ->
  (forall v : VideoPayload, is_Some (into_writer v)) -> window_open r = true -> frame_tx r = [] ->
  goes_on receive r (sent_in tr) /\
  exists fs, fs `sublist_of` omap drawn (offered_in tr) /\
    Forall2 image_of fs (frame_tx (handle_all receive r (sent_in tr))) /\
    length fs = length (filter (fun m => has_picture m = true) (sent_in tr)).
Proof.
  intros Hex Hb Hr Ho Hser Hw Hf0.
  destruct (path_inv_all b tr p Hex Hb Hr Ho (rx_decoder r)) as ([Hsub _ Hpre _] & [(gs & Hgs & HF) Hc _ _] & [(lost & Hsent & _)]).
  assert (Htot : forall ef, is_Some (video_message ef)).
  { intros ef. unfold video_message, video_data, build. destruct (Hser {| encoded_frame := to_bytes ef |}) as [x ->]. by eexists. }
  set (efs := (log (encoding p)).*2) in *. destruct Hpre as [rest Hrest].
  assert (Hall : Some <$> (forwarded_in tr ++ rest) = video_message <$> efs) by (by apply omap_total).
  rewrite Hsent, !fmap_app, <- !(assoc_L (++)) in Hall.
  set (n := length (filter is_video (sent_in tr))).
  assert (Hms : Some <$> filter is_video (sent_in tr) = video_message <$> take n efs).
  { unfold n. rewrite fmap_take, <- Hall. rewrite take_app_length'; [done|]. by rewrite length_fmap. }
  destruct (receives (sent_in tr) r (take n efs) Hw Hms) as [Hgo Hview]. split; [done|].
  rewrite Hf0 in Hview. change (foldl view (rx_decoder r, []) (take n efs)) with (view_all (rx_decoder r) (take n efs)) in Hview.
  assert (Htx : frame_tx (handle_all receive r (sent_in tr)) = (view_all (rx_decoder r) (take n efs)).2) by (by rewrite <- Hview).
  destruct (view_all_prefix (rx_decoder r) (take n efs) (drop n efs)) as [more Hmore]. rewrite take_drop in Hmore.
  rewrite Hmore in HF. apply Forall2_app_inv_r in HF as (fs & fs' & HF & _ & ->).
  exists fs. rewrite Htx. split_and!; [|done|].
  - transitivity (fs ++ fs'); [by apply sublist_inserts_r|]. etrans; [exact Hgs|].
    etrans; [|exact Hsub]. by apply sublist_inserts_r.
  - rewrite (list.Forall2_length _ _ _ HF), Hc. symmetry. by apply count_pictures.
Qed.

(** The window, when the last picture has its size. *)
Lemma redraw_shows (a : App) (buf : list Z) (i : DecodedImage) :
  pixels a = Some buf -> zlen buf = WINDOW_WIDTH * WINDOW_HEIGHT * 4 -> list.last (frame_rx a) = Some i ->
  image_ok i -> Blit.width i = WINDOW_WIDTH -> Blit.height i = WINDOW_HEIGHT ->
  exists a', render a = Ret (a', true) /\ pixels a' = Some (picture i WINDOW_WIDTH WINDOW_HEIGHT) /\ frame_rx a' = [].
Proof.
  intros Hp Hl Hi Hok Hw Hh. unfold render. rewrite Hp, Hi.
  rewrite (blit_exact i buf WINDOW_WIDTH WINDOW_HEIGHT Bilinear); [|done|done|done|done|by right]. cbn.
  rewrite bool_decide_eq_true_2 by (intros E0; by rewrite E0 in Hi). by eexists.
Qed.

Context `{PrimitivesLaws} `{!Cbor EncryptedFrame, !CborLaws EncryptedFrame, !EncryptedFits}.
Context `{!Cbor ProtocolMessage, !CborLaws ProtocolMessage} `{OpaqueLaws}.

End Picture.

(** ** On a concrete session

    An encoder that writes the dimensions and the luma of each picture, and a decoder that
    paints it in shades of grey. *)

Module PictureExample.
Export SessionExample.
#[export] Instance video_cbor : Cbor VideoPayload := countable_cbor VideoPayload.
#[export] Instance video_cbor_laws : CborLaws VideoPayload := countable_cbor_laws VideoPayload.
#[export] Instance audio_cbor : Cbor AudioPayload := countable_cbor AudioPayload.
#[export] Instance clipboard_cbor : Cbor ClipboardEvent := countable_cbor ClipboardEvent.
#[export] Instance unit_arboard : Arboard unit :=
  {| arboard_set_text c _ := (c, Ok tt); arboard_set_image c _ := (c, Ok tt) |}.
#[export] Instance signs : Opus := sign_opus.

Definition grey (luma : list Z) (n : nat) : list Z := (fun k => default 0 (luma !! (k / 3)%nat)) <$> seq 0 n.

Definition writable (s : BasicYuvSource) : bool :=
  bool_decide (is_bytes (y_plane s) /\ uint 32 (yw s) /\ uint 32 (yh s) /\ zlen (y_plane s) < 2 ^ 31).

#[export] Instance grey_h264 : OpenH264 bool := {|
  encoder_new := Ok true;
  force_intra_frame _ := true;
  encode e s :=
    if writable s
    then (false, Ok ([0; 0; 0; 1; if e then 101 else 65] ++ be_bytes 4 (yw s) ++ be_bytes 4 (yh s) ++ y_plane s))
    else (e, Err "unsupported picture");
|}.

#[export] Instance grey_h264_laws : OpenH264Laws bool.
Proof.
  refine {| Encoder.pending e := e |}; cbn; intros; simplify_eq; try done.
  - destruct (writable _); by simplify_eq.
  - destruct (writable _); by simplify_eq.
Defined.

#[export] Instance grey_decoder : OpenH264Decoder unit := {|
  h264_decode d payload :=
    (d, Ok (Some (be_num (slice payload 5 9), be_num (slice payload 9 13), fun buf => grey (drop 13 payload) (length buf))));
|}.

#[export] Instance grey_codec : VideoCodec bool unit.
Proof.
  refine {| in_step _ _ := True; looks_like s rgb := rgb = grey (y_plane s) (Z.to_nat (yw s * yh s * 3)) |}.
  - intros e s e' payload. cbn [encode grey_h264]. destruct (writable s) eqn:Hw; [|done].
    apply bool_decide_eq_true in Hw as (Hy & _ & _ & Hl). intros [= _ <-]. split.
    + repeat (apply list.Forall_cons_2; [first [by apply Z.mod_pos_bound | done | by destruct e]|]).
      exact Hy.
    + unfold zlen in *. cbn [length]. lia.
  - intros e [] s e' payload. cbn [encode grey_h264]. destruct (writable s) eqn:Hw; [|done].
    apply bool_decide_eq_true in Hw as (_ & Hx & Hh & _). intros [= _ <-] _. right.
    split; [unfold zlen; cbn [length]; lia|].
    split; [by destruct e|]. eexists tt, _. cbn [h264_decode grey_decoder]. split; [|split; [|done]].
    + do 4 f_equal. f_equal; [apply (be_num_be_bytes 4 (yw s) Hx)|apply (be_num_be_bytes 4 (yh s) Hh)].
    + intros buf Hb. unfold zlen in *. split; [unfold grey; by rewrite length_fmap, length_seq|].
      by rewrite <- Hb, Nat2Z.id.
  - done.
Defined.

Definition screen : Frame := black_frame 2 2.

Definition offered : Path (E := bool) := fst (offer screen (path_new backend_new)).
Definition drawn_once : Path (E := bool) := set_captured [] (set_compositor true (Some screen) [] offered).
Definition handed : Path (E := bool) := set_compositor true None [screen] drawn_once.
Definition coded : Path (E := bool) := encode_turn screen [] handed.

(** The message of the encoded frame. *)
Definition frame_message : ProtocolMessage :=
  default {| message_type := Heartbeat; message_id := 0; msg_flags := 0; msg_payload := [] |}
    (encoded coded !! 0%nat ≫= video_message).

Definition queued : Path (E := bool) := set_forwarding [] true [frame_message] true coded.

Definition story : list path_label :=
  [OfferFrame screen true; CompositeFrame screen; SendComposited; EncodeNewest screen;
   ForwardFrame (Some frame_message); SessionSends frame_message].

Lemma story_happens : path_exec (path_new backend_new) story (set_forwarding [] true [] true queued).
Proof.
  apply (PathSnoc _ [_; _; _; _; _] queued); [|by apply PathSessionSends].
  apply (PathSnoc _ [_; _; _; _] coded).
  2: { destruct (encoded coded) as [|ef rest] eqn:Ee; [vm_compute in Ee; done|].
       assert (rest = []) as -> by (vm_compute in Ee; by injection Ee).
       apply (PathForward coded ef []); [reflexivity|exact Ee| |reflexivity|vm_compute; lia].
       unfold frame_message. rewrite Ee. reflexivity. }
  apply (PathSnoc _ [_; _; _] handed); [|by apply (PathEncode handed screen [])].
  apply (PathSnoc _ [_; _] drawn_once).
  2: { apply (PathSend drawn_once screen); [done|done|done|vm_compute; lia]. }
  apply (PathSnoc _ [_] offered); [|by apply (PathComposite offered screen [] screen)].
  apply (PathSnoc _ [] (path_new backend_new)); [constructor|]. exact (PathOffer (path_new backend_new) screen).
Defined.

Definition idle_receiver : Receiver (C := unit) (D := unit) := {|
  rx_decoder := tt; frames_rendered := 0; video_received := 0; frame_tx := []; window_open := true;
  rx_local := rx_local AudioExample.receiver |}.
End PictureExample.

Import PictureExample.

