(* ===== verification/RemoteInput.v ===== *)
(** * The user's input on the remote desktop

    The viewer's window and forwarding loop ([Client]), the login and the tasks of the session
    ([SessionTasks]), and the server's receiver loop with its handlers ([Input]), together. *)

From S2P Require Import Prelude Codec Cbor Message Routing Window Symmetric Encryption Session Io Fragments.
From S2P Require Import SecureConn Auth Wire SessionTasks.
From S2P Require Import Float Pixels Blit Video Audio Input Poller Client.

(** ** The viewer alone *)

Section Viewer.
Context `{Cbor KeyboardEvent, Cbor MouseEvent}.

(** What the actions make of the viewer, and the messages its loop hands to the session. *)
Definition viewer_step (a : App) (act : action) : outcome (App * list ProtocolMessage) :=
  match act with
  | Window e => let! a := window_event a e in Ret (a, [])
  | Motion dx dy now => Ret (device_event a dx dy now, [])
  | FrameArrives image => Ret (set_view a (pixels a) (frame_rx a ++ [image]) (last_image a), [])
  | Resume => Ret (resumed a, [])
  | Forward =>
      match input_tx a with
      | [] => Ret (a, [])
      | m :: q => Ret (set_input a q, [m])
      end
  end.

Fixpoint viewer_run (a : App) (acts : list action) : outcome (App * list ProtocolMessage) :=
  match acts with
  | [] => Ret (a, [])
  | act :: acts =>
      let! (a, out) := viewer_step a act in
      let! (a, outs) := viewer_run a acts in
      Ret (a, out ++ outs)
  end.
End Viewer.

(** ** The server's receiver loop *)

Section Server.
Context {B C : Type} `{InputBackend B} `{Arboard C} `{Cbor KeyboardEvent, Cbor MouseEvent, Cbor ClipboardEvent}.
Context (utf8_error_text : list Z -> string).

(** [String::from_utf8_lossy]: well-formed text stays; [repair] is what becomes of other bytes. *)
Definition from_utf8_lossy (repair : list Z -> list Z) (bytes : list Z) : list Z :=
  if from_utf8 bytes then bytes else repair bytes.

(** What [handle_session] does with a message; an abort ends its task. *)
Definition session_handler (repair : list Z -> list Z) (server_id : NodeId) (sid : SessionId)
    (identifier : list Z) (d : Desktop B C) (m : ProtocolMessage) :
    Desktop B C * bool :=
  match handle_message utf8_error_text d (from_utf8_lossy repair identifier) server_id sid m with
  | Ret d => (d, true)
  | Panic => (d, false)
  end.
End Server.

Section Proofs.
Context {B C : Type} `{Hin : InjectingBackend B} `{Hab : Arboard C}.
Context `{Hkc : Cbor KeyboardEvent, Hmc : Cbor MouseEvent, !CborLaws MouseEvent, Hcc : Cbor ClipboardEvent}.
Context (utf8_error_text : list Z -> string) (repair : list Z -> list Z).
Context (identifier : list Z) (server_id : NodeId) (sid : SessionId).
Context (Hutf : from_utf8 identifier = true) (Hid : zlen identifier <= 32).

Abbreviation handler := (session_handler (B := B) (C := C) utf8_error_text repair server_id sid identifier).
Abbreviation sys := (run utf8_error_text identifier server_id sid).

Lemma handler_spec d m : exists d', handle_message utf8_error_text d identifier server_id sid m = Ret d' /\
  handler d m = (d', true).
Proof.
  unfold session_handler, from_utf8_lossy. rewrite Hutf. unfold handle_message.
  rewrite client_id_short by done. by eexists.
Qed.

Lemma handler_goes_on ms : forall d, goes_on handler d ms.
Proof.
  induction ms as [|m ms IH]; intros d; [done|]. destruct (handler_spec d m) as (d' & _ & Hh).
  cbn. rewrite Hh. by split.
Qed.

Lemma step_viewer a d act a1 o1 : viewer_step a act = Ret (a1, o1) ->
  Client.step utf8_error_text identifier server_id sid {| viewer := a; desk := d |} act =
    Ret {| viewer := a1; desk := handle_all handler d o1 |}.
Proof.
  intros Es. destruct act as [e|x y now|i| |]; cbn in Es |- *.
  - destruct (window_event a e); [|done]. by injection Es as <- <-.
  - by injection Es as <- <-.
  - by injection Es as <- <-.
  - by injection Es as <- <-.
  - destruct (input_tx a) as [|m q]; injection Es as <- <-; [done|].
    destruct (handler_spec d m) as (d' & Hm & Hh). rewrite Hm. cbn. by rewrite Hh.
Qed.

(** The system is the viewer, and the server's handler on what it forwards. *)
Lemma run_viewer acts : forall a d a' out, viewer_run a acts = Ret (a', out) ->
  sys {| viewer := a; desk := d |} acts = Ret {| viewer := a'; desk := handle_all handler d out |}.
Proof.
  induction acts as [|act acts IH]; intros a d a' out Hv.
  { by injection Hv as <- <-. }
  cbn [viewer_run] in Hv. destruct (viewer_step a act) as [[a1 o1]|] eqn:Es; [|done]. cbn in Hv.
  destruct (viewer_run a1 acts) as [[a2 o2]|] eqn:Er; [|done]. injection Hv as <- <-.
  cbn [Client.run]. rewrite (step_viewer _ _ _ _ _ Es), (IH _ _ _ _ Er). do 2 f_equal.
  clear -Hutf Hid. revert d. induction o1 as [|m o1 IH]; intros d; [done|]. cbn.
  destruct (handler_spec d m) as (d' & _ & ->). apply IH.
Qed.

(** A viewer that aborts aborts the system. *)
Lemma run_aborts acts : forall a d, viewer_run a acts = Panic -> sys {| viewer := a; desk := d |} acts = Panic.
Proof.
  induction acts as [|act acts IH]; intros a d Hv; [done|]. cbn [viewer_run] in Hv.
  destruct (viewer_step a act) as [[a1 o1]|] eqn:Es; cbn in Hv.
  - destruct (viewer_run a1 acts) as [[a2 o2]|] eqn:Er; [done|].
    cbn [Client.run]. rewrite (step_viewer _ _ _ _ _ Es). by apply IH.
  - cbn [Client.run]. destruct act as [e| | | |]; cbn in Es |- *; [|done|done|done|by destruct (input_tx a)].
    by destruct (window_event a e).
Qed.

Lemma handler_messages ms : forall d,
  handle_messages utf8_error_text d identifier server_id sid ms = Ret (handle_all handler d ms).
Proof.
  induction ms as [|m ms IH]; intros d; [done|]. destruct (handler_spec d m) as (d' & Hm & Hh).
  cbn. rewrite Hm, Hh. apply IH.
Qed.

(** Clipboard messages do not report buttons. *)
Definition captured (m : ProtocolMessage) : Prop := message_type m <> ClipboardData.

#[local] Instance captured_decision m : Decision (captured m).
Proof. unfold captured. apply _. Defined.

Lemma last_mask_captured ms : forall mask,
  last_mask mask identifier server_id sid ms = last_mask mask identifier server_id sid (filter captured ms).
Proof.
  induction ms as [|m ms IH]; intros mask; [done|]. cbn [last_mask]. rewrite IH, list.filter_cons.
  destruct (decide (captured m)) as [Hm|Hm]; [done|]. f_equal. unfold mask_of. destruct (validate _); [|done].
  unfold as_mouse_event. cbn [message]. rewrite decide_False; [done|]. intros E. apply Hm. unfold captured. by rewrite E.
Qed.

Context (Hne : identifier ++ replicate (Z.to_nat (32 - zlen identifier)) 0 <> server_id).
Context (Hbr : server_id <> broadcast).
Context (Hser : forall ev : MouseEvent, is_Some (into_writer ev)).

(** The last mask the viewer forwards is that of the buttons the user holds. *)
Lemma forwarded_mask (d : Desktop B C) now before a1 out1 pressed_ button after :
  idle_for sid d -> Forall small_action before -> Forall small_action after -> Forall (fun a => is_click a = false) after ->
  viewer_run (new_app now) before = Ret (a1, out1) -> (length (input_tx a1) < INPUT_CAPACITY)%nat ->
  let acts := before ++ Window (MouseInput pressed_ button) :: after in
  exists a2 out, viewer_run (new_app now) acts = Ret (a2, out) /\
    (input_tx a2 = [] -> forall b, mask_has (last_mask 0 identifier server_id sid out) b = held acts b).
Proof.
  intros Hidle Hb Ha Hnc Hrun1 Hroom acts.
  destruct (remote_buttons_mirror utf8_error_text identifier server_id sid Hid Hne Hbr Hser d now before after
    {| viewer := a1; desk := handle_all handler d out1 |} pressed_ button Hidle Hb Ha Hnc (run_viewer _ _ _ _ _ Hrun1) Hroom)
    as (s2 & Hrun & Hmirror). fold acts in Hrun, Hmirror.
  destruct (viewer_run (new_app now) acts) as [[a2 out]|] eqn:Hv.
  2: { by rewrite (run_aborts acts _ d Hv) in Hrun. }
  exists a2, out. split; [done|]. rewrite (run_viewer _ _ d _ _ Hv) in Hrun. injection Hrun as <-.
  cbn [viewer desk] in Hmirror. intros Hq b. rewrite <- (proj2 (Hmirror Hq)).
  destruct (buttons_follow_mask utf8_error_text d identifier server_id sid out Hid Hidle) as (d' & Hd' & _ & Hp).
  rewrite handler_messages in Hd'. injection Hd' as <-. by rewrite Hp.
Qed.

Context `{PrimitivesLaws} `{!Cbor EncryptedFrame, !CborLaws EncryptedFrame, !EncryptedFits}.
Context `{!Cbor ProtocolMessage, !CborLaws ProtocolMessage} `{OpaqueLaws}.

End Proofs.

(** ** On a concrete session *)

Module RemoteExample.
Export SessionExample.
#[export] Instance keyboard_cbor : Cbor KeyboardEvent := countable_cbor KeyboardEvent.
#[export] Instance mouse_cbor : Cbor MouseEvent := countable_cbor MouseEvent.
#[export] Instance mouse_cbor_laws : CborLaws MouseEvent := countable_cbor_laws MouseEvent.
#[export] Instance clipboard_cbor : Cbor ClipboardEvent := countable_cbor ClipboardEvent.
#[export] Instance unit_arboard : Arboard unit :=
  {| arboard_set_text c _ := (c, Ok tt); arboard_set_image c _ := (c, Ok tt) |}.

(** The left button is pressed and the press forwarded, then the right one. *)
Definition first_click : list action := [Window (MouseInput true Winit.Left); Forward].
Definition clicks : list action := first_click ++ [Window (MouseInput true Winit.Right); Forward].

Definition after_first : App * list ProtocolMessage :=
  match viewer_run (new_app 0) first_click with Ret x => x | Panic => (new_app 0, []) end.

Definition clicked : list ProtocolMessage :=
  match viewer_run (new_app 0) clicks with Ret (_, out) => out | Panic => [] end.

(** The Win32 backend over an operating system that keeps the inputs it is given. *)
#[export] Instance keeping_os : SendInput (list INPUT) := fun os inputs => (os ++ inputs, zlen inputs).
#[export] Instance keeping_inserts : InsertsInput (list INPUT).
Proof. refine {| input_queue os := os |}. intros os inputs. by eexists. Defined.

Definition win32_desktop : Desktop (list INPUT) unit :=
  {| backend := []; button_states := ∅; clipboard := tt; clipboard_poisoned := false |}.
End RemoteExample.

Import RemoteExample.

