(* ===== verification/ClipboardPath.v ===== *)
(** * The clipboard across a session

    What a program's poller ([Poller]) reports becomes messages; the viewer's forwarding loop
    sends them among the captured input ([Client]), the session carries them ([SessionTasks]),
    and the server's handler writes its own clipboard ([Input]).  In the other direction, what
    becomes of the poller the server starts. *)

From S2P Require Import Prelude Codec Cbor Message Routing Window Symmetric Encryption Session Io Fragments.
From S2P Require Import SecureConn Auth Wire SessionTasks.
From S2P Require Import Float Pixels Blit Video Audio Input Poller Client RemoteInput.

(** ** Reading the clipboard *)

(** The clipboard crate's [get_text] and [get_image]; [Err] is the text of the crate's error. *)
Class ArboardRead (C : Type) := {
  arboard_get_text : C -> result string (list Z);
  arboard_get_image : C -> result string ClipboardImage;
}.

(** A clipboard that works: a text can be written and is then what is read. *)
Class WorkingClipboard (C : Type) `{Arboard C, ArboardRead C} : Prop :=
  text_stays : forall c t, exists c', arboard_set_text c t = (c', Ok tt) /\ arboard_get_text c' = Ok t.

Section Manager.
Context {C : Type} `{ArboardRead C}.

(** [ClipboardManager::new], from what opening the clipboard answers. *)
Definition clipboard_manager_new (opened : result string C) : result ClipboardError C :=
  map_err Unavailable opened.

Definition get_text (c : C) : result ClipboardError (list Z) := map_err Read (arboard_get_text c).

Definition get_image (c : C) : result ClipboardError ClipboardImage := map_err Read (arboard_get_image c).

(** What a round of the poller reads. *)
Definition contents (c : C) : Contents :=
  {| text_read := match get_text c with Ok t => Some t | Err _ => None end;
     image_read := match get_image c with Ok i => Some i | Err _ => None end |}.

(** Rounds at given times, with what the clipboard then is. *)
Definition reads (rounds : list (Z * C)) : list (Z * Contents) :=
  (fun r : Z * C => (r.1, contents r.2)) <$> rounds.
End Manager.

(** ** The programs' pollers *)

Section Pollers.
Context `{Cbor ClipboardEvent}.
Context (hash_bytes : list Z -> Z).

(** The callback of either program: the message it queues, if the event serializes. *)
Definition poll_message (change : ClipboardChange) : option ProtocolMessage :=
  match clipboard_event (change_event change) with Ok m => Some m | Err _ => None end.

(** The poller of [run_session], whose handle lives as long as the session: the messages of the
    rounds, each at a time and with what the clipboard then is. *)
Definition viewer_poller {C} `{ArboardRead C} (start : Z) (rounds : list (Z * C)) : list ProtocolMessage :=
  omap poll_message (poll_rounds hash_bytes default_intervals (poll_start start) (reads rounds)).2.

(** [spawn_clipboard_poller] of the server: the handle is dropped when the function returns.
    [before] are the rounds the thread begins before that, [after] those it would do later;
    [opened] is whether the thread is there and has opened the clipboard. *)
Definition spawn_clipboard_poller {C} `{ArboardRead C} (opened : bool) (start : Z)
    (before after : list (Z * C)) : list ProtocolMessage :=
  if opened then
    omap poll_message (poll_thread hash_bytes default_intervals (poll_start start)
      ((pair true <$> reads before) ++ (pair false <$> reads after)))
  else [].
End Pollers.

(** What the forwarding loop is given from the poller. *)
Definition from_clipboard (f : forwarded) : option ProtocolMessage :=
  match f with FromClipboard m => Some m | _ => None end.

(** The loop goes on, and what is captured at the window is not clipboard data. *)
Definition keeps_forwarding (f : forwarded) : Prop :=
  match f with
  | InputClosed => False
  | FromInput m => message_type m <> ClipboardData
  | _ => True
  end.

(** ** Lemmas *)

(** The server's poller ends with its handle: what its clipboard holds after
    [spawn_clipboard_poller] has returned is never sent. *)
Lemma server_poller_deaf `{Cbor ClipboardEvent} {C} `{ArboardRead C} hash_bytes opened start (before after : list (Z * C)) :
  spawn_clipboard_poller hash_bytes opened start before after = spawn_clipboard_poller hash_bytes opened start before [].
Proof.
  unfold spawn_clipboard_poller. destruct opened; [|done]. f_equal.
  destruct after as [|[now c] after]; [done|]. cbn [reads fmap list_fmap]. rewrite dropped_handle_stops.
  rewrite app_nil_r. generalize (poll_start start) as s. clear.
  induction before as [|[now c] before IH]; intros s; [done|].
  cbn [fmap list_fmap poll_thread poll_rounds reads fst snd negb]. destruct (poll_round _ _ _ _ _) as [s1 r1].
  rewrite <- IH. by destruct (poll_rounds _ _ _ _).
Qed.

(** When the hash tells the last text from the others, it is the last one reported. *)
Lemma last_changed hash texts t : forall h,
  Forall (fun a => hash a = hash t -> a = t) texts -> list.last texts = Some t ->
  list.last (changed_texts hash h texts) = Some t \/ (changed_texts hash h texts = [] /\ hash t = h).
Proof.
  induction texts as [|a texts IH]; intros h HF Hl; [done|]. cbn [changed_texts].
  inversion HF as [|? ? Ha HF']; subst. destruct texts as [|b texts].
  { injection Hl as ->. destruct (Z.eqb_spec (hash t) h); [by right|by left]. }
  change (list.last (b :: texts) = Some t) in Hl. specialize (fun h => IH h HF' Hl).
  destruct (Z.eqb_spec (hash a) h) as [_|_]; [apply IH|]. left.
  destruct (IH (hash a)) as [Hc|[Hc He]].
  - destruct (changed_texts hash (hash a) (b :: texts)) as [|y ys]; [done|exact Hc].
  - rewrite Hc. by rewrite (Ha (eq_sym He)).
Qed.

(** The last element a filter keeps: nothing after it is kept. *)
Lemma last_filtered {A} (P : A -> Prop) `{forall x, Decision (P x)} (l : list A) x :
  list.last (filter P l) = Some x -> exists l1 l2, l = l1 ++ x :: l2 /\ Forall (fun y => ~ P y) l2.
Proof.
  induction l as [|y l IH] using rev_ind; [done|]. rewrite list.filter_app, list.filter_cons, filter_nil. case_decide as Hy.
  - rewrite last_snoc. intros [= ->]. by exists l, [].
  - rewrite app_nil_r. intros (l1 & l2 & -> & Hl2)%IH. exists l1, (l2 ++ [y]).
    rewrite <- app_assoc. split; [done|]. apply Forall_app. by repeat constructor.
Qed.

Lemma forwarded_messages events : Forall keeps_forwarding events ->
  filter (fun m => message_type m = ClipboardData) (forward_loop (fun _ => true) events).1 =
    filter (fun m => message_type m = ClipboardData) (omap from_clipboard events).
Proof.
  induction 1 as [|f events Hf _ IH]; [done|]. destruct f as [m| |m|]; cbn [forward_loop omap list_omap from_clipboard].
  - destruct (forward_loop _ events) as [sent r]. cbn [fst] in *. rewrite filter_cons_False by done. exact IH.
  - done.
  - destruct (forward_loop _ events) as [sent r]. cbn [fst] in *. rewrite !list.filter_cons. by rewrite IH.
  - exact IH.
Qed.

Lemma filter_all {A} (P : A -> Prop) `{forall x, Decision (P x)} (l : list A) : Forall P l -> filter P l = l.
Proof. induction 1; [done|]. rewrite filter_cons_True by done. by f_equal. Qed.

Lemma last_omap {A B} (f : A -> option B) l x y : list.last l = Some x -> f x = Some y -> list.last (omap f l) = Some y.
Proof.
  intros [l' ->]%last_Some Hf. rewrite omap_app. cbn. rewrite Hf. apply last_snoc.
Qed.

Lemma poll_messages_type `{Cbor ClipboardEvent} changes :
  Forall (fun m => message_type m = ClipboardData) (omap poll_message changes).
Proof.
  apply list.Forall_forall. intros m (c & _ & Hm)%list_elem_of_omap. unfold poll_message in Hm.
  destruct (clipboard_event _) as [m'|] eqn:E; [|done]. injection Hm as <-. by apply build_ok in E as [? _].
Qed.

(** While the clipboard holds text, the poller's last message is the text found last. *)
Lemma last_polled `{Cbor ClipboardEvent} {V} `{ArboardRead V} hash start (rounds : list (Z * V)) (texts : list (Z * list Z)) t m :
  reads rounds = prod_map Datatypes.id text_only <$> texts -> text_rounds default_intervals start texts ->
  list.last texts.*2 = Some t -> Forall (fun a => hash a = hash t -> a = t) texts.*2 -> hash t <> 0 ->
  poll_message (text_change t) = Some m -> list.last (viewer_poller hash start rounds) = Some m.
Proof.
  intros Hr Hdue Hlast Hinj Hh Hm. unfold viewer_poller. rewrite Hr, poller_reports_changes by done.
  apply (last_omap _ _ (text_change t)); [|done]. rewrite fmap_last.
  destruct (last_changed hash texts.*2 t (last_text_hash (poll_start start)) Hinj Hlast) as [->|[_ Hz]]; [done|].
  by destruct Hh.
Qed.

(** *** The server's handlers *)

Section Server.
Context {B C : Type} `{Hbk : InputBackend B} `{Hab : Arboard C} `{!ArboardRead C} `{Hwc : !WorkingClipboard C}.
Context `{Hkc : Cbor KeyboardEvent, Hmc : Cbor MouseEvent, Hcc : Cbor ClipboardEvent, !CborLaws ClipboardEvent}.
Context (utf8_error_text : list Z -> string) (repair : list Z -> list Z).
Context (identifier : list Z) (server_id : NodeId) (sid : SessionId).
Context (Hutf : from_utf8 identifier = true) (Hid : zlen identifier <= 32).
Context (Hne : identifier ++ replicate (Z.to_nat (32 - zlen identifier)) 0 <> server_id).
Context (Hbr : server_id <> broadcast).

Abbreviation desktop := (Desktop B C).
Abbreviation handler := (session_handler (B := B) (C := C) utf8_error_text repair server_id sid identifier).

(** The clipboard and its lock are left alone. *)
Definition same_clipboard (d d' : desktop) : Prop :=
  clipboard d' = clipboard d /\ clipboard_poisoned d' = clipboard_poisoned d.

#[local] Instance same_clipboard_order : PreOrder same_clipboard.
Proof. split; [done|]. intros d1 d2 d3 [H1 H2] [H3 H4]. split; congruence. Qed.

Lemma clicks_keep_clipboard prev mask bits : forall d : desktop,
  same_clipboard d (inject_clicks d prev mask bits).1.
Proof.
  induction bits as [|[bit button] bits IH]; intros d; [done|]. cbn [inject_clicks].
  match goal with |- context [let '(_, _) := ?x in _] => destruct x as [d' r] eqn:E end.
  assert (Hd : same_clipboard d d') by (unfold injected in E; repeat case_match; by simplify_eq/=).
  destruct r; [etrans; [exact Hd|apply IH]|exact Hd].
Qed.

Lemma mouse_keeps_clipboard (d : desktop) e : same_clipboard d (on_mouse d e).1.
Proof.
  unfold on_mouse. destruct (parse_mouse e) as [ev|]; [|done].
  assert (Hm : same_clipboard d (mouse_move d ev).1) by (unfold mouse_move; by repeat case_match).
  destruct (mouse_move d ev) as [d1 [r|]]; [|done]. etrans; [exact Hm|]. unfold mouse_buttons.
  set (st := if _ && _ then _ else _).
  pose proof (clicks_keep_clipboard (default 0 (st !! session_id e)) (buttons_mask ev) BUTTON_BITS (set_states d1 st)) as Hk.
  by destruct (inject_clicks _ _ _ _) as [d2 [r2|]].
Qed.

(** A message that is not clipboard data. *)
Lemma other_keeps_clipboard (d : desktop) m : message_type m <> ClipboardData -> same_clipboard d (handler d m).1.
Proof.
  intros Ht. destruct (handler_spec utf8_error_text repair identifier server_id sid Hutf Hid d m) as (d' & Hm & ->).
  cbn [fst]. revert Hm. unfold handle_message. rewrite client_id_short by done. intros [= <-].
  unfold dispatch. destruct (validate _); [|done]. cbn [message].
  destruct (message_type m) eqn:E; simplify_map_eq; try done.
  - unfold on_keyboard. by destruct (parse_keyboard _).
  - apply mouse_keeps_clipboard.
Qed.

(** Clipboard data: the lock stays as it is, and a text within the limits is written. *)
Lemma clipboard_handled (d : desktop) m :
  message_type m = ClipboardData -> clipboard_poisoned d = false -> clipboard_poisoned (handler d m).1 = false.
Proof.
  intros Ht Hp. destruct (handler_spec utf8_error_text repair identifier server_id sid Hutf Hid d m) as (d' & Hm & ->).
  cbn [fst]. revert Hm. unfold handle_message. rewrite client_id_short by done. intros [= <-].
  unfold dispatch. destruct (validate _); [|done]. cbn [message]. rewrite Ht. simplify_map_eq.
  unfold Input.on_clipboard. cbn [message]. destruct (as_clipboard_event m); [|done]. rewrite Hp.
  by destruct (apply_clipboard_event _ _ _).
Qed.

Lemma text_handled (d : desktop) t m :
  clipboard_event (change_event (text_change t)) = Ok m -> clipboard_poisoned d = false ->
  from_utf8 t = true -> zlen t <= MAX_CLIPBOARD_TEXT_LEN ->
  get_text (clipboard (handler d m).1) = Ok t.
Proof.
  intros Hb Hp Ht Hl. destruct (build_read _ _ _ Hb) as [Hty Hrd]. pose proof (build_valid _ _ _ Hb) as Hv.
  destruct (handler_spec utf8_error_text repair identifier server_id sid Hutf Hid d m) as (d' & Hm & ->).
  cbn [fst]. revert Hm. unfold handle_message. rewrite client_id_short by done. intros [= <-].
  unfold dispatch, validate. rewrite (proj2 (validate_envelope_ok_iff _)) by done. cbn [map_err message].
  rewrite Hty. simplify_map_eq. unfold Input.on_clipboard, as_clipboard_event. cbn [message]. rewrite decide_True by done.
  rewrite Hrd. cbn. unfold clipboard_check. cbn [format change_event text_change is_text clip_data change_text default].
  rewrite (proj2 (Z.ltb_ge _ _)) by done. cbn. rewrite Hp.
  unfold apply_clipboard_event. cbn. rewrite Ht. unfold set_text.
  destruct (text_stays (clipboard d) t) as (c' & -> & Hg). cbn. unfold get_text. by rewrite Hg.
Qed.

(** The messages of a session leave the last text they carry. *)
Lemma last_text_stays (d : desktop) before t m after :
  clipboard_event (change_event (text_change t)) = Ok m -> clipboard_poisoned d = false ->
  from_utf8 t = true -> zlen t <= MAX_CLIPBOARD_TEXT_LEN ->
  Forall (fun m => message_type m <> ClipboardData) after ->
  get_text (clipboard (handle_all handler d (before ++ m :: after))) = Ok t.
Proof.
  intros Hb Hp Ht Hl Hafter.
  assert (Hgo : forall ms d, handle_all handler d ms = foldl (fun d m => (handler d m).1) d ms).
  { induction ms as [|x ms IH]; intros d0; [done|]. cbn [handle_all foldl].
    destruct (handler_spec utf8_error_text repair identifier server_id sid Hutf Hid d0 x) as (d' & _ & ->). apply IH. }
  rewrite Hgo, foldl_app. cbn [foldl].
  assert (Hp1 : clipboard_poisoned (foldl (fun d m => (handler d m).1) d before) = false).
  { clear -Hp Hutf Hid. revert d Hp. induction before as [|x before IH]; intros d Hp; [done|]. cbn [foldl].
    apply IH. destruct (decide (message_type x = ClipboardData)); [by apply clipboard_handled|].
    by rewrite (proj2 (other_keeps_clipboard d x ltac:(done))). }
  revert Hp1. generalize (foldl (fun d m => (handler d m).1) d before) as d1. intros d1 Hp1.
  pose proof (text_handled d1 t m Hb Hp1 Ht Hl) as Hg. revert Hg. generalize (handler d1 m).1 as d2.
  induction Hafter as [|x after Hx _ IH]; intros d2 Hg; [done|]. cbn [foldl]. apply IH.
  by rewrite (proj1 (other_keeps_clipboard d2 x Hx)).
Qed.

(** *** From the viewer's clipboard to the server's *)

Context {V : Type} `{!ArboardRead V}.
Context `{PrimitivesLaws} `{!Cbor EncryptedFrame, !CborLaws EncryptedFrame, !EncryptedFits}.
Context `{!Cbor ProtocolMessage, !CborLaws ProtocolMessage} `{OpaqueLaws}.

End Server.

(** ** On a concrete session *)

(** A clipboard that holds a text, if any. *)
#[local] Instance text_arboard : Arboard (option (list Z)) :=
  {| arboard_set_text _ t := (Some t, Ok tt); arboard_set_image c _ := (c, Err "unsupported") |}.
#[local] Instance text_arboard_read : ArboardRead (option (list Z)) :=
  {| arboard_get_text c := ok_or "empty" c; arboard_get_image _ := Err "unsupported" |}.
#[local] Instance text_clipboard : WorkingClipboard (option (list Z)).
Proof. intros c t. by eexists. Qed.

Import RemoteExample.

#[local] Instance clipboard_cbor_laws : CborLaws ClipboardEvent := countable_cbor_laws ClipboardEvent.

(** Two texts are copied, each found twice; a click is captured in between. *)
Definition copies : list (Z * option (list Z)) :=
  [(0, Some [65]); (500, Some [65]); (1000, Some [66]); (1500, Some [66])].

Definition mixed_events : list forwarded :=
  match viewer_poller sample_hash 0 copies with
  | [m1; m2] => [FromClipboard m1; FromInput (default m1 (head clicked)); FromClipboard m2]
  | _ => []
  end.

Definition empty_desktop : Desktop RecordingBackend (option (list Z)) :=
  {| backend := {| events := [] |}; button_states := ∅; clipboard := None; clipboard_poisoned := false |}.

