(* ===== verification/Pointer.v ===== *)
(** * The viewer's pointer ([device_event] in [bw-client/src/main.rs])

    The viewer adds up the motion of the mouse in double precision, clamps the position to its
    window and sends it scaled to the range of absolute coordinates.  Bounds on what it sends,
    for every sequence of motions, with every rounding error. *)

From S2P Require Import Prelude Codec Cbor Message Routing Window Symmetric Encryption Session Io Fragments.
From S2P Require Import SecureConn Auth Wire SessionTasks Float Rounding Pixels Blit Video Audio Input Poller Keys Client.
From S2P Require Import RemoteInput.

(** The numbers of the two axes: the edge of the window, and bounds on the quotient by its size
    and on the scaled result, as mantissas of 53 bits. *)
Record Axis := { size_m : positive; size_e : Z; edge_m : positive; edge_e : Z; ratio_m : Z; scaled_m : Z }.

Definition axis_x : Axis :=
  {| size_m := 5629499534213120; size_e := -42; edge_m := 5625101487702016; edge_e := -42;
     ratio_m := 9000162380323226; scaled_m := 9000025048743937 |}.

Definition axis_y : Axis :=
  {| size_m := 6333186975989760; size_e := -43; edge_m := 6324390882967552; edge_e := -43;
     ratio_m := 8994689255776074; scaled_m := 8994552007710038 |}.

(** The largest coordinate the viewer can send on an axis. *)
Definition reach (ax : Axis) : Z := scaled_m ax / 2 ^ 37.

(** What makes the numbers bounds. *)
Definition axis_ok (ax : Axis) : Prop :=
  2 ^ 52 <= Zpos (edge_m ax) < 2 ^ 53 /\ 0 < ratio_m ax < 2 ^ 53 /\ 0 < scaled_m ax < 2 ^ 53 /\
  edge_e ax - (Zpos (digits2_pos (size_m ax)) + size_e ax) <= -53 /\ -53 + size_e ax <= edge_e ax /\
  Zpos (edge_m ax) * 2 ^ (edge_e ax - (-53 + size_e ax)) <= ratio_m ax * Zpos (size_m ax) /\
  ratio_m ax * 9007061815787520 <= scaled_m ax * 2 ^ 53.

(** The position on an axis. *)
Definition on_axis (ax : Axis) (x : spec_float) : Prop :=
  below (Zpos (edge_m ax)) (edge_e ax) x /\ fits 53 x.

Definition size_of (ax : Axis) : spec_float := S754_finite false (size_m ax) (size_e ax).
Definition edge_of (ax : Axis) : spec_float := S754_finite false (edge_m ax) (edge_e ax).

Section AxisLemmas.
Context (ax : Axis) (Hax : axis_ok ax).

Lemma moved_on_axis x delta : on_axis ax x -> fits 53 delta -> delta <> S754_nan ->
  on_axis ax (clamp (F64.add x delta) (S754_zero false) (edge_of ax)).
Proof.
  intros [Hb Hf] Hd Hn. destruct Hax as (He & _).
  apply clamp_below; [lia|apply He|apply He|by apply add_fits|]. by eapply add_is_number; [lia|exact Hb|].
Qed.

Lemma scaled_in_reach x : on_axis ax x ->
  0 <= to_i32 (F64.mul (F64.div x (size_of ax)) (F64.of_Z 65535)) <= reach ax.
Proof.
  intros [Hb _]. destruct Hax as (He & Hr & Hs & Hd & He2 & Hq & Hp).
  assert (Hdiv : below (ratio_m ax) (-53) (F64.div x (size_of ax))).
  { apply (div_below 53 1024 ltac:(lia) (Zpos (edge_m ax)) (edge_e ax)); [done|done|lia|done|done|done|done]. }
  assert (E1 : F64.of_Z 65535 = S754_finite false 9007061815787520 (-37)) by (vm_compute; reflexivity).
  rewrite E1.
  assert (Hmul : below (scaled_m ax) (-37) (F64.mul (F64.div x (size_of ax)) (S754_finite false 9007061815787520 (-37)))).
  { apply (mul_below 53 1024 ltac:(lia) (ratio_m ax) (-53)); [done|done|lia|lia|exact Hp|exact Hdiv]. }
  apply to_i32_below in Hmul; [|lia]. change (- -37) with 37 in Hmul. fold (reach ax) in Hmul.
  assert (0 <= reach ax) by (apply Z.div_pos; lia). lia.
Qed.
End AxisLemmas.

Lemma axis_x_ok : axis_ok axis_x.
Proof. vm_compute. repeat split; discriminate. Qed.

Lemma axis_y_ok : axis_ok axis_y.
Proof. vm_compute. repeat split; discriminate. Qed.

(** ** The viewer's runs *)

Section Runs.
Context `{Hkc : Cbor KeyboardEvent, Hmc : Cbor MouseEvent, !CborLaws MouseEvent}.

(** An absolute position in a message is within reach. *)
Definition in_reach (m : ProtocolMessage) : Prop :=
  forall ev, as_mouse_event m = Some ev -> is_absolute ev = true ->
    0 <= dx ev <= reach axis_x /\ 0 <= dy ev <= reach axis_y.

(** The device reports numbers; they may be infinite. *)
Definition motion_ok (act : action) : Prop :=
  match act with
  | Motion x y _ => fits 53 x /\ x <> S754_nan /\ fits 53 y /\ y <> S754_nan
  | _ => True
  end.

Definition pointer_ok (a : App) : Prop :=
  on_axis axis_x (mouse_abs_x a) /\ on_axis axis_y (mouse_abs_y a) /\ Forall in_reach (input_tx a).

Lemma send_built_ok a r : pointer_ok a -> (forall m, r = Ok m -> in_reach m) -> pointer_ok (send_built a r).
Proof.
  intros (Hx & Hy & Hq) Hr. destruct r as [m|]; [|done]. cbn [send_built]. unfold send_input.
  destruct (_ <? _)%nat; [|done]. split; [done|]. split; [done|]. cbn. apply Forall_app. split; [done|].
  constructor; [by apply Hr|constructor].
Qed.

Lemma mouse_in_reach x y mask abs m : mouse_event_abs x y mask abs = Ok m ->
  (abs = true -> 0 <= x <= reach axis_x /\ 0 <= y <= reach axis_y) -> in_reach m.
Proof.
  intros Hm Hr ev. apply build_read in Hm as [Ht Hread]. unfold as_mouse_event.
  rewrite decide_True, Hread by done. intros [= <-]. apply Hr.
Qed.

Lemma key_in_reach code down m : keyboard_event code down = Ok m -> in_reach m.
Proof.
  unfold keyboard_event, build. destruct (into_writer _); [|done]. intros [= <-] ev.
  unfold as_mouse_event. by rewrite decide_False.
Qed.

Lemma device_event_pointer a x y now : motion_ok (Motion x y now) -> pointer_ok a ->
  pointer_ok (device_event a x y now).
Proof.
  intros (Hfx & Hnx & Hfy & Hny) (Hx & Hy & Hq).
  assert (Ex : F64.sub (F64.of_Z WINDOW_WIDTH) (F64.of_Z 1) = edge_of axis_x) by (vm_compute; reflexivity).
  assert (Ey : F64.sub (F64.of_Z WINDOW_HEIGHT) (F64.of_Z 1) = edge_of axis_y) by (vm_compute; reflexivity).
  assert (Sx : F64.of_Z WINDOW_WIDTH = size_of axis_x) by (vm_compute; reflexivity).
  assert (Sy : F64.of_Z WINDOW_HEIGHT = size_of axis_y) by (vm_compute; reflexivity).
  unfold device_event. rewrite Ex, Ey, Sx, Sy.
  pose proof (moved_on_axis axis_x axis_x_ok _ x Hx Hfx Hnx) as Hx'.
  pose proof (moved_on_axis axis_y axis_y_ok _ y Hy Hfy Hny) as Hy'.
  destruct (_ || _); [|done]. destruct (negb _ || negb _); [|done].
  apply send_built_ok; [done|]. intros m Hm. eapply mouse_in_reach; [exact Hm|]. intros _.
  split; apply scaled_in_reach; done || apply axis_x_ok || apply axis_y_ok.
Qed.

Lemma render_pointer a a' g : render a = Ret (a', g) ->
  mouse_abs_x a' = mouse_abs_x a /\ mouse_abs_y a' = mouse_abs_y a /\ input_tx a' = input_tx a.
Proof.
  unfold render. destruct (pixels a) as [buf|]; [|by intros [= <- _]].
  destruct (match list.last (frame_rx a) with Some i => Some i | None => last_image a end) as [i|];
    [|by intros [= <- _]].
  destruct (blit_rgb_to_frame _ _ _ _ _); [|done]. by intros [= <- _].
Qed.

Lemma window_event_pointer a e a' : window_event a e = Ret a' -> pointer_ok a -> pointer_ok a'.
Proof.
  intros He Ha. destruct e as [| | |pressed button|rep key pressed|]; cbn in He.
  - by injection He as <-.
  - by injection He as <-.
  - destruct (render a) as [[a1 g]|] eqn:Er; [|done]. injection He as <-.
    apply render_pointer in Er as (Ex & Ey & Eq). unfold pointer_ok. by rewrite Ex, Ey, Eq.
  - injection He as <-. apply send_built_ok; [by destruct (Client.button_bit button)|].
    intros m Hm. by eapply mouse_in_reach.
  - destruct rep; [by injection He as <-|]. destruct key as [code|]; [|by injection He as <-].
    destruct (Key.winit_keycode_to_vk code) as [vk|]; [|by injection He as <-]. injection He as <-.
    apply send_built_ok; [done|]. intros m. apply key_in_reach.
  - by injection He as <-.
Qed.

Lemma viewer_step_pointer a act a' out : viewer_step a act = Ret (a', out) -> motion_ok act -> pointer_ok a ->
  pointer_ok a' /\ Forall in_reach out.
Proof.
  intros Hs Hm Ha. destruct act as [e|x y now|i| |]; cbn in Hs.
  - destruct (window_event a e) as [a1|] eqn:Ew; [|done]. injection Hs as <- <-.
    split; [by eapply window_event_pointer|constructor].
  - injection Hs as <- <-. split; [by apply device_event_pointer|constructor].
  - injection Hs as <- <-. split; [done|constructor].
  - injection Hs as <- <-. split; [|constructor]. unfold resumed. by destruct (pixels a).
  - destruct Ha as (Hx & Hy & Hq). destruct (input_tx a) as [|m q] eqn:Eq; injection Hs as <- <-.
    + split; [|constructor]. split; [done|]. split; [done|]. by rewrite Eq.
    + apply Forall_cons_1 in Hq as [Hm0 Hq]. split; [done|]. by constructor.
Qed.

Lemma viewer_run_pointer acts : forall a a' out, viewer_run a acts = Ret (a', out) -> Forall motion_ok acts ->
  pointer_ok a -> pointer_ok a' /\ Forall in_reach out.
Proof.
  induction acts as [|act acts IH]; intros a a' out Hr Hm Ha; cbn [viewer_run] in Hr.
  { injection Hr as <- <-. by split; [|constructor]. }
  apply Forall_cons_1 in Hm as [Hm Hms]. destruct (viewer_step a act) as [[a1 o1]|] eqn:Es; [|done]. cbn in Hr.
  destruct (viewer_run a1 acts) as [[a2 o2]|] eqn:Er; [|done]. injection Hr as <- <-.
  destruct (viewer_step_pointer _ _ _ _ Es Hm Ha) as [Ha1 Ho1].
  destruct (IH _ _ _ Er Hms Ha1) as [Ha2 Ho2]. split; [done|]. by apply Forall_app.
Qed.

(** C38.  The pointer stays on the remote screen.  Whatever the device reports (any numbers of
    double precision, infinite ones too) and whatever else happens at the window, with every
    rounding of the additions, the division and the product: the position stays within the
    window, and every absolute coordinate the viewer sends lies in the range from 0 to 65535 the
    server's injection expects.  It never exceeds 65483 across and 65443 down, so the last
    pixels of a large screen are out of reach. *)
Theorem pointer_in_range now acts a out :
  viewer_run (new_app now) acts = Ret (a, out) -> Forall motion_ok acts ->
  (0 <= to_i32 (mouse_abs_x a) <= WINDOW_WIDTH - 1 /\ 0 <= to_i32 (mouse_abs_y a) <= WINDOW_HEIGHT - 1) /\
  forall m ev, m ∈ out ++ input_tx a -> as_mouse_event m = Some ev -> is_absolute ev = true ->
    0 <= dx ev <= 65483 /\ 0 <= dy ev <= 65443.
Proof.
  intros Hr Hm.
  assert (H0 : pointer_ok (new_app now)).
  { assert (Ex : mouse_abs_x (new_app now) = S754_finite false 5629499534213120 (-43)) by (vm_compute; reflexivity).
    assert (Ey : mouse_abs_y (new_app now) = S754_finite false 6333186975989760 (-44)) by (vm_compute; reflexivity).
    unfold pointer_ok. rewrite Ex, Ey. vm_compute. repeat split; done || discriminate || constructor. }
  destruct (viewer_run_pointer acts _ _ _ Hr Hm H0) as ((Hx & Hy & Hq) & Ho). split.
  - split.
    + apply (to_i32_below (Zpos (edge_m axis_x)) (edge_e axis_x)); [done|apply Hx].
    + apply (to_i32_below (Zpos (edge_m axis_y)) (edge_e axis_y)); [done|apply Hy].
  - intros m ev Hin. assert (HF : Forall in_reach (out ++ input_tx a)) by (by apply Forall_app).
    rewrite list.Forall_forall in HF. exact (HF m Hin ev).
Qed.
End Runs.

(** ** At the edge *)

Import RemoteExample.

(** The mouse moves far beyond the lower right corner. *)
Definition far_motion : list action := [Motion (F64.of_Z 100000) (S754_infinity false) 5; Forward].

Definition far_result : App * list ProtocolMessage :=
  match viewer_run (new_app 0) far_motion with Ret x => x | Panic => (new_app 0, []) end.

Definition far_event : MouseEvent :=
  default {| dx := 0; dy := 0; buttons_mask := 0; is_absolute := false |} (head far_result.2 ≫= as_mouse_event).

(** The bounds are attained. *)
Lemma corner_reached : dx far_event = 65483 /\ dy far_event = 65443.
Proof. vm_compute. done. Qed.

Lemma pointer_in_range_witness :
  exists m, far_result.2 = [m] /\ as_mouse_event m = Some far_event /\
    0 <= dx far_event <= 65483 /\ 0 <= dy far_event <= 65443.
Proof.
  destruct (pointer_in_range 0 far_motion far_result.1 far_result.2) as [_ Hr].
  - vm_compute. reflexivity.
  - repeat constructor; done.
  - assert (E1 : exists m, far_result.2 = [m] /\ as_mouse_event m = Some far_event /\ is_absolute far_event = true).
    { eexists. split; [vm_compute; reflexivity|]. split; vm_compute; reflexivity. }
    destruct E1 as (m & E1 & E2 & E3). exists m. split; [exact E1|]. split; [exact E2|].
    apply (Hr m far_event); [rewrite E1; left|exact E2|exact E3].
Defined.
